(* ===== verification/_CoqProject ===== *)
-Q . S2P
Prelude.v
DList.v
Memory.v
CString.v
Tokenize.v
Hashmap.v
Text.v
AIProtocol.v
AIEngine.v
Pulse.v
PulseApp.v
RingBuffer.v
Tty.v
Pipe.v
UnixPipe.v
Signal.v
