(* ===== verification/Prelude.v ===== *)
(** * RazionOS: a verification library for the core of the operating system

    RazionOS is a Unix-like desktop system: a kernel (kernel/), a C library
    (libc/), user-space libraries (lib/) and programs (apps/).  This library
    models the parts that carry its own logic and that the rest stands on, from
    the sources, as executable definitions, and proves what makes them correct.

    ** The parts and their files

    Kernel data structures:
    - [DList]: kernel/misc/list.c, the intrusive doubly linked list, on a store of
      [node_t] and [list_t] objects.
    - [Memory], [CString]: kernel/misc/string.c and the word tests of
      kernel/types.h, on a byte memory with 64-bit loads and stores.
    - [Tokenize]: kernel/misc/tokenize.c over the [strtok_r] of [CString].
    - [Hashmap]: kernel/misc/hashmap.c; its key functions are the class [HashKey],
      its string instance comes from [CString], its listings live on [DList].
    - [RingBuffer]: kernel/misc/ringbuffer.c with the sleep queues of
      kernel/sys/process.c.

    Kernel devices and processes:
    - [Tty]: kernel/vfs/tty.c, the line discipline, the two ends of a
      pseudo-terminal, its control calls and job control.
    - [Pipe]: kernel/vfs/pipe.c, device pipes, on the storage of [RingBuffer].
    - [UnixPipe]: kernel/vfs/unixpipe.c, pipes between programs, on [RingBuffer].
    - [Signal]: kernel/sys/signal.c, the signal calls of kernel/sys/syscall.c, the
      group and session senders of kernel/sys/process.c, and the handler entry
      and return of kernel/arch/x86_64/user.c.

    Razion services in user space:
    - [Text]: the libc helpers the services use.
    - [AIProtocol]: lib/razion_ai.c, lib/pex.c and the packets of
      toaru/razion_ai.h, the client side.
    - [AIEngine]: apps/razion-ai-engine.c, the service that routes requests to
      providers under the privacy policy.
    - [Pulse], [PulseApp]: lib/razion_pulse.c, the action broker, and
      apps/pulse.c, the command.

    ** How code is modelled

    A function that can fail on memory is a command of the state monad [M] below,
    whose outcomes are [Ret], [Fault] (an access the hardware would trap or the
    standard leaves undefined) and [Spin] (fuel used up).  Integers are [Z] with
    the wrap-around of their C type written out ([wrap], [swrap]).  A struct is a
    record; a pointer into a store is a [positive] or an address; early returns
    through macros are the left results of the monad [Tty.R].

    What the code calls and this library does not model is an environment: a class
    of functions ([Malloc], [TtyEnv], [SigEnv] and the like) that may
    look at the whole history of calls, or at the whole kernel, and about which the
    theorems assume nothing but what the class states ([malloc_fresh],
    [Accepting], [SigEnvOk]).

    A call that sleeps in the kernel ([RingBuffer], [Pipe], [Signal]) is cut where it
    gives up the processor: the command returns a frame with its local variables,
    and another command continues from it.  The systems [RingBuffer.step],
    [Pipe.pipe_step] and [Signal.sig_step] interleave any number of processes;
    their properties are invariants over all runs.  One command is one critical
    section of the code; locks are not modelled beyond that.

    ** What the theorems show

    - Services: [engine_cloud_consent] (no request leaves for a cloud provider
      without consent, and none goes to a provider not configured for it),
      [engine_answers], [engine_routing_order], [protocol_roundtrip],
      [client_request_safe], [validate_request_correct], [load_config_safe];
      [pulse_execute_confined], [pulse_propose_action_vocabulary],
      [pulse_propose_known], [pulse_project_atomic] and [pulse_main_confined] (what
      a proposal from any source can make the system do);
      [json_string_reads_back].
    - Refinement: [list_refines_sequence], [hashmap_refines_map] and
      [tty_line_discipline] relate the code to sequences, finite functions and an
      abstract line editor; [tty_typed_line] is what a user sees of the last.
    - Concurrency: [ring_buffer_fifo] and [pipe_messages] (no byte lost, duplicated
      or reordered in any interleaving), [ring_buffer_wakeups] (nobody who could go
      on is left asleep), [unixpipe_ends].
    - Signals: [signal_send], [signal_delivery], [signal_invariant],
      [signal_handler_return].
    - Memory and access: [tty_memory_safe], [tty_access], [memmove_copies],
      [string_search_correct], [string_span_correct], [tokenize_correct],
      [list_merge_release], [hashmap_lifecycle].
    - What the code does not do right is proved too: [list_defects],
      [hashmap_remove_faults], [pulse_normalize_overflows], [pipe_defects],
      [tty_erase_display], [ring_buffer_stopped_writer_sleeps], [signal_defects].

    ** Fuel

    String loops get the number of mapped bytes ([CString]), ring copies
    [RingBuffer.ring_fuel], the size of the transfer; the theorems about them state
    that the call returns, so the fuel is enough.  The engine's routing loop has
    one turn per provider and a last one, [engine_routing_order].  A pass over the
    pending signals needs one turn more than [Signal.backlog], the pending bits and
    queued causes.

    ** Not modelled

    The graphical part (compositor, Yutani, decorations, graphical programs) is
    mostly drawing; drivers, boot loaders and the rest of kernel/arch are machine
    registers and assembly; lib/kuroko binds an interpreter that is a submodule.
    The virtual file system and its file systems, the scheduler and address
    spaces, the network stack, trees, the remaining system calls, the shell and
    the rest of the C library are not yet modelled; they come next in that order.
    Of the modelled files these parts are left out: the substring search, the
    copies of terminated strings and [memsetw] of string.c, the directory /dev/pts,
    the link /dev/tty and the select callbacks of tty.c, the file nodes the pipes
    are wrapped in, [task_exit] after a fatal signal, and the registers of a signal
    frame other than the one that holds a call's result. *)

From Stdlib Require Export ZArith Lia.
From stdpp Require Export base tactics numbers option gmap fin_maps list.

#[global] Open Scope Z_scope.

(** ** Machine integers

    A [w]-bit integer is a [Z]; the wrap-around of the C type is written out
    at each operation that can leave the range. *)

Definition wrap (w z : Z) : Z := z mod 2 ^ w.
Abbreviation u8 := (wrap 8).
Abbreviation u16 := (wrap 16).
Abbreviation u32 := (wrap 32).
Abbreviation u64 := (wrap 64).

(** Conversion to the signed type of width [w]. *)
Definition swrap (w z : Z) : Z :=
  let r := wrap w z in if r <? 2 ^ (w - 1) then r else r - 2 ^ w.
Abbreviation s8 := (swrap 8).
Abbreviation s32 := (swrap 32).
Abbreviation s64 := (swrap 64).

(** ** Outcomes and the state monad

    [Ret] is normal completion.  [Fault] is an access the hardware would trap
    or the C standard leaves undefined (a null or dangling pointer, an index
    out of an object's bounds).  [Spin] is a loop that did not finish within
    the fuel it was given. *)

Inductive outcome (A : Type) : Type :=
| Ret (a : A)
| Fault
| Spin.
Arguments Ret {A} _.
Arguments Fault {A}.
Arguments Spin {A}.

Definition M (St A : Type) : Type := St → outcome (A * St).

#[global] Instance M_ret {St} : MRet (M St) := λ A a s, Ret (a, s).
#[global] Instance M_bind {St} : MBind (M St) := λ A B k m s,
  match m s with
  | Ret (a, s') => k a s'
  | Fault => Fault
  | Spin => Spin
  end.

Definition fault {St A} : M St A := λ _, Fault.
Definition spin {St A} : M St A := λ _, Spin.
Definition get {St} : M St St := λ s, Ret (s, s).
Definition put {St} (s : St) : M St unit := λ _, Ret (tt, s).
Definition gets {St A} (f : St → A) : M St A := λ s, Ret (f s, s).
Definition modify {St} (f : St → St) : M St unit := λ s, Ret (tt, f s).

(** [m] run from [s] completes normally in a final state related to [s]. *)
Definition returns {St A} (m : M St A) (s : St) (Q : A → St → Prop) : Prop :=
  ∃ a s', m s = Ret (a, s') ∧ Q a s'.

Lemma run_bind {St A B} (m : M St A) (k : A → M St B) s :
  (m ≫= k) s = match m s with Ret (a, s') => k a s' | Fault => Fault | Spin => Spin end.
Proof. reflexivity. Qed.

Lemma run_bind_Ret {St A B} (m : M St A) (k : A → M St B) s a s' :
  m s = Ret (a, s') → (m ≫= k) s = k a s'.
Proof. intros H. by rewrite run_bind, H. Qed.

Lemma run_mret_bind {St A B} (a : A) (k : A → M St B) s : (mret a ≫= k) s = k a s.
Proof. reflexivity. Qed.

Lemma bind_assoc {St A B C} (m : M St A) (f : A → M St B) (g : B → M St C) s :
  ((m ≫= f) ≫= g) s = (m ≫= λ a, f a ≫= g) s.
Proof. rewrite !run_bind. by destruct (m s) as [[? ?]| |]. Qed.

Lemma returns_bind {St A B} (m : M St A) (k : A → M St B) s P Q :
  returns m s P → (∀ a s', P a s' → returns (k a) s' Q) → returns (m ≫= k) s Q.
Proof.
  intros (a & s' & Hm & HP) Hk. destruct (Hk _ _ HP) as (b & s'' & Hb & HQ).
  exists b, s''. by rewrite (run_bind_Ret _ _ _ _ _ Hm).
Qed.

Lemma returns_mono {St A} (m : M St A) s (P Q : A → St → Prop) :
  returns m s P → (∀ a s', P a s' → Q a s') → returns m s Q.
Proof. intros (a & s' & Hm & HP) HPQ. exists a, s'. eauto. Qed.

(** ** Histories of calls

    A program that calls an environment keeps the list of its calls as state,
    oldest first. *)

Definition log {C} (c : C) : M (list C) unit := modify (λ h, h ++ [c]).

(** [m] terminates from every history, the calls it makes satisfy [P] and its
    result satisfies [Q]. *)
Definition emits {C A} (P : C → Prop) (Q : A → Prop) (m : M (list C) A) : Prop :=
  ∀ h, ∃ a l, m h = Ret (a, h ++ l) ∧ Forall P l ∧ Q a.

Lemma emits_ret {C A} (P : C → Prop) (Q : A → Prop) a : Q a → emits P Q (mret a).
Proof. intros HQ h. exists a, []. by rewrite app_nil_r. Qed.

Lemma emits_bind {C A B} (P : C → Prop) (Q : A → Prop) (R : B → Prop) m (k : A → M (list C) B) :
  emits P Q m → (∀ a, Q a → emits P R (k a)) → emits P R (m ≫= k).
Proof.
  intros Hm Hk h. destruct (Hm h) as (a & l & Hr & HP & HQ).
  destruct (Hk a HQ (h ++ l)) as (b & l' & Hr' & HP' & HR).
  exists b, (l ++ l'). rewrite (run_bind_Ret _ _ _ _ _ Hr), Hr', (assoc_L (++)). split_and!; [done| |done].
  by apply Forall_app.
Qed.

Lemma emits_mono {C A} (P P' : C → Prop) (Q Q' : A → Prop) m :
  emits P Q m → (∀ c, P c → P' c) → (∀ a, Q a → Q' a) → emits P' Q' m.
Proof.
  intros Hm HP HQ h. destruct (Hm h) as (a & l & Hr & Hl & Ha). exists a, l.
  split_and!; [done|by eapply Forall_impl|auto].
Qed.

Lemma emits_log {C} (P : C → Prop) c : P c → emits P (λ _, True) (log c).
Proof. intros Hc h. exists tt, [c]. split_and!; [done|by constructor|done]. Qed.

Lemma emits_gets {C A} (P : C → Prop) (Q : A → Prop) (f : list C → A) : (∀ h, Q (f h)) → emits P Q (gets f).
Proof. intros Hf h. exists (f h), []. rewrite app_nil_r. by split_and!. Qed.

(** ** Pointers *)

Abbreviation loc := positive.
(** A C pointer: [None] is [NULL]. *)
Abbreviation ptr := (option positive).

(** What a client may assume of [malloc]: the address it returns is not the
    address of a live object.  Proofs use only [malloc_fresh]. *)
Class Malloc (A : Type) := {
  malloc : gmap loc A → loc;
  malloc_fresh : ∀ m, m !! malloc m = None
}.

(** A concrete allocator, for evaluation: one past the highest live address. *)
Definition bump {A} (m : gmap loc A) : loc :=
  Pos.succ (map_fold (λ k _ acc, Pos.max k acc) 1%positive m).

Lemma bump_bound {A} (m : gmap loc A) k :
  is_Some (m !! k) → (k < bump m)%positive.
Proof.
  unfold bump. revert k.
  apply (map_fold_weak_ind (λ r (m : gmap loc A), ∀ k, is_Some (m !! k) → (k < Pos.succ r)%positive)).
  - intros k [? H]. by rewrite lookup_empty in H.
  - intros i x m' r Hi IH k [y Hk].
    destruct (decide (i = k)) as [->|Hne]; [lia|].
    rewrite lookup_insert_ne in Hk by done.
    specialize (IH k (mk_is_Some _ _ Hk)). lia.
Qed.

Lemma bump_fresh {A} (m : gmap loc A) : m !! bump m = None.
Proof.
  destruct (m !! bump m) eqn:E; [|done].
  pose proof (bump_bound m (bump m) (mk_is_Some _ _ E)). lia.
Qed.

Definition bump_malloc {A} : Malloc A := {| malloc := bump; malloc_fresh := bump_fresh |}.

(** ** Shared lemmas *)

Lemma wrap_small w z : 0 ≤ z < 2 ^ w → wrap w z = z.
Proof. intros. by apply Z.mod_small. Qed.

Lemma wrap_bound w z : 0 ≤ w → 0 ≤ wrap w z < 2 ^ w.
Proof. intros. apply Z.mod_pos_bound. lia. Qed.

Lemma s32_small z : 0 ≤ z < 2 ^ 31 → s32 z = z.
Proof. intros. unfold swrap. rewrite wrap_small by lia. by rewrite (proj2 (Z.ltb_lt _ _)) by lia. Qed.

Create HintDb razion.
#[export] Hint Resolve wrap_small malloc_fresh : razion.

(** Running monadic code: expose the binds, then rewrite with every known
    lookup and simplify. *)
Ltac mrun :=
  unfold mbind, M_bind, mret, M_ret, fault, get, put, gets, modify; cbn.
