(* ===== verification/DList.v ===== *)
(** * The kernel's doubly linked list ([kernel/misc/list.c])

    [node_t] and [list_t] objects live in a store addressed by pointers; every
    function of the source is a command on that store, one field access at a
    time, so a null or dangling dereference is a [Fault].  The abstract value
    of a list is the sequence of its nodes' addresses and values, and the
    theorems show that each command implements the sequence operation it is
    named after. *)

From S2P Require Import Prelude.

(** ** Data *)

(** [node_t]; a [void *] value is a machine word, 0 being [NULL]. *)
Record node := Node {
  next : ptr;
  prev : ptr;
  value : Z;
  owner : ptr;
}.

(** [list_t]. *)
Record list_t := List_t {
  head : ptr;
  tail : ptr;
  len : Z;
  name : Z;
  metadata : Z;
}.

(** The store.  [freed] logs the value words passed to [free], whose targets
    are not objects of this store. *)
Record heap := Heap {
  nodes : gmap loc node;
  lists : gmap loc list_t;
  freed : list Z;
}.

#[global] Instance node_eq_dec : EqDecision node.
Proof. solve_decision. Defined.
#[global] Instance list_t_eq_dec : EqDecision list_t.
Proof. solve_decision. Defined.

Definition set_next p n := Node p (prev n) (value n) (owner n).
Definition set_prev p n := Node (next n) p (value n) (owner n).
Definition set_value v n := Node (next n) (prev n) v (owner n).
Definition set_owner o n := Node (next n) (prev n) (value n) o.

Definition set_head p l := List_t p (tail l) (len l) (name l) (metadata l).
Definition set_tail p l := List_t (head l) p (len l) (name l) (metadata l).
Definition set_len n l := List_t (head l) (tail l) n (name l) (metadata l).

(** ** Memory accesses *)

Definition get_node (p : ptr) : M heap node := λ h,
  match p ≫= λ x, nodes h !! x with Some n => Ret (n, h) | None => Fault end.

Definition upd_node (f : node → node) (p : ptr) : M heap unit := λ h,
  match p with
  | Some x =>
      match nodes h !! x with
      | Some n => Ret (tt, Heap (<[x := f n]> (nodes h)) (lists h) (freed h))
      | None => Fault
      end
  | None => Fault
  end.

Definition get_list (p : ptr) : M heap list_t := λ h,
  match p ≫= λ x, lists h !! x with Some l => Ret (l, h) | None => Fault end.

Definition upd_list (f : list_t → list_t) (p : ptr) : M heap unit := λ h,
  match p with
  | Some x =>
      match lists h !! x with
      | Some l => Ret (tt, Heap (nodes h) (<[x := f l]> (lists h)) (freed h))
      | None => Fault
      end
  | None => Fault
  end.

(** [free] of a node, of a list header, and of a value. *)
Definition free_node (p : ptr) : M heap unit := λ h,
  match p with
  | Some x => match nodes h !! x with
              | Some _ => Ret (tt, Heap (delete x (nodes h)) (lists h) (freed h))
              | None => Fault end
  | None => Ret (tt, h)
  end.

Definition free_list_t (p : ptr) : M heap unit := λ h,
  match p with
  | Some x => match lists h !! x with
              | Some _ => Ret (tt, Heap (nodes h) (delete x (lists h)) (freed h))
              | None => Fault end
  | None => Ret (tt, h)
  end.

Definition free_value (v : Z) : M heap unit :=
  modify (λ h, Heap (nodes h) (lists h) (freed h ++ [v])).

#[global] Arguments get_node : simpl never.
#[global] Arguments upd_node : simpl never.
#[global] Arguments get_list : simpl never.
#[global] Arguments upd_list : simpl never.
#[global] Arguments free_node : simpl never.
#[global] Arguments free_list_t : simpl never.

(** ** Operations *)

Section ops.
Context `{!Malloc node} `{!Malloc list_t}.

(** [malloc(sizeof(node_t))] followed by the four initialising stores. *)
Definition malloc_node (item : Z) : M heap ptr := λ h,
  let x := malloc (nodes h) in
  Ret (Some x, Heap (<[x := Node None None item None]> (nodes h)) (lists h) (freed h)).

Definition malloc_list (l : list_t) : M heap ptr := λ h,
  let x := malloc (lists h) in
  Ret (Some x, Heap (nodes h) (<[x := l]> (lists h)) (freed h)).

Definition incr_len l := set_len (u64 (len l + 1)) l.
Definition decr_len l := set_len (u64 (len l - 1)) l.

Fixpoint list_destroy_loop (fuel : nat) (n : ptr) : M heap unit :=
  match fuel with
  | O => spin
  | S fuel =>
      match n with
      | None => mret tt
      | Some _ => nd ← get_node n; free_value (value nd);;
                  nd ← get_node n; list_destroy_loop fuel (next nd)
      end
  end.

Definition loop_fuel : M heap nat := gets (λ h, S (size (nodes h))).

Definition list_destroy (list : ptr) : M heap unit :=
  L ← get_list list; fuel ← loop_fuel; list_destroy_loop fuel (head L).

Fixpoint list_free_loop (fuel : nat) (n : ptr) : M heap unit :=
  match fuel with
  | O => spin
  | S fuel =>
      match n with
      | None => mret tt
      | Some _ => nd ← get_node n; free_node n;; list_free_loop fuel (next nd)
      end
  end.

Definition list_free (list : ptr) : M heap unit :=
  L ← get_list list; fuel ← loop_fuel; list_free_loop fuel (head L).

Definition list_append (list node : ptr) : M heap unit :=
  upd_node (set_next None) node;;
  upd_node (set_owner list) node;;
  L ← get_list list;
  if len L =? 0 then
    upd_list (set_head node) list;;
    upd_list (set_tail node) list;;
    upd_node (set_prev None) node;;
    upd_node (set_next None) node;;
    upd_list incr_len list
  else
    upd_node (set_next node) (tail L);;
    L ← get_list list;
    upd_node (set_prev (tail L)) node;;
    upd_list (set_tail node) list;;
    upd_list incr_len list.

Definition list_insert (list : ptr) (item : Z) : M heap ptr :=
  node ← malloc_node item;
  list_append list node;;
  mret node.

Definition list_append_after (list before node : ptr) : M heap unit :=
  upd_node (set_owner list) node;;
  L ← get_list list;
  if len L =? 0 then list_append list node else
  match before with
  | None =>
      upd_node (set_next (head L)) node;;
      upd_node (set_prev None) node;;
      L ← get_list list;
      upd_node (set_prev node) (head L);;
      upd_list (set_head node) list;;
      upd_list incr_len list
  | Some _ =>
      (if decide (before = tail L) then
        upd_list (set_tail node) list
      else
        B ← get_node before;
        upd_node (set_prev node) (next B);;
        B ← get_node before;
        upd_node (set_next (next B)) node);;
      upd_node (set_prev before) node;;
      upd_node (set_next node) before;;
      upd_list incr_len list
  end.

Definition list_insert_after (list before : ptr) (item : Z) : M heap ptr :=
  node ← malloc_node item;
  list_append_after list before node;;
  mret node.

Definition list_append_before (list after node : ptr) : M heap unit :=
  upd_node (set_owner list) node;;
  L ← get_list list;
  if len L =? 0 then list_append list node else
  match after with
  | None =>
      upd_node (set_next None) node;;
      upd_node (set_prev (tail L)) node;;
      L ← get_list list;
      upd_node (set_next node) (tail L);;
      upd_list (set_tail node) list;;
      upd_list incr_len list
  | Some _ =>
      (if decide (after = head L) then
        upd_list (set_head node) list
      else
        A ← get_node after;
        upd_node (set_next node) (prev A);;
        A ← get_node after;
        upd_node (set_prev (prev A)) node);;
      upd_node (set_next after) node;;
      upd_node (set_prev node) after;;
      upd_list incr_len list
  end.

Definition list_insert_before (list after : ptr) (item : Z) : M heap ptr :=
  node ← malloc_node item;
  list_append_before list after node;;
  mret node.

Definition list_create (name metadata : Z) : M heap ptr :=
  malloc_list (List_t None None 0 name metadata).

Fixpoint list_find_loop (fuel : nat) (item : ptr) (v : Z) : M heap ptr :=
  match fuel with
  | O => spin
  | S fuel =>
      match item with
      | None => mret None
      | Some _ => nd ← get_node item;
                  if value nd =? v then mret item else list_find_loop fuel (next nd) v
      end
  end.

Definition list_find (list : ptr) (v : Z) : M heap ptr :=
  L ← get_list list; fuel ← loop_fuel; list_find_loop fuel (head L) v.

Fixpoint list_index_of_loop (fuel : nat) (item : ptr) (v i : Z) : M heap Z :=
  match fuel with
  | O => spin
  | S fuel =>
      match item with
      | None => mret (-1)
      | Some _ => nd ← get_node item;
                  if value nd =? v then mret i
                  else list_index_of_loop fuel (next nd) v (s32 (i + 1))
      end
  end.

Definition list_index_of (list : ptr) (v : Z) : M heap Z :=
  L ← get_list list; fuel ← loop_fuel; list_index_of_loop fuel (head L) v 0.

Fixpoint list_index_loop (fuel : nat) (item : ptr) (index i : Z) : M heap Z :=
  match fuel with
  | O => spin
  | S fuel =>
      match item with
      | None => mret 0
      | Some _ => nd ← get_node item;
                  if i =? index then mret (value nd)
                  else list_index_loop fuel (next nd) index (s32 (i + 1))
      end
  end.

Definition list_index (list : ptr) (index : Z) : M heap Z :=
  L ← get_list list; fuel ← loop_fuel; list_index_loop fuel (head L) index 0.

Definition list_delete (list node : ptr) : M heap unit :=
  L ← get_list list;
  (if decide (node = head L) then
     N ← get_node node; upd_list (set_head (next N)) list
   else mret tt);;
  L ← get_list list;
  (if decide (node = tail L) then
     N ← get_node node; upd_list (set_tail (prev N)) list
   else mret tt);;
  N ← get_node node;
  (if prev N is Some _ then upd_node (set_next (next N)) (prev N) else mret tt);;
  N ← get_node node;
  (if next N is Some _ then upd_node (set_prev (prev N)) (next N) else mret tt);;
  upd_node (set_prev None) node;;
  upd_node (set_next None) node;;
  upd_node (set_owner None) node;;
  upd_list decr_len list.

(** The walk [while (i < index) { n = n->next; i++; }]. *)
Fixpoint list_walk (steps : nat) (n : ptr) : M heap ptr :=
  match steps with
  | O => mret n
  | S steps => nd ← get_node n; list_walk steps (next nd)
  end.

Definition list_remove (list : ptr) (index : Z) : M heap unit :=
  L ← get_list list;
  if index >? len L then mret tt else
  n ← list_walk (Z.to_nat index) (head L);
  list_delete list n.

Definition list_pop (list : ptr) : M heap ptr :=
  L ← get_list list;
  match tail L with
  | None => mret None
  | Some _ => list_delete list (tail L);; mret (tail L)
  end.

Definition list_dequeue (list : ptr) : M heap ptr :=
  L ← get_list list;
  match head L with
  | None => mret None
  | Some _ => list_delete list (head L);; mret (head L)
  end.

(** [while (node) { list_insert(out, node->value); }]: [node] is loop
    invariant in the source. *)
Fixpoint list_copy_loop (fuel : nat) (out node : ptr) : M heap unit :=
  match fuel with
  | O => spin
  | S fuel =>
      match node with
      | None => mret tt
      | Some _ => nd ← get_node node;
                  list_insert out (value nd);;
                  list_copy_loop fuel out node
      end
  end.

Definition list_copy (fuel : nat) (original : ptr) : M heap ptr :=
  L ← get_list original;
  out ← list_create (name L) (metadata L);
  L ← get_list original;
  list_copy_loop fuel out (head L);;
  mret out.

Fixpoint list_set_owner_loop (fuel : nat) (target node : ptr) : M heap unit :=
  match fuel with
  | O => spin
  | S fuel =>
      match node with
      | None => mret tt
      | Some _ => upd_node (set_owner target) node;;
                  nd ← get_node node; list_set_owner_loop fuel target (next nd)
      end
  end.

Definition list_merge (target source : ptr) : M heap unit :=
  Sr ← get_list source;
  fuel ← loop_fuel;
  list_set_owner_loop fuel target (head Sr);;
  Sr ← get_list source;
  (if head Sr is Some _ then
     T ← get_list target; upd_node (set_prev (tail T)) (head Sr)
   else mret tt);;
  T ← get_list target;
  Sr ← get_list source;
  (if tail T is Some _ then upd_node (set_next (head Sr)) (tail T)
   else upd_list (set_head (head Sr)) target);;
  Sr ← get_list source;
  (if tail Sr is Some _ then upd_list (set_tail (tail Sr)) target else mret tt);;
  Sr ← get_list source;
  upd_list (λ T, set_len (u64 (len T + len Sr)) T) target;;
  free_list_t source.

End ops.

(** ** Abstraction: segments of linked nodes *)

Definition hd_ptr (xs : list (loc * Z)) (nx : ptr) : ptr :=
  match xs with [] => nx | (x, _) :: _ => Some x end.

Fixpoint last_ptr (pv : ptr) (xs : list (loc * Z)) : ptr :=
  match xs with [] => pv | (x, _) :: xs => last_ptr (Some x) xs end.

(** [seg ns o pv xs nx]: the nodes [xs] are linked in order, are owned by [o],
    the first has predecessor [pv] and the last has successor [nx]. *)
Fixpoint seg (ns : gmap loc node) (o pv : ptr) (xs : list (loc * Z)) (nx : ptr) : Prop :=
  match xs with
  | [] => True
  | (x, v) :: xs => ns !! x = Some (Node (hd_ptr xs nx) pv v o) ∧ seg ns o (Some x) xs nx
  end.

(** The list header at [l] represents the sequence [xs]. *)
Record dlist (h : heap) (l : loc) (xs : list (loc * Z)) : Prop := {
  dl_hdr : ∃ nm md, lists h !! l =
    Some (List_t (hd_ptr xs None) (last_ptr None xs) (Z.of_nat (length xs)) nm md);
  dl_seg : seg (nodes h) (Some l) None xs None;
  dl_nodup : NoDup xs.*1;
  dl_fits : Z.of_nat (length xs) < 2 ^ 64;
}.

(** [h'] differs from [h] at most at the list header [l] and the nodes [X]. *)
Definition frame (h h' : heap) (l : loc) (X : list loc) : Prop :=
  (∀ l', l' ≠ l → lists h' !! l' = lists h !! l') ∧
  (∀ x, x ∉ X → nodes h' !! x = nodes h !! x) ∧
  freed h' = freed h.

Lemma hd_ptr_app xs ys nx : hd_ptr (xs ++ ys) nx = hd_ptr xs (hd_ptr ys nx).
Proof. by destruct xs as [|[??]]. Qed.

Lemma last_ptr_app pv xs ys : last_ptr pv (xs ++ ys) = last_ptr (last_ptr pv xs) ys.
Proof. revert pv; induction xs as [|[??]]; intros; cbn; auto. Qed.

Lemma seg_app ns o pv xs ys nx :
  seg ns o pv (xs ++ ys) nx ↔ seg ns o pv xs (hd_ptr ys nx) ∧ seg ns o (last_ptr pv xs) ys nx.
Proof.
  revert pv; induction xs as [|[x v] xs IH]; intros pv; cbn; [tauto|].
  rewrite IH, hd_ptr_app. tauto.
Qed.

Lemma seg_agree ns ns' o pv xs nx :
  (∀ x, x ∈ xs.*1 → ns' !! x = ns !! x) → seg ns o pv xs nx → seg ns' o pv xs nx.
Proof.
  revert pv; induction xs as [|[x v] xs IH]; intros pv Heq; cbn; [done|].
  intros [Hx Hs]. split.
  - rewrite Heq; [done|]. cbn. by left.
  - apply IH; [|done]. intros y Hy. apply Heq. cbn. by right.
Qed.

Lemma seg_insert ns o pv xs nx x n :
  x ∉ xs.*1 → seg ns o pv xs nx → seg (<[x:=n]> ns) o pv xs nx.
Proof. intros Hx. apply seg_agree. intros y Hy. rewrite lookup_insert_ne; [done|by intros ->]. Qed.

Lemma seg_in ns o pv xs nx x v :
  (x, v) ∈ xs → seg ns o pv xs nx → ∃ a b, ns !! x = Some (Node a b v o).
Proof.
  revert pv; induction xs as [|[y w] xs IH]; intros pv; cbn; [set_solver|].
  rewrite elem_of_cons. intros [?|?] [??]; simplify_eq; eauto.
Qed.

(** ** Running the memory accesses *)

Lemma get_node_run h x n : nodes h !! x = Some n → get_node (Some x) h = Ret (n, h).
Proof. intros H. unfold get_node. cbn. by rewrite H. Qed.
Lemma get_list_run h x l : lists h !! x = Some l → get_list (Some x) h = Ret (l, h).
Proof. intros H. unfold get_list. cbn. by rewrite H. Qed.
Lemma upd_node_run f h x n : nodes h !! x = Some n →
  upd_node f (Some x) h = Ret (tt, Heap (<[x := f n]> (nodes h)) (lists h) (freed h)).
Proof. intros H. unfold upd_node. by rewrite H. Qed.
Lemma upd_list_run f h x l : lists h !! x = Some l →
  upd_list f (Some x) h = Ret (tt, Heap (nodes h) (<[x := f l]> (lists h)) (freed h)).
Proof. intros H. unfold upd_list. by rewrite H. Qed.
Lemma free_list_t_run h x l : lists h !! x = Some l →
  free_list_t (Some x) h = Ret (tt, Heap (nodes h) (delete x (lists h)) (freed h)).
Proof. intros H. unfold free_list_t. by rewrite H. Qed.
Lemma free_node_run h x n : nodes h !! x = Some n →
  free_node (Some x) h = Ret (tt, Heap (delete x (nodes h)) (lists h) (freed h)).
Proof. intros H. unfold free_node. by rewrite H. Qed.

(** Solve a lookup in a store built by insertions from known lookups. *)
Ltac lkp := cbn; simplify_map_eq; done.

(** Execute the next access of a command. *)
Ltac access :=
  first [ eapply get_node_run; lkp | eapply get_list_run; lkp
        | eapply upd_node_run; lkp | eapply upd_list_run; lkp
        | eapply free_list_t_run; lkp | eapply free_node_run; lkp
        | reflexivity ].
Ltac step := (erewrite run_bind_Ret by access) || (rewrite bind_assoc); cbn.
Ltac run := repeat step; try access.

(** Split a [seg] over the shape of its sequence. *)
Ltac split_seg :=
  repeat match goal with
  | H : _ ∧ _ |- _ => destruct H as [? ?]
  | H : seg _ _ _ (_ ++ _) _ |- _ => apply seg_app in H as [? ?]
  | H : seg _ _ _ ((_, _) :: _) _ |- _ => cbn in H; destruct H as [? ?]
  | |- seg _ _ _ (_ ++ _) _ => apply seg_app; split
  | |- seg _ _ _ ((_, _) :: _) _ => cbn; split
  | |- seg _ _ _ [] _ => exact I
  end.

Lemma NoDup_mid {A} (xs : list A) y zs :
  NoDup (xs ++ y :: zs) ↔ (y ∉ xs) ∧ (y ∉ zs) ∧ NoDup (xs ++ zs).
Proof. rewrite <-Permutation_middle, NoDup_cons, not_elem_of_app. tauto. Qed.

Lemma last_ptr_ne x pv xs : x ∉ xs.*1 → Some x ≠ pv → Some x ≠ last_ptr pv xs.
Proof.
  revert pv; induction xs as [|[y v] xs IH]; intros pv Hx Hpv; cbn in *; [done|].
  apply not_elem_of_cons in Hx as [??]. apply IH; [done|congruence].
Qed.
Lemma hd_ptr_ne x xs nx : x ∉ xs.*1 → Some x ≠ nx → Some x ≠ hd_ptr xs nx.
Proof.
  destruct xs as [|[y v] xs]; cbn; [done|].
  intros [??]%not_elem_of_cons _. congruence.
Qed.

(** Turn [NoDup] and [∉] facts about explicit elements into atomic facts. *)
Ltac distinct :=
  repeat match goal with
  | H : context [(_ ++ _).*1] |- _ => rewrite !fmap_app in H; cbn in H
  | H : context [(_ :: _).*1] |- _ => cbn in H
  | H : NoDup ((_ ++ _) ++ _) |- _ => rewrite <-app_assoc in H; cbn in H
  | H : NoDup (_ ++ []) |- _ => rewrite app_nil_r in H
  | H : NoDup (_ ++ _ :: _) |- _ => apply NoDup_mid in H as (? & ? & ?)
  | H : NoDup (_ :: _) |- _ => apply NoDup_cons in H as [? ?]
  | H : _ ∉ _ ++ _ |- _ => apply not_elem_of_app in H as [? ?]
  | H : _ ∉ _ :: _ |- _ => apply not_elem_of_cons in H as [? ?]
  | H : _ ∉ [] |- _ => clear H
  end.

Ltac notin :=
  rewrite ?fmap_app; cbn;
  repeat first [ assumption | congruence | apply not_elem_of_nil
               | apply not_elem_of_app; split | apply not_elem_of_cons; split ].

(** Decide the next branch of a command. *)
Ltac branch :=
  match goal with
  | |- context [?a =? ?b] =>
      (rewrite (proj2 (Z.eqb_eq a b)) by (cbn in *; lia)) ||
      (rewrite (proj2 (Z.eqb_neq a b)) by (cbn in *; rewrite ?length_app in *; cbn in *; lia))
  | |- context [decide (?p = ?q)] =>
      (rewrite (decide_True (P := (p = q))) by (cbn; congruence)) ||
      (rewrite (decide_False (P := (p = q)))
         by (cbn; first [ congruence
                        | apply last_ptr_ne; [notin|congruence]
                        | apply hd_ptr_ne; [notin|congruence] ]))
  end; cbn.
Ltac exec := repeat first [step | branch]; try access.

Ltac solve_seg := split_seg;
  repeat first [ assumption | match goal with |- _ ∧ _ => split end | (apply seg_insert; [notin|])
               | (rewrite lookup_insert_ne by congruence) | rewrite lookup_insert_eq ];
  rewrite ?last_ptr_app, ?hd_ptr_app; try done.

Ltac solve_frame :=
  split_and!; [ intros ? ? | intros ? ? | reflexivity ]; cbn; distinct;
  repeat (rewrite lookup_insert_ne by congruence); done.

Ltac solve_nodup :=
  rewrite ?fmap_app, <-?app_assoc; cbn;
  repeat first [ assumption | apply NoDup_nil_2 | apply NoDup_mid; split_and!; [notin|notin|]
               | apply NoDup_cons; split; [notin|] | rewrite app_nil_r ].

Ltac solve_hdr :=
  eexists _, _; cbn; repeat first [rewrite lookup_insert_eq | rewrite insert_insert_eq]; cbn;
  unfold incr_len, decr_len, set_len, set_head, set_tail; cbn;
  rewrite ?hd_ptr_app, ?last_ptr_app; cbn;
  repeat f_equal; rewrite ?wrap_small; rewrite ?length_app in *; cbn in *; try lia.

Ltac solve_dlist :=
  split; [ split; [ solve_hdr | cbn [nodes]; solve_seg | solve_nodup
                  | rewrite ?length_app in *; cbn in *; lia ]
         | solve_frame ].

(** ** Each command implements its sequence operation *)

Section refinement.
Context `{!Malloc node} `{!Malloc list_t}.
Lemma list_append_run h l xs n nd :
  dlist h l xs → nodes h !! n = Some nd → n ∉ xs.*1 →
  Z.of_nat (length xs) + 1 < 2 ^ 64 →
  ∃ h', list_append (Some l) (Some n) h = Ret (tt, h') ∧
    dlist h' l (xs ++ [(n, value nd)]) ∧ frame h h' l (n :: xs.*1).
Proof.
  intros [(nm & md & Hl) Hseg Hnd Hfit] Hn Hx Hlen.
  destruct xs as [|[y w] ys _] using rev_ind.
  - eexists; split; [unfold list_append; exec|]. solve_dlist.
  - rewrite last_ptr_app in Hl. cbn in Hl.
    split_seg. distinct. eexists; split; [unfold list_append; exec|].
    solve_dlist.
Qed.

Lemma list_delete_run h l ys x v zs :
  dlist h l (ys ++ (x, v) :: zs) →
  ∃ h', list_delete (Some l) (Some x) h = Ret (tt, h') ∧
    (dlist h' l (ys ++ zs) ∧ frame h h' l (ys ++ (x, v) :: zs).*1) ∧
    nodes h' !! x = Some (Node None None v None).
Proof.
  intros [(nm & md & Hl) Hseg Hnd Hfit].
  rewrite last_ptr_app, hd_ptr_app in Hl. cbn in Hl.
  destruct ys as [|[y w] ys _] using rev_ind; destruct zs as [|[z u] zs];
    rewrite <-?app_assoc, ?last_ptr_app, ?hd_ptr_app in *; cbn in *; split_seg; distinct.
  all: eexists; split; [unfold list_delete; exec|]; split; [solve_dlist|lkp].
Qed.

Lemma list_append_after_run h l ys b w zs n nd :
  dlist h l (ys ++ (b, w) :: zs) → nodes h !! n = Some nd →
  n ∉ (ys ++ (b, w) :: zs).*1 → next nd = None →
  Z.of_nat (length (ys ++ (b, w) :: zs)) + 1 < 2 ^ 64 →
  ∃ h', list_append_after (Some l) (Some b) (Some n) h = Ret (tt, h') ∧
    dlist h' l (ys ++ (b, w) :: (n, value nd) :: zs) ∧
    frame h h' l (n :: (ys ++ (b, w) :: zs).*1).
Proof.
  intros [(nm & md & Hl) Hseg Hnd Hfit] Hn Hx Hnx Hlen.
  destruct nd; cbn in Hnx; subst.
  rewrite last_ptr_app, hd_ptr_app in Hl. cbn in Hl.
  destruct zs as [|[z u] zs]; cbn in Hl; split_seg; distinct.
  all: eexists; split; [unfold list_append_after; exec|]; solve_dlist.
Qed.

Lemma list_append_after_front_run h l xs n nd :
  dlist h l xs → nodes h !! n = Some nd → n ∉ xs.*1 →
  Z.of_nat (length xs) + 1 < 2 ^ 64 →
  ∃ h', list_append_after (Some l) None (Some n) h = Ret (tt, h') ∧
    dlist h' l ((n, value nd) :: xs) ∧ frame h h' l (n :: xs.*1).
Proof.
  intros [(nm & md & Hl) Hseg Hnd Hfit] Hn Hx Hlen.
  destruct xs as [|[y w] ys]; cbn in *; split_seg; distinct.
  - eexists; split; [unfold list_append_after, list_append; exec|]. solve_dlist.
  - eexists; split; [unfold list_append_after; exec|]. solve_dlist.
Qed.

Lemma list_append_before_run h l ys a w zs n nd :
  dlist h l (ys ++ (a, w) :: zs) → nodes h !! n = Some nd →
  n ∉ (ys ++ (a, w) :: zs).*1 → prev nd = None →
  Z.of_nat (length (ys ++ (a, w) :: zs)) + 1 < 2 ^ 64 →
  ∃ h', list_append_before (Some l) (Some a) (Some n) h = Ret (tt, h') ∧
    dlist h' l (ys ++ (n, value nd) :: (a, w) :: zs) ∧
    frame h h' l (n :: (ys ++ (a, w) :: zs).*1).
Proof.
  intros [(nm & md & Hl) Hseg Hnd Hfit] Hn Hx Hpv Hlen.
  destruct nd; cbn in Hpv; subst.
  rewrite last_ptr_app, hd_ptr_app in Hl. cbn in Hl.
  destruct ys as [|[y u] ys _] using rev_ind;
    rewrite <-?app_assoc, ?last_ptr_app, ?hd_ptr_app in *; cbn in *; split_seg; distinct.
  all: eexists; split; [unfold list_append_before; exec|]; solve_dlist.
Qed.

Lemma list_append_before_back_run h l xs n nd :
  dlist h l xs → nodes h !! n = Some nd → n ∉ xs.*1 →
  Z.of_nat (length xs) + 1 < 2 ^ 64 →
  ∃ h', list_append_before (Some l) None (Some n) h = Ret (tt, h') ∧
    dlist h' l (xs ++ [(n, value nd)]) ∧ frame h h' l (n :: xs.*1).
Proof.
  intros [(nm & md & Hl) Hseg Hnd Hfit] Hn Hx Hlen.
  destruct xs as [|[y w] ys _] using rev_ind.
  - eexists; split; [unfold list_append_before, list_append; exec|]. solve_dlist.
  - rewrite last_ptr_app in Hl. cbn in Hl. split_seg. distinct.
    eexists; split; [unfold list_append_before; exec|]. solve_dlist.
Qed.

(** *** Traversals *)

Lemma seg_length ns o pv xs nx : seg ns o pv xs nx → NoDup xs.*1 → (length xs ≤ size ns)%nat.
Proof.
  intros Hs Hnd.
  rewrite <-(size_dom ns), <-(length_fmap fst xs), <-(size_list_to_set (C := gset loc)) by done.
  apply subseteq_size. intros x. rewrite elem_of_list_to_set, elem_of_dom.
  intros ([y v] & -> & Hin)%list_elem_of_fmap.
  destruct (seg_in _ _ _ _ _ _ _ Hin Hs) as (a & b & Hx). eauto.
Qed.

(** What a loop that follows [next] from the head does, one node at a time. *)
Lemma seg_uncons ns o pv x v xs nx :
  seg ns o pv ((x, v) :: xs) nx →
  ns !! x = Some (Node (hd_ptr xs nx) pv v o) ∧ seg ns o (Some x) xs nx.
Proof. done. Qed.

Fixpoint position (v : Z) (xs : list (loc * Z)) : option nat :=
  match xs with
  | [] => None
  | (_, w) :: xs => if w =? v then Some O else S <$> position v xs
  end.

Lemma list_find_loop_run h o v xs : ∀ fuel pv,
  seg (nodes h) o pv xs None → (length xs < fuel)%nat →
  list_find_loop fuel (hd_ptr xs None) v h = Ret (position v xs ≫= λ i, xs.*1 !! i, h).
Proof.
  induction xs as [|[x w] xs IH]; intros [|fuel] pv Hs Hf; cbn in *; try lia; [done|].
  destruct Hs as [Hx Hs]. step. destruct (w =? v); cbn; [done|].
  rewrite (IH fuel (Some x)) by (done || lia). by destruct (position v xs).
Qed.

Lemma list_find_run h l xs v :
  dlist h l xs → list_find (Some l) v h = Ret (position v xs ≫= λ i, xs.*1 !! i, h).
Proof.
  intros [(nm & md & Hl) Hs Hnd Hfit]. unfold list_find. step.
  erewrite run_bind_Ret by reflexivity. cbn [head].
  eapply list_find_loop_run; [done|]. pose proof (seg_length _ _ _ _ _ Hs Hnd). lia.
Qed.

Lemma list_index_of_loop_run h o v xs : ∀ fuel pv i,
  seg (nodes h) o pv xs None → (length xs < fuel)%nat →
  0 ≤ i → i + Z.of_nat (length xs) < 2 ^ 31 →
  list_index_of_loop fuel (hd_ptr xs None) v i h =
    Ret (match position v xs with Some k => i + Z.of_nat k | None => -1 end, h).
Proof.
  induction xs as [|[x w] xs IH]; intros [|fuel] pv i Hs Hf Hi Hb; cbn in *; try lia; [done|].
  destruct Hs as [Hx Hs]. step.
  destruct (w =? v); cbn; [by rewrite Z.add_0_r|].
  rewrite s32_small by lia.
  rewrite (IH fuel (Some x)) by (done || lia).
  destruct (position v xs); cbn; [|done]. do 2 f_equal. lia.
Qed.

Lemma list_index_of_run h l xs v :
  dlist h l xs → Z.of_nat (length xs) < 2 ^ 31 →
  list_index_of (Some l) v h = Ret (from_option Z.of_nat (-1) (position v xs), h).
Proof.
  intros [(nm & md & Hl) Hs Hnd Hfit] Hb. unfold list_index_of. step.
  erewrite run_bind_Ret by reflexivity. cbn [head].
  pose proof (seg_length _ _ _ _ _ Hs Hnd).
  erewrite list_index_of_loop_run; [|done|lia|lia|lia]. by destruct (position v xs).
Qed.

Lemma list_index_loop_run h o xs index : ∀ fuel pv i,
  seg (nodes h) o pv xs None → (length xs < fuel)%nat →
  0 ≤ i → i + Z.of_nat (length xs) < 2 ^ 31 →
  list_index_loop fuel (hd_ptr xs None) index i h =
    Ret (if i <=? index then default 0 (xs.*2 !! Z.to_nat (index - i)) else 0, h).
Proof.
  induction xs as [|[x w] xs IH]; intros [|fuel] pv i Hs Hf Hi Hb; cbn in *; try lia.
  { by destruct (i <=? index). }
  destruct Hs as [Hx Hs]. step.
  destruct (Z.eqb_spec i index) as [->|Hne]; cbn.
  { rewrite (proj2 (Z.leb_le _ _)) by lia. by rewrite Z.sub_diag. }
  rewrite s32_small by lia. rewrite (IH fuel (Some x)) by (done || lia).
  destruct (Z.leb_spec i index).
  - rewrite (proj2 (Z.leb_le _ _)) by lia.
    replace (Z.to_nat (index - i)) with (S (Z.to_nat (index - (i + 1)))) by lia. done.
  - by rewrite (proj2 (Z.leb_gt _ _)) by lia.
Qed.

Lemma list_index_run h l xs index :
  dlist h l xs → Z.of_nat (length xs) < 2 ^ 31 →
  list_index (Some l) index h =
    Ret (if 0 <=? index then default 0 (xs.*2 !! Z.to_nat index) else 0, h).
Proof.
  intros [(nm & md & Hl) Hs Hnd Hfit] Hb. unfold list_index. step.
  erewrite run_bind_Ret by reflexivity. cbn [head].
  pose proof (seg_length _ _ _ _ _ Hs Hnd).
  erewrite list_index_loop_run; [|done|lia|lia|lia]. by rewrite Z.sub_0_r.
Qed.

Lemma list_walk_run h o xs ys nx : ∀ pv,
  seg (nodes h) o pv (xs ++ ys) nx →
  list_walk (length xs) (hd_ptr (xs ++ ys) nx) h = Ret (hd_ptr ys nx, h).
Proof.
  induction xs as [|[x w] xs IH]; intros pv Hs; cbn in *; [done|].
  destruct Hs as [Hx Hs]. step. by eapply IH.
Qed.

Lemma list_remove_run h l ys x v zs :
  dlist h l (ys ++ (x, v) :: zs) →
  ∃ h', list_remove (Some l) (Z.of_nat (length ys)) h = Ret (tt, h') ∧
    dlist h' l (ys ++ zs) ∧ frame h h' l (ys ++ (x, v) :: zs).*1.
Proof.
  intros Hd. pose proof Hd as [(nm & md & Hl) Hs Hnd Hfit].
  destruct (list_delete_run h l ys x v zs Hd) as (h' & Hrun & [Hd' Hf] & _).
  exists h'. split; [|done]. unfold list_remove. step.
  rewrite (Z.gtb_ltb _ _), (proj2 (Z.ltb_ge _ _)) by (rewrite length_app; lia).
  rewrite Nat2Z.id. erewrite run_bind_Ret; [|by eapply list_walk_run]. done.
Qed.

Lemma list_pop_run h l ys x v :
  dlist h l (ys ++ [(x, v)]) →
  ∃ h', list_pop (Some l) h = Ret (Some x, h') ∧ dlist h' l ys ∧
    frame h h' l (ys ++ [(x, v)]).*1 ∧ nodes h' !! x = Some (Node None None v None).
Proof.
  intros Hd. pose proof Hd as [(nm & md & Hl) _ _ _].
  destruct (list_delete_run h l ys x v [] Hd) as (h' & Hrun & [Hd' Hf] & Hx).
  rewrite app_nil_r in Hd'. exists h'. split; [|done].
  rewrite last_ptr_app in Hl. unfold list_pop. step. by erewrite run_bind_Ret.
Qed.

Lemma list_dequeue_run h l x v zs :
  dlist h l ((x, v) :: zs) →
  ∃ h', list_dequeue (Some l) h = Ret (Some x, h') ∧ dlist h' l zs ∧
    frame h h' l ((x, v) :: zs).*1 ∧ nodes h' !! x = Some (Node None None v None).
Proof.
  intros Hd. pose proof Hd as [(nm & md & Hl) _ _ _].
  destruct (list_delete_run h l [] x v zs Hd) as (h' & Hrun & [Hd' Hf] & Hx).
  exists h'. split; [|done]. unfold list_dequeue. step. by erewrite run_bind_Ret.
Qed.

(** *** Merging, releasing and copying *)

Lemma list_set_owner_loop_run o t ys : ∀ fuel pv h,
  seg (nodes h) o pv ys None → (length ys < fuel)%nat → NoDup ys.*1 →
  ∃ h', list_set_owner_loop fuel t (hd_ptr ys None) h = Ret (tt, h') ∧
    seg (nodes h') t pv ys None ∧ lists h' = lists h ∧ freed h' = freed h ∧
    (∀ x, x ∉ ys.*1 → nodes h' !! x = nodes h !! x).
Proof.
  induction ys as [|[y w] ys IH]; intros [|fuel] pv h Hs Hf Hnd; cbn in *; try lia.
  { by exists h. }
  destruct Hs as [Hy Hs]. distinct. repeat step.
  match goal with |- context [list_set_owner_loop _ _ _ ?hh] =>
    destruct (IH fuel (Some y) hh) as (h' & Hrun & Hs' & Hl' & Hfr & Hout) end;
    [by apply seg_insert|lia|done|].
  exists h'. split; [done|]. split_and!; try done.
  - rewrite Hout by done. cbn. by rewrite lookup_insert_eq.
  - intros x Hx. distinct. rewrite Hout by done. cbn. by rewrite lookup_insert_ne by congruence.
Qed.

Lemma last_ptr_Some z ys : ∃ e, last_ptr (Some z) ys = Some e.
Proof. revert z; induction ys as [|[y w] ys IH]; intros z; cbn; eauto. Qed.

Lemma list_merge_run h t s xs ys :
  dlist h t xs → dlist h s ys → t ≠ s → (∀ x, x ∈ xs.*1 → x ∉ ys.*1) →
  Z.of_nat (length xs + length ys) < 2 ^ 64 →
  ∃ h', list_merge (Some t) (Some s) h = Ret (tt, h') ∧ dlist h' t (xs ++ ys) ∧
    lists h' !! s = None.
Proof.
  intros [(nm & md & Hl) Hseg Hnd Hfit] [(nm' & md' & Hl') Hseg' Hnd' Hfit'] Hts Hdis Hlen.
  pose proof (seg_length _ _ _ _ _ Hseg' Hnd').
  destruct (list_set_owner_loop_run (Some s) (Some t) ys (S (size (nodes h))) None h)
    as (h1 & Hrun & Hs1 & Hl1 & Hfr1 & Hout); [done|lia|done|].
  assert (Hseg1 : seg (nodes h1) (Some t) None xs None).
  { eapply seg_agree; [|done]. intros x Hx. apply Hout. by apply Hdis. }
  pose proof Hl' as Hl0. rewrite <-Hl1 in Hl, Hl'. clear Hout Hseg Hseg' Hl1.
  assert (Hnd2 : NoDup (xs ++ ys).*1) by (rewrite fmap_app; by apply NoDup_app).
  assert (Hfit2 : Z.of_nat (length (xs ++ ys)) < 2 ^ 64) by (rewrite length_app; lia).
  cbn [nodes] in *. destruct xs as [|[y w] xs _] using rev_ind; destruct ys as [|[z u] ys];
    rewrite ?last_ptr_app, ?hd_ptr_app in *; cbn [hd_ptr last_ptr] in *;
    split_seg; distinct.
  all: unfold list_merge; erewrite run_bind_Ret by (eapply get_list_run; exact Hl0);
    erewrite run_bind_Ret by reflexivity; cbn [head];
    (erewrite run_bind_Ret by exact Hrun).
  all: try (destruct (last_ptr_Some z ys) as [e He]; rewrite He in Hl').
  all: eexists; split; [exec|]; split; [split|cbn; by rewrite lookup_delete_eq].
  all: try (cbn [nodes]; rewrite <-?app_assoc, ?app_nil_r; solve_seg; fail).
  all: try (rewrite ?app_nil_r in *; assumption).
  all: try (solve_nodup; fail).
  all: eexists _, _; cbn; rewrite lookup_delete_ne, !lookup_insert_eq by done;
    unfold set_len, set_head, set_tail; cbn; rewrite ?app_nil_r, ?last_ptr_app, ?hd_ptr_app;
    repeat f_equal; rewrite ?wrap_small; rewrite ?length_app in *; cbn in *; try lia; congruence.
Qed.

(** Releasing a list deletes exactly its nodes; the header stays. *)
Lemma list_free_loop_run o xs : ∀ fuel pv h,
  seg (nodes h) o pv xs None → (length xs < fuel)%nat → NoDup xs.*1 →
  ∃ h', list_free_loop fuel (hd_ptr xs None) h = Ret (tt, h') ∧
    lists h' = lists h ∧ freed h' = freed h ∧
    (∀ x, nodes h' !! x = if decide (x ∈ xs.*1) then None else nodes h !! x).
Proof.
  induction xs as [|[y w] xs IH]; intros [|fuel] pv h Hs Hf Hnd; cbn in *; try lia.
  { exists h. split_and!; try done. }
  destruct Hs as [Hy Hs]. distinct. repeat step.
  match goal with |- context [list_free_loop _ _ ?hh] =>
    destruct (IH fuel (Some y) hh) as (h' & Hrun & Hl' & Hfr & Hout) end; [|lia|done|].
  { eapply seg_agree; [|done]. intros x Hx. cbn. rewrite lookup_delete_ne; [done|by intros ->]. }
  exists h'. split_and!; try done. intros x. rewrite Hout. cbn.
  destruct (decide (x = y)) as [->|].
  - rewrite decide_False, decide_True, lookup_delete_eq by (done || by left). done.
  - rewrite lookup_delete_ne by congruence.
    destruct (decide (x ∈ xs.*1)); [rewrite decide_True by (by right)|rewrite decide_False]; try done.
    by intros [?|?]%elem_of_cons.
Qed.

Lemma list_free_run h l xs :
  dlist h l xs →
  ∃ h', list_free (Some l) h = Ret (tt, h') ∧ lists h' = lists h ∧
    (∀ x, nodes h' !! x = if decide (x ∈ xs.*1) then None else nodes h !! x).
Proof.
  intros [(nm & md & Hl) Hs Hnd _]. pose proof (seg_length _ _ _ _ _ Hs Hnd).
  destruct (list_free_loop_run (Some l) xs (S (size (nodes h))) None h) as (h' & ? & ? & ? & ?);
    [done|lia|done|].
  exists h'. split; [|done]. unfold list_free. step. by erewrite run_bind_Ret by reflexivity.
Qed.

Lemma list_destroy_loop_run o xs : ∀ fuel pv h,
  seg (nodes h) o pv xs None → (length xs < fuel)%nat →
  list_destroy_loop fuel (hd_ptr xs None) h = Ret (tt, Heap (nodes h) (lists h) (freed h ++ xs.*2)).
Proof.
  induction xs as [|[y w] xs IH]; intros [|fuel] pv h Hs Hf; cbn in *; try lia.
  { rewrite app_nil_r. by destruct h. }
  destruct Hs as [Hy Hs]. step. erewrite run_bind_Ret by reflexivity. step.
  rewrite (IH fuel (Some y)) by (done || lia). cbn. by rewrite <-app_assoc.
Qed.

Lemma list_destroy_run h l xs :
  dlist h l xs →
  list_destroy (Some l) h = Ret (tt, Heap (nodes h) (lists h) (freed h ++ xs.*2)).
Proof.
  intros [(nm & md & Hl) Hs Hnd _]. pose proof (seg_length _ _ _ _ _ Hs Hnd).
  unfold list_destroy. step. erewrite run_bind_Ret by reflexivity.
  eapply list_destroy_loop_run; [done|lia].
Qed.

(** ** The abstract list *)

(** A client's calls on one list; a node argument is a pointer it holds. *)
Inductive cmd :=
| CInsert (item : Z)
| CInsertAfter (before : ptr) (item : Z)
| CInsertBefore (after : ptr) (item : Z)
| CDelete (node : loc)
| CRemove (index : Z)
| CPop
| CDequeue.

Definition exec_cmd (l : loc) (c : cmd) : M heap ptr :=
  match c with
  | CInsert item => list_insert (Some l) item
  | CInsertAfter before item => list_insert_after (Some l) before item
  | CInsertBefore after item => list_insert_before (Some l) after item
  | CDelete node => list_delete (Some l) (Some node);; mret None
  | CRemove index => list_remove (Some l) index;; mret None
  | CPop => list_pop (Some l)
  | CDequeue => list_dequeue (Some l)
  end.

(** What each call means for the sequence: call, sequence before, result,
    sequence after.  The address of a new node is any unused one. *)
Inductive abs_step : cmd → list (loc * Z) → ptr → list (loc * Z) → Prop :=
| as_insert item x xs :
    x ∉ xs.*1 → abs_step (CInsert item) xs (Some x) (xs ++ [(x, item)])
| as_insert_front item x xs :
    x ∉ xs.*1 → abs_step (CInsertAfter None item) xs (Some x) ((x, item) :: xs)
| as_insert_after item x ys b w zs :
    x ∉ (ys ++ (b, w) :: zs).*1 →
    abs_step (CInsertAfter (Some b) item) (ys ++ (b, w) :: zs) (Some x)
      (ys ++ (b, w) :: (x, item) :: zs)
| as_insert_back item x xs :
    x ∉ xs.*1 → abs_step (CInsertBefore None item) xs (Some x) (xs ++ [(x, item)])
| as_insert_before item x ys a w zs :
    x ∉ (ys ++ (a, w) :: zs).*1 →
    abs_step (CInsertBefore (Some a) item) (ys ++ (a, w) :: zs) (Some x)
      (ys ++ (x, item) :: (a, w) :: zs)
| as_delete ys x v zs : abs_step (CDelete x) (ys ++ (x, v) :: zs) None (ys ++ zs)
| as_remove ys x v zs :
    abs_step (CRemove (Z.of_nat (length ys))) (ys ++ (x, v) :: zs) None (ys ++ zs)
| as_remove_beyond index xs :
    Z.of_nat (length xs) < index → abs_step (CRemove index) xs None xs
| as_pop ys x v : abs_step CPop (ys ++ [(x, v)]) (Some x) ys
| as_pop_empty : abs_step CPop [] None []
| as_dequeue x v zs : abs_step CDequeue ((x, v) :: zs) (Some x) zs
| as_dequeue_empty : abs_step CDequeue [] None [].

(** The calls a client may make: a node argument is a member of the list, and
    an index is not the length itself. *)
Definition enabled (c : cmd) (xs : list (loc * Z)) : Prop :=
  match c with
  | CInsert _ => Z.of_nat (length xs) + 1 < 2 ^ 64
  | CInsertAfter p _ | CInsertBefore p _ =>
      Z.of_nat (length xs) + 1 < 2 ^ 64 ∧ (∀ b, p = Some b → b ∈ xs.*1)
  | CDelete x => x ∈ xs.*1
  | CRemove index => 0 ≤ index ∧ index ≠ Z.of_nat (length xs)
  | CPop | CDequeue => True
  end.

(** Every list of the store other than [l] whose nodes are not [xs] survives. *)
Definition others_kept (h h' : heap) (l : loc) (xs : list (loc * Z)) : Prop :=
  ∀ l' ys, l' ≠ l → dlist h l' ys → (∀ x, x ∈ ys.*1 → x ∉ xs.*1) → dlist h' l' ys.

Lemma dlist_live h l xs x : dlist h l xs → x ∈ xs.*1 → is_Some (nodes h !! x).
Proof.
  intros Hd ([y v] & -> & Hin)%list_elem_of_fmap.
  destruct (seg_in _ _ _ _ _ _ _ Hin (dl_seg _ _ _ Hd)) as (? & ? & Hx).
  cbn. rewrite Hx. eauto.
Qed.

Lemma frame_others_kept h h' l X xs :
  frame h h' l X → (∀ x, x ∈ X → x ∈ xs.*1 ∨ nodes h !! x = None) → others_kept h h' l xs.
Proof.
  intros (Hl & Hn & _) HX l' ys Hne Hd Hdis. pose proof Hd as [Hh Hs Hnd Hf].
  split; [by rewrite Hl| |done..].
  eapply seg_agree; [|done]. intros x Hx. apply Hn. intros HxX.
  destruct (HX x HxX) as [?|Hnone]; [by eapply Hdis|].
  destruct (dlist_live _ _ _ _ Hd Hx). congruence.
Qed.

(** Allocating a node leaves every list as it was. *)
Lemma malloc_node_run item h :
  ∃ x, malloc_node item h =
      Ret (Some x, Heap (<[x := Node None None item None]> (nodes h)) (lists h) (freed h)) ∧
    nodes h !! x = None.
Proof. eexists. split; [reflexivity|apply malloc_fresh]. Qed.

Lemma dlist_alloc h l xs x n :
  dlist h l xs → nodes h !! x = None →
  (x ∉ xs.*1) ∧ dlist (Heap (<[x := n]> (nodes h)) (lists h) (freed h)) l xs.
Proof.
  intros Hd Hx. assert (x ∉ xs.*1).
  { intros Hin. destruct (dlist_live _ _ _ _ Hd Hin). congruence. }
  destruct Hd as [? ? ? ?]. split; [done|]. split; cbn; auto using seg_insert.
Qed.

Lemma frame_alloc h x n l h' xs :
  nodes h !! x = None →
  frame (Heap (<[x := n]> (nodes h)) (lists h) (freed h)) h' l (x :: xs.*1) →
  others_kept h h' l xs.
Proof.
  intros Hx (Hl & Hn & Hf). apply (frame_others_kept _ _ _ (x :: xs.*1)).
  - split_and!; [done| |done]. intros y Hy. rewrite Hn by done. cbn.
    apply not_elem_of_cons in Hy as [? _]. by rewrite lookup_insert_ne by congruence.
  - intros y [->|?]%elem_of_cons; auto.
Qed.

(** The common part of the three insertions: [op] is run on a fresh node. *)
Lemma insert_common (op : ptr → M heap unit) h l xs item xs' :
  dlist h l xs →
  (∀ h1 x nd, dlist h1 l xs → nodes h1 !! x = Some nd → next nd = None → prev nd = None →
     value nd = item → x ∉ xs.*1 →
     ∃ h', op (Some x) h1 = Ret (tt, h') ∧ dlist h' l (xs' x) ∧ frame h1 h' l (x :: xs.*1)) →
  ∃ x h', (n ← malloc_node item; op n;; mret n) h = Ret (Some x, h') ∧
    (x ∉ xs.*1) ∧ dlist h' l (xs' x) ∧ others_kept h h' l xs.
Proof.
  intros Hd Hop. destruct (malloc_node_run item h) as (x & Hx & Hfresh).
  destruct (dlist_alloc h l xs x (Node None None item None) Hd Hfresh) as [Hnin Hd1].
  destruct (Hop _ x (Node None None item None) Hd1) as (h' & Hrun & Hd' & Hf); try done.
  { apply lookup_insert_eq. }
  exists x, h'. split_and!; [|done|done|by eapply frame_alloc].
  erewrite run_bind_Ret by exact Hx. by erewrite run_bind_Ret by exact Hrun.
Qed.

Lemma elem_of_split_fst (x : loc) (xs : list (loc * Z)) :
  x ∈ xs.*1 → ∃ ys v zs, xs = ys ++ (x, v) :: zs.
Proof.
  intros ([y v] & -> & (ys & zs & ->)%list_elem_of_split)%list_elem_of_fmap. eauto.
Qed.

Lemma list_insert_run h l xs item :
  dlist h l xs → Z.of_nat (length xs) + 1 < 2 ^ 64 →
  ∃ x h', list_insert (Some l) item h = Ret (Some x, h') ∧ (x ∉ xs.*1) ∧
    dlist h' l (xs ++ [(x, item)]) ∧ others_kept h h' l xs.
Proof.
  intros Hd Hlen. apply (insert_common (list_append (Some l)) h l xs item (λ x, xs ++ [(x, item)]) Hd).
  intros. subst. by apply list_append_run.
Qed.

Lemma list_create_run h nm md :
  ∃ l h', list_create nm md h = Ret (Some l, h') ∧ lists h !! l = None ∧ dlist h' l [] ∧
    others_kept h h' l [].
Proof.
  exists (malloc (lists h)). eexists. split_and!; [reflexivity|apply malloc_fresh| |].
  - split; [exists nm, md; apply lookup_insert_eq|done|constructor|cbn; lia].
  - apply (frame_others_kept _ _ _ []); [|by intros ? ?%not_elem_of_nil].
    split_and!; [|done|done]. intros l' Hne. by apply lookup_insert_ne.
Qed.

(** The simulation diagram for one call. *)
Definition simulates (h : heap) (l : loc) (xs : list (loc * Z)) (c : cmd) : Prop :=
  ∃ r h' xs', exec_cmd l c h = Ret (r, h') ∧ abs_step c xs r xs' ∧ dlist h' l xs' ∧
    others_kept h h' l xs.

Lemma sim_insert_op (op : ptr → M heap unit) h l xs item xs' c :
  exec_cmd l c = (n ← malloc_node item; op n;; mret n) →
  (∀ x, x ∉ xs.*1 → abs_step c xs (Some x) (xs' x)) →
  dlist h l xs →
  (∀ h1 x nd, dlist h1 l xs → nodes h1 !! x = Some nd → next nd = None → prev nd = None →
     value nd = item → x ∉ xs.*1 →
     ∃ h', op (Some x) h1 = Ret (tt, h') ∧ dlist h' l (xs' x) ∧ frame h1 h' l (x :: xs.*1)) →
  simulates h l xs c.
Proof.
  intros Hc Has Hd Hop. unfold simulates. rewrite Hc.
  destruct (insert_common op h l xs item xs' Hd Hop) as (x & h' & ? & ? & ? & ?). eauto 10.
Qed.

Lemma sim_insert_after h l xs p item :
  dlist h l xs → enabled (CInsertAfter p item) xs → simulates h l xs (CInsertAfter p item).
Proof.
  intros Hd [Hlen Hp]. destruct p as [b|].
  - destruct (elem_of_split_fst b xs) as (ys & w & zs & ->); [by apply Hp|].
    eapply (sim_insert_op (list_append_after (Some l) (Some b)) _ _ _ item
              (λ x, ys ++ (b, w) :: (x, item) :: zs)); [done|by constructor|done|].
    intros. subst. by apply list_append_after_run.
  - eapply (sim_insert_op (list_append_after (Some l) None) _ _ _ item (λ x, (x, item) :: xs));
      [done|by constructor|done|].
    intros. subst. by apply list_append_after_front_run.
Qed.

Lemma sim_insert_before h l xs p item :
  dlist h l xs → enabled (CInsertBefore p item) xs → simulates h l xs (CInsertBefore p item).
Proof.
  intros Hd [Hlen Hp]. destruct p as [a|].
  - destruct (elem_of_split_fst a xs) as (ys & w & zs & ->); [by apply Hp|].
    eapply (sim_insert_op (list_append_before (Some l) (Some a)) _ _ _ item
              (λ x, ys ++ (x, item) :: (a, w) :: zs)); [done|by constructor|done|].
    intros. subst. by apply list_append_before_run.
  - eapply (sim_insert_op (list_append_before (Some l) None) _ _ _ item (λ x, xs ++ [(x, item)]));
      [done|by constructor|done|].
    intros. subst. by apply list_append_before_back_run.
Qed.

Lemma sim_intro h l xs c r h' xs' :
  exec_cmd l c h = Ret (r, h') → abs_step c xs r xs' → dlist h' l xs' →
  frame h h' l xs.*1 → simulates h l xs c.
Proof. intros ? ? ? Hf. exists r, h', xs'. split_and!; try done. eapply frame_others_kept; eauto. Qed.

Lemma sim_same h l xs c :
  dlist h l xs → exec_cmd l c h = Ret (None, h) → abs_step c xs None xs → simulates h l xs c.
Proof. intros Hd Hr Ha. eapply sim_intro; [done|done|done|]. by split_and!. Qed.

Lemma sim_remove h l xs index :
  dlist h l xs → enabled (CRemove index) xs → simulates h l xs (CRemove index).
Proof.
  intros Hd [H0 Hne]. destruct (decide (index < Z.of_nat (length xs))).
  - destruct (lookup_lt_is_Some_2 xs (Z.to_nat index)) as [[x v] Hx]; [lia|].
    apply list_elem_of_split_length in Hx as (ys & zs & -> & Hlen).
    destruct (list_remove_run h l ys x v zs Hd) as (h' & Hrun & Hd' & Hf).
    replace index with (Z.of_nat (length ys)) by lia.
    eapply sim_intro; [cbn; by erewrite run_bind_Ret by exact Hrun|constructor|done|done].
  - apply sim_same; [done| |constructor; lia].
    destruct (dl_hdr _ _ _ Hd) as (nm & md & Hl). cbn. unfold list_remove. repeat step.
    by rewrite (Z.gtb_ltb _ _), (proj2 (Z.ltb_lt _ _)) by lia.
Qed.

Lemma sim_pop h l xs : dlist h l xs → simulates h l xs CPop.
Proof.
  intros Hd. destruct xs as [|[x v] ys _] using rev_ind.
  - apply sim_same; [done| |constructor].
    destruct (dl_hdr _ _ _ Hd) as (nm & md & Hl). cbn. unfold list_pop. by step.
  - destruct (list_pop_run h l ys x v Hd) as (h' & Hrun & Hd' & Hf & _).
    eapply sim_intro; [done|constructor|done|done].
Qed.

Lemma sim_dequeue h l xs : dlist h l xs → simulates h l xs CDequeue.
Proof.
  intros Hd. destruct xs as [|[x v] zs].
  - apply sim_same; [done| |constructor].
    destruct (dl_hdr _ _ _ Hd) as (nm & md & Hl). cbn. unfold list_dequeue. by step.
  - destruct (list_dequeue_run h l x v zs Hd) as (h' & Hrun & Hd' & Hf & _).
    eapply sim_intro; [done|constructor|done|done].
Qed.

(** C6: every call of the list interface on a list that represents a sequence,
    made within the interface's rules, returns (it neither faults nor loops),
    its result and the sequence afterwards are those of the abstract list, and
    every other list of the store keeps its sequence. *)
Theorem list_refines_sequence h l xs c :
  dlist h l xs → enabled c xs →
  ∃ r h' xs', exec_cmd l c h = Ret (r, h') ∧ abs_step c xs r xs' ∧ dlist h' l xs' ∧
    others_kept h h' l xs.
Proof.
  intros Hd Hen. change (simulates h l xs c). destruct c as [item|p item|p item|x|index| |].
  - destruct (list_insert_run h l xs item Hd Hen) as (x & h' & ? & ? & ? & ?).
    exists (Some x), h', (xs ++ [(x, item)]). split_and!; try done. by constructor.
  - by apply sim_insert_after.
  - by apply sim_insert_before.
  - destruct (elem_of_split_fst x xs Hen) as (ys & v & zs & ->).
    destruct (list_delete_run h l ys x v zs Hd) as (h' & Hrun & [Hd' Hf] & _).
    eapply sim_intro; [cbn; by erewrite run_bind_Ret by exact Hrun|constructor|done|done].
  - by apply sim_remove.
  - by apply sim_pop.
  - by apply sim_dequeue.
Qed.

(** The queries are those of the sequence and change nothing: [list_find]
    gives the first node holding the value or [NULL], [list_index_of] its
    position or -1, [list_index] the value at a position or [NULL], for lists
    whose positions fit an [int]. *)
Theorem list_queries_correct h l xs v index :
  dlist h l xs → Z.of_nat (length xs) < 2 ^ 31 →
  list_find (Some l) v h = Ret (position v xs ≫= λ i, xs.*1 !! i, h) ∧
  list_index_of (Some l) v h = Ret (from_option Z.of_nat (-1) (position v xs), h) ∧
  list_index (Some l) index h =
    Ret (if 0 <=? index then default 0 (xs.*2 !! Z.to_nat index) else 0, h).
Proof.
  intros Hd Hb. split_and!;
    [by apply list_find_run | by apply list_index_of_run | by apply list_index_run].
Qed.

(** C32: merging two lists with no common node concatenates their sequences,
    the source's header being released; releasing a list deletes exactly its
    nodes, and destroying it hands exactly its values to [free], in order. *)
Theorem list_merge_release h t s xs ys :
  dlist h t xs → dlist h s ys → t ≠ s → (∀ x, x ∈ xs.*1 → x ∉ ys.*1) →
  Z.of_nat (length xs + length ys) < 2 ^ 64 →
  (∃ h', list_merge (Some t) (Some s) h = Ret (tt, h') ∧ dlist h' t (xs ++ ys) ∧
     lists h' !! s = None) ∧
  (∃ h', list_free (Some t) h = Ret (tt, h') ∧ lists h' = lists h ∧
     (∀ x, nodes h' !! x = if decide (x ∈ xs.*1) then None else nodes h !! x)) ∧
  list_destroy (Some t) h = Ret (tt, Heap (nodes h) (lists h) (freed h ++ xs.*2)).
Proof.
  intros. split_and!; [by apply list_merge_run|by apply list_free_run|by apply list_destroy_run].
Qed.

(** *** Two defects of the source *)

(** [list_insert] on any header whose tail is live when its length is not zero
    returns and leaves a header of the same kind, whatever the counters hold. *)
Definition insertable (h : heap) (out : loc) : Prop :=
  ∃ L, lists h !! out = Some L ∧
    (len L ≠ 0 → ∃ t, tail L = Some t ∧ is_Some (nodes h !! t)).

Lemma list_insert_insertable h out item x :
  insertable h out → is_Some (nodes h !! x) →
  ∃ r h', list_insert (Some out) item h = Ret (r, h') ∧ insertable h' out ∧
    is_Some (nodes h' !! x).
Proof.
  intros (L & HL & Htail) [nx Hx]. destruct (malloc_node_run item h) as (n & Hn & Hfresh).
  assert (n ≠ x) by (intros ->; congruence).
  unfold list_insert. erewrite run_bind_Ret by exact Hn. unfold list_append.
  destruct (decide (len L = 0)) as [Hz|Hz].
  - eexists _, _. split; [exec; rewrite Hz; exec|]. cbn. split.
    + eexists. cbn. rewrite lookup_insert_eq. split; [done|]. intros _. eexists. cbn.
      split; [done|]. rewrite lookup_insert_eq. eauto.
    + repeat rewrite lookup_insert_ne by done. eauto.
  - destruct (Htail Hz) as (t & Ht & [nt Hnt]). assert (n ≠ t) by (intros ->; congruence).
    destruct L as [hd tl ln nm md]; cbn in *; subst tl.
    eexists _, _. split; [exec|]. cbn. split.
    + eexists. cbn. rewrite lookup_insert_eq. split; [done|]. intros _. eexists. cbn.
      split; [done|]. rewrite lookup_insert_eq. eauto.
    + rewrite lookup_insert_ne by done. destruct (decide (t = x)) as [->|];
        [rewrite lookup_insert_eq|rewrite !lookup_insert_ne by done]; eauto.
Qed.

Lemma list_copy_loop_spins fuel out x : ∀ h,
  insertable h out → is_Some (nodes h !! x) →
  list_copy_loop fuel (Some out) (Some x) h = Spin.
Proof.
  induction fuel as [|fuel IH]; intros h Hi [n Hx]; cbn; [done|]. step.
  destruct (list_insert_insertable h out (value n) x Hi ltac:(eauto)) as (r & h' & Hr & Hi' & Hx').
  erewrite run_bind_Ret by exact Hr. by apply IH.
Qed.

(** [list_copy] never returns on a non-empty list: its loop tests [node]
    but never advances it, so it inserts the first value for ever. *)
Lemma list_copy_spins h l x v xs fuel :
  dlist h l ((x, v) :: xs) → list_copy fuel (Some l) h = Spin.
Proof.
  intros [(nm & md & Hl) [Hx _] _ _]. unfold list_copy. step.
  unfold list_create. erewrite run_bind_Ret by reflexivity. cbn [name metadata].
  assert (l ≠ malloc (lists h)) by (intros ->; by rewrite malloc_fresh in Hl).
  erewrite run_bind_Ret by (eapply get_list_run; cbn; by rewrite lookup_insert_ne). cbn [head hd_ptr].
  rewrite run_bind, list_copy_loop_spins; [done| |cbn; eauto].
  eexists. cbn. rewrite lookup_insert_eq. by split.
Qed.

(** [list_remove] guards with [index > length], so the index equal to the
    length passes the guard and dereferences a null node. *)
Lemma list_remove_at_length h l xs :
  dlist h l xs → list_remove (Some l) (Z.of_nat (length xs)) h = Fault.
Proof.
  intros Hd. destruct Hd as [(nm & md & Hl) Hs _ _]. unfold list_remove. step.
  rewrite (Z.gtb_ltb _ _), (proj2 (Z.ltb_ge _ _)) by lia. rewrite Nat2Z.id.
  pose proof (list_walk_run h (Some l) xs [] None None) as Hw.
  rewrite app_nil_r in Hw. erewrite run_bind_Ret by (by apply Hw).
  unfold list_delete. cbn [hd_ptr]. step.
  destruct (decide (None = hd_ptr xs None)); [done|]. repeat step.
  by destruct (decide (None = last_ptr None xs)).
Qed.

(** C38: two functions of the list do not do what they are for: [list_copy]
    never returns on a non-empty list, because its loop never advances, and
    [list_remove] accepts the index equal to the length and then dereferences
    a null node. *)
Theorem list_defects h l xs : dlist h l xs →
  list_remove (Some l) (Z.of_nat (length xs)) h = Fault ∧
  (xs ≠ [] → ∀ fuel, list_copy fuel (Some l) h = Spin).
Proof.
  intros Hd. split; [by apply list_remove_at_length|]. intros Hne fuel. destruct xs as [|[x v] xs]; [done|].
  by eapply list_copy_spins.
Qed.

End refinement.

(** ** Witnesses: two concrete lists in one store *)

Definition demo_heap : heap := Heap
  {[ 1%positive := Node (Some 2%positive) None 10 (Some 1%positive);
     2%positive := Node None (Some 1%positive) 20 (Some 1%positive);
     3%positive := Node None None 30 (Some 2%positive) ]}
  {[ 1%positive := List_t (Some 1%positive) (Some 2%positive) 2 0 0;
     2%positive := List_t (Some 3%positive) (Some 3%positive) 1 0 0 ]}
  [].

Definition demo_list : list (loc * Z) := [(1%positive, 10); (2%positive, 20)].
Definition demo_list' : list (loc * Z) := [(3%positive, 30)].

Lemma demo_dlist : dlist demo_heap 1 demo_list.
Proof.
  split; [by exists 0, 0 | by repeat split | | cbn; lia].
  cbn. repeat (constructor; [set_solver|]). constructor.
Defined.

Lemma demo_dlist' : dlist demo_heap 2 demo_list'.
Proof.
  split; [by exists 0, 0 | by repeat split | | cbn; lia].
  cbn. repeat (constructor; [set_solver|]). constructor.
Defined.

Lemma list_refines_sequence_witness :
  enabled (CInsertAfter (Some 1%positive) 15) demo_list ∧
  ∃ r h' xs', @exec_cmd bump_malloc 1 (CInsertAfter (Some 1%positive) 15) demo_heap = Ret (r, h') ∧
    abs_step (CInsertAfter (Some 1%positive) 15) demo_list r xs' ∧ dlist h' 1 xs' ∧
    others_kept demo_heap h' 1 demo_list.
Proof.
  assert (H : enabled (CInsertAfter (Some 1%positive) 15) demo_list).
  { split; [cbn; lia|]. intros b [= <-]. cbn. by left. }
  split; [exact H|]. apply list_refines_sequence; [exact demo_dlist|exact H].
Defined.

Lemma list_queries_correct_witness :
  list_find (Some 1%positive) 20 demo_heap = Ret (Some 2%positive, demo_heap) ∧
  list_index_of (Some 1%positive) 20 demo_heap = Ret (1, demo_heap) ∧
  list_index (Some 1%positive) 0 demo_heap = Ret (10, demo_heap).
Proof. apply (list_queries_correct demo_heap 1 demo_list 20 0); [exact demo_dlist|cbn; lia]. Defined.

Lemma list_merge_release_witness :
  ∃ h', list_merge (Some 1%positive) (Some 2%positive) demo_heap = Ret (tt, h') ∧
    dlist h' 1 (demo_list ++ demo_list') ∧ lists h' !! 2%positive = None.
Proof.
  apply (list_merge_release demo_heap 1 2 demo_list demo_list');
    [exact demo_dlist|exact demo_dlist'|done|set_solver|cbn; lia].
Defined.

Lemma list_defects_witness :
  list_remove (Some 1%positive) 2 demo_heap = Fault ∧
  @list_copy bump_malloc bump_malloc 1000 (Some 1%positive) demo_heap = Spin.
Proof.
  destruct (@list_defects bump_malloc bump_malloc demo_heap 1 demo_list demo_dlist) as [Hr Hc].
  split; [exact Hr|]. apply Hc. discriminate.
Defined.
