(* ===== verification/Memory.v ===== *)
(** * Byte memory and machine words

    The flat memory the string routines work on: mapped addresses hold bytes,
    an access to an unmapped address faults, and the 16, 32 and 64-bit
    accesses of the source are little-endian combinations of byte accesses.
    The [HASZERO] word test of [kernel/types.h] is here with its correctness. *)

From S2P Require Import Prelude.

Abbreviation mem := (gmap Z Z).

(** ** Accesses *)

Definition load8 (a : Z) : M mem Z := λ m,
  match m !! a with Some b => Ret (b, m) | None => Fault end.

Definition store8 (a v : Z) : M mem unit := λ m,
  match m !! a with Some _ => Ret (tt, <[a := u8 v]> m) | None => Fault end.

Fixpoint load_bytes (n : nat) (a : Z) : M mem (list Z) :=
  match n with
  | O => mret []
  | S n => b ← load8 a; bs ← load_bytes n (a + 1); mret (b :: bs)
  end.

Fixpoint store_bytes (bs : list Z) (a : Z) : M mem unit :=
  match bs with
  | [] => mret tt
  | b :: bs => store8 a b;; store_bytes bs (a + 1)
  end.

Fixpoint le_combine (bs : list Z) : Z :=
  match bs with [] => 0 | b :: bs => b + 256 * le_combine bs end.

Fixpoint le_split (n : nat) (w : Z) : list Z :=
  match n with O => [] | S n => w mod 256 :: le_split n (w / 256) end.

(** An access of [n] bytes: [n] = 2, 4 or 8 for the source's word types. *)
Definition loadw (n : nat) (a : Z) : M mem Z := bs ← load_bytes n a; mret (le_combine bs).
Definition storew (n : nat) (a w : Z) : M mem unit := store_bytes (le_split n w) a.

#[global] Arguments load8 : simpl never.
#[global] Arguments store8 : simpl never.

(** ** Well-formed memories and regions *)

Definition is_byte (b : Z) : Prop := 0 ≤ b < 256.
#[global] Instance is_byte_dec b : Decision (is_byte b).
Proof. unfold is_byte. apply _. Defined.
Definition bytes_ok (m : mem) : Prop := ∀ a b, m !! a = Some b → is_byte b.
Definition mapped (m : mem) (a n : Z) : Prop := ∀ i, 0 ≤ i < n → is_Some (m !! (a + i)).

(** [m'] is [m] with the [n] bytes at [s] copied to [d]. *)
Definition moved (m m' : mem) (d s n : Z) : Prop :=
  ∀ a, m' !! a = if decide (d ≤ a < d + n) then m !! (s + (a - d)) else m !! a.

(** The bytes at [a] are [bs]. *)
Definition holds (m : mem) (a : Z) (bs : list Z) : Prop :=
  ∀ i b, bs !! i = Some b → m !! (a + Z.of_nat i) = Some b.

(** A C string: the non-null bytes [s], then the terminator. *)
Definition cstr (m : mem) (a : Z) (s : list Z) : Prop :=
  holds m a (s ++ [0]) ∧ Forall (λ b, b ≠ 0) s.

(** Memory is mapped by whole aligned 64-bit words (pages are). *)
Definition words_mapped (m : mem) : Prop :=
  ∀ a i, is_Some (m !! a) → 0 ≤ i < 8 → is_Some (m !! (8 * (a / 8) + i)).

(** ** Bytes and words *)

Lemma le_combine_bound bs : Forall is_byte bs → 0 ≤ le_combine bs < 256 ^ Z.of_nat (length bs).
Proof.
  unfold is_byte. induction 1 as [|b bs Hb _ IH]; [done|].
  rewrite length_cons, Nat2Z.inj_succ, Z.pow_succ_r by lia. cbn [le_combine]. lia.
Qed.

Lemma le_split_combine bs : Forall is_byte bs → le_split (length bs) (le_combine bs) = bs.
Proof.
  unfold is_byte. induction 1 as [|b bs Hb _ IH]; [done|].
  rewrite length_cons. cbn [le_combine le_split].
  rewrite (Z.mul_comm 256), Z.mod_add, Z.mod_small, Z.div_add, Z.div_small, Z.add_0_l by lia.
  by rewrite IH.
Qed.

Lemma testbit_byte_cons a A i :
  0 ≤ a < 256 → 0 ≤ i →
  Z.testbit (a + 256 * A) i = if decide (i < 8) then Z.testbit a i else Z.testbit A (i - 8).
Proof.
  intros Ha Hi. case_decide.
  - rewrite <-(Z.mod_pow2_bits_low _ 8) by lia. change (2 ^ 8) with 256.
    by rewrite (Z.mul_comm 256), Z.mod_add, Z.mod_small by lia.
  - replace i with (i - 8 + 8) at 1 by lia. rewrite <-Z.div_pow2_bits by lia. change (2 ^ 8) with 256.
    by rewrite (Z.mul_comm 256), Z.div_add, Z.div_small, Z.add_0_l by lia.
Qed.

Lemma land_byte_cons a A c C :
  0 ≤ a < 256 → 0 ≤ c < 256 →
  Z.land (a + 256 * A) (c + 256 * C) = Z.land a c + 256 * Z.land A C.
Proof.
  intros Ha Hc. assert (Hac : 0 ≤ Z.land a c < 256).
  { split; [apply Z.land_nonneg; lia|]. apply Z.le_lt_trans with a; [|lia].
    apply Z.ldiff_le; [lia|]. apply Z.bits_inj'. intros i Hi.
    rewrite Z.ldiff_spec, Z.land_spec, Z.bits_0. by destruct (Z.testbit a i), (Z.testbit c i). }
  apply Z.bits_inj'. intros i Hi. rewrite Z.land_spec, !testbit_byte_cons by lia.
  case_decide; by rewrite Z.land_spec.
Qed.

Lemma lxor_byte a c : 0 ≤ a < 256 → 0 ≤ c < 256 → 0 ≤ Z.lxor a c < 256.
Proof.
  intros Ha Hc. split; [apply Z.lxor_nonneg; lia|].
  destruct (decide (Z.lxor a c = 0)) as [->|Hne]; [lia|].
  assert (0 ≤ Z.lxor a c) by (apply Z.lxor_nonneg; lia).
  apply Z.log2_lt_pow2 with (b := 8); [lia|].
  apply Z.le_lt_trans with (Z.max (Z.log2 a) (Z.log2 c)); [apply Z.log2_lxor; lia|].
  apply Z.max_lub_lt.
  - destruct (decide (a = 0)) as [->|]; [done|]. apply (proj1 (Z.log2_lt_pow2 a 8 ltac:(lia))). lia.
  - destruct (decide (c = 0)) as [->|]; [done|]. apply (proj1 (Z.log2_lt_pow2 c 8 ltac:(lia))). lia.
Qed.

Lemma lxor_byte_cons a A c C :
  0 ≤ a < 256 → 0 ≤ c < 256 →
  Z.lxor (a + 256 * A) (c + 256 * C) = Z.lxor a c + 256 * Z.lxor A C.
Proof.
  intros Ha Hc. pose proof (lxor_byte a c Ha Hc).
  apply Z.bits_inj'. intros i Hi. rewrite Z.lxor_spec, !testbit_byte_cons by lia.
  case_decide; by rewrite Z.lxor_spec.
Qed.

(** ** The zero-byte test *)

(** [ONES]: a word of bytes 1; [HIGHS]: a word of bytes 128. *)
Fixpoint ones (n : nat) : Z := match n with O => 0 | S n => 1 + 256 * ones n end.
Definition ONES : Z := (2 ^ 64 - 1) / 255.
Definition HIGHS : Z := ONES * (255 / 2 + 1).

(** [HASZERO(X)]: [((X) - ONES) & ~(X) & HIGHS] at 64 bits, as a condition. *)
Definition HASZERO (x : Z) : bool :=
  negb (Z.land (Z.land (u64 (x - ONES)) (u64 (Z.lnot x))) HIGHS =? 0).

(** The same test on [n]-byte words. *)
Definition haszero_n (n : nat) (x : Z) : Z :=
  Z.land (Z.land ((x - ones n) mod 256 ^ Z.of_nat n) (256 ^ Z.of_nat n - 1 - x)) (128 * ones n).

Lemma ones_8 : ONES = ones 8.
Proof. reflexivity. Qed.

Lemma HASZERO_n x : 0 ≤ x < 2 ^ 64 → HASZERO x = negb (haszero_n 8 x =? 0).
Proof.
  intros Hx. unfold HASZERO, haszero_n, wrap. do 2 f_equal.
  change (256 ^ Z.of_nat 8) with (2 ^ 64). change (128 * ones 8) with HIGHS. rewrite ones_8.
  do 2 f_equal. symmetry. apply Z.mod_unique_pos with (q := -1); [lia|]. unfold Z.lnot. lia.
Qed.

Lemma low_byte_test b : 1 ≤ b < 256 → Z.land (Z.land (b - 1) (255 - b)) 128 = 0.
Proof.
  intros Hb.
  assert (H : Forall (λ b, Z.land (Z.land (b - 1) (255 - b)) 128 = 0) (seqZ 1 255)).
  { vm_compute. repeat constructor. }
  rewrite Forall_forall in H. apply H. apply elem_of_seqZ. lia.
Qed.

Lemma haszero_n_cons n b y :
  is_byte b → 0 ≤ y < 256 ^ Z.of_nat n →
  haszero_n (S n) (b + 256 * y) = 0 ↔ b ≠ 0 ∧ haszero_n n y = 0.
Proof.
  unfold is_byte, haszero_n. intros Hb Hy. set (p := 256 ^ Z.of_nat n) in *.
  assert (Hp : 0 < p) by (unfold p; lia).
  replace (256 ^ Z.of_nat (S n)) with (256 * p)
    by (unfold p; rewrite Nat2Z.inj_succ, Z.pow_succ_r; lia).
  cbn [ones]. set (o := ones n).
  replace (256 * p - 1 - (b + 256 * y)) with ((255 - b) + 256 * (p - 1 - y)) by lia.
  replace (128 * (1 + 256 * o)) with (128 + 256 * (128 * o)) by lia.
  destruct (decide (b = 0)) as [->|Hb0].
  - split; [|lia]. intros H. exfalso.
    assert (Hm : (0 + 256 * y - (1 + 256 * o)) mod (256 * p) = 255 + 256 * ((y - o - 1) mod p)).
    { symmetry. apply Z.mod_unique_pos with (q := (y - o - 1) / p).
      - pose proof (Z.mod_pos_bound (y - o - 1) p Hp). lia.
      - pose proof (Z.div_mod (y - o - 1) p). lia. }
    rewrite Hm, land_byte_cons in H by lia. change (Z.land 255 (255 - 0)) with 255 in H.
    rewrite land_byte_cons in H by lia. change (Z.land 255 128) with 128 in H. lia.
  - assert (Hm : (b + 256 * y - (1 + 256 * o)) mod (256 * p) = (b - 1) + 256 * ((y - o) mod p)).
    { symmetry. apply Z.mod_unique_pos with (q := (y - o) / p).
      - pose proof (Z.mod_pos_bound (y - o) p Hp). lia.
      - pose proof (Z.div_mod (y - o) p). lia. }
    rewrite Hm, land_byte_cons by lia.
    assert (Hl : 0 ≤ Z.land (b - 1) (255 - b) < 256).
    { split; [apply Z.land_nonneg; lia|].
      apply Z.le_lt_trans with (b - 1); [|lia]. apply Z.ldiff_le; [lia|].
      apply Z.bits_inj'. intros i Hi. rewrite Z.ldiff_spec, Z.land_spec, Z.bits_0.
      by destruct (Z.testbit (b - 1) i), (Z.testbit (255 - b) i). }
    rewrite land_byte_cons by lia. rewrite low_byte_test by lia. lia.
Qed.

Lemma haszero_n_spec bs :
  Forall is_byte bs → haszero_n (length bs) (le_combine bs) = 0 ↔ 0 ∉ bs.
Proof.
  induction 1 as [|b bs Hb Hbs IH]; cbn [length le_combine].
  { split; [intros _; apply not_elem_of_nil|done]. }
  rewrite haszero_n_cons, IH, not_elem_of_cons by auto using le_combine_bound.
  split; intros [? ?]; split; auto.
Qed.

(** [HASZERO] is exact: it holds of a word iff one of its bytes is zero. *)
Lemma HASZERO_spec bs :
  Forall is_byte bs → length bs = 8%nat → HASZERO (le_combine bs) = bool_decide (0 ∈ bs).
Proof.
  intros Hbs Hlen. pose proof (le_combine_bound bs Hbs) as Hb. rewrite Hlen in Hb.
  rewrite HASZERO_n by done. pose proof (haszero_n_spec bs Hbs) as Hz. rewrite Hlen in Hz.
  apply Bool.eq_true_iff_eq.
  rewrite negb_true_iff, Z.eqb_neq, Hz, bool_decide_eq_true.
  destruct (decide (0 ∈ bs)); tauto.
Qed.

(** Xoring a word with the byte [c] repeated finds the byte [c]. *)
Lemma le_combine_lxor c bs :
  is_byte c → Forall is_byte bs →
  Z.lxor (le_combine bs) (c * ones (length bs)) = le_combine (Z.lxor c <$> bs).
Proof.
  unfold is_byte. intros Hc. induction 1 as [|b bs Hb Hbs IH]; cbn; [by rewrite Z.mul_0_r|].
  replace (c * (1 + 256 * ones (length bs))) with (c + 256 * (c * ones (length bs))) by lia.
  rewrite lxor_byte_cons, IH by lia. by rewrite Z.lxor_comm.
Qed.

Lemma HASZERO_lxor_spec c bs :
  is_byte c → Forall is_byte bs → length bs = 8%nat →
  HASZERO (Z.lxor (le_combine bs) (u64 (ONES * c))) = bool_decide (c ∈ bs).
Proof.
  intros Hc Hbs Hlen.
  assert (Hu : u64 (ONES * c) = c * ones (length bs)).
  { rewrite Hlen, <-ones_8, Z.mul_comm. apply wrap_small. unfold is_byte in Hc.
    unfold ONES. change ((2 ^ 64 - 1) / 255) with 72340172838076673. lia. }
  rewrite Hu, le_combine_lxor, HASZERO_spec; [|..].
  - apply bool_decide_ext. rewrite list_elem_of_fmap. split.
    + intros (b & H & Hin). symmetry in H. apply Z.lxor_eq in H as ->. done.
    + intros. exists c. by rewrite Z.lxor_nilpotent.
  - apply Forall_fmap, (Forall_impl _ _ _ Hbs). intros b Hb. by apply lxor_byte.
  - by rewrite length_fmap.
  - done.
  - done.
Qed.

(** ** Running accesses *)

Lemma load8_run m a b : m !! a = Some b → load8 a m = Ret (b, m).
Proof. intros H. unfold load8. by rewrite H. Qed.

Lemma store8_run m a v : is_Some (m !! a) → store8 a v m = Ret (tt, <[a := u8 v]> m).
Proof. intros [b H]. unfold store8. by rewrite H. Qed.

Lemma mapped_cons m a n : mapped m a (Z.of_nat (S n)) →
  is_Some (m !! a) ∧ mapped m (a + 1) (Z.of_nat n).
Proof.
  intros H. split.
  - rewrite <-(Z.add_0_r a). apply H. lia.
  - intros i Hi. replace (a + 1 + i) with (a + (i + 1)) by lia. apply H. lia.
Qed.

Lemma load_bytes_run n : ∀ a m, mapped m a (Z.of_nat n) →
  ∃ bs, load_bytes n a m = Ret (bs, m) ∧ length bs = n ∧ holds m a bs.
Proof.
  induction n as [|n IH]; intros a m Hm.
  { exists []. split_and!; try done. }
  apply mapped_cons in Hm as [[b Hb] Hm]. destruct (IH _ _ Hm) as (bs & Hl & Hlen & Hh).
  exists (b :: bs). split_and!; [|by cbn; rewrite Hlen|].
  - cbn. rewrite (run_bind_Ret _ _ _ _ _ (load8_run _ _ _ Hb)).
    by rewrite (run_bind_Ret _ _ _ _ _ Hl).
  - intros [|i] c Hi; cbn in Hi; simplify_eq.
    + by rewrite Z.add_0_r.
    + replace (a + Z.of_nat (S i)) with (a + 1 + Z.of_nat i) by lia. by apply Hh.
Qed.

Lemma holds_bytes m a bs : bytes_ok m → holds m a bs → Forall is_byte bs.
Proof. intros Hok Hh. apply Forall_lookup. intros i b Hi. eapply Hok. by apply Hh. Qed.

Lemma loadw_run n a m : mapped m a (Z.of_nat n) →
  ∃ bs, loadw n a m = Ret (le_combine bs, m) ∧ length bs = n ∧ holds m a bs.
Proof.
  intros Hm. destruct (load_bytes_run n a m Hm) as (bs & Hl & ? & ?). exists bs.
  split; [|done]. unfold loadw. by rewrite (run_bind_Ret _ _ _ _ _ Hl).
Qed.

Lemma store_bytes_run bs : ∀ a m,
  Forall is_byte bs → mapped m a (Z.of_nat (length bs)) →
  ∃ m', store_bytes bs a m = Ret (tt, m') ∧
    ∀ x, m' !! x = if decide (a ≤ x < a + Z.of_nat (length bs))
                   then bs !! Z.to_nat (x - a) else m !! x.
Proof.
  induction bs as [|b bs IH]; intros a m Hok Hm.
  { exists m. split; [done|]. intros x. rewrite decide_False; [done|cbn; lia]. }
  apply Forall_cons in Hok as [Hb Hok]. apply mapped_cons in Hm as [Ha Hm].
  destruct (IH (a + 1) (<[a := u8 b]> m) Hok) as (m' & Hr & Hm').
  { intros i Hi. rewrite lookup_insert_ne by lia. by apply Hm. }
  exists m'. split; [cbn; by rewrite (run_bind_Ret _ _ _ _ _ (store8_run _ _ b Ha))|].
  intros x. rewrite Hm'. cbn [length].
  destruct (decide (x = a)) as [->|Hne].
  - rewrite decide_False, decide_True, lookup_insert_eq, Z.sub_diag by lia. cbn.
    by rewrite wrap_small.
  - rewrite lookup_insert_ne by done. repeat case_decide; try lia; try done.
    by replace (Z.to_nat (x - a)) with (S (Z.to_nat (x - (a + 1)))) by lia.
Qed.

(** Copying through an [n]-byte access moves [n] bytes, overlap or not. *)
Lemma copy_word_run n d s m :
  bytes_ok m → mapped m s (Z.of_nat n) → mapped m d (Z.of_nat n) →
  ∃ m', (v ← loadw n s; storew n d v) m = Ret (tt, m') ∧ moved m m' d s (Z.of_nat n).
Proof.
  intros Hok Hs Hd. destruct (loadw_run n s m Hs) as (bs & Hl & Hlen & Hh).
  pose proof (holds_bytes _ _ _ Hok Hh) as Hbs.
  destruct (store_bytes_run bs d m Hbs) as (m' & Hst & Hm'); [by rewrite Hlen|].
  exists m'. split.
  - rewrite (run_bind_Ret _ _ _ _ _ Hl). unfold storew. rewrite <-Hlen at 1.
    by rewrite le_split_combine.
  - intros x. rewrite Hm', Hlen. case_decide as Hx; [|done].
    destruct (lookup_lt_is_Some_2 bs (Z.to_nat (x - d))) as [b Hb]; [lia|].
    rewrite Hb. symmetry. replace (s + (x - d)) with (s + Z.of_nat (Z.to_nat (x - d))) by lia.
    by apply Hh.
Qed.

Lemma copy_byte_run d s m :
  bytes_ok m → is_Some (m !! s) → is_Some (m !! d) →
  ∃ m', (v ← load8 s; store8 d v) m = Ret (tt, m') ∧ moved m m' d s 1.
Proof.
  intros Hok [b Hs] Hd. eexists. split.
  - rewrite (run_bind_Ret _ _ _ _ _ (load8_run _ _ _ Hs)). by apply store8_run.
  - intros x. case_decide.
    + replace x with d by lia. rewrite Z.sub_diag, Z.add_0_r, lookup_insert_eq, Hs.
      by rewrite wrap_small by (by eapply Hok).
    + rewrite lookup_insert_ne by lia. done.
Qed.

(** ** Composing copies *)

Lemma moved_0 m d s : moved m m d s 0.
Proof. intros a. rewrite decide_False by lia. done. Qed.

Lemma moved_domain m m' d s n a :
  moved m m' d s n → mapped m s n → is_Some (m !! a) → is_Some (m' !! a).
Proof. intros H Hs Ha. rewrite H. case_decide; [apply Hs; lia|done]. Qed.

Lemma moved_mapped m m' d s n a k :
  moved m m' d s n → mapped m s n → mapped m a k → mapped m' a k.
Proof. intros H Hs Ha i Hi. eapply moved_domain; [done|done|by apply Ha]. Qed.

Lemma moved_bytes_ok m m' d s n : bytes_ok m → moved m m' d s n → bytes_ok m'.
Proof. intros Hok H a b. rewrite H. case_decide; apply Hok. Qed.

(** A forward step: the part still to be read was not overwritten. *)
Lemma moved_forward m m1 m2 d s k n :
  0 ≤ k → 0 ≤ n → moved m m1 d s k → moved m1 m2 (d + k) (s + k) n →
  (s + k + n ≤ d ∨ d ≤ s) → moved m m2 d s (k + n).
Proof.
  intros Hk Hn H1 H2 Hov a. rewrite H2. case_decide.
  - rewrite H1, decide_False by lia. rewrite decide_True by lia. f_equal. lia.
  - rewrite H1. repeat case_decide; lia || done.
Qed.

(** A backward step. *)
Lemma moved_backward m m1 m2 d s k n :
  0 ≤ k → 0 ≤ n → moved m m1 (d + n) (s + n) k → moved m1 m2 d s n →
  s ≤ d → moved m m2 d s (n + k).
Proof.
  intros Hk Hn H1 H2 Hov a. rewrite H2. case_decide.
  - rewrite H1, decide_False by lia. rewrite decide_True by lia. done.
  - rewrite H1. repeat case_decide; try lia; [f_equal; lia|done].
Qed.

(** ** Memory evolution *)

Definition mem_ok (m : mem) : Prop := bytes_ok m ∧ words_mapped m.

(** [m'] has the mapping of [m] and differs from it only inside [P]. *)
Record evolves (m m' : mem) (P : Z → Prop) : Prop := {
  ev_ok : bytes_ok m → bytes_ok m';
  ev_dom : ∀ a, is_Some (m' !! a) ↔ is_Some (m !! a);
  ev_frame : ∀ a, ¬ P a → m' !! a = m !! a
}.

Lemma evolves_refl m P : evolves m m P.
Proof. by split. Qed.

Lemma evolves_trans m1 m2 m3 (P Q R : Z → Prop) :
  evolves m1 m2 P → evolves m2 m3 Q → (∀ a, P a → R a) → (∀ a, Q a → R a) → evolves m1 m3 R.
Proof.
  intros [O1 D1 F1] [O2 D2 F2] HP HQ. split; [auto|intros a; by rewrite D2|].
  intros a Ha. rewrite F2, F1; auto.
Qed.

Lemma evolves_trans3 m1 m2 m3 m4 (P Q R S : Z → Prop) :
  evolves m1 m2 P → evolves m2 m3 Q → evolves m3 m4 R →
  (∀ a, P a → S a) → (∀ a, Q a → S a) → (∀ a, R a → S a) → evolves m1 m4 S.
Proof.
  intros H1 H2 H3 HP HQ HR. apply (evolves_trans m1 m3 m4 S R S); [|done|done|done].
  by apply (evolves_trans m1 m2 m3 P Q S).
Qed.

Lemma evolves_ok m m' P : evolves m m' P → mem_ok m → mem_ok m'.
Proof.
  intros [O D _] [Hok Hw]. split; [auto|]. intros a i Ha Hi. apply D, Hw; [by apply D|done].
Qed.

Lemma evolves_mapped m m' P a n : evolves m m' P → mapped m a n → mapped m' a n.
Proof. intros [_ D _] Hm i Hi. apply D. by apply Hm. Qed.

Lemma evolves_holds m m' P a bs :
  evolves m m' P → (∀ x, a ≤ x < a + Z.of_nat (length bs) → ¬ P x) → holds m a bs → holds m' a bs.
Proof.
  intros [_ _ F] Hd Hh i b Hi. rewrite F; [by apply Hh|]. apply Hd.
  pose proof (lookup_lt_Some _ _ _ Hi). lia.
Qed.

Lemma evolves_cstr m m' P a s :
  evolves m m' P → (∀ x, a ≤ x ≤ a + Z.of_nat (length s) → ¬ P x) → cstr m a s → cstr m' a s.
Proof.
  intros He Hd [Hh Hnz]. split; [|done]. apply (evolves_holds _ _ _ _ _ He); [|done].
  intros x Hx. apply Hd. rewrite length_app in Hx. cbn in Hx. lia.
Qed.

Lemma store8_evolves m a v :
  is_Some (m !! a) → ∃ m', store8 a v m = Ret (tt, m') ∧ evolves m m' (λ x, x = a) ∧ m' !! a = Some (u8 v).
Proof.
  intros Ha. exists (<[a := u8 v]> m). split_and!; [by apply store8_run| |by rewrite lookup_insert_eq].
  split.
  - intros Hok x b. destruct (decide (x = a)) as [->|].
    + rewrite lookup_insert_eq. intros [= <-]. apply (wrap_bound 8). lia.
    + rewrite lookup_insert_ne by done. apply Hok.
  - intros x. destruct (decide (x = a)) as [->|]; [rewrite lookup_insert_eq|by rewrite lookup_insert_ne].
    split; eauto.
  - intros x Hx. by rewrite lookup_insert_ne by congruence.
Qed.

Lemma le_split_length n : ∀ w, length (le_split n w) = n.
Proof. induction n as [|n IH]; intros w; cbn; [done|]. by rewrite IH. Qed.

Lemma le_split_bytes n : ∀ w, Forall is_byte (le_split n w).
Proof.
  induction n as [|n IH]; intros w; cbn; constructor; [|apply IH].
  apply Z.mod_pos_bound. done.
Qed.

Lemma le_combine_split n : ∀ w, 0 ≤ w < 256 ^ Z.of_nat n → le_combine (le_split n w) = w.
Proof.
  induction n as [|n IH]; intros w Hw; cbn [le_split le_combine].
  { cbn in Hw. lia. }
  rewrite Nat2Z.inj_succ, Z.pow_succ_r in Hw by lia. rewrite IH.
  - pose proof (Z.div_mod w 256 ltac:(done)). lia.
  - split; [apply Z.div_pos; lia|apply Z.div_lt_upper_bound; lia].
Qed.

Lemma holds_loadw m a n w :
  0 ≤ w < 256 ^ Z.of_nat n → holds m a (le_split n w) → loadw n a m = Ret (w, m).
Proof.
  intros Hw Hh.
  assert (Hm : mapped m a (Z.of_nat n)).
  { intros i Hi. destruct (lookup_lt_is_Some_2 (le_split n w) (Z.to_nat i)) as [b Hb];
      [rewrite le_split_length; lia|]. apply Hh in Hb. rewrite Z2Nat.id in Hb by lia. eauto. }
  destruct (loadw_run n a m Hm) as (bs & -> & Hl & Hbs).
  enough (bs = le_split n w) as -> by by rewrite le_combine_split.
  apply list_eq. intros i. destruct (decide (i < n)%nat) as [Hi|Hi].
  - destruct (lookup_lt_is_Some_2 bs i) as [b Hb]; [lia|].
    destruct (lookup_lt_is_Some_2 (le_split n w) i) as [c Hc]; [rewrite le_split_length; lia|].
    pose proof (Hbs _ _ Hb). pose proof (Hh _ _ Hc). congruence.
  - rewrite !lookup_ge_None_2; [done|rewrite le_split_length; lia|lia].
Qed.

Lemma storew_evolves m n a w :
  mapped m a (Z.of_nat n) →
  ∃ m', storew n a w m = Ret (tt, m') ∧ evolves m m' (λ x, a ≤ x < a + Z.of_nat n) ∧
    holds m' a (le_split n w).
Proof.
  intros Hm. destruct (store_bytes_run (le_split n w) a m (le_split_bytes n w)) as (m' & Hr & Hm').
  { by rewrite le_split_length. }
  rewrite le_split_length in Hm'. exists m'. split_and!; [done| |].
  - split.
    + intros Hok x b. rewrite Hm'. case_decide; [|apply Hok].
      apply (Forall_lookup_1 _ _ _ _ (le_split_bytes n w)).
    + intros x. rewrite Hm'. case_decide as Hx; [|done]. split; intros _.
      * replace x with (a + (x - a)) by lia. apply Hm. lia.
      * apply lookup_lt_is_Some_2. rewrite le_split_length. lia.
    + intros x Hx. rewrite Hm'. by rewrite decide_False.
  - intros i b Hi. pose proof (lookup_lt_Some _ _ _ Hi) as Hlt. rewrite le_split_length in Hlt.
    rewrite Hm', decide_True by lia. by replace (Z.to_nat (a + Z.of_nat i - a)) with i by lia.
Qed.

#[global] Arguments le_split : simpl never.

(** ** A memory of one mapped region *)

Definition region (base : Z) (bs : list Z) : mem := map_seqZ base bs.

Lemma region_bytes_ok base bs : Forall is_byte bs → bytes_ok (region base bs).
Proof.
  intros Hb a b [_ H]%lookup_map_seqZ_Some. by apply (Forall_lookup_1 _ _ _ _ Hb H).
Qed.

Lemma region_words_mapped base bs n :
  base mod 8 = 0 → Z.of_nat (length bs) = 8 * n → words_mapped (region base bs).
Proof.
  intros Hb Hl a i [? ?]%lookup_map_seqZ_is_Some Hi. apply lookup_map_seqZ_is_Some.
  apply Z.div_exact in Hb; [|done]. rewrite Hb, Hl in *.
  pose proof (Z.div_mod a 8 ltac:(done)). pose proof (Z.mod_pos_bound a 8 ltac:(done)). lia.
Qed.

Lemma region_mapped base bs a n :
  base ≤ a → a + n ≤ base + Z.of_nat (length bs) → mapped (region base bs) a n.
Proof. intros ?? i ?. apply lookup_map_seqZ_is_Some. lia. Qed.

(** The bytes at offset [k] of a region, and a string there. *)
Lemma region_holds base bs k n :
  holds (region base bs) (base + Z.of_nat k) (take n (drop k bs)).
Proof.
  intros i b [Hi _]%lookup_take_Some. rewrite lookup_drop in Hi.
  replace (base + Z.of_nat k + Z.of_nat i) with (base + Z.of_nat (k + i)) by lia.
  by apply lookup_map_seqZ_Some_inv.
Qed.

Lemma region_cstr base bs k s :
  take (S (length s)) (drop k bs) = s ++ [0] → Forall (λ b, b ≠ 0) s →
  cstr (region base bs) (base + Z.of_nat k) s.
Proof. intros H Hnz. split; [|done]. rewrite <-H. apply region_holds. Qed.
