(* ===== verification/CString.v ===== *)
(** * The kernel's string routines ([kernel/misc/string.c])

    The routines run on the byte memory of [Memory]; a [char *] is an address,
    0 being [NULL].  Word-at-a-time loops load and store whole 64-bit words as
    the source does, with its alignment tests.  Loops carry fuel; the fuel the
    routines pass is the number of mapped bytes, which the theorems show to be
    enough.  The substring search ([strstr] and its helpers) is not modelled. *)

From S2P Require Import Prelude Memory.

(** One more than the number of mapped bytes: no scan of distinct mapped
    addresses is longer. *)
Definition mem_fuel : M mem nat := gets (λ m, S (size m)).

(** ** Copying and filling *)

(** [for (; n >= w; n -= w) *d++ = *s++;] on [w]-byte objects. *)
Fixpoint copy_loop (w : nat) (fuel : nat) (d s n : Z) : M mem (Z * Z * Z) :=
  match fuel with
  | O => spin
  | S fuel =>
      if Z.of_nat w <=? n then
        (v ← loadw w s; storew w d v);;
        copy_loop w fuel (d + Z.of_nat w) (s + Z.of_nat w) (n - Z.of_nat w)
      else mret (d, s, n)
  end.

Definition memcpy (dest src n : Z) : M mem Z :=
  let fuel := S (Z.to_nat n) in
  r ← (if (Z.land dest 7 =? 0) && (Z.land src 7 =? 0)
       then copy_loop 8 fuel dest src n else mret (dest, src, n));
  let '(d_32, s_32, n) := r in
  r ← (if (Z.land d_32 3 =? 0) && (Z.land s_32 3 =? 0)
       then copy_loop 4 fuel d_32 s_32 n else mret (d_32, s_32, n));
  let '(d, s, n) := r in
  copy_loop 1 fuel d s n;;
  mret dest.

Fixpoint memset_loop (fuel : nat) (dest c n i : Z) : M mem unit :=
  match fuel with
  | O => spin
  | S fuel => if i <? n then store8 (dest + i) c;; memset_loop fuel dest c n (i + 1) else mret tt
  end.

Definition memset (dest c n : Z) : M mem Z :=
  memset_loop (S (Z.to_nat n)) dest c n 0;; mret dest.

(** Copy forward byte by byte up to an aligned destination;
    [None]: the count ran out and [memmove] returned. *)
Fixpoint move_align_up (fuel : nat) (d s n : Z) : M mem (option (Z * Z * Z)) :=
  match fuel with
  | O => spin
  | S fuel =>
      if d mod 8 =? 0 then mret (Some (d, s, n))
      else if n =? 0 then mret None
      else (v ← load8 s; store8 d v);; move_align_up fuel (d + 1) (s + 1) (n - 1)
  end.

(** Copy backward byte by byte down to an aligned end of the destination. *)
Fixpoint move_align_down (fuel : nat) (d s n : Z) : M mem (option Z) :=
  match fuel with
  | O => spin
  | S fuel =>
      if (d + n) mod 8 =? 0 then mret (Some n)
      else if n =? 0 then mret None
      else (v ← load8 (s + (n - 1)); store8 (d + (n - 1)) v);; move_align_down fuel d s (n - 1)
  end.

(** [while (n >= w) { n -= w; d[n..] = s[n..]; }]. *)
Fixpoint move_down (w : nat) (fuel : nat) (d s n : Z) : M mem Z :=
  match fuel with
  | O => spin
  | S fuel =>
      if Z.of_nat w <=? n then
        let n := n - Z.of_nat w in
        (v ← loadw w (s + n); storew w (d + n) v);; move_down w fuel d s n
      else mret n
  end.

Definition memmove (dest src n : Z) : M mem Z :=
  let fuel := S (Z.to_nat n) in
  if dest =? src then mret dest else
  if (src + n <=? dest) || (dest + n <=? src) then memcpy dest src n else
  if dest <? src then
    r ← (if src mod 8 =? dest mod 8 then
           r ← move_align_up fuel dest src n;
           match r with
           | None => mret None
           | Some (d, s, n) => t ← copy_loop 8 fuel d s n; mret (Some t)
           end
         else mret (Some (dest, src, n)));
    match r with
    | None => mret dest
    | Some (d, s, n) => copy_loop 1 fuel d s n;; mret dest
    end
  else
    r ← (if src mod 8 =? dest mod 8 then
           r ← move_align_down fuel dest src n;
           match r with
           | None => mret None
           | Some n => n ← move_down 8 fuel dest src n; mret (Some n)
           end
         else mret (Some n));
    match r with
    | None => mret dest
    | Some n => move_down 1 fuel dest src n;; mret dest
    end.

(** ** Scanning *)

(** [for (; !stop( *s); s++);] *)
Fixpoint scan_bytes (fuel : nat) (stop : Z → bool) (s : Z) : M mem Z :=
  match fuel with
  | O => spin
  | S fuel => b ← load8 s; if stop b then mret s else scan_bytes fuel stop (s + 1)
  end.

(** [for (w = s; !stop( *w); w++);] on 64-bit words. *)
Fixpoint scan_words (fuel : nat) (stop : Z → bool) (w : Z) : M mem Z :=
  match fuel with
  | O => spin
  | S fuel => x ← loadw 8 w; if stop x then mret w else scan_words fuel stop (w + 8)
  end.

(** [for (; s % ALIGN; s++) if (stop( *s)) return s;]: [inl] is the return. *)
Fixpoint scan_align (fuel : nat) (stop : Z → bool) (s : Z) : M mem (Z + Z) :=
  match fuel with
  | O => spin
  | S fuel =>
      if s mod 8 =? 0 then mret (inr s) else
      b ← load8 s; if stop b then mret (inl s) else scan_align fuel stop (s + 1)
  end.

Definition strlen (s : Z) : M mem Z :=
  fuel ← mem_fuel;
  let stop b := b =? 0 in
  r ← scan_align fuel stop s;
  match r with
  | inl e => mret (e - s)
  | inr w => w ← scan_words fuel HASZERO w; e ← scan_bytes fuel stop w; mret (e - s)
  end.

Definition strchrnul (s c : Z) : M mem Z :=
  let c := u8 c in
  if c =? 0 then n ← strlen s; mret (s + n) else
  fuel ← mem_fuel;
  let stop b := (b =? 0) || (b =? c) in
  r ← scan_align fuel stop s;
  match r with
  | inl e => mret e
  | inr w =>
      let k := u64 (ONES * c) in
      w ← scan_words fuel (λ x, HASZERO x || HASZERO (Z.lxor x k)) w;
      scan_bytes fuel stop w
  end.

Definition strchr (s c : Z) : M mem Z :=
  r ← strchrnul s c; b ← load8 r; mret (if b =? u8 c then r else 0).

(** [while (n--) if (s[n] == c) return s + n; return 0;] *)
Fixpoint memrchr_loop (s c : Z) (n : nat) : M mem Z :=
  match n with
  | O => mret 0
  | S n => b ← load8 (s + Z.of_nat n);
           if b =? c then mret (s + Z.of_nat n) else memrchr_loop s c n
  end.

Definition memrchr (s c n : Z) : M mem Z := memrchr_loop s (u8 c) (Z.to_nat n).

Definition strrchr (s c : Z) : M mem Z := n ← strlen s; memrchr s c (n + 1).

Definition lfind (str accept : Z) : M mem Z := strchr str accept.
Definition rfind (str accept : Z) : M mem Z := strrchr str accept.

(** The three loops of [memchr], each bounded by the remaining count. *)
Fixpoint memchr_align (fuel : nat) (s c n : Z) : M mem (Z * Z) :=
  match fuel with
  | O => spin
  | S fuel =>
      if (negb (Z.land s 7 =? 0)) && (negb (n =? 0)) then
        b ← load8 s; if b =? c then mret (s, n) else memchr_align fuel (s + 1) c (n - 1)
      else mret (s, n)
  end.

Fixpoint memchr_words (fuel : nat) (w k n : Z) : M mem (Z * Z) :=
  match fuel with
  | O => spin
  | S fuel =>
      if 8 <=? n then
        x ← loadw 8 w;
        if HASZERO (Z.lxor x k) then mret (w, n) else memchr_words fuel (w + 8) k (n - 8)
      else mret (w, n)
  end.

Fixpoint memchr_bytes (fuel : nat) (s c n : Z) : M mem (Z * Z) :=
  match fuel with
  | O => spin
  | S fuel =>
      if negb (n =? 0) then
        b ← load8 s; if b =? c then mret (s, n) else memchr_bytes fuel (s + 1) c (n - 1)
      else mret (s, n)
  end.

Definition memchr (src c n : Z) : M mem Z :=
  let c := u8 c in
  let fuel := S (Z.to_nat n) in
  r ← memchr_align fuel src c n;
  let '(s, n) := r in
  r ← (if negb (n =? 0) then
         b ← load8 s;
         if negb (b =? c) then
           r ← memchr_words fuel s (u64 (ONES * c)) n;
           let '(s, n) := r in memchr_bytes fuel s c n
         else mret (s, n)
       else mret (s, n));
  let '(s, n) := r in
  mret (if negb (n =? 0) then s else 0).

(** ** Comparing *)

(** [char] is signed on the target. *)
Fixpoint strcmp_loop (fuel : nat) (a b i : Z) : M mem Z :=
  match fuel with
  | O => spin
  | S fuel =>
      x ← load8 (a + i); y ← load8 (b + i);
      if s8 x <? s8 y then mret (-1)
      else if s8 y <? s8 x then mret 1
      else if x =? 0 then mret 0
      else strcmp_loop fuel a b (u32 (i + 1))
  end.

Definition strcmp (a b : Z) : M mem Z := fuel ← mem_fuel; strcmp_loop fuel a b 0.

Fixpoint memcmp_loop (n : nat) (l r : Z) : M mem Z :=
  match n with
  | O => mret 0
  | S n => x ← load8 l; y ← load8 r;
           if x =? y then memcmp_loop n (l + 1) (r + 1) else mret (x - y)
  end.

Definition memcmp (vl vr n : Z) : M mem Z := memcmp_loop (Z.to_nat n) vl vr.

(** ** Byte sets *)

(** [size_t byteset[4]]; [BITOP(byteset, b, |=)] and [BITOP(byteset, b, &)]. *)
Definition byteset_empty : list Z := [0; 0; 0; 0].
Definition byteset_set (set : list Z) (b : Z) : list Z :=
  alter (λ w, Z.lor w (Z.shiftl 1 (b mod 64))) (Z.to_nat (b / 64)) set.
Definition byteset_test (set : list Z) (b : Z) : bool :=
  match set !! Z.to_nat (b / 64) with
  | Some w => negb (Z.land w (Z.shiftl 1 (b mod 64)) =? 0)
  | None => false
  end.

(** [for (; *c && BITOP(byteset, *c, |=); c++);] *)
Fixpoint byteset_load (fuel : nat) (set : list Z) (c : Z) : M mem (list Z) :=
  match fuel with
  | O => spin
  | S fuel => b ← load8 c; if b =? 0 then mret set else byteset_load fuel (byteset_set set b) (c + 1)
  end.

Definition strspn (s c : Z) : M mem Z :=
  fuel ← mem_fuel;
  c0 ← load8 c;
  if c0 =? 0 then mret 0 else
  c1 ← load8 (c + 1);
  if c1 =? 0 then e ← scan_bytes fuel (λ b, negb (b =? c0)) s; mret (e - s) else
  set ← byteset_load fuel byteset_empty c;
  e ← scan_bytes fuel (λ b, (b =? 0) || negb (byteset_test set b)) s;
  mret (e - s).

Definition strcspn (s c : Z) : M mem Z :=
  fuel ← mem_fuel;
  c0 ← load8 c;
  if c0 =? 0 then e ← strchrnul s c0; mret (e - s) else
  c1 ← load8 (c + 1);
  if c1 =? 0 then e ← strchrnul s c0; mret (e - s) else
  set ← byteset_load fuel byteset_empty c;
  e ← scan_bytes fuel (λ b, (b =? 0) || byteset_test set b) s;
  mret (e - s).

Definition strpbrk (s b : Z) : M mem Z :=
  n ← strcspn s b; x ← load8 (s + n); mret (if x =? 0 then 0 else s + n).

(** [strtok_r]: the saved pointer is passed in and out. *)
Definition strtok_r (str delim saveptr : Z) : M mem (Z * Z) :=
  let str := if str =? 0 then saveptr else str in
  n ← strspn str delim;
  let str := str + n in
  b ← load8 str;
  if b =? 0 then mret (0, str) else
  let token := str in
  str ← strpbrk token delim;
  if str =? 0 then
    saveptr ← lfind token 0; mret (token, saveptr)
  else
    store8 str 0;; mret (token, str + 1).

(** ** Numbers *)

Fixpoint atoi_loop (fuel : nat) (c out : Z) : M mem Z :=
  match fuel with
  | O => spin
  | S fuel => b ← load8 c; if b =? 0 then mret out
              else atoi_loop fuel (c + 1) (s64 (s64 (out * 10) + (s8 b - 48)))
  end.

Definition atoi (c : Z) : M mem Z :=
  fuel ← mem_fuel;
  b ← load8 c;
  let neg := b =? 45 in
  out ← atoi_loop fuel (if neg then c + 1 else c) 0;
  mret (s32 (out * (if neg then -1 else 1))).

(** The value [xtoi] adds for one character. *)
Definition xtoi_digit (b : Z) : Z :=
  if (48 <=? b) && (b <=? 57) then b - 48
  else if (97 <=? b) && (b <=? 102) then b - 97 + 10
  else if (65 <=? b) && (b <=? 70) then b - 65 + 10
  else 0.

Fixpoint xtoi_loop (fuel : nat) (c out : Z) : M mem Z :=
  match fuel with
  | O => spin
  | S fuel => b ← load8 c; if b =? 0 then mret out
              else xtoi_loop fuel (c + 1) (u64 (u64 (out * 16) + xtoi_digit b))
  end.

Definition xtoi (c : Z) : M mem Z :=
  fuel ← mem_fuel;
  b0 ← load8 c;
  if b0 =? 48 then
    b1 ← load8 (c + 1);
    xtoi_loop fuel (if b1 =? 120 then c + 2 else c) 0
  else xtoi_loop fuel c 0.

(** ** Copying and filling: correctness *)

(** The copy of [n] bytes from [s] to [d] may proceed forward. *)
Definition forward_ok (d s n : Z) : Prop := s + n ≤ d ∨ d ≤ s.

Lemma mapped_sub m a n b k : mapped m a n → a ≤ b → b + k ≤ a + n → mapped m b k.
Proof. intros H ? ? i Hi. replace (b + i) with (a + (b + i - a)) by lia. apply H. lia. Qed.

Lemma copy_loop_run w fuel : ∀ d s n m,
  (0 < w)%nat → (Z.to_nat n < fuel)%nat → 0 ≤ n → bytes_ok m →
  mapped m s n → mapped m d n → forward_ok d s n →
  ∃ m' k, copy_loop w fuel d s n m = Ret ((d + k, s + k, n - k), m') ∧
    0 ≤ k ≤ n ∧ n - k < Z.of_nat w ∧ moved m m' d s k.
Proof.
  induction fuel as [|fuel IH]; intros d s n m Hw Hf Hn Hok Hs Hd Hov; [lia|].
  cbn [copy_loop]. destruct (Z.leb_spec (Z.of_nat w) n) as [Hle|Hgt].
  - destruct (copy_word_run w d s m Hok) as (m1 & Hr & Hm1);
      [eapply mapped_sub; [exact Hs|lia|lia]|eapply mapped_sub; [exact Hd|lia|lia]|].
    assert (Hsw : mapped m s (Z.of_nat w)) by (eapply mapped_sub; [exact Hs|lia|lia]).
    destruct (IH (d + Z.of_nat w) (s + Z.of_nat w) (n - Z.of_nat w) m1) as (m2 & k & Hr2 & Hk & Hlt & Hm2);
      try lia.
    + by eapply moved_bytes_ok.
    + eapply mapped_sub; [eapply moved_mapped; [exact Hm1|exact Hsw|exact Hs]|lia|lia].
    + eapply mapped_sub; [eapply moved_mapped; [exact Hm1|exact Hsw|exact Hd]|lia|lia].
    + unfold forward_ok in *. lia.
    + exists m2, (Z.of_nat w + k). rewrite (run_bind_Ret _ _ _ _ _ Hr), Hr2.
      split_and!; [|lia..|].
      * by rewrite !Z.add_assoc, Z.sub_add_distr.
      * eapply moved_forward; [lia|lia|exact Hm1|exact Hm2|unfold forward_ok in *; lia].
  - exists m, 0. rewrite !Z.add_0_r, Z.sub_0_r. split_and!; try lia; [done|apply moved_0].
Qed.

(** A conditional copy loop: the same, with any number of bytes copied. *)
Lemma copy_stage_run (c : bool) w fuel d s n m :
  (0 < w)%nat → (Z.to_nat n < fuel)%nat → 0 ≤ n → bytes_ok m →
  mapped m s n → mapped m d n → forward_ok d s n →
  ∃ m' k, (if c then copy_loop w fuel d s n else mret (d, s, n)) m = Ret ((d + k, s + k, n - k), m') ∧
    0 ≤ k ≤ n ∧ moved m m' d s k.
Proof.
  intros. destruct c.
  - destruct (copy_loop_run w fuel d s n m) as (m' & k & ? & ? & ? & ?); try done. by exists m', k.
  - exists m, 0. rewrite !Z.add_0_r, Z.sub_0_r. split_and!; try lia; [done|apply moved_0].
Qed.

(** Byte copying completes a copy. *)
Lemma copy_finish_run fuel d s n m :
  (Z.to_nat n < fuel)%nat → 0 ≤ n → bytes_ok m →
  mapped m s n → mapped m d n → forward_ok d s n →
  ∃ r m', copy_loop 1 fuel d s n m = Ret (r, m') ∧ moved m m' d s n.
Proof.
  intros. destruct (copy_loop_run 1 fuel d s n m) as (m' & k & Hr & ? & ? & Hm); try done; [lia|].
  replace k with n in * by lia. eauto.
Qed.

(** The state after [k] of [n] bytes: what the next stage needs. *)
Lemma moved_stage m m' d s n k :
  bytes_ok m → mapped m s n → mapped m d n → forward_ok d s n → 0 ≤ k ≤ n → moved m m' d s k →
  bytes_ok m' ∧ mapped m' (s + k) (n - k) ∧ mapped m' (d + k) (n - k) ∧
  forward_ok (d + k) (s + k) (n - k).
Proof.
  intros Hok Hs Hd Hov Hk Hm.
  assert (mapped m s k) by (eapply mapped_sub; [exact Hs|lia|lia]).
  split_and!; [by eapply moved_bytes_ok| | |unfold forward_ok in *; lia];
    [eapply (mapped_sub m' s n)|eapply (mapped_sub m' d n)]; try lia;
    (eapply moved_mapped; [exact Hm|done|done]).
Qed.

Lemma memcpy_run dest src n m :
  bytes_ok m → 0 ≤ n → mapped m src n → mapped m dest n → forward_ok dest src n →
  ∃ m', memcpy dest src n m = Ret (dest, m') ∧ moved m m' dest src n.
Proof.
  intros Hok Hn Hs Hd Hov. unfold memcpy. set (fuel := S (Z.to_nat n)).
  destruct (copy_stage_run ((Z.land dest 7 =? 0) && (Z.land src 7 =? 0)) 8 fuel dest src n m)
    as (m1 & k1 & Hr1 & Hk1 & Hm1); [lia|lia|done..|].
  erewrite run_bind_Ret by exact Hr1. cbn beta iota.
  destruct (moved_stage _ _ _ _ _ _ Hok Hs Hd Hov Hk1 Hm1) as (Hok1 & Hs1 & Hd1 & Hov1).
  destruct (copy_stage_run ((Z.land (dest + k1) 3 =? 0) && (Z.land (src + k1) 3 =? 0)) 4 fuel
    (dest + k1) (src + k1) (n - k1) m1) as (m2 & k2 & Hr2 & Hk2 & Hm2); [lia|lia|lia|done..|].
  erewrite run_bind_Ret by exact Hr2. cbn beta iota.
  destruct (moved_stage _ _ _ _ _ _ Hok1 Hs1 Hd1 Hov1 Hk2 Hm2) as (Hok2 & Hs2 & Hd2 & Hov2).
  destruct (copy_finish_run fuel (dest + k1 + k2) (src + k1 + k2) (n - k1 - k2) m2)
    as (r & m3 & Hr3 & Hm3); [lia|lia|done..|].
  erewrite run_bind_Ret by exact Hr3. exists m3. split; [done|].
  replace n with (k1 + (k2 + (n - k1 - k2))) by lia.
  eapply moved_forward; [lia|lia|done| |unfold forward_ok in *; lia].
  eapply moved_forward; [lia|lia|done|done|unfold forward_ok in *; lia].
Qed.

(** *** memmove *)

Lemma move_align_up_run fuel : ∀ d s n m,
  (Z.to_nat n < fuel)%nat → 0 ≤ n → bytes_ok m → mapped m s n → mapped m d n → d ≤ s →
  ∃ m' k, move_align_up fuel d s n m =
      Ret (if decide (k = n ∧ (d + k) mod 8 ≠ 0) then None else Some (d + k, s + k, n - k), m') ∧
    0 ≤ k ≤ n ∧ moved m m' d s k.
Proof.
  induction fuel as [|fuel IH]; intros d s n m Hf Hn Hok Hs Hd Hov; [lia|].
  cbn [move_align_up]. destruct (Z.eqb_spec (d mod 8) 0) as [Ha|Ha].
  { exists m, 0. rewrite !Z.add_0_r, Z.sub_0_r. rewrite decide_False by tauto.
    split_and!; try lia; [done|apply moved_0]. }
  destruct (Z.eqb_spec n 0) as [->|Hn0].
  { exists m, 0. rewrite !Z.add_0_r, decide_True by tauto.
    split_and!; try lia; [done|apply moved_0]. }
  destruct (copy_byte_run d s m Hok) as (m1 & Hr & Hm1).
  { rewrite <-(Z.add_0_r s). apply Hs. lia. } { rewrite <-(Z.add_0_r d). apply Hd. lia. }
  destruct (moved_stage m m1 d s n 1) as (Hok1 & Hs1 & Hd1 & _); try done; [unfold forward_ok; lia|lia|].
  destruct (IH (d + 1) (s + 1) (n - 1) m1) as (m2 & k & Hr2 & Hk & Hm2); try done; try lia.
  exists m2, (1 + k). rewrite (run_bind_Ret _ _ _ _ _ Hr), Hr2. split_and!; [|lia..|].
  - rewrite !Z.add_assoc, Z.sub_add_distr. do 2 f_equal.
    apply decide_ext. split; intros [? ?]; split; [lia|done|lia|done].
  - eapply moved_forward; [lia|lia|done|done|lia].
Qed.

Lemma move_down_run w fuel : ∀ d s n m,
  (0 < w)%nat → (Z.to_nat n < fuel)%nat → 0 ≤ n → bytes_ok m →
  mapped m s n → mapped m d n → s ≤ d →
  ∃ m' k, move_down w fuel d s n m = Ret (n - k, m') ∧ 0 ≤ k ≤ n ∧ n - k < Z.of_nat w ∧
    moved m m' (d + (n - k)) (s + (n - k)) k.
Proof.
  induction fuel as [|fuel IH]; intros d s n m Hw Hf Hn Hok Hs Hd Hov; [lia|].
  cbn [move_down]. destruct (Z.leb_spec (Z.of_nat w) n) as [Hle|Hgt].
  - set (n' := n - Z.of_nat w).
    assert (Hsw : mapped m (s + n') (Z.of_nat w)) by (eapply mapped_sub; [exact Hs|lia|lia]).
    destruct (copy_word_run w (d + n') (s + n') m Hok Hsw) as (m1 & Hr & Hm1);
      [eapply mapped_sub; [exact Hd|lia|lia]|].
    destruct (IH d s n' m1) as (m2 & k & Hr2 & Hk & Hlt & Hm2); try lia.
    + by eapply moved_bytes_ok.
    + eapply mapped_sub; [eapply moved_mapped; [exact Hm1|exact Hsw|exact Hs]|lia|lia].
    + eapply mapped_sub; [eapply moved_mapped; [exact Hm1|exact Hsw|exact Hd]|lia|lia].
    + exists m2, (k + Z.of_nat w). rewrite (run_bind_Ret _ _ _ _ _ Hr), Hr2.
      replace (n - (k + Z.of_nat w)) with (n' - k) by lia. split_and!; [done|lia..|].
      eapply moved_backward; [lia|lia| |done|lia].
      by replace (d + (n' - k) + k) with (d + n') by lia;
         replace (s + (n' - k) + k) with (s + n') by lia.
  - exists m, 0. rewrite Z.sub_0_r. split_and!; try lia; [done|apply moved_0].
Qed.

Lemma move_align_down_run fuel : ∀ d s n m,
  (Z.to_nat n < fuel)%nat → 0 ≤ n → bytes_ok m → mapped m s n → mapped m d n → s ≤ d →
  ∃ m' k, move_align_down fuel d s n m =
      Ret (if decide (k = n ∧ d mod 8 ≠ 0) then None else Some (n - k), m') ∧
    0 ≤ k ≤ n ∧ moved m m' (d + (n - k)) (s + (n - k)) k.
Proof.
  induction fuel as [|fuel IH]; intros d s n m Hf Hn Hok Hs Hd Hov; [lia|].
  cbn [move_align_down]. destruct (Z.eqb_spec ((d + n) mod 8) 0) as [Ha|Ha].
  { exists m, 0. rewrite Z.sub_0_r. rewrite decide_False
      by (intros [<- ?]; rewrite Z.add_0_r in Ha; done).
    split_and!; try lia; [done|apply moved_0]. }
  destruct (Z.eqb_spec n 0) as [->|Hn0].
  { exists m, 0. rewrite Z.add_0_r in Ha. rewrite decide_True by done.
    split_and!; try lia; [done|apply moved_0]. }
  destruct (copy_byte_run (d + (n - 1)) (s + (n - 1)) m Hok) as (m1 & Hr & Hm1);
    [apply Hs; lia|apply Hd; lia|].
  assert (Hs1 : mapped m (s + (n - 1)) 1) by (eapply mapped_sub; [exact Hs|lia|lia]).
  destruct (IH d s (n - 1) m1) as (m2 & k & Hr2 & Hk & Hm2); try lia.
  + by eapply moved_bytes_ok.
  + eapply mapped_sub; [eapply moved_mapped; [exact Hm1|exact Hs1|exact Hs]|lia|lia].
  + eapply mapped_sub; [eapply moved_mapped; [exact Hm1|exact Hs1|exact Hd]|lia|lia].
  + exists m2, (k + 1). rewrite (run_bind_Ret _ _ _ _ _ Hr), Hr2.
    replace (n - (k + 1)) with (n - 1 - k) by lia. split_and!; [|lia..|].
    * do 2 f_equal. apply decide_ext. split; intros [? ?]; split; [lia|done|lia|done].
    * eapply moved_backward; [lia|lia| |done|lia].
      by replace (d + (n - 1 - k) + k) with (d + (n - 1)) by lia;
         replace (s + (n - 1 - k) + k) with (s + (n - 1)) by lia.
Qed.

(** The forward half of [memmove]. *)
Lemma memmove_up_run dest src n m :
  bytes_ok m → 0 ≤ n → mapped m src n → mapped m dest n → dest < src →
  ∃ m', (r ← (if src mod 8 =? dest mod 8 then
           r ← move_align_up (S (Z.to_nat n)) dest src n;
           match r with
           | None => mret None
           | Some (d, s, n') => t ← copy_loop 8 (S (Z.to_nat n)) d s n'; mret (Some t)
           end
         else mret (Some (dest, src, n)));
    match r with
    | None => mret dest
    | Some (d, s, n') => copy_loop 1 (S (Z.to_nat n)) d s n';; mret dest
    end) m = Ret (dest, m') ∧ moved m m' dest src n.
Proof.
  intros Hok Hn Hs Hd Hlt. set (fuel := S (Z.to_nat n)).
  assert (Hov : forward_ok dest src n) by (unfold forward_ok; lia).
  destruct (src mod 8 =? dest mod 8).
  - destruct (move_align_up_run fuel dest src n m) as (m1 & k & Hr & Hk & Hm1); try done; [lia..|].
    rewrite bind_assoc. erewrite run_bind_Ret by exact Hr. case_decide as Hdec.
    { destruct Hdec as [-> _]. by exists m1. }
    destruct (moved_stage _ _ _ _ _ _ Hok Hs Hd Hov Hk Hm1) as (Hok1 & Hs1 & Hd1 & Hov1).
    rewrite bind_assoc. destruct (copy_loop_run 8 fuel (dest + k) (src + k) (n - k) m1)
      as (m2 & k2 & Hr2 & Hk2 & _ & Hm2); try done; [lia..|].
    erewrite run_bind_Ret by exact Hr2.
    destruct (moved_stage _ _ _ _ _ _ Hok1 Hs1 Hd1 Hov1 Hk2 Hm2) as (Hok2 & Hs2 & Hd2 & Hov2).
    destruct (copy_finish_run fuel (dest + k + k2) (src + k + k2) (n - k - k2) m2)
      as (r & m3 & Hr3 & Hm3); try done; [lia..|].
    rewrite run_mret_bind. cbn beta iota. erewrite run_bind_Ret by exact Hr3.
    exists m3. split; [done|]. replace n with (k + (k2 + (n - k - k2))) by lia.
    eapply moved_forward; [lia|lia|done| |lia]. eapply moved_forward; [lia|lia|done|done|lia].
  - destruct (copy_finish_run fuel dest src n m) as (r & m3 & Hr3 & Hm3); try done; [lia..|].
    rewrite run_mret_bind. cbn beta iota. erewrite run_bind_Ret by exact Hr3. by exists m3.
Qed.

Lemma moved_stage_down m m' d s n k :
  bytes_ok m → mapped m s n → mapped m d n → 0 ≤ k ≤ n →
  moved m m' (d + (n - k)) (s + (n - k)) k →
  bytes_ok m' ∧ mapped m' s (n - k) ∧ mapped m' d (n - k).
Proof.
  intros Hok Hs Hd Hk Hm.
  assert (mapped m (s + (n - k)) k) by (eapply mapped_sub; [exact Hs|lia|lia]).
  split_and!; [by eapply moved_bytes_ok|eapply (mapped_sub m' s n)|eapply (mapped_sub m' d n)];
    try lia; (eapply moved_mapped; [exact Hm|done|done]).
Qed.

Lemma move_down_finish_run fuel d s n m :
  (Z.to_nat n < fuel)%nat → 0 ≤ n → bytes_ok m → mapped m s n → mapped m d n → s ≤ d →
  ∃ r m', move_down 1 fuel d s n m = Ret (r, m') ∧ moved m m' d s n.
Proof.
  intros. destruct (move_down_run 1 fuel d s n m) as (m' & k & Hr & ? & ? & Hm); try done; [lia|].
  replace k with n in * by lia. rewrite Z.sub_diag, !Z.add_0_r in Hm. eauto.
Qed.

(** The backward half. *)
Lemma memmove_down_run dest src n m :
  bytes_ok m → 0 ≤ n → mapped m src n → mapped m dest n → src < dest →
  ∃ m', (r ← (if src mod 8 =? dest mod 8 then
           r ← move_align_down (S (Z.to_nat n)) dest src n;
           match r with
           | None => mret None
           | Some n' => n' ← move_down 8 (S (Z.to_nat n)) dest src n'; mret (Some n')
           end
         else mret (Some n));
    match r with
    | None => mret dest
    | Some n' => move_down 1 (S (Z.to_nat n)) dest src n';; mret dest
    end) m = Ret (dest, m') ∧ moved m m' dest src n.
Proof.
  intros Hok Hn Hs Hd Hlt. set (fuel := S (Z.to_nat n)).
  destruct (src mod 8 =? dest mod 8).
  - destruct (move_align_down_run fuel dest src n m) as (m1 & k & Hr & Hk & Hm1); try done; [lia..|].
    rewrite bind_assoc. erewrite run_bind_Ret by exact Hr. case_decide as Hdec.
    { destruct Hdec as [-> _]. rewrite Z.sub_diag, !Z.add_0_r in Hm1. by exists m1. }
    destruct (moved_stage_down _ _ _ _ _ _ Hok Hs Hd Hk Hm1) as (Hok1 & Hs1 & Hd1).
    rewrite bind_assoc. destruct (move_down_run 8 fuel dest src (n - k) m1)
      as (m2 & k2 & Hr2 & Hk2 & _ & Hm2); try done; [lia..|].
    erewrite run_bind_Ret by exact Hr2.
    destruct (moved_stage_down _ _ _ _ _ _ Hok1 Hs1 Hd1 Hk2 Hm2) as (Hok2 & Hs2 & Hd2).
    destruct (move_down_finish_run fuel dest src (n - k - k2) m2) as (r & m3 & Hr3 & Hm3);
      try done; [lia..|].
    rewrite run_mret_bind. cbn beta iota. erewrite run_bind_Ret by exact Hr3.
    exists m3. split; [done|]. replace n with (n - k - k2 + k2 + k) by lia.
    eapply moved_backward with (m1 := m1); [lia|lia| | |lia].
    { by replace (dest + (n - k - k2 + k2)) with (dest + (n - k)) by lia;
         replace (src + (n - k - k2 + k2)) with (src + (n - k)) by lia. }
    eapply moved_backward; [lia|lia|done|done|lia].
  - destruct (move_down_finish_run fuel dest src n m) as (r & m3 & Hr3 & Hm3); try done; [lia..|].
    rewrite run_mret_bind. cbn beta iota. erewrite run_bind_Ret by exact Hr3. by exists m3.
Qed.

(** C21: [memcpy] on disjoint regions and [memmove] on any two regions copy
    exactly the [n] source bytes to the destination, read before any of them
    is overwritten, whatever the alignments (the word loops, the alignment
    loops and the byte loops together), and change no other byte. *)
Theorem memmove_copies dest src n m :
  bytes_ok m → 0 ≤ n → mapped m src n → mapped m dest n →
  (∃ m', memmove dest src n m = Ret (dest, m') ∧ moved m m' dest src n) ∧
  (src + n ≤ dest ∨ dest + n ≤ src →
   ∃ m', memcpy dest src n m = Ret (dest, m') ∧ moved m m' dest src n).
Proof.
  intros Hok Hn Hs Hd. split.
  - unfold memmove. destruct (Z.eqb_spec dest src) as [->|Hne].
    { exists m. split; [done|]. intros a. case_decide; [f_equal; lia|done]. }
    destruct (Z.leb_spec (src + n) dest); cbn [orb].
    { apply memcpy_run; try done. by left. }
    destruct (Z.leb_spec (dest + n) src); cbn [orb].
    { apply memcpy_run; try done. right; lia. }
    destruct (Z.ltb_spec dest src).
    + by apply memmove_up_run.
    + apply memmove_down_run; try done; lia.
  - intros Hdis. apply memcpy_run; try done. unfold forward_ok. lia.
Qed.

Lemma memset_loop_run dest c n fuel : ∀ i m,
  (Z.to_nat (n - i) < fuel)%nat → 0 ≤ i ≤ n → mapped m dest n →
  ∃ m', memset_loop fuel dest c n i m = Ret (tt, m') ∧
    ∀ a, m' !! a = if decide (dest + i ≤ a < dest + n) then Some (u8 c) else m !! a.
Proof.
  induction fuel as [|fuel IH]; intros i m Hf Hi Hm; [lia|]. cbn [memset_loop].
  destruct (Z.ltb_spec i n).
  - rewrite (run_bind_Ret _ _ _ _ _ (store8_run m (dest + i) c (Hm i ltac:(lia)))).
    destruct (IH (i + 1) (<[dest + i := u8 c]> m)) as (m' & Hr & Hm'); [lia|lia| |].
    { intros j Hj. destruct (decide (i = j)) as [->|];
        [rewrite lookup_insert_eq; eauto|rewrite lookup_insert_ne by lia; by apply Hm]. }
    exists m'. split; [done|]. intros a. rewrite Hm'.
    destruct (decide (a = dest + i)) as [->|].
    + rewrite decide_False, decide_True, lookup_insert_eq by lia. done.
    + rewrite lookup_insert_ne by done. repeat case_decide; lia || done.
  - exists m. split; [done|]. intros a. by rewrite decide_False by lia.
Qed.

(** ** Scanning: correctness *)

(** [k] is the distance from [s] to the first byte that satisfies [stop]. *)
Definition first_stop (m : mem) (stop : Z → bool) (s : Z) (k : nat) : Prop :=
  (∀ i, (i < k)%nat → ∃ b, m !! (s + Z.of_nat i) = Some b ∧ stop b = false) ∧
  ∃ b, m !! (s + Z.of_nat k) = Some b ∧ stop b = true.

Lemma mapped_size m s n : 0 ≤ n → mapped m s n → n ≤ Z.of_nat (size m).
Proof.
  intros Hn Hm.
  assert (Hsub : list_to_set (seqZ s n) ⊆ dom m).
  { intros a. rewrite elem_of_list_to_set, elem_of_seqZ, elem_of_dom. intros Ha.
    replace a with (s + (a - s)) by lia. apply Hm. lia. }
  apply subseteq_size in Hsub. rewrite size_dom, size_list_to_set, length_seqZ in Hsub by apply NoDup_seqZ.
  lia.
Qed.

Lemma first_stop_mapped m stop s k : first_stop m stop s k → mapped m s (Z.of_nat k + 1).
Proof.
  intros [Hlt (b & Hb & _)] i Hi. destruct (decide (i = Z.of_nat k)) as [->|]; [eauto|].
  destruct (Hlt (Z.to_nat i)) as (c & Hc & _); [lia|]. rewrite Z2Nat.id in Hc by lia. eauto.
Qed.

Lemma first_stop_fuel m stop s k : first_stop m stop s k → (k < size m)%nat.
Proof. intros H%first_stop_mapped. apply mapped_size in H; lia. Qed.

Lemma first_stop_shift m stop s k j :
  (j ≤ k)%nat → first_stop m stop s k → first_stop m stop (s + Z.of_nat j) (k - j).
Proof.
  intros Hj [Hlt (b & Hb & Hs)]. split.
  - intros i Hi. destruct (Hlt (j + i)%nat) as (c & Hc & ?); [lia|]. exists c. split; [|done].
    by replace (s + Z.of_nat j + Z.of_nat i) with (s + Z.of_nat (j + i)) by lia.
  - exists b. split; [|done]. by replace (s + Z.of_nat j + Z.of_nat (k - j)) with (s + Z.of_nat k) by lia.
Qed.

Lemma first_stop_step m stop s k b :
  first_stop m stop s k → m !! s = Some b →
  (stop b = true ∧ k = O) ∨
  (stop b = false ∧ (0 < k)%nat ∧ first_stop m stop (s + 1) (k - 1)).
Proof.
  intros Hf Hb. destruct k as [|k].
  - left. destruct Hf as [_ (c & Hc & ?)]. rewrite Z.add_0_r in Hc. naive_solver.
  - right. destruct (proj1 Hf O) as (c & Hc & ?); [lia|]. rewrite Z.add_0_r in Hc. simplify_eq.
    split_and!; [done|lia|]. by apply (first_stop_shift _ _ _ _ 1) in Hf; [|lia].
Qed.

Lemma first_stop_load m stop s k : first_stop m stop s k → ∃ b, m !! s = Some b.
Proof. intros H%first_stop_mapped. rewrite <-(Z.add_0_r s). apply H. lia. Qed.

Lemma scan_bytes_run m stop fuel : ∀ s k,
  (k < fuel)%nat → first_stop m stop s k → scan_bytes fuel stop s m = Ret (s + Z.of_nat k, m).
Proof.
  induction fuel as [|fuel IH]; intros s k Hf Hs; [lia|]. cbn [scan_bytes].
  destruct (first_stop_load _ _ _ _ Hs) as [b Hb].
  rewrite (run_bind_Ret _ _ _ _ _ (load8_run _ _ _ Hb)).
  destruct (first_stop_step _ _ _ _ _ Hs Hb) as [[-> ->]|(-> & ? & Hs')].
  - by rewrite Z.add_0_r.
  - rewrite (IH (s + 1) (k - 1)%nat ltac:(lia) Hs'). do 2 f_equal. lia.
Qed.

Lemma scan_align_run m stop fuel : ∀ s k,
  (k < fuel)%nat → first_stop m stop s k →
  ∃ j, (j ≤ k)%nat ∧ (scan_align fuel stop s m = Ret (inl (s + Z.of_nat k), m) ∨
    (scan_align fuel stop s m = Ret (inr (s + Z.of_nat j), m) ∧ (s + Z.of_nat j) mod 8 = 0)).
Proof.
  induction fuel as [|fuel IH]; intros s k Hf Hs; [lia|]. cbn [scan_align].
  destruct (Z.eqb_spec (s mod 8) 0).
  { exists O. rewrite Z.add_0_r. split; [lia|]. by right. }
  destruct (first_stop_load _ _ _ _ Hs) as [b Hb].
  rewrite (run_bind_Ret _ _ _ _ _ (load8_run _ _ _ Hb)).
  destruct (first_stop_step _ _ _ _ _ Hs Hb) as [[-> ->]|(-> & ? & Hs')].
  - exists O. rewrite Z.add_0_r. split; [lia|]. by left.
  - destruct (IH (s + 1) (k - 1)%nat ltac:(lia) Hs') as (j & Hj & [Hr|[Hr Ha]]).
    + exists k. split; [lia|]. left. rewrite Hr. do 3 f_equal. lia.
    + exists (S j). split; [lia|]. right.
      by replace (s + Z.of_nat (S j)) with (s + 1 + Z.of_nat j) by lia.
Qed.

(** [wstop] tells exactly whether a word holds a byte that satisfies [stop]. *)
Definition word_test (wstop stop : Z → bool) : Prop :=
  ∀ bs, Forall is_byte bs → length bs = 8%nat →
    wstop (le_combine bs) = existsb stop bs.

Lemma aligned_mapped m a : words_mapped m → a mod 8 = 0 → is_Some (m !! a) → mapped m a 8.
Proof.
  intros Hw Ha Hm i Hi. specialize (Hw a i Hm Hi).
  by replace (8 * (a / 8)) with a in Hw by (pose proof (Z.div_mod a 8); lia).
Qed.

Lemma existsb_first_stop m stop s k bs :
  first_stop m stop s k → holds m s bs →
  existsb stop bs = bool_decide (k < length bs)%nat.
Proof.
  intros [Hlt (b & Hb & Hs)] Hh. apply Bool.eq_true_iff_eq.
  rewrite existsb_exists, bool_decide_eq_true. split.
  - intros (c & Hin & Hc). apply list_elem_of_In, list_elem_of_lookup in Hin as [i Hi].
    destruct (decide (i < k)%nat) as [Hik|].
    + destruct (Hlt i Hik) as (c' & Hc' & ?). rewrite (Hh _ _ Hi) in Hc'. simplify_eq. congruence.
    + apply lookup_lt_Some in Hi. lia.
  - intros Hk. destruct (lookup_lt_is_Some_2 bs k Hk) as [c Hc].
    pose proof (Hh _ _ Hc) as Hc'. rewrite Hb in Hc'. simplify_eq.
    exists c. split; [|done]. apply list_elem_of_In. by eapply list_elem_of_lookup_2.
Qed.

Lemma scan_words_run m stop wstop fuel : ∀ w k,
  bytes_ok m → words_mapped m → word_test wstop stop →
  w mod 8 = 0 → (k < fuel)%nat → first_stop m stop w k →
  ∃ j, (j ≤ k)%nat ∧ scan_words fuel wstop w m = Ret (w + Z.of_nat j, m).
Proof.
  induction fuel as [|fuel IH]; intros w k Hok Hw Ht Ha Hf Hs; [lia|]. cbn [scan_words].
  destruct (loadw_run 8 w m) as (bs & Hr & Hlen & Hh).
  { apply aligned_mapped; [done|done|]. destruct (first_stop_load _ _ _ _ Hs); eauto. }
  rewrite (run_bind_Ret _ _ _ _ _ Hr), (Ht bs), (existsb_first_stop _ _ _ _ _ Hs Hh), Hlen
    by (done || by eapply holds_bytes).
  case_bool_decide as Hk.
  - exists O. rewrite Z.add_0_r. split; [lia|done].
  - assert (Hs' : first_stop m stop (w + 8) (k - 8)) by (apply (first_stop_shift _ _ _ _ 8); [lia|done]).
    destruct (IH (w + 8) (k - 8)%nat Hok Hw Ht) as (j & Hj & Hr'); [|lia|done|].
    { rewrite <-Z.add_mod_idemp_r by lia. by rewrite Z.add_0_r. }
    exists (8 + j)%nat. split; [lia|]. rewrite Hr'. do 2 f_equal. lia.
Qed.

(** The three stages together find the first byte. *)
Lemma scan_run m stop wstop s k fuel :
  bytes_ok m → words_mapped m → word_test wstop stop → (k < fuel)%nat → first_stop m stop s k →
  (r ← scan_align fuel stop s;
   match r with
   | inl e => mret e
   | inr w => w ← scan_words fuel wstop w; scan_bytes fuel stop w
   end) m = Ret (s + Z.of_nat k, m).
Proof.
  intros Hok Hw Ht Hf Hs.
  destruct (scan_align_run m stop fuel s k Hf Hs) as (j & Hj & [Hr|[Hr Ha]]).
  - by rewrite (run_bind_Ret _ _ _ _ _ Hr).
  - rewrite (run_bind_Ret _ _ _ _ _ Hr).
    pose proof (first_stop_shift _ _ _ _ j Hj Hs) as Hs1.
    destruct (scan_words_run m stop wstop fuel _ (k - j)%nat Hok Hw Ht Ha ltac:(lia) Hs1) as (i & Hi & Hr1).
    rewrite (run_bind_Ret _ _ _ _ _ Hr1).
    pose proof (first_stop_shift _ _ _ _ i Hi Hs1) as Hs2.
    rewrite (scan_bytes_run _ _ fuel _ (k - j - i)%nat ltac:(lia) Hs2). do 2 f_equal. lia.
Qed.

(** *** Strings *)

(** The length of the longest prefix of [s] free of [p]. *)
Fixpoint span (p : Z → bool) (s : list Z) : nat :=
  match s with [] => O | b :: s => if p b then O else S (span p s) end.

Lemma span_le p s : (span p s ≤ length s)%nat.
Proof. induction s; cbn; [lia|]. destruct (p a); lia. Qed.

Lemma span_lookup_lt p s i : (i < span p s)%nat → ∃ b, s !! i = Some b ∧ p b = false.
Proof.
  revert i; induction s as [|b s IH]; intros i; cbn; [lia|].
  destruct (p b) eqn:E; [lia|]. destruct i as [|i]; cbn; [eauto|].
  intros. apply IH. lia.
Qed.

Lemma span_lookup p s b : s !! span p s = Some b → p b = true.
Proof. induction s as [|c s IH]; cbn; [done|]. destruct (p c) eqn:E; cbn; [congruence|done]. Qed.

Lemma span_all p s : Forall (λ b, p b = false) s → span p s = length s.
Proof. induction 1 as [|b s Hb _ IH]; cbn; [done|]. by rewrite Hb, IH. Qed.

Lemma cstr_lookup m a s i b : cstr m a s → s !! i = Some b → m !! (a + Z.of_nat i) = Some b.
Proof. intros [H _] Hi. apply H. by apply lookup_app_l_Some. Qed.

Lemma cstr_end m a s : cstr m a s → m !! (a + Z.of_nat (length s)) = Some 0.
Proof. intros [H _]. apply H. by apply list_lookup_middle. Qed.

Lemma cstr_nonzero m a s i b : cstr m a s → s !! i = Some b → b ≠ 0.
Proof. intros [_ H] Hi. by apply (Forall_lookup_1 _ _ _ _ H Hi). Qed.

(** A scan that stops at the terminator stops within the string. *)
Lemma cstr_first_stop m a s stop :
  cstr m a s → stop 0 = true → first_stop m stop a (span stop s).
Proof.
  intros Hc H0. split.
  - intros i Hi. destruct (span_lookup_lt _ _ _ Hi) as (b & Hb & ?). exists b.
    split; [by eapply cstr_lookup|done].
  - destruct (s !! span stop s) as [b|] eqn:E.
    + exists b. split; [by eapply cstr_lookup|by eapply span_lookup].
    + exists 0. split; [|done]. apply lookup_ge_None in E. pose proof (span_le stop s).
      replace (span stop s) with (length s) by lia. by apply cstr_end.
Qed.

Lemma HASZERO_word_test : word_test HASZERO (λ b, b =? 0).
Proof.
  intros bs Hbs Hlen. rewrite HASZERO_spec by done. apply Bool.eq_true_iff_eq.
  rewrite bool_decide_eq_true, existsb_exists. setoid_rewrite Z.eqb_eq.
  rewrite list_elem_of_In. naive_solver.
Qed.

Lemma HASZERO_chr_word_test c : is_byte c →
  word_test (λ x, HASZERO x || HASZERO (Z.lxor x (u64 (ONES * c)))) (λ b, (b =? 0) || (b =? c)).
Proof.
  intros Hc bs Hbs Hlen. rewrite HASZERO_spec, HASZERO_lxor_spec by done.
  apply Bool.eq_true_iff_eq.
  rewrite orb_true_iff, !bool_decide_eq_true, existsb_exists.
  setoid_rewrite orb_true_iff. setoid_rewrite Z.eqb_eq. rewrite !list_elem_of_In. naive_solver.
Qed.

Section strings.
Context (m : mem) (Hok : bytes_ok m) (Hw : words_mapped m).

Lemma strlen_run a s : cstr m a s → strlen a m = Ret (Z.of_nat (length s), m).
Proof using Hok Hw.
  intros Hc. unfold strlen, mem_fuel. erewrite run_bind_Ret by reflexivity.
  pose proof (cstr_first_stop m a s (λ b, b =? 0) Hc eq_refl) as Hs.
  rewrite span_all in Hs.
  2: { destruct Hc as [_ Hnz]. apply (Forall_impl _ _ _ Hnz). intros b Hb. by apply Z.eqb_neq. }
  pose proof (first_stop_fuel _ _ _ _ Hs).
  pose proof (scan_run m _ _ a (length s) (S (size m)) Hok Hw HASZERO_word_test ltac:(lia) Hs) as Hr.
  revert Hr. rewrite !run_bind. destruct (scan_align _ _ _ _) as [[[e|w] m1]| |]; try done.
  - intros [= -> ->]. unfold mret, M_ret. do 2 f_equal. lia.
  - rewrite !run_bind. destruct (scan_words _ _ _ _) as [[w1 m2]| |]; try done.
    intros Hr. rewrite run_bind, Hr. unfold mret, M_ret. do 2 f_equal. lia.
Qed.

(** Where [strchrnul] points: the first [c], or the terminator. *)
Definition chr_offset (c : Z) (s : list Z) : nat := span (λ b, b =? u8 c) s.

Lemma span_ext p q s : Forall (λ b, p b = q b) s → span p s = span q s.
Proof. induction 1 as [|b s Hb _ IH]; cbn; [done|]. by rewrite Hb, IH. Qed.

Lemma strchrnul_run a c s :
  cstr m a s → strchrnul a c m = Ret (a + Z.of_nat (chr_offset c s), m).
Proof using Hok Hw.
  intros Hc. unfold strchrnul, chr_offset. destruct (Z.eqb_spec (u8 c) 0) as [Hz|Hz].
  - rewrite (run_bind_Ret _ _ _ _ _ (strlen_run _ _ Hc)), Hz. unfold mret, M_ret.
    rewrite span_all; [done|]. destruct Hc as [_ Hnz]. apply (Forall_impl _ _ _ Hnz).
    intros b Hb. by apply Z.eqb_neq.
  - unfold mem_fuel. erewrite run_bind_Ret by reflexivity.
    pose proof (cstr_first_stop m a s (λ b, (b =? 0) || (b =? u8 c)) Hc eq_refl) as Hs.
    pose proof (first_stop_fuel _ _ _ _ Hs).
    assert (Hby : is_byte (u8 c)) by (apply (wrap_bound 8); lia).
    rewrite (span_ext _ (λ b, (b =? 0) || (b =? u8 c))).
    + apply (scan_run m _ _ a _ (S (size m)) Hok Hw (HASZERO_chr_word_test _ Hby)); [lia|done].
    + destruct Hc as [_ Hnz]. apply (Forall_impl _ _ _ Hnz). intros b Hb.
      by rewrite (proj2 (Z.eqb_neq _ _) Hb).
Qed.

(** [NULL] or the address of the first [c], the terminator included. *)
Definition chr_result (a c : Z) (s : list Z) : Z :=
  if bool_decide (u8 c ∈ s ++ [0]) then a + Z.of_nat (chr_offset c s) else 0.

Lemma strchr_run a c s : cstr m a s → strchr a c m = Ret (chr_result a c s, m).
Proof using Hok Hw.
  intros Hc. unfold strchr. rewrite (run_bind_Ret _ _ _ _ _ (strchrnul_run _ _ _ Hc)).
  unfold chr_result. destruct (s !! chr_offset c s) as [b|] eqn:E.
  - rewrite (run_bind_Ret _ _ _ _ _ (load8_run _ _ _ (cstr_lookup _ _ _ _ _ Hc E))).
    pose proof (span_lookup _ _ _ E) as Hb. rewrite Hb. apply Z.eqb_eq in Hb as ->.
    rewrite bool_decide_eq_true_2; [done|]. apply elem_of_app. left. by eapply list_elem_of_lookup_2.
  - apply lookup_ge_None in E. pose proof (span_le (λ b, b =? u8 c) s).
    assert (Ho : chr_offset c s = length s) by (unfold chr_offset in *; lia).
    rewrite Ho. rewrite (run_bind_Ret _ _ _ _ _ (load8_run _ _ _ (cstr_end _ _ _ Hc))).
    unfold mret, M_ret. do 2 f_equal. destruct (Z.eqb_spec 0 (u8 c)) as [Hz|Hz].
    + rewrite <-Hz, bool_decide_eq_true_2; [done|]. apply elem_of_app. right. by left.
    + rewrite bool_decide_eq_false_2; [done|]. intros [Hin|Hin]%elem_of_app.
      * apply list_elem_of_lookup in Hin as [i Hi]. pose proof (lookup_lt_Some _ _ _ Hi).
        destruct (span_lookup_lt (λ b, b =? u8 c) s i) as (b & Hb & Hne); [unfold chr_offset in Ho; lia|].
        rewrite Hi in Hb. simplify_eq. by rewrite Z.eqb_refl in Hne.
      * apply list_elem_of_singleton in Hin. done.
Qed.

(** *** Byte sets *)

Lemma byteset_set_test set b c :
  length set = 4%nat → is_byte b → is_byte c →
  byteset_test (byteset_set set b) c = (b =? c) || byteset_test set c.
Proof using.
  unfold is_byte, byteset_test, byteset_set. intros Hl Hb Hc.
  assert (b / 64 < 4) by (apply Z.div_lt_upper_bound; lia).
  assert (0 ≤ b / 64) by (apply Z.div_pos; lia).
  assert (c / 64 < 4) by (apply Z.div_lt_upper_bound; lia).
  assert (0 ≤ c / 64) by (apply Z.div_pos; lia).
  assert (Htest : ∀ w i, 0 ≤ i → negb (Z.land w (Z.shiftl 1 i) =? 0) = Z.testbit w i).
  { intros w i Hi. rewrite Z.shiftl_1_l. destruct (Z.testbit w i) eqn:E.
    - rewrite negb_true_iff, Z.eqb_neq. intros Hz.
      assert (Z.testbit (Z.land w (2 ^ i)) i = false) by (by rewrite Hz, Z.bits_0).
      rewrite Z.land_spec, E, Z.pow2_bits_true in H3 by lia. done.
    - rewrite negb_false_iff, Z.eqb_eq. apply Z.bits_inj'. intros j Hj.
      rewrite Z.land_spec, Z.bits_0, Z.pow2_bits_eqb by lia.
      destruct (Z.eqb_spec i j) as [->|]; [by rewrite E|by rewrite andb_false_r]. }
  pose proof (Z.mod_pos_bound b 64 ltac:(lia)). pose proof (Z.mod_pos_bound c 64 ltac:(lia)).
  destruct (lookup_lt_is_Some_2 set (Z.to_nat (c / 64))) as [w Hw']; [lia|]. rewrite Hw'.
  destruct (decide (b / 64 = c / 64)) as [Heq|Hne].
  - rewrite Heq, list_lookup_alter_eq, Hw'. cbn. rewrite !Htest, Z.lor_spec, Z.shiftl_1_l by lia.
    rewrite Z.pow2_bits_eqb by lia. rewrite orb_comm. f_equal.
    apply Bool.eq_true_iff_eq. rewrite !Z.eqb_eq.
    pose proof (Z.div_mod b 64 ltac:(lia)). pose proof (Z.div_mod c 64 ltac:(lia)).
    split; [lia|congruence].
  - rewrite list_lookup_alter_ne, Hw' by lia.
    by rewrite (proj2 (Z.eqb_neq b c)) by congruence.
Qed.

Lemma byteset_load_run fuel : ∀ set a s,
  cstr m a s → length set = 4%nat → (length s < fuel)%nat →
  ∃ set', byteset_load fuel set a m = Ret (set', m) ∧
    ∀ c, is_byte c → byteset_test set' c = bool_decide (c ∈ s) || byteset_test set c.
Proof using Hok.
  induction fuel as [|fuel IH]; intros set a s Hc Hl Hf; [lia|]. cbn [byteset_load].
  destruct s as [|b s].
  - pose proof (cstr_end _ _ _ Hc) as He. cbn in He. rewrite Z.add_0_r in He.
    rewrite (run_bind_Ret _ _ _ _ _ (load8_run _ _ _ He)). exists set. split; [done|].
    intros c _. by rewrite bool_decide_eq_false_2 by apply not_elem_of_nil.
  - pose proof (cstr_lookup _ _ _ 0 b Hc eq_refl) as Hb. rewrite Z.add_0_r in Hb.
    rewrite (run_bind_Ret _ _ _ _ _ (load8_run _ _ _ Hb)).
    rewrite (proj2 (Z.eqb_neq b 0)) by (by eapply (cstr_nonzero _ _ _ 0)).
    destruct (IH (byteset_set set b) (a + 1) s) as (set' & Hr & Ht); [|by unfold byteset_set; rewrite length_alter|cbn in Hf; lia|].
    { destruct Hc as [Hh Hnz]. split; [|by apply Forall_cons in Hnz as [_ ?]].
      intros i c Hi. replace (a + 1 + Z.of_nat i) with (a + Z.of_nat (S i)) by lia. by apply Hh. }
    exists set'. split; [done|]. intros c Hcb.
    rewrite Ht, byteset_set_test, orb_assoc by (done || by eapply Hok). f_equal.
    apply Bool.eq_true_iff_eq.
    rewrite orb_true_iff, !bool_decide_eq_true, Z.eqb_eq, elem_of_cons. naive_solver.
Qed.

(** Membership in the delimiter string. *)
Definition in_set (d : list Z) (b : Z) : bool := bool_decide (b ∈ d).

Lemma byteset_empty_test c : byteset_test byteset_empty c = false.
Proof using.
  unfold byteset_test, byteset_empty.
  destruct (Z.to_nat (c / 64)) as [|[|[|[|]]]]; cbn; try done.
Qed.

Lemma cstr_byte a s : cstr m a s → Forall is_byte s.
Proof using Hok.
  intros Hc. apply Forall_lookup. intros i b Hi. eapply Hok. by eapply cstr_lookup.
Qed.

Lemma cstr_fuel a s : cstr m a s → (length s < size m)%nat.
Proof using.
  intros Hc. pose proof (cstr_first_stop m a s (λ b, b =? 0) Hc eq_refl) as Hs.
  rewrite span_all in Hs; [by apply first_stop_fuel in Hs|].
  destruct Hc as [_ Hnz]. apply (Forall_impl _ _ _ Hnz). intros b Hb. by apply Z.eqb_neq.
Qed.

(** A scan over [s] whose test agrees with [p] on the string's bytes. *)
Lemma scan_string_run a s stop p :
  cstr m a s → stop 0 = true → Forall (λ b, stop b = p b) s →
  scan_bytes (S (size m)) stop a m = Ret (a + Z.of_nat (span p s), m).
Proof using.
  intros Hc H0 Hp. pose proof (cstr_first_stop m a s stop Hc H0) as Hs.
  pose proof (first_stop_fuel _ _ _ _ Hs). rewrite (span_ext _ p) in * by done.
  apply scan_bytes_run; [lia|done].
Qed.

(** The first two bytes of a string decide the source's special cases. *)
Lemma cstr_head a s : cstr m a s → m !! a = Some (default 0 (s !! 0%nat)).
Proof using.
  intros Hc. destruct s as [|b s]; cbn.
  - pose proof (cstr_end _ _ _ Hc) as He. cbn in He. by rewrite Z.add_0_r in He.
  - pose proof (cstr_lookup _ _ _ 0 b Hc eq_refl) as Hb. by rewrite Z.add_0_r in Hb.
Qed.

Lemma cstr_tail a b s : cstr m a (b :: s) → cstr m (a + 1) s.
Proof using.
  intros [Hh Hnz]. apply Forall_cons in Hnz as [_ Hnz]. split; [|done].
  intros i c Hi. replace (a + 1 + Z.of_nat i) with (a + Z.of_nat (S i)) by lia. by apply Hh.
Qed.

Lemma strspn_run a s cd d :
  cstr m a s → cstr m cd d →
  strspn a cd m = Ret (Z.of_nat (span (λ b, negb (in_set d b)) s), m).
Proof using Hok.
  intros Hs Hd. unfold strspn, mem_fuel. erewrite run_bind_Ret by reflexivity.
  rewrite (run_bind_Ret _ _ _ _ _ (load8_run _ _ _ (cstr_head _ _ Hd))).
  destruct d as [|c0 d]; cbn [lookup list_lookup default from_option id].
  { destruct s; cbn; [done|]. unfold in_set. by rewrite bool_decide_eq_false_2 by apply not_elem_of_nil. }
  rewrite (proj2 (Z.eqb_neq c0 0)) by (by eapply (cstr_nonzero _ _ _ 0 _ Hd)).
  rewrite (run_bind_Ret _ _ _ _ _ (load8_run _ _ _ (cstr_head _ _ (cstr_tail _ _ _ Hd)))).
  destruct d as [|c1 d]; cbn [lookup list_lookup default from_option id Z.eqb].
  - assert (Hr := scan_string_run a s (λ b, negb (b =? c0)) (λ b, negb (in_set [c0] b)) Hs).
    rewrite (run_bind_Ret _ _ _ _ _ (Hr ltac:(apply negb_true_iff, Z.eqb_neq, not_eq_sym;
      by eapply (cstr_nonzero _ _ _ 0 _ Hd)) ltac:(apply Forall_forall; intros b _;
      unfold in_set; f_equal; apply Bool.eq_true_iff_eq;
      by rewrite bool_decide_eq_true, list_elem_of_singleton, Z.eqb_eq))).
    unfold mret, M_ret. do 2 f_equal. lia.
  - rewrite (proj2 (Z.eqb_neq c1 0)) by (by eapply (cstr_nonzero _ _ _ 1 _ Hd)).
    destruct (byteset_load_run (S (size m)) byteset_empty cd (c0 :: c1 :: d) Hd eq_refl) as (set & Hr & Ht);
      [pose proof (cstr_fuel _ _ Hd); lia|].
    rewrite (run_bind_Ret _ _ _ _ _ Hr).
    erewrite (run_bind_Ret _ _ _ _ _ (scan_string_run a s _ (λ b, negb (in_set (c0 :: c1 :: d) b)) Hs eq_refl _)).
    unfold mret, M_ret. do 2 f_equal. lia.
    Unshelve. apply Forall_lookup. intros i b Hb.
    rewrite (proj2 (Z.eqb_neq b 0)) by (by apply (cstr_nonzero m a s _ b Hs Hb)).
    rewrite Ht, byteset_empty_test, orb_false_r by (by eapply (Forall_lookup_1 _ _ _ _ (cstr_byte _ _ Hs))).
    done.
Qed.

Lemma strcspn_run a s cd d :
  cstr m a s → cstr m cd d → strcspn a cd m = Ret (Z.of_nat (span (in_set d) s), m).
Proof using Hok Hw.
  intros Hs Hd. unfold strcspn, mem_fuel. erewrite run_bind_Ret by reflexivity.
  rewrite (run_bind_Ret _ _ _ _ _ (load8_run _ _ _ (cstr_head _ _ Hd))).
  assert (Hone : ∀ c, is_byte c → Forall (λ b, (b =? u8 c) = in_set (if c =? 0 then [] else [c]) b) s).
  { intros c Hc. apply Forall_lookup. intros i b Hb. unfold in_set. rewrite wrap_small by done.
    apply Bool.eq_true_iff_eq. rewrite bool_decide_eq_true, Z.eqb_eq.
    destruct (Z.eqb_spec c 0) as [->|]; [|by rewrite list_elem_of_singleton].
    split; [|by intros ?%not_elem_of_nil]. intros ->. by apply (cstr_nonzero _ _ _ _ _ Hs) in Hb. }
  destruct d as [|c0 d]; cbn [lookup list_lookup default from_option id].
  { cbn [Z.eqb]. rewrite (run_bind_Ret _ _ _ _ _ (strchrnul_run _ 0 _ Hs)). unfold mret, M_ret, chr_offset.
    rewrite (span_ext _ _ _ (Hone 0 ltac:(done))). do 2 f_equal. cbn [Z.eqb]. lia. }
  assert (Hc0 : is_byte c0) by (apply (Forall_lookup_1 _ _ 0%nat _ (cstr_byte _ _ Hd)); done).
  rewrite (proj2 (Z.eqb_neq c0 0)) by (by eapply (cstr_nonzero _ _ _ 0 _ Hd)).
  rewrite (run_bind_Ret _ _ _ _ _ (load8_run _ _ _ (cstr_head _ _ (cstr_tail _ _ _ Hd)))).
  destruct d as [|c1 d]; cbn [lookup list_lookup default from_option id].
  - cbn [Z.eqb]. rewrite (run_bind_Ret _ _ _ _ _ (strchrnul_run _ c0 _ Hs)). unfold mret, M_ret, chr_offset.
    rewrite (span_ext _ _ _ (Hone c0 Hc0)).
    rewrite (proj2 (Z.eqb_neq c0 0)) by (by eapply (cstr_nonzero _ _ _ 0 _ Hd)).
    do 2 f_equal. lia.
  - rewrite (proj2 (Z.eqb_neq c1 0)) by (by eapply (cstr_nonzero _ _ _ 1 _ Hd)).
    destruct (byteset_load_run (S (size m)) byteset_empty cd (c0 :: c1 :: d) Hd eq_refl) as (set & Hr & Ht);
      [pose proof (cstr_fuel _ _ Hd); lia|].
    rewrite (run_bind_Ret _ _ _ _ _ Hr).
    erewrite (run_bind_Ret _ _ _ _ _ (scan_string_run a s _ (in_set (c0 :: c1 :: d)) Hs eq_refl _)).
    unfold mret, M_ret. do 2 f_equal. lia.
    Unshelve. apply Forall_lookup. intros i b Hb.
    rewrite (proj2 (Z.eqb_neq b 0)) by (by apply (cstr_nonzero m a s _ b Hs Hb)).
    rewrite Ht, byteset_empty_test, orb_false_r by (by eapply (Forall_lookup_1 _ _ _ _ (cstr_byte _ _ Hs))).
    done.
Qed.

Lemma strpbrk_run a s cd d :
  cstr m a s → cstr m cd d →
  strpbrk a cd m =
    Ret (if (span (in_set d) s <? length s)%nat then a + Z.of_nat (span (in_set d) s) else 0, m).
Proof using Hok Hw.
  intros Hs Hd. unfold strpbrk. rewrite (run_bind_Ret _ _ _ _ _ (strcspn_run _ _ _ _ Hs Hd)).
  pose proof (span_le (in_set d) s). destruct (Nat.ltb_spec (span (in_set d) s) (length s)) as [Hlt|Hge].
  - destruct (lookup_lt_is_Some_2 s _ Hlt) as [b Hb].
    rewrite (run_bind_Ret _ _ _ _ _ (load8_run _ _ _ (cstr_lookup _ _ _ _ _ Hs Hb))).
    by rewrite (proj2 (Z.eqb_neq b 0)) by (by apply (cstr_nonzero m a s _ b Hs Hb)).
  - replace (span (in_set d) s) with (length s) by lia.
    by rewrite (run_bind_Ret _ _ _ _ _ (load8_run _ _ _ (cstr_end _ _ _ Hs))).
Qed.

End strings.

(** *** memchr and memrchr *)

Lemma holds_cons m a b bs : holds m a (b :: bs) → m !! a = Some b ∧ holds m (a + 1) bs.
Proof.
  intros Hh. split.
  - specialize (Hh O b eq_refl). by rewrite Z.add_0_r in Hh.
  - intros i c Hi. replace (a + 1 + Z.of_nat i) with (a + Z.of_nat (S i)) by lia. by apply Hh.
Qed.

Lemma holds_drop m a bs j : holds m a bs → holds m (a + Z.of_nat j) (drop j bs).
Proof.
  intros Hh i c Hi. rewrite lookup_drop in Hi.
  replace (a + Z.of_nat j + Z.of_nat i) with (a + Z.of_nat (j + i)) by lia. by apply Hh.
Qed.

Lemma span_drop p bs j : (j ≤ span p bs)%nat → span p (drop j bs) = (span p bs - j)%nat.
Proof.
  revert j; induction bs as [|b bs IH]; intros j; cbn; [by destruct j|].
  destruct (p b) eqn:E; intros Hj.
  - replace j with O by lia. cbn. by rewrite E.
  - destruct j as [|j]; cbn; [by rewrite E|]. apply IH. lia.
Qed.

(** A loop of [memchr] advanced [j] bytes without passing the first match. *)
Definition chr_progress (m : mem) (s c : Z) (bs : list Z) (r : outcome (Z * Z * mem)) : Prop :=
  ∃ j, (j ≤ span (λ b, Z.eqb b c) bs)%nat ∧
    r = Ret ((s + Z.of_nat j, Z.of_nat (length bs) - Z.of_nat j), m).

Lemma chr_progress_refl m s c bs : chr_progress m s c bs (Ret ((s, Z.of_nat (length bs)), m)).
Proof. exists O. rewrite Z.add_0_r, Z.sub_0_r. split; [lia|done]. Qed.

Lemma chr_progress_step m s c bs i r :
  (i ≤ span (λ b, Z.eqb b c) bs)%nat →
  chr_progress m (s + Z.of_nat i) c (drop i bs) r → chr_progress m s c bs r.
Proof.
  intros Hi (j & Hj & ->). rewrite span_drop in Hj by done. pose proof (span_le (λ b, Z.eqb b c) bs).
  exists (i + j)%nat. split; [lia|]. rewrite length_drop. do 3 f_equal; lia.
Qed.

Lemma chr_progress_cons m s c b bs r :
  b ≠ c → chr_progress m (s + 1) c bs r → chr_progress m s c (b :: bs) r.
Proof.
  intros Hb H. apply (chr_progress_step _ _ _ _ 1); [|done].
  cbn. rewrite (proj2 (Z.eqb_neq _ _) Hb). lia.
Qed.

Lemma memchr_align_run m c fuel : ∀ s bs,
  (length bs < fuel)%nat → holds m s bs →
  chr_progress m s c bs (memchr_align fuel s c (Z.of_nat (length bs)) m).
Proof.
  induction fuel as [|fuel IH]; intros s bs Hf Hh; [lia|]. cbn [memchr_align].
  destruct (negb _ && negb _) eqn:E; [|by apply chr_progress_refl].
  destruct bs as [|b bs]; [by rewrite andb_false_r in E|].
  apply holds_cons in Hh as [Hb Hh]. rewrite (run_bind_Ret _ _ _ _ _ (load8_run _ _ _ Hb)).
  destruct (Z.eqb_spec b c); [by apply chr_progress_refl|].
  apply chr_progress_cons; [done|].
  replace (Z.of_nat (length (b :: bs)) - 1) with (Z.of_nat (length bs)) by (cbn; lia).
  apply IH; [cbn in Hf; lia|done].
Qed.

Lemma memchr_words_run m c fuel : ∀ s bs,
  is_byte c → bytes_ok m → (length bs < fuel)%nat → holds m s bs →
  chr_progress m s c bs (memchr_words fuel s (u64 (ONES * c)) (Z.of_nat (length bs)) m).
Proof.
  induction fuel as [|fuel IH]; intros s bs Hc Hok Hf Hh; [lia|]. cbn [memchr_words].
  destruct (Z.leb_spec 8 (Z.of_nat (length bs))); [|by apply chr_progress_refl].
  destruct (loadw_run 8 s m) as (ws & Hr & Hlen & Hws).
  { intros i Hi. destruct (lookup_lt_is_Some_2 bs (Z.to_nat i)) as [b Hb]; [lia|].
    apply Hh in Hb. rewrite Z2Nat.id in Hb by lia. eauto. }
  rewrite (run_bind_Ret _ _ _ _ _ Hr), HASZERO_lxor_spec by (done || by eapply holds_bytes).
  case_bool_decide as Hin; [by apply chr_progress_refl|].
  apply (chr_progress_step _ _ _ _ 8).
  - destruct (decide (span (λ b, Z.eqb b c) bs < 8)%nat) as [Hlt|]; [|lia].
    destruct Hin. destruct (lookup_lt_is_Some_2 bs (span (λ b, Z.eqb b c) bs)) as [b Hb]; [lia|].
    pose proof (span_lookup _ _ _ Hb) as Hbc. apply Z.eqb_eq in Hbc as ->.
    destruct (lookup_lt_is_Some_2 ws (span (λ b, Z.eqb b c) bs)) as [b' Hb']; [lia|].
    pose proof (Hws _ _ Hb') as H1. rewrite (Hh _ _ Hb) in H1. simplify_eq.
    by eapply list_elem_of_lookup_2.
  - replace (Z.of_nat (length bs) - 8) with (Z.of_nat (length (drop 8 bs))) by (rewrite length_drop; lia).
    apply IH; [done|done|rewrite length_drop; lia|by apply holds_drop].
Qed.

Lemma memchr_bytes_run m c fuel : ∀ s bs,
  (length bs < fuel)%nat → holds m s bs →
  memchr_bytes fuel s c (Z.of_nat (length bs)) m =
    Ret ((s + Z.of_nat (span (λ b, Z.eqb b c) bs),
          Z.of_nat (length bs) - Z.of_nat (span (λ b, Z.eqb b c) bs)), m).
Proof.
  induction fuel as [|fuel IH]; intros s bs Hf Hh; [lia|]. cbn [memchr_bytes].
  destruct bs as [|b bs]; [by rewrite Z.add_0_r|].
  rewrite (proj2 (Z.eqb_neq (Z.of_nat (length (b :: bs))) 0)) by (cbn; lia). cbn [negb].
  apply holds_cons in Hh as [Hb Hh]. rewrite (run_bind_Ret _ _ _ _ _ (load8_run _ _ _ Hb)).
  cbn [span]. destruct (Z.eqb_spec b c); [by rewrite Z.add_0_r, Z.sub_0_r|].
  replace (Z.of_nat (length (b :: bs)) - 1) with (Z.of_nat (length bs)) by (cbn; lia).
  rewrite IH by (cbn in Hf; lia || done). cbn [length]. do 3 f_equal; lia.
Qed.

(** From any point up to the first match, the byte loop ends the search. *)
Lemma memchr_finish_run m src c bs j :
  holds m src bs → (j ≤ chr_offset c bs)%nat →
  (r ← memchr_bytes (S (length bs)) (src + Z.of_nat j) (u8 c) (Z.of_nat (length bs) - Z.of_nat j);
   let '(s, n) := r in mret (if negb (n =? 0) then s else 0)) m =
  Ret (if bool_decide (u8 c ∈ bs) then src + Z.of_nat (chr_offset c bs) else 0, m).
Proof.
  intros Hh Hj. unfold chr_offset in *. pose proof (span_le (λ b, Z.eqb b (u8 c)) bs).
  replace (Z.of_nat (length bs) - Z.of_nat j) with (Z.of_nat (length (drop j bs))) by (rewrite length_drop; lia).
  erewrite run_bind_Ret by (apply memchr_bytes_run; [rewrite length_drop; lia|by apply holds_drop]).
  cbn beta iota. rewrite span_drop, length_drop by done. unfold mret, M_ret. do 2 f_equal.
  destruct (bs !! span (λ b, Z.eqb b (u8 c)) bs) as [b|] eqn:E.
  - pose proof (span_lookup _ _ _ E) as Hb. apply Z.eqb_eq in Hb as ->. pose proof (lookup_lt_Some _ _ _ E).
    rewrite bool_decide_eq_true_2 by (by eapply list_elem_of_lookup_2).
    rewrite (proj2 (Z.eqb_neq _ _)) by lia. cbn. lia.
  - apply lookup_ge_None in E. rewrite (proj2 (Z.eqb_eq _ _)) by lia. cbn.
    rewrite bool_decide_eq_false_2; [done|]. intros [i Hi]%list_elem_of_lookup.
    pose proof (lookup_lt_Some _ _ _ Hi).
    destruct (span_lookup_lt (λ b, Z.eqb b (u8 c)) bs i) as (b & Hb & Hne); [lia|].
    rewrite Hi in Hb. simplify_eq. by rewrite Z.eqb_refl in Hne.
Qed.

Lemma memchr_run m src c bs :
  bytes_ok m → holds m src bs →
  memchr src c (Z.of_nat (length bs)) m =
    Ret (if bool_decide (u8 c ∈ bs) then src + Z.of_nat (chr_offset c bs) else 0, m).
Proof.
  intros Hok Hh. unfold memchr. rewrite Nat2Z.id. set (fuel := S (length bs)).
  assert (Hby : is_byte (u8 c)) by (apply (wrap_bound 8); lia).
  assert (Hfin := memchr_finish_run m src c bs).
  destruct (memchr_align_run m (u8 c) fuel src bs ltac:(lia) Hh) as (j & Hj & Hr).
  rewrite (run_bind_Ret _ _ _ _ _ Hr). cbn beta iota. fold (chr_offset c bs) in Hj.
  pose proof (span_le (λ b, Z.eqb b (u8 c)) bs) as Hle. fold (chr_offset c bs) in Hle.
  destruct (Z.eqb_spec (Z.of_nat (length bs) - Z.of_nat j) 0) as [Hz|Hz]; cbn [negb].
  - specialize (Hfin j Hh Hj). rewrite Hz in Hfin. cbn [memchr_bytes Z.eqb negb] in Hfin.
    rewrite Hz. exact Hfin.
  - destruct (lookup_lt_is_Some_2 bs j) as [b Hb]; [lia|].
    rewrite bind_assoc, (run_bind_Ret _ _ _ _ _ (load8_run _ _ _ (Hh _ _ Hb))).
    destruct (Z.eqb_spec b (u8 c)) as [->|Hne]; cbn [negb].
    + rewrite run_mret_bind. specialize (Hfin j Hh Hj). subst fuel. cbn [memchr_bytes] in Hfin.
      rewrite (proj2 (Z.eqb_neq _ _) Hz) in Hfin. cbn [negb] in Hfin.
      rewrite bind_assoc, (run_bind_Ret _ _ _ _ _ (load8_run _ _ _ (Hh _ _ Hb))), Z.eqb_refl in Hfin.
      rewrite run_mret_bind in Hfin. rewrite (proj2 (Z.eqb_neq _ _) Hz) in *. done.
    + rewrite bind_assoc.
      destruct (memchr_words_run m (u8 c) fuel (src + Z.of_nat j) (drop j bs) Hby Hok) as (i & Hi & Hr');
        [rewrite length_drop; lia|by apply holds_drop|].
      rewrite length_drop, Nat2Z.inj_sub in Hr' by lia.
      rewrite (run_bind_Ret _ _ _ _ _ Hr'). cbn beta iota.
      rewrite span_drop in Hi by done. fold (chr_offset c bs) in Hi.
      specialize (Hfin (j + i)%nat Hh ltac:(lia)).
      replace (src + Z.of_nat j + Z.of_nat i) with (src + Z.of_nat (j + i)) by lia.
      by replace (Z.of_nat (length bs) - Z.of_nat j - Z.of_nat i)
        with (Z.of_nat (length bs) - Z.of_nat (j + i)) by lia.
Qed.

Lemma memrchr_loop_run m s c : ∀ n,
  mapped m s (Z.of_nat n) →
  ∃ r, memrchr_loop s c n m = Ret (r, m) ∧
    ((r = 0 ∧ ∀ i, 0 ≤ i < Z.of_nat n → m !! (s + i) ≠ Some c) ∨
     (∃ i, 0 ≤ i < Z.of_nat n ∧ r = s + i ∧ m !! (s + i) = Some c ∧
        ∀ j, i < j < Z.of_nat n → m !! (s + j) ≠ Some c)).
Proof.
  induction n as [|n IH]; intros Hm; cbn [memrchr_loop].
  { exists 0. split; [done|]. left. split; [done|lia]. }
  destruct (Hm (Z.of_nat n)) as [b Hb]; [lia|].
  rewrite (run_bind_Ret _ _ _ _ _ (load8_run _ _ _ Hb)).
  destruct (Z.eqb_spec b c) as [->|Hne].
  - exists (s + Z.of_nat n). split; [done|]. right. exists (Z.of_nat n). split_and!; try lia; done.
  - destruct IH as (r & Hr & Hcase); [intros i Hi; apply Hm; lia|]. exists r. split; [done|].
    assert (Hlast : m !! (s + Z.of_nat n) ≠ Some c) by congruence.
    destruct Hcase as [[-> Hno]|(i & Hi & -> & Hc & Hno)].
    + left. split; [done|]. intros i Hi. destruct (decide (i = Z.of_nat n)) as [->|]; [done|apply Hno; lia].
    + right. exists i. split_and!; [lia|lia|done|done|]. intros j Hj.
      destruct (decide (j = Z.of_nat n)) as [->|]; [done|apply Hno; lia].
Qed.

(** *** Comparison *)

(** The order of [strcmp] on byte strings: by signed [char], the terminator
    included. *)
Fixpoint str_cmp (s t : list Z) : Z :=
  match s, t with
  | [], [] => 0
  | [], y :: _ => if 0 <? s8 y then -1 else 1
  | x :: _, [] => if s8 x <? 0 then -1 else 1
  | x :: s, y :: t => if s8 x <? s8 y then -1 else if s8 y <? s8 x then 1 else str_cmp s t
  end.

Lemma s8_inj x y : is_byte x → is_byte y → s8 x = s8 y → x = y.
Proof.
  unfold is_byte, swrap. intros Hx Hy. rewrite !wrap_small by lia. change (2 ^ (8 - 1)) with 128.
  change (2 ^ 8) with 256. destruct (Z.ltb_spec x 128), (Z.ltb_spec y 128); lia.
Qed.

Lemma str_cmp_eq s t :
  Forall (λ b, is_byte b ∧ b ≠ 0) s → Forall (λ b, is_byte b ∧ b ≠ 0) t →
  str_cmp s t = 0 ↔ s = t.
Proof.
  intros Hs. revert t. induction Hs as [|x s [Hx Hx0] Hs IH]; intros [|y t] Ht; cbn; try done.
  - destruct (0 <? s8 y); split; discriminate.
  - destruct (s8 x <? 0); split; discriminate.
  - apply Forall_cons in Ht as [[Hy Hy0] Ht].
    destruct (Z.ltb_spec (s8 x) (s8 y)); [split; [discriminate|]; intros [= -> ?]; lia|].
    destruct (Z.ltb_spec (s8 y) (s8 x)); [split; [discriminate|]; intros [= -> ?]; lia|].
    assert (x = y) as -> by (apply s8_inj; [done|done|lia]). rewrite IH by done.
    split; [by intros ->|by intros [= ->]].
Qed.

Lemma s8_nonzero b : is_byte b → b ≠ 0 → s8 b ≠ 0.
Proof. intros Hb H0 H. apply H0. by apply s8_inj. Qed.

Lemma strcmp_loop_run m a b fuel : ∀ i s t,
  bytes_ok m → cstr m (a + i) s → cstr m (b + i) t → 0 ≤ i →
  i + Z.of_nat (length s) + 1 < 2 ^ 32 → (length s < fuel)%nat →
  strcmp_loop fuel a b i m = Ret (str_cmp s t, m).
Proof.
  induction fuel as [|fuel IH]; intros i s t Hok Hs Ht Hi Hb Hf; [lia|]. cbn [strcmp_loop].
  rewrite (run_bind_Ret _ _ _ _ _ (load8_run _ _ _ (cstr_head _ _ _ Hs))).
  rewrite (run_bind_Ret _ _ _ _ _ (load8_run _ _ _ (cstr_head _ _ _ Ht))).
  assert (Hnz : ∀ a s, cstr m a s → ∀ c s', s = c :: s' → s8 c ≠ 0).
  { intros a' s' Hc c s'' ->. apply s8_nonzero; [|by eapply (cstr_nonzero _ _ _ 0 _ Hc)].
    by apply (Forall_lookup_1 _ _ 0%nat _ (cstr_byte _ Hok _ _ Hc)). }
  destruct s as [|x s], t as [|y t]; cbn [lookup list_lookup default from_option id].
  - done.
  - specialize (Hnz _ _ Ht y t eq_refl). change (s8 0) with 0. cbn [str_cmp].
    destruct (Z.ltb_spec 0 (s8 y)); [done|]. by rewrite (proj2 (Z.ltb_lt _ _)) by lia.
  - specialize (Hnz _ _ Hs x s eq_refl). change (s8 0) with 0. cbn [str_cmp].
    destruct (Z.ltb_spec (s8 x) 0); [done|]. by rewrite (proj2 (Z.ltb_lt _ _)) by lia.
  - cbn [str_cmp]. destruct (s8 x <? s8 y); [done|]. destruct (s8 y <? s8 x); [done|].
    rewrite (proj2 (Z.eqb_neq x 0)) by (by eapply (cstr_nonzero _ _ _ 0 _ Hs)).
    cbn [length] in *. rewrite wrap_small by lia. apply IH; try lia; [done| |].
    + rewrite Z.add_assoc. by eapply cstr_tail.
    + rewrite Z.add_assoc. by eapply cstr_tail.
Qed.

Lemma strcmp_run m a b s t :
  bytes_ok m → cstr m a s → cstr m b t → Z.of_nat (length s) + 1 < 2 ^ 32 →
  strcmp a b m = Ret (str_cmp s t, m).
Proof.
  intros Hok Hs Ht Hb. unfold strcmp, mem_fuel. erewrite run_bind_Ret by reflexivity.
  pose proof (cstr_fuel _ _ _ Hs). apply strcmp_loop_run; rewrite ?Z.add_0_r; done || lia.
Qed.

(** *** Numbers *)

Definition is_digit (b : Z) : Prop := 48 ≤ b ≤ 57.
Definition is_hex (b : Z) : Prop := 48 ≤ b ≤ 57 ∨ 97 ≤ b ≤ 102 ∨ 65 ≤ b ≤ 70.

(** The value of a numeral in base [base] with digit values [dig]. *)
Definition numeral (base : Z) (dig : Z → Z) (acc : Z) (s : list Z) : Z :=
  fold_left (λ acc b, acc * base + dig b) s acc.

Lemma numeral_mono base dig s : ∀ acc, 1 ≤ base → Forall (λ b, 0 ≤ dig b) s → 0 ≤ acc →
  acc ≤ numeral base dig acc s.
Proof.
  induction s as [|b s IH]; intros acc Hb Hd Ha; cbn; [lia|].
  apply Forall_cons in Hd as [? Hd]. etrans; [|apply IH; [done|done|nia]]. nia.
Qed.

Lemma s64_small z : 0 ≤ z < 2 ^ 63 → s64 z = z.
Proof. intros. unfold swrap. rewrite wrap_small by lia. by rewrite (proj2 (Z.ltb_lt _ _)) by lia. Qed.

Lemma atoi_loop_run m fuel : ∀ c acc s,
  cstr m c s → Forall is_digit s → 0 ≤ acc → numeral 10 (λ b, b - 48) acc s < 2 ^ 63 →
  (length s < fuel)%nat → atoi_loop fuel c acc m = Ret (numeral 10 (λ b, b - 48) acc s, m).
Proof.
  unfold is_digit. induction fuel as [|fuel IH]; intros c acc s Hc Hd Ha Hb Hf; [lia|].
  cbn [atoi_loop]. rewrite (run_bind_Ret _ _ _ _ _ (load8_run _ _ _ (cstr_head _ _ _ Hc))).
  destruct s as [|b s]; [done|]. cbn [lookup list_lookup default from_option id].
  apply Forall_cons in Hd as [Hd1 Hd]. rewrite (proj2 (Z.eqb_neq b 0)) by lia. cbn [numeral fold_left] in *.
  fold (numeral 10 (λ b, b - 48) (acc * 10 + (b - 48)) s) in *.
  assert (acc * 10 + (b - 48) ≤ numeral 10 (λ b, b - 48) (acc * 10 + (b - 48)) s).
  { apply numeral_mono; [lia| |lia]. apply (Forall_impl _ _ _ Hd). intros; lia. }
  assert (s8 b = b) as ->.
  { unfold swrap. rewrite wrap_small by lia. by rewrite (proj2 (Z.ltb_lt _ _)) by lia. }
  rewrite (s64_small (acc * 10)), s64_small by lia. cbn in Hf.
  apply IH; [by eapply cstr_tail|done|lia|done|lia].
Qed.

Lemma xtoi_digit_bound b : 0 ≤ xtoi_digit b < 16.
Proof.
  unfold xtoi_digit. repeat match goal with |- context [if ?c then _ else _] => destruct c eqn:? end;
    rewrite ?andb_true_iff, ?Z.leb_le in *; lia.
Qed.

Lemma xtoi_loop_run m fuel : ∀ c acc s,
  cstr m c s → (length s < fuel)%nat → 0 ≤ acc < 2 ^ 64 →
  xtoi_loop fuel c acc m = Ret (u64 (numeral 16 xtoi_digit acc s), m).
Proof.
  induction fuel as [|fuel IH]; intros c acc s Hc Hf Ha; [lia|]. cbn [xtoi_loop].
  rewrite (run_bind_Ret _ _ _ _ _ (load8_run _ _ _ (cstr_head _ _ _ Hc))).
  destruct s as [|b s]; cbn [lookup list_lookup default from_option id].
  { cbn. by rewrite wrap_small. }
  rewrite (proj2 (Z.eqb_neq b 0)) by (by eapply (cstr_nonzero _ _ _ 0 _ Hc)). cbn in Hf.
  rewrite (IH _ _ s); [|by eapply cstr_tail|lia|apply (wrap_bound 64); lia].
  do 2 f_equal. cbn [numeral fold_left].
  change (fold_left _ s ?a) with (numeral 16 xtoi_digit a s).
  assert (Hcong : ∀ l x y, u64 x = u64 y → u64 (numeral 16 xtoi_digit x l) = u64 (numeral 16 xtoi_digit y l)).
  { induction l as [|d l IHl]; intros x y Hxy; [done|]. cbn. apply IHl. unfold wrap in *.
    rewrite (Z.add_mod (x * 16)), (Z.add_mod (y * 16)), (Z.mul_mod x), (Z.mul_mod y), Hxy by lia. done. }
  apply Hcong. unfold wrap. rewrite Z.mod_mod, Z.add_mod_idemp_l by lia. done.
Qed.

Lemma atoi_run m a (neg : bool) ds :
  cstr m a ((if neg then [45] else []) ++ ds) → Forall is_digit ds →
  numeral 10 (λ b, b - 48) 0 ds < 2 ^ 31 →
  atoi a m = Ret ((if neg then -1 else 1) * numeral 10 (λ b, b - 48) 0 ds, m).
Proof.
  intros Hc Hd Hv. unfold atoi, mem_fuel. erewrite run_bind_Ret by reflexivity.
  rewrite (run_bind_Ret _ _ _ _ _ (load8_run _ _ _ (cstr_head _ _ _ Hc))).
  pose proof (cstr_fuel _ _ _ Hc) as Hf. rewrite length_app in Hf.
  assert (0 ≤ numeral 10 (λ b, b - 48) 0 ds).
  { apply numeral_mono; [lia| |lia]. apply (Forall_impl _ _ _ Hd). unfold is_digit. intros; lia. }
  assert (Hneg : (default 0 (((if neg then [45] else []) ++ ds) !! 0%nat) =? 45) = neg).
  { destruct neg; [done|]. destruct Hd as [|b ds Hb _]; [done|]. unfold is_digit in Hb. cbn. apply Z.eqb_neq. lia. }
  rewrite Hneg.
  assert (Hc' : cstr m (if neg then a + 1 else a) ds) by (destruct neg; [by eapply cstr_tail|done]).
  rewrite (run_bind_Ret _ _ _ _ _ (atoi_loop_run m (S (size m)) _ 0 ds Hc' Hd ltac:(lia) ltac:(lia) ltac:(lia))).
  unfold mret, M_ret. do 2 f_equal. unfold swrap, wrap.
  change (2 ^ (32 - 1)) with (2 ^ 31). destruct neg.
  - destruct (Z.eq_dec (numeral 10 (λ b, b - 48) 0 ds) 0) as [->|Hnz]; [done|].
    replace (_ mod 2 ^ 32) with (2 ^ 32 - numeral 10 (λ b, b - 48) 0 ds)
      by (apply Z.mod_unique_pos with (-1); lia).
    rewrite (proj2 (Z.ltb_ge _ _)) by lia. lia.
  - rewrite Z.mod_small, (proj2 (Z.ltb_lt _ _)) by lia. lia.
Qed.

Lemma xtoi_plain_run m h hs :
  cstr m h hs → (∀ t, hs ≠ 48 :: 120 :: t) → xtoi h m = Ret (u64 (numeral 16 xtoi_digit 0 hs), m).
Proof.
  intros Hh Hx. unfold xtoi, mem_fuel. erewrite run_bind_Ret by reflexivity.
  rewrite (run_bind_Ret _ _ _ _ _ (load8_run _ _ _ (cstr_head _ _ _ Hh))).
  pose proof (cstr_fuel _ _ _ Hh) as Hf.
  assert (Hl := xtoi_loop_run m (S (size m)) h 0 hs Hh ltac:(lia) ltac:(lia)).
  destruct hs as [|b hs]; [exact Hl|]. cbn [lookup list_lookup default from_option id].
  destruct (Z.eqb_spec b 48) as [->|]; [|exact Hl].
  rewrite (run_bind_Ret _ _ _ _ _ (load8_run _ _ _ (cstr_head _ _ _ (cstr_tail _ _ _ _ Hh)))).
  destruct hs as [|b hs]; [exact Hl|]. cbn [lookup list_lookup default from_option id].
  destruct (Z.eqb_spec b 120) as [->|]; [by destruct (Hx hs)|exact Hl].
Qed.

Lemma xtoi_prefixed_run m p hs :
  cstr m p (48 :: 120 :: hs) → xtoi p m = Ret (u64 (numeral 16 xtoi_digit 0 hs), m).
Proof.
  intros Hp. unfold xtoi, mem_fuel. erewrite run_bind_Ret by reflexivity.
  pose proof (cstr_fuel _ _ _ Hp) as Hf. cbn in Hf.
  rewrite (run_bind_Ret _ _ _ _ _ (load8_run _ _ _ (cstr_head _ _ _ Hp))).
  pose proof (cstr_tail _ _ _ _ Hp) as Ht.
  cbn [lookup list_lookup default from_option id Z.eqb Pos.eqb].
  rewrite (run_bind_Ret _ _ _ _ _ (load8_run _ _ _ (cstr_head _ _ _ Ht))).
  apply xtoi_loop_run; [|lia|lia]. apply cstr_tail in Ht. by rewrite <-Z.add_assoc in Ht.
Qed.

(** ** The properties *)

Lemma memset_run dest c n m :
  0 ≤ n → mapped m dest n →
  ∃ m', memset dest c n m = Ret (dest, m') ∧
    ∀ a, m' !! a = if decide (dest ≤ a < dest + n) then Some (u8 c) else m !! a.
Proof.
  intros Hn Hm. unfold memset.
  destruct (memset_loop_run dest c n (S (Z.to_nat n)) 0 m) as (m' & Hr & Hm'); [lia|lia|done|].
  exists m'. rewrite (run_bind_Ret _ _ _ _ _ Hr). split; [done|].
  intros a. rewrite Hm'. by rewrite Z.add_0_r.
Qed.

(** The last occurrence of [c] among the bytes [bs]; [None] if there is none. *)
Fixpoint last_offset (c : Z) (bs : list Z) : option nat :=
  match bs with
  | [] => None
  | b :: bs => match last_offset c bs with
               | Some i => Some (S i)
               | None => if b =? c then Some O else None
               end
  end.

Lemma last_offset_app c bs b :
  last_offset c (bs ++ [b]) = if b =? c then Some (length bs) else last_offset c bs.
Proof.
  induction bs as [|x bs IH]; cbn; [by destruct (b =? c)|]. rewrite IH. by destruct (b =? c).
Qed.

Definition rchr_result (s c : Z) (bs : list Z) : Z :=
  match last_offset (u8 c) bs with Some i => s + Z.of_nat i | None => 0 end.

Lemma memrchr_run m s c bs :
  holds m s bs → memrchr s c (Z.of_nat (length bs)) m = Ret (rchr_result s c bs, m).
Proof.
  unfold memrchr, rchr_result. rewrite Nat2Z.id.
  induction bs as [|b bs IH] using rev_ind; intros Hh; [done|].
  rewrite length_app, Nat.add_comm. cbn [length Nat.add memrchr_loop]. rewrite last_offset_app.
  rewrite (run_bind_Ret _ _ _ _ _ (load8_run _ _ _ (Hh (length bs) b (list_lookup_middle _ _ _ _ eq_refl)))).
  destruct (b =? u8 c); [done|]. apply IH. intros i x Hi. apply Hh. by apply lookup_app_l_Some.
Qed.

Lemma strrchr_run m a c s : bytes_ok m → words_mapped m → cstr m a s →
  strrchr a c m = Ret (rchr_result a c (s ++ [0]), m).
Proof.
  intros Hok Hw Hc. unfold strrchr. rewrite (run_bind_Ret _ _ _ _ _ (strlen_run _ Hok Hw _ _ Hc)).
  rewrite <-(memrchr_run m a c (s ++ [0])) by apply Hc. rewrite length_app. cbn [length].
  f_equal. lia.
Qed.

(** The order of [memcmp]: the difference of the first bytes that differ. *)
Fixpoint mem_cmp (xs ys : list Z) : Z :=
  match xs, ys with
  | x :: xs, y :: ys => if x =? y then mem_cmp xs ys else x - y
  | _, _ => 0
  end.

Lemma memcmp_run m l r : ∀ xs ys,
  holds m l xs → holds m r ys → length xs = length ys →
  memcmp l r (Z.of_nat (length xs)) m = Ret (mem_cmp xs ys, m).
Proof.
  unfold memcmp. intros xs ys. rewrite Nat2Z.id. revert l r ys.
  induction xs as [|x xs IH]; intros l r [|y ys] Hx Hy Hl; cbn in Hl; try lia; [done|].
  apply holds_cons in Hx as [Hx0 Hx], Hy as [Hy0 Hy]. cbn [length memcmp_loop mem_cmp].
  rewrite (run_bind_Ret _ _ _ _ _ (load8_run _ _ _ Hx0)), (run_bind_Ret _ _ _ _ _ (load8_run _ _ _ Hy0)).
  destruct (x =? y); [|done]. apply IH; [done|done|lia].
Qed.

Lemma mem_cmp_eq xs : ∀ ys, length xs = length ys → mem_cmp xs ys = 0 ↔ xs = ys.
Proof.
  induction xs as [|x xs IH]; intros [|y ys] Hl; cbn in *; try lia; [done|].
  destruct (Z.eqb_spec x y) as [->|Hne].
  - rewrite IH by lia. split; [by intros ->|by intros [= ->]].
  - split; [lia|by intros [= ? ?]].
Qed.

(** C22: on a C string, [strlen] returns its length, [strchrnul] the first
    occurrence of the character or the terminator, [strchr] and [strrchr] the
    first and the last occurrence or [NULL] (the terminator counts as part of
    the string), and [memchr] the first occurrence within a counted block.
    The word-at-a-time loops read whole words beyond the terminator, never
    outside mapped words, and all the routines terminate without changing
    memory. *)
Theorem string_search_correct m a c s bs :
  bytes_ok m → words_mapped m → cstr m a s → holds m a bs →
  strlen a m = Ret (Z.of_nat (length s), m) ∧
  strchrnul a c m = Ret (a + Z.of_nat (chr_offset c s), m) ∧
  strchr a c m = Ret (chr_result a c s, m) ∧
  strrchr a c m = Ret (rchr_result a c (s ++ [0]), m) ∧
  memchr a c (Z.of_nat (length bs)) m =
    Ret (if bool_decide (u8 c ∈ bs) then a + Z.of_nat (chr_offset c bs) else 0, m).
Proof.
  intros Hok Hw Hc Hb. split_and!.
  - by apply strlen_run.
  - by apply strchrnul_run.
  - by apply strchr_run.
  - by apply strrchr_run.
  - by apply memchr_run.
Qed.

(** C23: the 256-bit byte set that [strspn] and [strcspn] build gives exactly
    membership in the delimiter string, for the empty, the one-character and
    the general case: [strspn] returns the length of the longest prefix inside
    the set, [strcspn] of the longest prefix outside it, and [strpbrk] the
    first character inside it or [NULL]. *)
Theorem string_span_correct m a s cd d :
  bytes_ok m → words_mapped m → cstr m a s → cstr m cd d →
  strspn a cd m = Ret (Z.of_nat (span (λ b, negb (in_set d b)) s), m) ∧
  strcspn a cd m = Ret (Z.of_nat (span (in_set d) s), m) ∧
  strpbrk a cd m =
    Ret (if (span (in_set d) s <? length s)%nat then a + Z.of_nat (span (in_set d) s) else 0, m).
Proof.
  intros Hok Hw Hs Hd. split_and!.
  - by apply strspn_run.
  - by apply strcspn_run.
  - by apply strpbrk_run.
Qed.

(** [strcmp] terminates with the lexicographic order by signed [char] and
    is 0 exactly on equal strings, as long as the 32-bit index does not wrap;
    [memcmp] is 0 exactly on equal blocks. *)
Theorem string_compare_correct m a b s t xs ys :
  bytes_ok m → cstr m a s → cstr m b t → Z.of_nat (length s) + 1 < 2 ^ 32 →
  holds m a xs → holds m b ys → length xs = length ys →
  (∃ r, strcmp a b m = Ret (r, m) ∧ r = str_cmp s t ∧ (r = 0 ↔ s = t)) ∧
  (∃ r, memcmp a b (Z.of_nat (length xs)) m = Ret (r, m) ∧ (r = 0 ↔ xs = ys)).
Proof.
  intros Hok Hs Ht Hb Hx Hy Hl. split.
  - exists (str_cmp s t). split_and!; [by apply strcmp_run|done|].
    assert (Hall : ∀ a s, cstr m a s → Forall (λ b, is_byte b ∧ b ≠ 0) s).
    { intros a' s' Hc. apply Forall_and. split; [by apply (cstr_byte m Hok a')|apply Hc]. }
    apply str_cmp_eq; eauto.
  - exists (mem_cmp xs ys). split; [by apply memcmp_run|by apply mem_cmp_eq].
Qed.

(** [atoi] reads an optionally negated decimal numeral whose value fits
    an [int] to exactly that value, and [xtoi] reads a hexadecimal numeral,
    with or without its 0x prefix, to its value modulo 2^64 (a character that
    is no hexadecimal digit counts as the digit 0). *)
Theorem string_numbers_correct m a neg ds h hs :
  cstr m a ((if neg : bool then [45] else []) ++ ds) → Forall is_digit ds →
  numeral 10 (λ b, b - 48) 0 ds < 2 ^ 31 →
  cstr m h hs → (∀ t, hs ≠ 48 :: 120 :: t) →
  atoi a m = Ret ((if neg then -1 else 1) * numeral 10 (λ b, b - 48) 0 ds, m) ∧
  xtoi h m = Ret (u64 (numeral 16 xtoi_digit 0 hs), m) ∧
  (∀ p, cstr m p (48 :: 120 :: hs) → xtoi p m = Ret (u64 (numeral 16 xtoi_digit 0 hs), m)).
Proof.
  intros Ha Hd Hv Hh Hx. split_and!.
  - by apply atoi_run.
  - by apply xtoi_plain_run.
  - intros p Hp. by apply xtoi_prefixed_run.
Qed.

(** ** Witnesses: a mapped region with four strings *)

(** "ab,cd;x" at 4096, ",;" at 4104, "-42" at 4112, "1f" at 4120 and "0x1f" at 4128. *)
Definition demo_bytes : list Z :=
  [97; 98; 44; 99; 100; 59; 120; 0;  44; 59; 0; 0; 0; 0; 0; 0;
   45; 52; 50; 0; 0; 0; 0; 0;  49; 102; 0; 0; 0; 0; 0; 0;
   48; 120; 49; 102; 0; 0; 0; 0].
Definition demo_mem : mem := region 4096 demo_bytes.

Lemma demo_bytes_ok : bytes_ok demo_mem.
Proof. apply region_bytes_ok. repeat constructor; done. Qed.

Lemma demo_words_mapped : words_mapped demo_mem.
Proof. by apply (region_words_mapped _ _ 5). Qed.

Lemma demo_cstr k s :
  bool_decide (take (S (length s)) (drop k demo_bytes) = s ++ [0]) = true →
  bool_decide (Forall (λ b, b ≠ 0) s) = true → cstr demo_mem (4096 + Z.of_nat k) s.
Proof. intros ?%bool_decide_eq_true_1 ?%bool_decide_eq_true_1. by apply region_cstr. Qed.

Lemma memmove_copies_witness :
  (∃ m', memmove 4097 4096 20 demo_mem = Ret (4097, m') ∧ moved demo_mem m' 4097 4096 20) ∧
  ∃ m', memcpy 4112 4096 16 demo_mem = Ret (4112, m') ∧ moved demo_mem m' 4112 4096 16.
Proof.
  split.
  - apply (memmove_copies 4097 4096 20 demo_mem); [exact demo_bytes_ok|lia|apply region_mapped; cbn; lia..].
  - apply (memmove_copies 4112 4096 16 demo_mem);
      [exact demo_bytes_ok|lia|apply region_mapped; cbn; lia..|lia].
Defined.

Lemma string_search_correct_witness :
  strlen 4097 demo_mem = Ret (6, demo_mem) ∧ strchr 4097 99 demo_mem = Ret (4099, demo_mem) ∧
  strrchr 4097 99 demo_mem = Ret (4099, demo_mem) ∧ memchr 4097 59 4 demo_mem = Ret (0, demo_mem).
Proof.
  pose proof (string_search_correct demo_mem 4097 99 [98; 44; 99; 100; 59; 120] [98; 44; 99; 100]
    demo_bytes_ok demo_words_mapped (demo_cstr 1 [98; 44; 99; 100; 59; 120] eq_refl eq_refl) (region_holds 4096 demo_bytes 1 4))
    as (H1 & _ & H3 & H4 & _).
  pose proof (string_search_correct demo_mem 4097 59 [98; 44; 99; 100; 59; 120] [98; 44; 99; 100]
    demo_bytes_ok demo_words_mapped (demo_cstr 1 [98; 44; 99; 100; 59; 120] eq_refl eq_refl) (region_holds 4096 demo_bytes 1 4))
    as (_ & _ & _ & _ & H5).
  split_and!; [exact H1|exact H3|exact H4|exact H5].
Defined.

Lemma string_span_correct_witness :
  strspn 4098 4104 demo_mem = Ret (1, demo_mem) ∧ strcspn 4097 4104 demo_mem = Ret (1, demo_mem) ∧
  strpbrk 4099 4104 demo_mem = Ret (4101, demo_mem).
Proof.
  split_and!.
  - apply (string_span_correct demo_mem 4098 [44; 99; 100; 59; 120] 4104 [44; 59]
      demo_bytes_ok demo_words_mapped (demo_cstr 2 [44; 99; 100; 59; 120] eq_refl eq_refl) (demo_cstr 8 [44; 59] eq_refl eq_refl)).
  - apply (string_span_correct demo_mem 4097 [98; 44; 99; 100; 59; 120] 4104 [44; 59]
      demo_bytes_ok demo_words_mapped (demo_cstr 1 [98; 44; 99; 100; 59; 120] eq_refl eq_refl) (demo_cstr 8 [44; 59] eq_refl eq_refl)).
  - apply (string_span_correct demo_mem 4099 [99; 100; 59; 120] 4104 [44; 59]
      demo_bytes_ok demo_words_mapped (demo_cstr 3 [99; 100; 59; 120] eq_refl eq_refl) (demo_cstr 8 [44; 59] eq_refl eq_refl)).
Defined.

Lemma string_compare_correct_witness :
  (∃ r, strcmp 4101 4104 demo_mem = Ret (r, demo_mem) ∧ r = str_cmp [59; 120] [44; 59] ∧
     (r = 0 ↔ [59; 120] = [44; 59])) ∧
  (∃ r, memcmp 4101 4104 2 demo_mem = Ret (r, demo_mem) ∧ (r = 0 ↔ [59; 120] = [44; 59])).
Proof.
  exact (string_compare_correct demo_mem 4101 4104 [59; 120] [44; 59] [59; 120] [44; 59]
    demo_bytes_ok (demo_cstr 5 [59; 120] eq_refl eq_refl) (demo_cstr 8 [44; 59] eq_refl eq_refl) eq_refl
    (region_holds 4096 demo_bytes 5 2) (region_holds 4096 demo_bytes 8 2) eq_refl).
Defined.

Lemma string_numbers_correct_witness :
  atoi 4112 demo_mem = Ret (-42, demo_mem) ∧ xtoi 4120 demo_mem = Ret (31, demo_mem) ∧
  xtoi 4128 demo_mem = Ret (31, demo_mem).
Proof.
  destruct (string_numbers_correct demo_mem 4112 true [52; 50] 4120 [49; 102]
    (demo_cstr 16 [45; 52; 50] eq_refl eq_refl) ltac:(repeat constructor; done) eq_refl
    (demo_cstr 24 [49; 102] eq_refl eq_refl) ltac:(done)) as (H1 & H2 & H3).
  split_and!; [exact H1|exact H2|exact (H3 4128 (demo_cstr 32 [48; 120; 49; 102] eq_refl eq_refl))].
Defined.
