(* ===== verification/Tokenize.v ===== *)
(** * Splitting strings into arrays ([kernel/misc/tokenize.c])

    [tokenize] and the [strtok_r] of [CString] it drives, on the byte memory:
    the tokens are cut in place by overwriting delimiters, and the pointers
    are stored in the caller's array.  The specification is on byte lists:
    the fields between delimiters, empty fields dropped. *)

From S2P Require Import Prelude Memory CString.

(** ** The code *)

(** [while (pch_i != NULL) { buf[argc++] = pch_i; pch_i = strtok_r(NULL, sep, &save_i); }] *)
Fixpoint tokenize_loop (fuel : nat) (sep buf pch_i save_i argc : Z) : M mem Z :=
  match fuel with
  | O => spin
  | S fuel =>
      if pch_i =? 0 then mret argc else
      storew 8 (buf + 8 * argc) pch_i;;
      r ← strtok_r 0 sep save_i;
      let '(pch_i, save_i) := r in
      tokenize_loop fuel sep buf pch_i save_i (s32 (argc + 1))
  end.

(** [save_i] is uninitialised before the first call, which does not read it. *)
Definition tokenize (str sep buf : Z) : M mem Z :=
  fuel ← mem_fuel;
  r ← strtok_r str sep 0;
  let '(pch_i, save_i) := r in
  if pch_i =? 0 then mret 0 else
  argc ← tokenize_loop fuel sep buf pch_i save_i 0;
  storew 8 (buf + 8 * argc) 0;;
  mret argc.

(** ** The specification: fields of a byte list *)

Fixpoint fields (d s : list Z) : list (list Z) :=
  match s with
  | [] => [[]]
  | b :: s =>
      if in_set d b then [] :: fields d s
      else match fields d s with f :: fs => (b :: f) :: fs | [] => [[b]] end
  end.

Definition nonempty (f : list Z) : bool := match f with [] => false | _ => true end.
Definition tokens (d s : list Z) : list (list Z) := List.filter nonempty (fields d s).

(** What one call of [strtok_r] finds: the number of leading delimiters, the
    token, and what is left after the delimiter that ends it. *)
Definition next_token (d s : list Z) : option (nat * list Z * list Z) :=
  let skip := span (λ b, negb (in_set d b)) s in
  let s1 := drop skip s in
  let k := span (in_set d) s1 in
  if nonempty s1 then Some (skip, take k s1, drop (S k) s1) else None.

Lemma fields_span d s :
  let k := span (in_set d) s in
  fields d s = take k s :: (if (k <? length s)%nat then fields d (drop (S k) s) else []).
Proof.
  induction s as [|b s IH]; cbn; [done|]. destruct (in_set d b) eqn:E; [done|].
  cbn zeta in IH. rewrite IH. cbn [take drop length]. done.
Qed.

Lemma tokens_skip d s : tokens d s = tokens d (drop (span (λ b, negb (in_set d b)) s) s).
Proof.
  induction s as [|b s IH]; [done|]. cbn [span]. destruct (in_set d b) eqn:E; cbn [negb]; [|done].
  cbn [drop]. rewrite <-IH. unfold tokens. cbn [fields]. by rewrite E.
Qed.

Lemma tokens_next d s :
  tokens d s = match next_token d s with None => [] | Some (_, tok, rest) => tok :: tokens d rest end.
Proof.
  rewrite tokens_skip. unfold next_token.
  set (p := λ b, negb (in_set d b)). destruct (drop (span p s) s) as [|b s1] eqn:E; [done|].
  assert (Hb : in_set d b = false).
  { apply negb_true_iff. apply (span_lookup p s). by rewrite <-(Nat.add_0_r (span p s)), <-lookup_drop, E. }
  cbn [nonempty]. unfold tokens at 1. rewrite fields_span. cbn [span]. rewrite Hb.
  cbn [take List.filter nonempty]. f_equal. rewrite !skipn_cons. cbn [length].
  destruct (Nat.ltb_spec (S (span (in_set d) s1)) (S (length s1))); [done|].
  rewrite drop_ge by lia. done.
Qed.

(** ** One call of [strtok_r] *)

Lemma cstr_drop m a s j : (j ≤ length s)%nat → cstr m a s → cstr m (a + Z.of_nat j) (drop j s).
Proof.
  intros Hj [Hh Hnz]. split; [|by apply Forall_drop].
  replace (drop j s ++ [0]) with (drop j (s ++ [0])) by (by rewrite drop_app_le).
  by apply holds_drop.
Qed.

(** Cutting a string at an offset by storing a terminator there. *)
Lemma cstr_cut m m' a s k :
  cstr m a s → (k ≤ length s)%nat → m' !! (a + Z.of_nat k) = Some 0 →
  (∀ x, a ≤ x < a + Z.of_nat k → m' !! x = m !! x) → cstr m' a (take k s).
Proof.
  intros [Hh Hnz] Hk H0 Hs. split; [|by apply Forall_take].
  intros i b Hi. destruct (decide (i < k)%nat) as [Hlt|Hge].
  - rewrite lookup_app_l in Hi by (rewrite length_take; lia). rewrite lookup_take_lt in Hi by done.
    rewrite Hs by lia. apply Hh. by apply lookup_app_l_Some.
  - rewrite lookup_app_r, length_take, Nat.min_l in Hi by (rewrite ?length_take; lia).
    apply list_lookup_singleton_Some in Hi as [? <-]. by replace i with k by lia.
Qed.

Definition strtok_step (m : mem) (p : Z) (d s : list Z) (r : outcome (Z * Z * mem)) : Prop :=
  match next_token d s with
  | None => ∃ sv', r = Ret ((0, sv'), m)
  | Some (skip, tok, rest) =>
      ∃ sv' m', r = Ret ((p + Z.of_nat skip, sv'), m') ∧
        evolves m m' (λ x, p < x < p + Z.of_nat (length s)) ∧ (0 < length tok)%nat ∧
        cstr m' (p + Z.of_nat skip) tok ∧ cstr m' sv' rest ∧
        p + Z.of_nat skip + Z.of_nat (length tok) ≤ sv' ∧
        sv' + Z.of_nat (length rest) = p + Z.of_nat (length s)
  end.

Lemma strtok_r_run m q dl sv p d s :
  mem_ok m → cstr m p s → cstr m dl d → 0 < p → (if q =? 0 then sv else q) = p →
  strtok_step m p d s (strtok_r q dl sv m).
Proof.
  intros [Hok Hw] Hs Hd Hp Hq. unfold strtok_r. rewrite Hq.
  rewrite (run_bind_Ret _ _ _ _ _ (strspn_run m Hok _ _ _ _ Hs Hd)). cbn beta zeta.
  unfold strtok_step, next_token. set (skip := span _ s).
  assert (Hskip : (skip ≤ length s)%nat) by apply span_le.
  pose proof (cstr_drop _ _ _ _ Hskip Hs) as Hs1.
  assert (Hlen : length s = (skip + length (drop skip s))%nat) by (rewrite length_drop; lia).
  assert (Hhd : ∀ b, drop skip s !! O = Some b → in_set d b = false).
  { intros b Hb. rewrite lookup_drop, Nat.add_0_r in Hb. apply negb_true_iff. by apply (span_lookup _ _ _ Hb). }
  rewrite (run_bind_Ret _ _ _ _ _ (load8_run _ _ _ (cstr_head _ _ _ Hs1))).
  revert Hs1 Hlen Hhd. generalize (drop skip s). intros s1 Hs1 Hlen Hhd.
  destruct s1 as [|b s1]; cbn [nonempty lookup list_lookup default from_option id]; [by eexists|].
  rewrite (proj2 (Z.eqb_neq b 0)) by (by eapply (cstr_nonzero _ _ _ 0 _ Hs1)).
  rewrite (run_bind_Ret _ _ _ _ _ (strpbrk_run m Hok Hw _ _ _ _ Hs1 Hd)).
  specialize (Hhd b eq_refl). set (a := p + Z.of_nat skip) in *.
  pose proof (span_le (in_set d) (b :: s1)) as Hk.
  assert (0 < span (in_set d) (b :: s1))%nat by (cbn; rewrite Hhd; lia).
  revert Hk H. generalize (span (in_set d) (b :: s1)). intros k Hk Hk0.
  destruct (Nat.ltb_spec k (length (b :: s1))) as [Hlt|Hge].
  - rewrite (proj2 (Z.eqb_neq _ 0)) by lia.
    destruct (lookup_lt_is_Some_2 (b :: s1) k Hlt) as [c Hc].
    destruct (store8_evolves m (a + Z.of_nat k) 0) as (m' & Hst & Hev & Hz).
    { rewrite (cstr_lookup _ _ _ _ _ Hs1 Hc). eauto. }
    rewrite (run_bind_Ret _ _ _ _ _ Hst). exists (a + Z.of_nat k + 1), m'. split_and!; [done| |rewrite length_take; lia| | | |].
    + eapply evolves_trans; [exact Hev|exact (evolves_refl m' (λ _, False))|intros x ->; lia|done].
    + apply (cstr_cut m m' a (b :: s1) k Hs1 Hk Hz). intros x Hx. apply (ev_frame _ _ _ Hev). lia.
    + apply (evolves_cstr _ _ _ _ _ Hev); [intros x Hx; lia|].
      replace (a + Z.of_nat k + 1) with (a + Z.of_nat (S k)) by lia. apply cstr_drop; [lia|done].
    + rewrite length_take. lia.
    + rewrite length_drop. lia.
  - cbn [Z.eqb]. unfold lfind. rewrite (run_bind_Ret _ _ _ _ _ (strchr_run m Hok Hw _ 0 _ Hs1)).
    assert (Hch : chr_result a 0 (b :: s1) = a + Z.of_nat (length (b :: s1))).
    { unfold chr_result, chr_offset. change (u8 0) with 0.
      rewrite bool_decide_eq_true_2 by (apply elem_of_app; right; by left).
      rewrite span_all; [done|]. apply (Forall_impl _ _ _ (proj2 Hs1)). intros x Hx. by apply Z.eqb_neq. }
    rewrite Hch. exists (a + Z.of_nat (length (b :: s1))), m.
    rewrite take_ge, drop_ge by lia. split_and!; [done|apply evolves_refl|cbn; lia|done| |lia|cbn [length] in *; lia].
    pose proof (cstr_drop m a (b :: s1) (length (b :: s1)) ltac:(lia) Hs1) as Ht. by rewrite drop_all in Ht.
Qed.

(** ** The loop *)

Section loop.
Context (dl buf : Z) (d : list Z).

(** The [i]-th element of the pointer array is [p]. *)
Definition slot (m : mem) (i p : Z) : Prop := holds m (buf + 8 * i) (le_split 8 p).

(** The array up to element [n], the delimiters and the text are apart. *)
Definition apart (n lo hi : Z) : Prop :=
  ∀ x, (buf ≤ x < buf + 8 * n → ¬ (dl ≤ x ≤ dl + Z.of_nat (length d))) ∧
       (lo ≤ x ≤ hi → ¬ (buf ≤ x < buf + 8 * n) ∧ ¬ (dl ≤ x ≤ dl + Z.of_nat (length d))).

(** Element [argc] is stored and the rest of the text is cut; [m2] is the
    memory before the next iteration. *)
Lemma tokenize_iter_run m pch sv argc tok rest n :
  mem_ok m → cstr m pch tok → cstr m sv rest → cstr m dl d → 0 < pch →
  pch + Z.of_nat (length tok) ≤ sv → 0 ≤ argc < n → mapped m (buf + 8 * argc) 8 →
  apart n pch (sv + Z.of_nat (length rest)) →
  ∃ m1, storew 8 (buf + 8 * argc) pch m = Ret (tt, m1) ∧ mem_ok m1 ∧
    evolves m m1 (λ x, buf + 8 * argc ≤ x < buf + 8 * (argc + 1)) ∧ slot m1 argc pch ∧
    cstr m1 pch tok ∧ cstr m1 dl d ∧ strtok_step m1 sv d rest (strtok_r 0 dl sv m1).
Proof.
  intros Hm Ht Hr Hd Hp Hle Hn Hmap Hap.
  destruct (storew_evolves m 8 (buf + 8 * argc) pch Hmap) as (m1 & Hst & Hev & Hsl).
  exists m1. assert (Hm1 : mem_ok m1) by (by apply (evolves_ok _ _ _ Hev)).
  assert (Hr1 : cstr m1 sv rest) by (apply (evolves_cstr _ _ _ _ _ Hev); [|done];
    intros x Hx; specialize (Hap x); lia).
  assert (Hd1 : cstr m1 dl d) by (apply (evolves_cstr _ _ _ _ _ Hev); [|done];
    intros x Hx; specialize (Hap x); lia).
  split_and!; try done.
  - eapply evolves_trans; [exact Hev|exact (evolves_refl m1 (λ _, False))|cbn beta; lia|done].
  - apply (evolves_cstr _ _ _ _ _ Hev); [|done]. intros x Hx. specialize (Hap x). lia.
  - apply strtok_r_run; try done. lia.
Qed.

Lemma tokenize_loop_run fuel : ∀ m pch sv argc tok rest,
  let n := Z.of_nat (length (tokens d rest)) in
  mem_ok m → cstr m pch tok → cstr m sv rest → cstr m dl d → 0 < pch →
  pch + Z.of_nat (length tok) ≤ sv → 0 ≤ argc → argc + 1 + n < 2 ^ 31 →
  mapped m (buf + 8 * argc) (8 * (n + 1)) →
  apart (argc + 1 + n) pch (sv + Z.of_nat (length rest)) →
  (S (length rest) < fuel)%nat →
  ∃ m', tokenize_loop fuel dl buf pch sv argc m = Ret (argc + 1 + n, m') ∧
    evolves m m' (λ x, sv < x < sv + Z.of_nat (length rest) ∨
                       buf + 8 * argc ≤ x < buf + 8 * (argc + 1 + n)) ∧
    ∀ i t, (tok :: tokens d rest) !! i = Some t →
      ∃ p, (pch ≤ p ∧ p + Z.of_nat (length t) ≤ sv + Z.of_nat (length rest)) ∧ slot m' (argc + Z.of_nat i) p ∧ cstr m' p t.
Proof.
  induction fuel as [|fuel IH]; intros m pch sv argc tok rest n Hm Ht Hr Hd Hp Hle Ha Hb Hmap Hap Hf; [lia|].
  destruct (tokenize_iter_run m pch sv argc tok rest (argc + 1 + n)) as
    (m1 & Hst & Hm1 & Hev & Hsl & Ht1 & Hd1 & Hstep); try done; [lia| |].
  { intros i Hi. apply Hmap. lia. }
  cbn [tokenize_loop]. rewrite (proj2 (Z.eqb_neq pch 0)) by lia.
  rewrite (run_bind_Ret _ _ _ _ _ Hst). rewrite s32_small by lia.
  unfold strtok_step in Hstep. subst n. rewrite tokens_next in *.
  destruct (next_token d rest) as [[[skip tok'] rest']|].
  - destruct Hstep as (sv' & m2 & Hr2 & Hev2 & Hnz2 & Ht2 & Hrest2 & Hle2 & Hlen2).
    rewrite (run_bind_Ret _ _ _ _ _ Hr2). cbn beta iota. cbn [length] in *.
    destruct (IH m2 (sv + Z.of_nat skip) sv' (argc + 1) tok' rest') as (m' & -> & Hev' & Hsl'); try done; try lia.
    + by apply (evolves_ok _ _ _ Hev2).
    + apply (evolves_cstr _ _ _ _ _ Hev2); [|done]. intros x Hx. specialize (Hap x). lia.
    + apply (evolves_mapped _ _ _ _ _ Hev2), (evolves_mapped _ _ _ _ _ Hev). intros i Hi.
      replace (buf + 8 * (argc + 1) + i) with (buf + 8 * argc + (8 + i)) by lia. apply Hmap. lia.
    + intros x. specialize (Hap x). lia.
    + exists m'. split_and!; [do 2 f_equal; lia| |].
      * eapply evolves_trans3; [exact Hev|exact Hev2|exact Hev'|cbn beta; lia..].
      * intros [|i] t Hi; cbn in Hi.
        { simplify_eq. exists pch. rewrite Z.add_0_r. split_and!; [lia|lia| |].
          - apply (evolves_holds _ _ _ _ _ Hev'); [|apply (evolves_holds _ _ _ _ _ Hev2); [|done]];
              rewrite le_split_length; intros x Hx; specialize (Hap x); lia.
          - apply (evolves_cstr _ _ _ _ _ Hev'); [|apply (evolves_cstr _ _ _ _ _ Hev2); [|done]];
              intros x Hx; specialize (Hap x); lia. }
        { destruct (Hsl' i t Hi) as (p & Hp' & Hs' & Hc'). exists p. split_and!; [lia|lia| |done].
          by replace (argc + Z.of_nat (S i)) with (argc + 1 + Z.of_nat i) by lia. }
  - destruct Hstep as (sv' & Hr2). rewrite (run_bind_Ret _ _ _ _ _ Hr2). cbn beta iota.
    destruct fuel as [|fuel]; [lia|]. cbn [tokenize_loop Z.eqb]. exists m1. cbn [length] in *. split_and!.
    + unfold mret, M_ret. do 2 f_equal. lia.
    + eapply evolves_trans; [exact Hev|exact (evolves_refl m1 (λ _, False))|cbn beta; lia|done].
    + intros [|i] t Hi; cbn in Hi; [|done]. simplify_eq. exists pch. rewrite Z.add_0_r. split_and!; try done; lia.
Qed.

End loop.

(** C24: [tokenize] cuts a string in place into its non-empty fields between
    delimiters: it returns their number, element [i] of the array points into
    the original buffer at the [i]-th field, which is now a C string of its
    own, the array ends with [NULL] unless there is no field (then the array
    is not written), and no byte outside the text and the array changes.  The
    array must have room for one pointer per field and the [NULL]. *)
Theorem tokenize_correct m str sep buf s d :
  let toks := tokens d s in
  let n := Z.of_nat (length toks) in
  mem_ok m → cstr m str s → cstr m sep d → 0 < str → str + Z.of_nat (length s) < 2 ^ 64 →
  n + 1 < 2 ^ 31 → mapped m buf (8 * (n + 1)) →
  apart sep buf d (n + 1) str (str + Z.of_nat (length s)) →
  ∃ m', tokenize str sep buf m = Ret (n, m') ∧
    evolves m m' (λ x, str < x < str + Z.of_nat (length s) ∨ n ≠ 0 ∧ buf ≤ x < buf + 8 * (n + 1)) ∧
    (n ≠ 0 → loadw 8 (buf + 8 * n) m' = Ret (0, m')) ∧
    ∀ i t, toks !! i = Some t →
      ∃ p, (str ≤ p ∧ p + Z.of_nat (length t) ≤ str + Z.of_nat (length s)) ∧
        loadw 8 (buf + 8 * Z.of_nat i) m' = Ret (p, m') ∧ cstr m' p t.
Proof.
  intros toks n Hm Hs Hd Hp Hhi Hb Hmap Hap. unfold tokenize, mem_fuel.
  erewrite run_bind_Ret by reflexivity.
  assert (Hstep := strtok_r_run m str sep 0 str d s Hm Hs Hd Hp ltac:(by rewrite (proj2 (Z.eqb_neq str 0)) by lia)).
  unfold strtok_step in Hstep. subst n toks. rewrite tokens_next in *.
  pose proof (cstr_fuel _ _ _ Hs) as Hfuel.
  destruct (next_token d s) as [[[skip tok] rest]|].
  - destruct Hstep as (sv & m1 & Hr & Hev & Hnz & Ht & Hrest & Hle & Hlen).
    rewrite (run_bind_Ret _ _ _ _ _ Hr). cbn beta iota. rewrite (proj2 (Z.eqb_neq _ 0)) by lia.
    cbn [length] in *.
    destruct (tokenize_loop_run sep buf d (S (size m)) m1 (str + Z.of_nat skip) sv 0 tok rest)
      as (m2 & Hr2 & Hev2 & Hsl); try done; try lia.
    + by apply (evolves_ok _ _ _ Hev).
    + apply (evolves_cstr _ _ _ _ _ Hev); [|done]. intros x Hx. specialize (Hap x). lia.
    + apply (evolves_mapped _ _ _ _ _ Hev). intros i Hi. replace (buf + 8 * 0) with buf by lia. apply Hmap. lia.
    + intros x. specialize (Hap x). lia.
    + rewrite (run_bind_Ret _ _ _ _ _ Hr2). set (k := 0 + 1 + _) in *.
      destruct (storew_evolves m2 8 (buf + 8 * k) 0) as (m3 & Hst & Hev3 & Hz).
      { apply (evolves_mapped _ _ _ _ _ Hev2), (evolves_mapped _ _ _ _ _ Hev). intros i Hi.
        replace (buf + 8 * k + i) with (buf + (8 * k + i)) by lia. apply Hmap. lia. }
      rewrite (run_bind_Ret _ _ _ _ _ Hst). exists m3. split_and!; [unfold mret, M_ret; do 2 f_equal; lia| | |].
      * eapply evolves_trans3; [exact Hev|exact Hev2|exact Hev3|cbn beta; lia..].
      * intros _. apply holds_loadw; [lia|]. by replace (Z.of_nat (S _)) with k by lia.
      * intros i t Hi. pose proof (lookup_lt_Some _ _ _ Hi). cbn [length] in *.
        destruct (Hsl i t Hi) as (p & Hp' & Hs' & Hc'). exists p. split_and!; [lia|lia| |].
        { apply holds_loadw; [cbn; lia|]. rewrite Z.add_0_l in Hs'.
          apply (evolves_holds _ _ _ _ _ Hev3); [|done]. rewrite le_split_length. lia. }
        { apply (evolves_cstr _ _ _ _ _ Hev3); [|done]. intros x Hx. specialize (Hap x). lia. }
  - destruct Hstep as (sv & Hr). rewrite (run_bind_Ret _ _ _ _ _ Hr). exists m.
    split_and!; [done|apply evolves_refl|done|]. intros i t Hi. done.
Qed.

(** ** Witness: "/usr//bin" split at "/" *)

Definition path_bytes : list Z :=
  [47; 117; 115; 114; 47; 47; 98; 105; 110; 0; 0; 0; 0; 0; 0; 0;  47; 0; 0; 0; 0; 0; 0; 0]
  ++ replicate 24 0.

Lemma tokenize_correct_witness :
  tokens [47] [47; 117; 115; 114; 47; 47; 98; 105; 110] = [[117; 115; 114]; [98; 105; 110]] ∧
  ∃ m', tokenize 4096 4112 4120 (region 4096 path_bytes) = Ret (2, m') ∧
    loadw 8 4136 m' = Ret (0, m') ∧
    ∃ p, loadw 8 4128 m' = Ret (p, m') ∧ cstr m' p [98; 105; 110].
Proof.
  split; [reflexivity|].
  destruct (tokenize_correct (region 4096 path_bytes) 4096 4112 4120
    [47; 117; 115; 114; 47; 47; 98; 105; 110] [47]) as (m' & Hr & _ & Hz & Ht).
  - split; [apply region_bytes_ok; repeat constructor; done|by apply (region_words_mapped _ _ 6)].
  - apply (region_cstr 4096 path_bytes 0); [reflexivity|repeat constructor; done].
  - apply (region_cstr 4096 path_bytes 16); [reflexivity|repeat constructor; done].
  - lia.
  - cbn. lia.
  - reflexivity.
  - apply region_mapped; vm_compute; discriminate.
  - intros x. change (length [47]) with 1%nat. change (length (tokens _ _)) with 2%nat.
    change (length [47; 117; 115; 114; 47; 47; 98; 105; 110]) with 9%nat. lia.
  - exists m'. split; [exact Hr|]. split; [apply Hz; discriminate|].
    destruct (Ht 1%nat [98; 105; 110] eq_refl) as (p & _ & Hp & Hc). exists p. split; [exact Hp|exact Hc].
Defined.
