(* ===== verification/Hashmap.v ===== *)
(** * The kernel's hash map ([kernel/misc/hashmap.c])

    An array of chains.  The three function pointers a map carries for its
    keys are the class [HashKey], whose laws are what the chains rely on; the
    string and the integer functions of the source are its two instances, the
    string ones obtained from the routines of [CString] on memory.  A [void *]
    value is a machine word, 0 being [NULL].  The abstract value of a map is
    the finite function from keys to values, and every operation is shown to
    implement the operation on it. *)

From S2P Require Import Prelude Memory CString DList.

(** ** Key functions *)

(** What a map assumes of [hash_func], [hash_comp] and [hash_key_dup]. *)
Class HashKey (K : Type) := {
  hash_func : K → Z;
  hash_comp : K → K → bool;
  hash_key_dup : K → K;
  hash_range : ∀ k, 0 ≤ hash_func k < 2 ^ 32;
  comp_refl : ∀ k, hash_comp k k = true;
  comp_sym : ∀ a b, hash_comp a b = true → hash_comp b a = true;
  comp_trans : ∀ a b c, hash_comp a b = true → hash_comp b c = true → hash_comp a c = true;
  comp_hash : ∀ a b, hash_comp a b = true → hash_func a = hash_func b;
  dup_comp : ∀ k, hash_comp (hash_key_dup k) k = true;
}.

(** The "sdbm" hash: [while ((c = *key++)) hash = c + (hash << 6) + (hash << 16) - hash;],
    [c] a sign-extended [char], [hash] an [unsigned int]. *)
Definition sdbm_step (hash c : Z) : Z :=
  u32 (s8 c + u32 (Z.shiftl hash 6) + u32 (Z.shiftl hash 16) - hash).

Fixpoint hashmap_string_hash_loop (fuel : nat) (key hash : Z) : M mem Z :=
  match fuel with
  | O => spin
  | S fuel => c ← load8 key;
              if c =? 0 then mret hash else hashmap_string_hash_loop fuel (key + 1) (sdbm_step hash c)
  end.

Definition hashmap_string_hash (key : Z) : M mem Z :=
  fuel ← mem_fuel; hashmap_string_hash_loop fuel key 0.

Definition hashmap_string_comp (a b : Z) : M mem bool := r ← strcmp a b; mret (r =? 0).

Definition hashmap_int_hash (key : Z) : Z := u32 key.
Definition hashmap_int_comp (a b : Z) : bool := a =? b.
Definition hashmap_int_dupe (key : Z) : Z := key.

(** ** Data *)

Section hashmap.
Context {K : Type} `{HashKey K}.

Record hashmap_entry := Entry { ekey : K; evalue : Z }.

(** The chain hanging off a bucket: [NULL] is the empty list, and the [next]
    pointer of an entry is the tail. *)
Abbreviation chain := (list hashmap_entry).

(** [freed_keys] and [freed_entries] log the calls of [hash_key_free] and
    [hash_val_free]. *)
Record hashmap := Hashmap {
  msize : Z;
  entries : list chain;
  freed_keys : list K;
  freed_entries : list hashmap_entry;
}.

(** ** Operations *)

(** [hash_func(key) % map->size]: a trap when the size is 0. *)
Definition bucket_of (k : K) : M hashmap nat :=
  map ← get;
  if msize map =? 0 then fault else mret (Z.to_nat (hash_func k mod msize map)).

Definition read_bucket (i : nat) : M hashmap chain := λ map,
  match entries map !! i with Some x => Ret (x, map) | None => Fault end.

Definition write_bucket (i : nat) (x : chain) : M hashmap unit := λ map,
  match entries map !! i with
  | Some _ => Ret (tt, Hashmap (msize map) (<[i := x]> (entries map)) (freed_keys map) (freed_entries map))
  | None => Fault
  end.

(** [map->hash_key_free(x->key); map->hash_val_free(x);] *)
Definition free_entry (e : hashmap_entry) : M hashmap unit :=
  modify (λ map, Hashmap (msize map) (entries map) (freed_keys map ++ [ekey e]) (freed_entries map ++ [e])).

Definition hashmap_create (sz : Z) : hashmap :=
  Hashmap (u64 sz) (replicate (Z.to_nat (u64 sz)) []) [] [].

(** The [do ... while (x)] of [hashmap_set] and the append after it. *)
Fixpoint set_chain (x : chain) (k : K) (v : Z) : Z * chain :=
  match x with
  | [] => (0, [Entry (hash_key_dup k) v])
  | e :: x' =>
      if hash_comp (ekey e) k then (evalue e, Entry (ekey e) v :: x')
      else let '(r, y) := set_chain x' k v in (r, e :: y)
  end.

Definition hashmap_set (k : K) (v : Z) : M hashmap Z :=
  hash ← bucket_of k;
  x ← read_bucket hash;
  match x with
  | [] => write_bucket hash [Entry (hash_key_dup k) v];; mret 0
  | _ => let '(out, y) := set_chain x k v in write_bucket hash y;; mret out
  end.

Fixpoint get_chain (x : chain) (k : K) : Z :=
  match x with
  | [] => 0
  | e :: x' => if hash_comp (ekey e) k then evalue e else get_chain x' k
  end.

Definition hashmap_get (k : K) : M hashmap Z :=
  hash ← bucket_of k;
  x ← read_bucket hash;
  match x with [] => mret 0 | _ => mret (get_chain x k) end.

Fixpoint has_chain (x : chain) (k : K) : Z :=
  match x with
  | [] => 0
  | e :: x' => if hash_comp (ekey e) k then 1 else has_chain x' k
  end.

Definition hashmap_has (k : K) : M hashmap Z :=
  hash ← bucket_of k;
  x ← read_bucket hash;
  match x with [] => mret 0 | _ => mret (has_chain x k) end.

(** The [do ... while (x)] of [hashmap_remove]: the first test reads [x->key]
    before [x] is known not to be [NULL].  Returns the value found and the
    chain after [p]. *)
Fixpoint remove_rest (x : chain) (k : K) : M hashmap (Z * chain) :=
  match x with
  | [] => fault
  | e :: x' =>
      if hash_comp (ekey e) k then free_entry e;; mret (evalue e, x')
      else match x' with
           | [] => mret (0, [e])
           | _ => r ← remove_rest x' k; mret (r.1, e :: r.2)
           end
  end.

Definition hashmap_remove (k : K) : M hashmap Z :=
  hash ← bucket_of k;
  x ← read_bucket hash;
  match x with
  | [] => mret 0
  | e :: x' =>
      if hash_comp (ekey e) k then
        write_bucket hash x';; free_entry e;; mret (evalue e)
      else
        r ← remove_rest x' k; write_bucket hash (e :: r.2);; mret (r.1)
  end.

Fixpoint free_chain (x : chain) : M hashmap unit :=
  match x with [] => mret tt | p :: x' => free_entry p;; free_chain x' end.

(** [for (unsigned int i = 0; i < map->size; ++i)], [n] iterations left. *)
Fixpoint hashmap_free_loop (n i : nat) : M hashmap unit :=
  match n with
  | O => mret tt
  | S n => x ← read_bucket i; free_chain x;; hashmap_free_loop n (S i)
  end.

(** [free(map->entries)] leaves no array. *)
Definition hashmap_free : M hashmap unit :=
  map ← get;
  hashmap_free_loop (Z.to_nat (msize map)) 0;;
  modify (λ map, Hashmap (msize map) [] (freed_keys map) (freed_entries map)).

Fixpoint hashmap_is_empty_loop (n i : nat) : M hashmap Z :=
  match n with
  | O => mret 1
  | S n => x ← read_bucket i; match x with [] => hashmap_is_empty_loop n (S i) | _ => mret 0 end
  end.

Definition hashmap_is_empty : M hashmap Z :=
  map ← get; hashmap_is_empty_loop (Z.to_nat (msize map)) 0.

(** [hashmap_keys] and [hashmap_values]: a list of one word per entry, on the
    store of [DList]; [word] is the field inserted (the key's pointer or the
    value). *)
Section lists.
Context `{!Malloc node, !Malloc list_t} (word : hashmap_entry → Z).

Fixpoint insert_chain (l : ptr) (x : chain) : M heap unit :=
  match x with [] => mret tt | e :: x' => list_insert l (word e);; insert_chain l x' end.

Fixpoint insert_buckets (map : hashmap) (l : ptr) (n i : nat) : M heap unit :=
  match n with
  | O => mret tt
  | S n => match entries map !! i with
           | Some x => insert_chain l x;; insert_buckets map l n (S i)
           | None => fault
           end
  end.

Definition hashmap_list (nm md : Z) (map : hashmap) : M heap ptr :=
  l ← list_create nm md;
  insert_buckets map l (Z.to_nat (msize map)) 0;;
  mret l.
End lists.

Definition hashmap_keys `{!Malloc node, !Malloc list_t} (key_ptr : K → Z) :=
  hashmap_list (λ e, key_ptr (ekey e)).
Definition hashmap_values `{!Malloc node, !Malloc list_t} := hashmap_list evalue.

(** ** The abstract map and the invariant *)

Fixpoint chain_lookup (x : chain) (k : K) : option Z :=
  match x with
  | [] => None
  | e :: x' => if hash_comp (ekey e) k then Some (evalue e) else chain_lookup x' k
  end.

Definition home (map : hashmap) (k : K) : nat := Z.to_nat (hash_func k mod msize map).
Definition bucket (map : hashmap) (k : K) : chain := default [] (entries map !! home map k).

(** The value a map associates to a key. *)
Definition lookup_key (map : hashmap) (k : K) : option Z := chain_lookup (bucket map k) k.

Definition distinct (x : chain) : Prop :=
  ForallOrdPairs (λ a b, hash_comp (ekey a) (ekey b) = false) x.

Record hashmap_ok (map : hashmap) : Prop := {
  ok_size : 0 < msize map < 2 ^ 32;
  ok_length : Z.of_nat (length (entries map)) = msize map;
  ok_home : ∀ i x e, entries map !! i = Some x → e ∈ x → home map (ekey e) = i;
  ok_distinct : ∀ i x, entries map !! i = Some x → distinct x;
}.

(** ** Chains *)

Lemma comp_subst a b c : hash_comp a b = true → hash_comp a c = hash_comp b c.
Proof.
  intros Hab. destruct (hash_comp a c) eqn:E, (hash_comp b c) eqn:F; try done.
  - rewrite (comp_trans b a c) in F; [done|by apply comp_sym|done].
  - rewrite (comp_trans a b c) in E; done.
Qed.

Lemma comp_false_sym a b : hash_comp a b = false → hash_comp b a = false.
Proof. intros Hab. destruct (hash_comp b a) eqn:E; [|done]. by rewrite (comp_sym b a E) in Hab. Qed.

Lemma chain_lookup_subst x a b : hash_comp a b = true → chain_lookup x a = chain_lookup x b.
Proof.
  intros Hab. induction x as [|e x IH]; cbn; [done|]. rewrite IH.
  assert (hash_comp (ekey e) a = hash_comp (ekey e) b) as ->; [|done].
  pose proof (comp_subst a b (ekey e) Hab) as Hc.
  destruct (hash_comp (ekey e) a) eqn:E, (hash_comp (ekey e) b) eqn:F; try done.
  - apply comp_sym in E. rewrite Hc in E. apply comp_sym in E. congruence.
  - apply comp_sym in F. rewrite <-Hc in F. apply comp_sym in F. congruence.
Qed.

Lemma get_chain_lookup x k : get_chain x k = default 0 (chain_lookup x k).
Proof. induction x as [|e x IH]; cbn; [done|]. by destruct (hash_comp _ _). Qed.

Lemma has_chain_lookup x k :
  has_chain x k = match chain_lookup x k with Some _ => 1 | None => 0 end.
Proof. induction x as [|e x IH]; cbn; [done|]. by destruct (hash_comp _ _). Qed.

Lemma chain_lookup_none x k :
  chain_lookup x k = None ↔ Forall (λ e, hash_comp (ekey e) k = false) x.
Proof.
  induction x as [|e x IH]; cbn; [by split|]. rewrite Forall_cons, <-IH.
  destruct (hash_comp (ekey e) k); naive_solver.
Qed.

Lemma distinct_cons e x :
  distinct (e :: x) ↔ chain_lookup x (ekey e) = None ∧ distinct x.
Proof.
  unfold distinct. rewrite chain_lookup_none. split.
  - intros Hd. inversion Hd as [|? ? Hf Ho]; subst. split; [|done].
    apply (Forall_impl _ _ _ Hf). intros. by apply comp_false_sym.
  - intros [Hf Ho]. constructor; [|done]. apply (Forall_impl _ _ _ Hf). intros. by apply comp_false_sym.
Qed.

(** Looking up in a chain updated by [f] is looking up in the updated map. *)
Lemma set_chain_spec x k v : ∀ r y, set_chain x k v = (r, y) →
  r = default 0 (chain_lookup x k) ∧
  (∀ k', chain_lookup y k' = if hash_comp k k' then Some v else chain_lookup x k') ∧
  (∀ e, e ∈ y → (∃ e', e' ∈ x ∧ ekey e = ekey e') ∨ hash_comp (ekey e) k = true).
Proof.
  induction x as [|e x IH]; intros r y; cbn.
  - intros [= <- <-]. split_and!; [done| |].
    + intros k'. cbn. by rewrite (comp_subst _ k k' (dup_comp k)).
    + intros e ->%list_elem_of_singleton. right. apply dup_comp.
  - destruct (hash_comp (ekey e) k) eqn:E.
    + intros [= <- <-]. split_and!; [done| |].
      * intros k'. cbn. rewrite (comp_subst (ekey e) k k' E). by destruct (hash_comp k k').
      * intros e' [->|He']%elem_of_cons; [right; done|left; exists e'; split; [by right|done]].
    + destruct (set_chain x k v) as [r' y'] eqn:F. intros [= <- <-].
      destruct (IH _ _ eq_refl) as (-> & Hl & Hin). split_and!; [done| |].
      * intros k'. cbn. rewrite Hl. destruct (hash_comp (ekey e) k') eqn:G; [|done].
        destruct (hash_comp k k') eqn:I; [|done].
        rewrite (comp_trans (ekey e) k' k G (comp_sym _ _ I)) in E. done.
      * intros e' [->|He']%elem_of_cons; [left; exists e; split; [by left|done]|].
        destruct (Hin _ He') as [(e'' & ? & ?)|?]; [left; exists e''; split; [by right|done]|by right].
Qed.

Lemma set_chain_distinct x k v r y : set_chain x k v = (r, y) → distinct x → distinct y.
Proof.
  revert r y. induction x as [|e x IH]; intros r y; cbn.
  - intros [= <- <-] _. apply distinct_cons. split; [done|constructor].
  - destruct (hash_comp (ekey e) k) eqn:E.
    + intros [= <- <-] [Hn Hd]%distinct_cons. by apply distinct_cons.
    + destruct (set_chain x k v) as [r' y'] eqn:F. intros [= <- <-] [Hn Hd]%distinct_cons.
      apply distinct_cons. split; [|by eapply IH].
      destruct (set_chain_spec _ _ _ _ _ F) as (_ & -> & _).
      by rewrite (comp_false_sym _ _ E).
Qed.

Definition log_entry (e : hashmap_entry) (map : hashmap) : hashmap :=
  Hashmap (msize map) (entries map) (freed_keys map ++ [ekey e]) (freed_entries map ++ [e]).

(** The outcome of removing [k] from a chain: what is left, what is freed. *)
Definition removed (x : chain) (k : K) (map : hashmap) (r : Z * chain) (map' : hashmap) : Prop :=
  (chain_lookup x k = None ∧ r = (0, x) ∧ map' = map) ∨
  ∃ x1 e x2, x = x1 ++ e :: x2 ∧ hash_comp (ekey e) k = true ∧
    chain_lookup x k = Some (evalue e) ∧ r = (evalue e, x1 ++ x2) ∧ map' = log_entry e map.

Lemma remove_rest_run x k map : x ≠ [] →
  ∃ r map', remove_rest x k map = Ret (r, map') ∧ removed x k map r map'.
Proof.
  induction x as [|e x IH]; [done|]. intros _. cbn [remove_rest].
  destruct (hash_comp (ekey e) k) eqn:E.
  - eexists _, _. split; [reflexivity|]. right. exists [], e, x. cbn. by rewrite E.
  - destruct x as [|e' x].
    + eexists _, _. split; [reflexivity|]. left. cbn. by rewrite E.
    + destruct IH as (r & map' & Hr & Hrem); [done|].
      rewrite (run_bind_Ret _ _ _ _ _ Hr). eexists _, _. split; [reflexivity|].
      destruct Hrem as [(Hn & -> & ->)|(x1 & d & x2 & -> & Hd & Hs & -> & ->)].
      * left. cbn [chain_lookup] in *. by rewrite E.
      * right. exists (e :: x1), d, x2. cbn [chain_lookup] in *. by rewrite E.
Qed.

Lemma chain_lookup_app x1 x2 k :
  chain_lookup (x1 ++ x2) k = match chain_lookup x1 k with Some v => Some v | None => chain_lookup x2 k end.
Proof. induction x1 as [|e x1 IH]; cbn; [done|]. by destruct (hash_comp _ _). Qed.

Lemma removed_lookup x1 e x2 k k' :
  distinct (x1 ++ e :: x2) → hash_comp (ekey e) k = true →
  chain_lookup (x1 ++ x2) k' = if hash_comp k k' then None else chain_lookup (x1 ++ e :: x2) k'.
Proof.
  intros Hd He. assert (Hn : chain_lookup (x1 ++ x2) (ekey e) = None).
  { rewrite chain_lookup_app. induction x1 as [|d x1 IH]; cbn in *.
    - by apply distinct_cons in Hd as [? _].
    - apply distinct_cons in Hd as [Hl Hd]. rewrite chain_lookup_app in Hl.
      destruct (chain_lookup x1 (ekey d)) eqn:F; [done|]. cbn in Hl.
      destruct (hash_comp (ekey e) (ekey d)) eqn:G; [done|].
      rewrite (comp_false_sym _ _ G). by apply IH. }
  destruct (hash_comp k k') eqn:E.
  - by rewrite <-(chain_lookup_subst _ (ekey e) k' (comp_trans _ _ _ He E)).
  - rewrite !chain_lookup_app. cbn. rewrite (comp_subst (ekey e) k k' He), E. done.
Qed.

Lemma removed_distinct x1 e x2 : distinct (x1 ++ e :: x2) → distinct (x1 ++ x2).
Proof.
  induction x1 as [|d x1 IH]; cbn; rewrite !distinct_cons; [tauto|].
  intros [Hl Hd]. split; [|auto]. rewrite chain_lookup_none in *. rewrite !Forall_app, Forall_cons in *. tauto.
Qed.

(** ** Buckets *)

Definition set_bucket (map : hashmap) (i : nat) (y : chain) : hashmap :=
  Hashmap (msize map) (<[i := y]> (entries map)) (freed_keys map) (freed_entries map).

Lemma home_bound map k : hashmap_ok map → (home map k < length (entries map))%nat.
Proof.
  intros [Hs Hl _ _]. unfold home. pose proof (Z.mod_pos_bound (hash_func k) (msize map) ltac:(lia)). lia.
Qed.

Lemma bucket_entries map k : hashmap_ok map → entries map !! home map k = Some (bucket map k).
Proof.
  intros Hok. unfold bucket. destruct (lookup_lt_is_Some_2 _ _ (home_bound map k Hok)) as [x Hx].
  by rewrite Hx.
Qed.

Lemma bucket_of_run map k : hashmap_ok map → bucket_of k map = Ret (home map k, map).
Proof.
  intros [Hs _ _ _]. unfold bucket_of. mrun. by rewrite (proj2 (Z.eqb_neq _ _)) by lia.
Qed.

Lemma read_bucket_run map i x : entries map !! i = Some x → read_bucket i map = Ret (x, map).
Proof. intros Hx. unfold read_bucket. by rewrite Hx. Qed.

Lemma write_bucket_run map i x y :
  entries map !! i = Some x → write_bucket i y map = Ret (tt, set_bucket map i y).
Proof. intros Hx. unfold write_bucket. by rewrite Hx. Qed.

Lemma lookup_set_bucket map k y k' : hashmap_ok map →
  lookup_key (set_bucket map (home map k) y) k' =
    if decide (home map k' = home map k) then chain_lookup y k' else lookup_key map k'.
Proof.
  intros Hok. unfold lookup_key, bucket. change (home (set_bucket _ _ _) k') with (home map k').
  cbn. pose proof (home_bound map k Hok). case_decide as Hh.
  - rewrite Hh, list_lookup_insert_eq by done. done.
  - by rewrite list_lookup_insert_ne.
Qed.

Lemma home_comp map a b : hash_comp a b = true → home map a = home map b.
Proof. intros Hc. unfold home. by rewrite (comp_hash a b Hc). Qed.

(** Replacing the bucket of [k] by a chain over the same keys and [k]. *)
Lemma set_bucket_ok map k y : hashmap_ok map → distinct y →
  (∀ e, e ∈ y → (∃ e', e' ∈ bucket map k ∧ ekey e = ekey e') ∨ hash_comp (ekey e) k = true) →
  hashmap_ok (set_bucket map (home map k) y).
Proof.
  intros Hok Hd Hin. pose proof (bucket_entries map k Hok) as Hb. destruct Hok as [Hs Hl Hh Hdi].
  split; cbn.
  - done.
  - by rewrite length_insert.
  - intros i x e Hx He. change (home (set_bucket _ _ _) (ekey e)) with (home map (ekey e)).
    apply list_lookup_insert_Some in Hx as [(<- & <- & _)|[_ Hx]]; [|by eapply Hh].
    destruct (Hin e He) as [(e' & He' & ->)|Hc]; [by eapply Hh|by apply home_comp].
  - intros i x Hx. apply list_lookup_insert_Some in Hx as [(_ & <- & _)|[_ Hx]]; [done|by eapply Hdi].
Qed.

(** [log_entry] only records: it keeps the map. *)
Lemma log_entry_ok e map : hashmap_ok map → hashmap_ok (log_entry e map).
Proof. intros [Hs Hl Hh Hd]. by split. Qed.

(** ** Operations *)

Inductive hcmd :=
| HSet (k : K) (v : Z)
| HGet (k : K)
| HHas (k : K)
| HRemove (k : K).

Definition exec_hcmd (c : hcmd) : M hashmap Z :=
  match c with
  | HSet k v => hashmap_set k v
  | HGet k => hashmap_get k
  | HHas k => hashmap_has k
  | HRemove k => hashmap_remove k
  end.

(** The same command on a function from keys to values. *)
Definition hresult (f : K → option Z) (c : hcmd) : Z :=
  match c with
  | HSet k _ | HGet k | HRemove k => default 0 (f k)
  | HHas k => match f k with Some _ => 1 | None => 0 end
  end.

Definition hupdate (f : K → option Z) (c : hcmd) (k' : K) : option Z :=
  match c with
  | HSet k v => if hash_comp k k' then Some v else f k'
  | HRemove k => if hash_comp k k' then None else f k'
  | HGet _ | HHas _ => f k'
  end.

(** Removal is safe unless the bucket holds exactly one entry, another key's. *)
Definition henabled (map : hashmap) (c : hcmd) : Prop :=
  match c with
  | HRemove k => ∀ e, bucket map k = [e] → hash_comp (ekey e) k = true
  | _ => True
  end.

Definition implements (map : hashmap) (c : hcmd) : Prop :=
  ∃ map', exec_hcmd c map = Ret (hresult (lookup_key map) c, map') ∧
    hashmap_ok map' ∧ ∀ k', lookup_key map' k' = hupdate (lookup_key map) c k'.

Lemma hashmap_set_implements map k v : hashmap_ok map → implements map (HSet k v).
Proof.
  intros Hok. unfold implements. cbn [exec_hcmd hresult]. unfold hashmap_set.
  rewrite (run_bind_Ret _ _ _ _ _ (bucket_of_run map k Hok)).
  pose proof (bucket_entries map k Hok) as Hb.
  rewrite (run_bind_Ret _ _ _ _ _ (read_bucket_run _ _ _ Hb)).
  destruct (set_chain (bucket map k) k v) as [r y] eqn:E.
  destruct (set_chain_spec _ _ _ _ _ E) as (Hr & Hl & Hin).
  exists (set_bucket map (home map k) y). split_and!.
  - unfold lookup_key. rewrite <-Hr. destruct (bucket map k) as [|e x].
    + cbn in E. simplify_eq. by rewrite (run_bind_Ret _ _ _ _ _ (write_bucket_run _ _ _ _ Hb)).
    + by rewrite (run_bind_Ret _ _ _ _ _ (write_bucket_run _ _ _ _ Hb)).
  - apply set_bucket_ok; [done| |done]. eapply set_chain_distinct; [done|]. by eapply ok_distinct.
  - intros k'. rewrite lookup_set_bucket by done. cbn [hupdate]. unfold lookup_key.
    case_decide as Hh.
    + rewrite Hl. unfold bucket. by rewrite Hh.
    + destruct (hash_comp k k') eqn:F; [|done]. by rewrite (home_comp map _ _ F) in Hh.
Qed.

Lemma hashmap_read_implements map c : hashmap_ok map →
  match c with HGet _ | HHas _ => implements map c | _ => True end.
Proof.
  intros Hok. destruct c as [|k|k|]; try done; unfold implements;
    cbn [exec_hcmd hresult hupdate]; unfold hashmap_get, hashmap_has;
    exists map; (split; [|done]);
    rewrite (run_bind_Ret _ _ _ _ _ (bucket_of_run map k Hok));
    rewrite (run_bind_Ret _ _ _ _ _ (read_bucket_run _ _ _ (bucket_entries map k Hok)));
    unfold lookup_key; rewrite <-?get_chain_lookup, <-?has_chain_lookup;
    by destruct (bucket map k).
Qed.

(** What [hashmap_remove] does when it does not fault. *)
Lemma hashmap_remove_run map k :
  hashmap_ok map → henabled map (HRemove k) →
  (lookup_key map k = None ∧ ∃ map', hashmap_remove k map = Ret (0, map') ∧ map' = map) ∨
  ∃ x1 e x2, bucket map k = x1 ++ e :: x2 ∧ hash_comp (ekey e) k = true ∧
    lookup_key map k = Some (evalue e) ∧
    hashmap_remove k map = Ret (evalue e, log_entry e (set_bucket map (home map k) (x1 ++ x2))).
Proof.
  intros Hok Hen. unfold hashmap_remove. cbn [henabled] in Hen.
  rewrite (run_bind_Ret _ _ _ _ _ (bucket_of_run map k Hok)).
  pose proof (bucket_entries map k Hok) as Hb.
  rewrite (run_bind_Ret _ _ _ _ _ (read_bucket_run _ _ _ Hb)).
  unfold lookup_key. destruct (bucket map k) as [|e x] eqn:Ebk; [left; eauto|].
  cbn [chain_lookup]. destruct (hash_comp (ekey e) k) eqn:E.
  - right. exists [], e, x. split_and!; [done..|].
    by rewrite (run_bind_Ret _ _ _ _ _ (write_bucket_run _ _ _ _ Hb)).
  - destruct (remove_rest_run x k map) as (r & map' & Hr & Hrem).
    { intros ->. specialize (Hen e eq_refl). congruence. }
    rewrite (run_bind_Ret _ _ _ _ _ Hr).
    destruct Hrem as [(Hn & -> & ->)|(x1 & d & x2 & -> & Hd & Hs & -> & ->)].
    + left. split; [done|]. rewrite (run_bind_Ret _ _ _ _ _ (write_bucket_run _ _ _ _ Hb)).
      eexists. split; [reflexivity|]. unfold set_bucket. cbn [snd].
      rewrite list_insert_id by done. by destruct map.
    + right. exists (e :: x1), d, x2. split_and!; [done..|].
      by rewrite (run_bind_Ret _ _ _ _ _ (write_bucket_run (log_entry d map) _ _ _ Hb)).
Qed.

Lemma hashmap_remove_implements map k :
  hashmap_ok map → henabled map (HRemove k) → implements map (HRemove k).
Proof.
  intros Hok Hen. unfold implements. cbn [exec_hcmd hresult].
  destruct (hashmap_remove_run map k Hok Hen) as [(Hn & map' & Hr & ->)|(x1 & e & x2 & Hb & He & Hs & Hr)].
  - exists map. rewrite Hn, Hr. split_and!; [done|done|]. intros k'. cbn [hupdate].
    destruct (hash_comp k k') eqn:F; [|done]. unfold lookup_key in *.
    replace (bucket map k') with (bucket map k) by (unfold bucket; by rewrite (home_comp map _ _ F)).
    by rewrite <-(chain_lookup_subst _ _ _ F).
  - pose proof (ok_distinct _ Hok _ _ (bucket_entries map k Hok)) as Hd. rewrite Hb in Hd.
    exists (log_entry e (set_bucket map (home map k) (x1 ++ x2))). rewrite Hs, Hr. split_and!; [done| |].
    + apply log_entry_ok, set_bucket_ok; [done|by eapply removed_distinct|].
      intros e' He'. left. exists e'. split; [|done]. rewrite Hb. apply elem_of_app in He'.
      apply elem_of_app. destruct He'; [by left|right; by right].
    + intros k'. change (lookup_key (log_entry e ?m) k') with (lookup_key m k').
      rewrite lookup_set_bucket by done. cbn [hupdate]. unfold lookup_key. case_decide as Hh.
      * rewrite (removed_lookup _ _ _ _ k' Hd He), <-Hb. unfold bucket. by rewrite Hh.
      * destruct (hash_comp k k') eqn:F; [|done]. by rewrite (home_comp map _ _ F) in Hh.
Qed.

(** ** Creation, emptiness, release *)

Lemma hashmap_create_ok sz : 0 < sz < 2 ^ 31 →
  hashmap_ok (hashmap_create sz) ∧ ∀ k, lookup_key (hashmap_create sz) k = None.
Proof.
  intros Hs. assert (Hu : u64 sz = sz) by (apply wrap_small; lia).
  assert (He : ∀ n i x, replicate n ([] : chain) !! i = Some x → x = []).
  { intros n i x [-> _]%lookup_replicate_1. done. }
  split.
  - split; cbn; rewrite ?Hu, ?length_replicate; [lia|lia| |].
    + intros i x e ->%He []%not_elem_of_nil.
    + intros i x ->%He. constructor.
  - intros k. unfold lookup_key, bucket. destruct (entries _ !! _) as [x|] eqn:E; [|done].
    by rewrite (He _ _ _ E).
Qed.

Lemma hashmap_is_empty_loop_run map n : ∀ i, (i + n = length (entries map))%nat →
  hashmap_is_empty_loop n i map =
    Ret (if forallb (λ x, match x with [] => true | _ => false end) (drop i (entries map)) then 1 else 0, map).
Proof.
  induction n as [|n IH]; intros i Hi; cbn [hashmap_is_empty_loop].
  { by rewrite drop_ge by lia. }
  destruct (lookup_lt_is_Some_2 (entries map) i) as [x Hx]; [lia|].
  rewrite (run_bind_Ret _ _ _ _ _ (read_bucket_run _ _ _ Hx)).
  rewrite (drop_S _ _ _ Hx). cbn [forallb]. destruct x as [|e x]; [|done]. by rewrite IH by lia.
Qed.

(** A map is empty exactly when no key has a value. *)
Lemma hashmap_is_empty_run map : hashmap_ok map →
  ∃ r, hashmap_is_empty map = Ret (r, map) ∧ (r = 1 ↔ ∀ k, lookup_key map k = None).
Proof.
  intros Hok. pose proof (ok_length _ Hok). unfold hashmap_is_empty. eexists. split.
  { erewrite run_bind_Ret by reflexivity. apply hashmap_is_empty_loop_run. lia. }
  rewrite drop_0. destruct (forallb _ _) eqn:E.
  - split; [|done]. intros _ k. pose proof (bucket_entries map k Hok) as Hb.
    apply list_elem_of_lookup_2, list_elem_of_In in Hb.
    rewrite forallb_forall in E. specialize (E _ Hb). unfold lookup_key. by destruct (bucket map k).
  - split; [done|]. intros Hn. exfalso. apply not_true_iff_false in E. apply E, forallb_forall.
    intros x [i Hx]%list_elem_of_In%list_elem_of_lookup. destruct x as [|e x]; [done|].
    pose proof (ok_home _ Hok i _ e Hx ltac:(by left)) as Hh. specialize (Hn (ekey e)).
    unfold lookup_key, bucket in Hn. rewrite Hh, Hx in Hn. cbn in Hn. by rewrite comp_refl in Hn.
Qed.

Lemma free_chain_run x : ∀ map, free_chain x map =
  Ret (tt, Hashmap (msize map) (entries map) (freed_keys map ++ (ekey <$> x)) (freed_entries map ++ x)).
Proof.
  induction x as [|e x IH]; intros map; cbn [free_chain].
  - cbn. rewrite !app_nil_r. by destruct map.
  - erewrite run_bind_Ret by reflexivity. rewrite IH. cbn. by rewrite <-!(assoc_L (++)).
Qed.

Lemma hashmap_free_loop_run n : ∀ i map, (i + n = length (entries map))%nat →
  let xs := concat (drop i (entries map)) in
  hashmap_free_loop n i map =
    Ret (tt, Hashmap (msize map) (entries map) (freed_keys map ++ (ekey <$> xs)) (freed_entries map ++ xs)).
Proof.
  induction n as [|n IH]; intros i map Hi; cbn [hashmap_free_loop].
  { rewrite drop_ge by lia. cbn. rewrite !app_nil_r. by destruct map. }
  destruct (lookup_lt_is_Some_2 (entries map) i) as [x Hx]; [lia|].
  rewrite (run_bind_Ret _ _ _ _ _ (read_bucket_run _ _ _ Hx)).
  rewrite (run_bind_Ret _ _ _ _ _ (free_chain_run x map)). rewrite IH by (cbn; lia).
  rewrite (drop_S _ _ _ Hx). cbn. by rewrite fmap_app, <-!(assoc_L (++)).
Qed.

Lemma hashmap_free_run map : hashmap_ok map →
  hashmap_free map =
    Ret (tt, Hashmap (msize map) [] (freed_keys map ++ (ekey <$> concat (entries map)))
                     (freed_entries map ++ concat (entries map))).
Proof.
  intros Hok. pose proof (ok_length _ Hok). unfold hashmap_free.
  erewrite run_bind_Ret by reflexivity.
  erewrite run_bind_Ret by (apply hashmap_free_loop_run; lia). rewrite drop_0. done.
Qed.

(** ** Listing keys and values *)

Section lists_run.
Context `{!Malloc node, !Malloc list_t} (word : hashmap_entry → Z).

Lemma insert_chain_run x : ∀ h l xs,
  dlist h l xs → Z.of_nat (length xs + length x) < 2 ^ 64 →
  ∃ h' ys, insert_chain word (Some l) x h = Ret (tt, h') ∧ dlist h' l (xs ++ ys) ∧ ys.*2 = word <$> x.
Proof.
  induction x as [|e x IH]; intros h l xs Hd Hl; cbn [insert_chain].
  { exists h, []. by rewrite app_nil_r. }
  cbn [length] in Hl.
  destruct (list_insert_run h l xs (word e) Hd) as (p & h1 & Hr & _ & Hd1 & _); [lia|].
  rewrite (run_bind_Ret _ _ _ _ _ Hr).
  destruct (IH h1 l _ Hd1) as (h' & ys & Hr' & Hd' & Hy); [rewrite length_app; cbn; lia|].
  exists h', ((p, word e) :: ys). split_and!; [done| |cbn; by rewrite Hy].
  by rewrite <-(assoc_L (++)) in Hd'.
Qed.

Lemma insert_buckets_run map n : ∀ i h l xs,
  (i + n = length (entries map))%nat → dlist h l xs →
  Z.of_nat (length xs + length (concat (drop i (entries map)))) < 2 ^ 64 →
  ∃ h' ys, insert_buckets word map (Some l) n i h = Ret (tt, h') ∧ dlist h' l (xs ++ ys) ∧
    ys.*2 = word <$> concat (drop i (entries map)).
Proof.
  induction n as [|n IH]; intros i h l xs Hi Hd Hl; cbn [insert_buckets].
  { exists h, []. rewrite app_nil_r. by rewrite drop_ge by lia. }
  destruct (lookup_lt_is_Some_2 (entries map) i) as [x Hx]; [lia|]. rewrite Hx.
  rewrite (drop_S _ _ _ Hx) in *. cbn [concat] in *. rewrite length_app in Hl.
  destruct (insert_chain_run x h l xs Hd) as (h1 & ys & Hr & Hd1 & Hy); [lia|].
  rewrite (run_bind_Ret _ _ _ _ _ Hr).
  assert (Hly : length ys = length x).
  { apply (f_equal length) in Hy. by rewrite !length_fmap in Hy. }
  destruct (IH (S i) h1 l _ ltac:(lia) Hd1) as (h' & zs & Hr' & Hd' & Hz).
  { rewrite length_app. lia. }
  exists h', (ys ++ zs). rewrite fmap_app, Hy, Hz, fmap_app, (assoc_L (++)). done.
Qed.

Lemma hashmap_list_run map nm md h : hashmap_ok map →
  Z.of_nat (length (concat (entries map))) < 2 ^ 64 →
  ∃ l h' ys, hashmap_list word nm md map h = Ret (Some l, h') ∧ dlist h' l ys ∧
    ys.*2 = word <$> concat (entries map).
Proof.
  intros Hok Hl. pose proof (ok_length _ Hok). unfold hashmap_list.
  destruct (list_create_run h nm md) as (l & h1 & Hr & _ & Hd & _).
  rewrite (run_bind_Ret _ _ _ _ _ Hr).
  destruct (insert_buckets_run map (Z.to_nat (msize map)) 0 h1 l []) as (h' & ys & Hr' & Hd' & Hy);
    [lia|done|done|].
  exists l, h', ys. by rewrite (run_bind_Ret _ _ _ _ _ Hr').
Qed.
End lists_run.

End hashmap.
Arguments hashmap_entry : clear implicits.
Arguments hashmap : clear implicits.

(** ** The string and the integer key functions *)

Lemma str_cmp_s8 s : ∀ t, str_cmp s t = 0 ↔ s8 <$> s = s8 <$> t.
Proof.
  induction s as [|x s IH]; intros [|y t]; cbn; try done.
  - destruct (0 <? s8 y); split; discriminate.
  - destruct (s8 x <? 0); split; discriminate.
  - destruct (Z.ltb_spec (s8 x) (s8 y)); [split; [done|intros [= ? ?]; lia]|].
    destruct (Z.ltb_spec (s8 y) (s8 x)); [split; [done|intros [= ? ?]; lia]|].
    rewrite IH. split; [intros ->; f_equal; lia|by intros [= _ ->]].
Qed.

Definition sdbm (s : list Z) : Z := fold_left sdbm_step s 0.

Lemma sdbm_range s : ∀ h, 0 ≤ h < 2 ^ 32 → 0 ≤ fold_left sdbm_step s h < 2 ^ 32.
Proof. induction s as [|c s IH]; intros h Hh; cbn; [done|]. apply IH, (wrap_bound 32). lia. Qed.

Lemma sdbm_s8 s : ∀ t h, s8 <$> s = s8 <$> t → fold_left sdbm_step s h = fold_left sdbm_step t h.
Proof.
  induction s as [|x s IH]; intros [|y t] h; cbn; try done.
  intros [= Hx Hs]. unfold sdbm_step at 2 4. rewrite Hx. by apply IH.
Qed.

(** Keys of a map made by [hashmap_create]: the contents of the strings. *)
#[global, refine] Instance string_key : HashKey (list Z) := {|
  hash_func := sdbm;
  hash_comp a b := str_cmp a b =? 0;
  hash_key_dup k := k;
|}.
Proof.
  all: intros; rewrite ?Z.eqb_eq, ?str_cmp_s8 in *; try done.
  - by apply sdbm_range.
  - congruence.
  - by apply sdbm_s8.
Defined.

(** Keys of a map made by [hashmap_create_int]: machine words. *)
#[global, refine] Instance int_key : HashKey Z := {|
  hash_func := hashmap_int_hash;
  hash_comp := hashmap_int_comp;
  hash_key_dup := hashmap_int_dupe;
|}.
Proof.
  all: unfold hashmap_int_hash, hashmap_int_comp, hashmap_int_dupe; intros;
    rewrite ?Z.eqb_eq in *; try (done || congruence).
  by apply (wrap_bound 32).
Defined.

Lemma hashmap_string_hash_loop_run m fuel : ∀ a s h,
  cstr m a s → (length s < fuel)%nat →
  hashmap_string_hash_loop fuel a h m = Ret (fold_left sdbm_step s h, m).
Proof.
  induction fuel as [|fuel IH]; intros a s h Hc Hf; [lia|]. cbn [hashmap_string_hash_loop].
  rewrite (run_bind_Ret _ _ _ _ _ (load8_run _ _ _ (cstr_head _ _ _ Hc))).
  destruct s as [|b s]; [done|]. cbn [lookup list_lookup default from_option id].
  rewrite (proj2 (Z.eqb_neq b 0)) by (by eapply (cstr_nonzero _ _ _ 0 _ Hc)).
  cbn in *. apply IH; [by eapply cstr_tail|lia].
Qed.

(** ** The properties *)

(** C7: a hash map refines a finite function: whatever the key functions, as
    long as equal keys have equal hashes, every call of [hashmap_set],
    [hashmap_get], [hashmap_has] and [hashmap_remove] on a well-formed map
    returns, with the value the function associates to the key ([NULL] for
    none), keeps the map well-formed (each key in its own bucket, no key
    twice), and updates the function at exactly the keys that compare equal.
    A removal must not meet a bucket holding one entry of another key. *)
Theorem hashmap_refines_map {K} `{HashKey K} (map : hashmap K) c :
  hashmap_ok map → henabled map c →
  ∃ map', exec_hcmd c map = Ret (hresult (lookup_key map) c, map') ∧
    hashmap_ok map' ∧ ∀ k', lookup_key map' k' = hupdate (lookup_key map) c k'.
Proof.
  intros Hok Hen. change (implements map c). destruct c as [k v|k|k|k].
  - by apply hashmap_set_implements.
  - by apply (hashmap_read_implements map (HGet k)).
  - by apply (hashmap_read_implements map (HHas k)).
  - by apply hashmap_remove_implements.
Qed.

(** C39: [hashmap_remove] of a key that is not in the map dereferences [NULL]
    whenever the key's bucket holds exactly one entry: the [do ... while] loop
    reads [x->key] after stepping past the first entry without testing it. *)
Theorem hashmap_remove_faults {K} `{HashKey K} (map : hashmap K) k e :
  hashmap_ok map → bucket map k = [e] → hash_comp (ekey e) k = false →
  lookup_key map k = None ∧ hashmap_remove k map = Fault.
Proof.
  intros Hok Hb He. unfold lookup_key. split; [rewrite Hb; cbn; by rewrite He|].
  unfold hashmap_remove. rewrite (run_bind_Ret _ _ _ _ _ (bucket_of_run map k Hok)).
  rewrite (run_bind_Ret _ _ _ _ _ (read_bucket_run _ _ _ (bucket_entries map k Hok))), Hb.
  rewrite He. done.
Qed.

(** C33: the life cycle of a map: [hashmap_create] makes a well-formed map
    with no keys, [hashmap_is_empty] answers 1 exactly when no key has a value,
    [hashmap_keys] and [hashmap_values] build a list holding exactly one word
    per entry in bucket order, and [hashmap_free] frees every entry and every
    key exactly once. *)
Theorem hashmap_lifecycle {K} `{HashKey K} `{!Malloc node, !Malloc list_t}
    (map : hashmap K) sz key_ptr nm md h :
  0 < sz < 2 ^ 31 → hashmap_ok map → Z.of_nat (length (concat (entries map))) < 2 ^ 64 →
  (hashmap_ok (hashmap_create sz) ∧ ∀ k, lookup_key (hashmap_create sz) k = None) ∧
  (∃ r, hashmap_is_empty map = Ret (r, map) ∧ (r = 1 ↔ ∀ k, lookup_key map k = None)) ∧
  (∃ l h' ys, hashmap_keys key_ptr nm md map h = Ret (Some l, h') ∧ dlist h' l ys ∧
     ys.*2 = (λ e, key_ptr (ekey e)) <$> concat (entries map)) ∧
  (∃ l h' ys, hashmap_values nm md map h = Ret (Some l, h') ∧ dlist h' l ys ∧
     ys.*2 = evalue <$> concat (entries map)) ∧
  (∃ map', hashmap_free map = Ret (tt, map') ∧
     freed_keys map' = freed_keys map ++ (ekey <$> concat (entries map)) ∧
     freed_entries map' = freed_entries map ++ concat (entries map)).
Proof.
  intros Hs Hok Hl. split_and!.
  - by apply hashmap_create_ok.
  - by apply hashmap_create_ok.
  - by apply hashmap_is_empty_run.
  - by apply hashmap_list_run.
  - by apply hashmap_list_run.
  - rewrite (hashmap_free_run map Hok). eauto.
Qed.

(** The string key functions on memory are the hash and the comparison of
    the strings' contents, and so satisfy what a map assumes of its keys: two
    strings compare equal exactly when they are the same bytes, and then hash
    alike. *)
Theorem hashmap_string_keys m a b s t :
  bytes_ok m → cstr m a s → cstr m b t → Z.of_nat (length s) + 1 < 2 ^ 32 →
  hashmap_string_hash a m = Ret (hash_func s, m) ∧
  hashmap_string_comp a b m = Ret (hash_comp s t, m) ∧
  (hash_comp s t = true ↔ s = t).
Proof.
  intros Hok Hs Ht Hl. split_and!.
  - unfold hashmap_string_hash, mem_fuel. erewrite run_bind_Ret by reflexivity.
    apply hashmap_string_hash_loop_run; [done|]. pose proof (cstr_fuel _ _ _ Hs). lia.
  - unfold hashmap_string_comp. by rewrite (run_bind_Ret _ _ _ _ _ (strcmp_run m a b s t Hok Hs Ht Hl)).
  - cbn. rewrite Z.eqb_eq. apply str_cmp_eq.
    + apply Forall_and. split; [by apply (cstr_byte m Hok a)|apply Hs].
    + apply Forall_and. split; [by apply (cstr_byte m Hok b)|apply Ht].
Qed.

(** ** Witnesses: a map of four buckets with three integer keys *)

Definition demo_map : hashmap Z :=
  Hashmap 4 [[Entry 8 80; Entry 4 40]; []; [Entry 2 20]; []] [] [].

Lemma demo_map_ok : hashmap_ok demo_map.
Proof.
  split; [cbn; lia|done| |].
  - intros i x e Hx He.
    destruct i as [|[|[|[|i]]]]; cbn in Hx; simplify_eq; repeat (apply elem_of_cons in He as [->|He]; [done|]);
      by apply not_elem_of_nil in He.
  - intros i x Hx. destruct i as [|[|[|[|i]]]]; cbn in Hx; simplify_eq; repeat constructor.
Qed.

Lemma hashmap_refines_map_witness :
  henabled demo_map (HRemove 4) ∧
  ∃ map', exec_hcmd (HRemove 4) demo_map = Ret (40, map') ∧ hashmap_ok map' ∧
    ∀ k', lookup_key map' k' = hupdate (lookup_key demo_map) (HRemove 4) k'.
Proof.
  assert (He : henabled demo_map (HRemove 4)) by (intros e Hb; discriminate Hb).
  split; [exact He|exact (hashmap_refines_map demo_map (HRemove 4) demo_map_ok He)].
Defined.

Lemma hashmap_remove_faults_witness :
  lookup_key demo_map 6 = None ∧ hashmap_remove 6 demo_map = Fault.
Proof. apply (hashmap_remove_faults demo_map 6 (Entry 2 20) demo_map_ok); reflexivity. Defined.

Lemma hashmap_lifecycle_witness :
  ∃ l h' ys, @hashmap_values Z bump_malloc bump_malloc 0 0 demo_map demo_heap = Ret (Some l, h') ∧
    dlist h' l ys ∧ ys.*2 = [80; 40; 20].
Proof.
  apply (@hashmap_lifecycle Z _ bump_malloc bump_malloc demo_map 10 (λ k, k) 0 0 demo_heap);
    [lia|exact demo_map_ok|cbn; lia].
Defined.

Lemma hashmap_string_keys_witness :
  hashmap_string_hash 4120 demo_mem = Ret (hash_func [49; 102], demo_mem) ∧
  hashmap_string_comp 4120 4130 demo_mem = Ret (true, demo_mem).
Proof.
  destruct (hashmap_string_keys demo_mem 4120 4130 [49; 102] [49; 102] demo_bytes_ok
    (demo_cstr 24 [49; 102] eq_refl eq_refl) (demo_cstr 34 [49; 102] eq_refl eq_refl) eq_refl) as (H1 & H2 & _).
  split; [exact H1|exact H2].
Defined.
