(* ===== verification/Text.v ===== *)
(** * Byte strings of the user-space libraries

    Helpers shared by the models of the user-space services: string literals
    as byte lists, the character classes and [atoi] of [libc/], fixed-size
    [char] arrays filled by [strncpy], substring search, and decimal printing.
    A C string is the list of its bytes before the terminator. *)

From Stdlib Require String Ascii.
Export String.StringSyntax.
From S2P Require Import Prelude Memory.

#[global] Open Scope list_scope.
#[global] Open Scope Z_scope.

Abbreviation bytes := (list Z).

Definition bytes_of (s : String.string) : bytes :=
  map (λ c, Z.of_N (Ascii.N_of_ascii c)) (String.list_ascii_of_string s).
Arguments bytes_of _%_string_scope.

(** ** Characters ([libc/ctype]) *)

Definition isalpha (c : Z) : bool := ((65 <=? c) && (c <=? 90)) || ((97 <=? c) && (c <=? 122)).
Definition isdigit (c : Z) : bool := (48 <=? c) && (c <=? 57).
Definition isalnum (c : Z) : bool := isalpha c || isdigit c.
Definition isspace (c : Z) : bool :=
  (c =? 12) || (c =? 10) || (c =? 13) || (c =? 9) || (c =? 11) || (c =? 32).
Definition tolower (c : Z) : Z := if (65 <=? c) && (c <=? 90) then c - 65 + 97 else c.

(** ** Numbers *)

Fixpoint skip_spaces (s : bytes) : bytes :=
  match s with c :: s' => if isspace c then skip_spaces s' else s | [] => [] end.

(** [while (isdigit( *s)) n = 10*n - ( *s++ - '0');] *)
Fixpoint atoi_digits (s : bytes) (n : Z) : Z :=
  match s with
  | c :: s' => if isdigit c then atoi_digits s' (s32 (10 * n - (c - 48))) else n
  | [] => n
  end.

(** [atoi] of [libc/string/str.c]: the value is accumulated negated. *)
Definition libc_atoi (s : bytes) : Z :=
  let s := skip_spaces s in
  let '(neg, s) := match s with
                   | c :: s' => if c =? 45 then (true, s') else if c =? 43 then (false, s') else (false, s)
                   | [] => (false, [])
                   end in
  let n := atoi_digits s 0 in
  if neg then n else s32 (- n).

(** The digits of a non-negative number; [fuel] bounds their count. *)
Fixpoint digits (fuel : nat) (z : Z) : bytes :=
  match fuel with
  | O => []
  | S fuel => if z <? 10 then [48 + z] else digits fuel (z / 10) ++ [48 + z mod 10]
  end.

(** [%d] and [%ld]: at most 20 digits. *)
Definition dec (z : Z) : bytes := if z <? 0 then 45 :: digits 20 (- z) else digits 20 z.

(** ** Arrays of characters *)

Fixpoint until_nul (buf : bytes) : bytes :=
  match buf with c :: buf => if c =? 0 then [] else c :: until_nul buf | [] => [] end.

(** An array of [n] bytes, zeroed, after [strncpy(array, s, n - 1)]. *)
Definition char_array (n : nat) (s : bytes) : bytes :=
  take (n - 1) s ++ replicate (n - length (take (n - 1) s)) 0.

(** What [snprintf(buf, n, ...)] leaves in [buf] when the full text is [s]. *)
Definition snprintf (n : nat) (s : bytes) : bytes := take (n - 1) s.

Fixpoint is_prefix (p s : bytes) : bool :=
  match p, s with
  | [], _ => true
  | x :: p, y :: s => (x =? y) && is_prefix p s
  | _ :: _, [] => false
  end.

(** [strstr(s, p) != NULL] *)
Fixpoint contains (s p : bytes) : bool :=
  is_prefix p s || match s with [] => false | _ :: s => contains s p end.

Definition bytes_eqb (a b : bytes) : bool := bool_decide (a = b).

(** ** Slices of a buffer *)

Definition slice (off n : nat) (buf : bytes) : bytes := take n (drop off buf).

(** A little-endian field of [n] bytes at offset [off]. *)
Definition field (off n : nat) (buf : bytes) : Z := le_combine (slice off n buf).

(** ** Lemmas *)

Lemma char_array_length n s : (0 < n)%nat → length (char_array n s) = n.
Proof. intros Hn. unfold char_array. rewrite length_app, length_replicate, length_take. lia. Qed.

Lemma until_nul_app_zero s t : Forall (λ b, b ≠ 0) s → until_nul (s ++ 0 :: t) = s.
Proof.
  induction 1 as [|b s Hb _ IH]; cbn; [done|]. by rewrite (proj2 (Z.eqb_neq _ _) Hb), IH.
Qed.

Lemma until_nul_char_array n s : (0 < n)%nat → Forall (λ b, b ≠ 0) s →
  until_nul (char_array n s) = take (n - 1) s.
Proof.
  intros Hn Hs. unfold char_array.
  destruct (n - length (take (n - 1) s))%nat as [|k] eqn:E; [rewrite length_take in E; lia|].
  apply until_nul_app_zero. by apply Forall_take.
Qed.

Lemma until_nul_no_zero s : Forall (λ b, b ≠ 0) (until_nul s).
Proof.
  induction s as [|b s IH]; cbn; [constructor|]. destruct (Z.eqb_spec b 0); constructor; done.
Qed.

Lemma slice_app_l off n a b : (off + n ≤ length a)%nat → slice off n (a ++ b) = slice off n a.
Proof.
  intros H. unfold slice. rewrite drop_app_le by lia. rewrite take_app_le; [done|]. rewrite length_drop. lia.
Qed.

Lemma slice_app_r off n a b : (length a ≤ off)%nat → slice off n (a ++ b) = slice (off - length a) n b.
Proof. intros H. unfold slice. by rewrite drop_app_ge by lia. Qed.

Lemma slice_all a : slice 0 (length a) a = a.
Proof. unfold slice. by rewrite drop_0, take_ge. Qed.
