(* ===== verification/AIProtocol.v ===== *)
(** * The Razion AI protocol and its client library
    ([toaru/razion_ai.h], [lib/razion_ai.c], [lib/pex.c])

    The two packet structures with their wire layout, and the client SDK that
    builds a request, exchanges it over a PEX endpoint and validates the
    reply.  The other end of the endpoint is the environment: a family of
    answers that may depend on the whole history of calls. *)

From S2P Require Import Prelude Memory Text.

(** ** Constants *)

Definition RAZION_AI_PROTOCOL_MAGIC : Z := 0x52414931.
Definition RAZION_AI_PROTOCOL_VERSION : Z := 1.
Definition RAZION_AI_MAX_APP_ID : nat := 48.
Definition RAZION_AI_MAX_PROVIDER_NAME : nat := 32.
Definition RAZION_AI_MAX_PAYLOAD : nat := 768.
Definition MAX_PACKET_SIZE : nat := 1024.
Definition RAZION_AI_ENDPOINT : bytes := bytes_of "razion-ai".

(** [razion_ai_operation_t] *)
Definition OP_HEALTH := 1.
Definition OP_LIST_PROVIDERS := 2.
Definition OP_ASK := 3.
Definition OP_SEARCH := 4.
Definition OP_ANALYZE := 5.
Definition OP_RUN_TASK := 6.
Definition OP_SUMMARIZE := 7.
Definition OP_GENERATE_CODE := 8.
Definition OP_EXPLAIN_ERROR := 9.
Definition OP_SEARCH_FILES := 10.
Definition OP_ANALYZE_LOGS := 11.
Definition OP_PROCESS_INFO := 12.
Definition OP_DISK_INFO := 13.
Definition OP_NETWORK_DIAGNOSTICS := 14.
Definition OP_SYSTEM_HEALTH := 15.
Definition OP_APPLICATION_SEARCH := 16.
Definition OP_VOICE_COMMAND := 17.
Definition OP_DOCUMENT_SEARCH := 18.
Definition OP_SETTINGS_REQUEST := 19.
Definition OP_CLASSIFY_INTENT := 20.

(** [razion_ai_status_t] *)
Definition STATUS_OK := 0.
Definition STATUS_INVALID_REQUEST := 1.
Definition STATUS_PROTOCOL_ERROR := 2.
Definition STATUS_NO_PROVIDER := 3.
Definition STATUS_PROVIDER_UNAVAILABLE := 4.
Definition STATUS_PERMISSION_DENIED := 5.
Definition STATUS_CONFIRMATION_REQUIRED := 6.
Definition STATUS_UNSUPPORTED := 7.
Definition STATUS_INTERNAL_ERROR := 8.

(** [RAZION_AI_CAP_*] *)
Definition CAP_TEXT := 1.
Definition CAP_FILE_SEARCH := 2.
Definition CAP_SYSTEM_READ := 4.
Definition CAP_TASK_PROPOSE := 8.
Definition CAP_TASK_EXECUTE := 16.
Definition CAP_VOICE := 32.
Definition CAP_CODE := 64.
Definition CAP_SETTINGS := 128.

(** [RAZION_AI_FLAG_*] *)
Definition FLAG_PREFER_LOCAL := 1.
Definition FLAG_LOCAL_ONLY := 2.
Definition FLAG_ALLOW_CLOUD := 4.
Definition FLAG_EXECUTE_ACTION := 8.
Definition FLAG_USER_CONFIRMED := 16.

(** [flags & mask] as a condition. *)
Definition has_flag (flags mask : Z) : bool := negb (Z.land flags mask =? 0).

Definition E2BIG := 7.
Definition EIO := 5.
Definition EINVAL := 22.
Definition EPROTO := 71.
Definition ETIMEDOUT := 116.

(** ** Packets *)

(** [razion_ai_request_t]; [req_app_id] and [req_payload] are the arrays. *)
Record request := Request {
  req_magic : Z;
  req_version : Z;
  req_operation : Z;
  req_request_id : Z;
  req_flags : Z;
  req_requested_capabilities : Z;
  req_payload_length : Z;
  req_app_id : bytes;
  req_payload : bytes;
}.

(** [razion_ai_response_t]; [resp_payload] is the bytes of [payload] up to
    [payload_length], the part that is meaningful and that is sent. *)
Record response := Response {
  resp_magic : Z;
  resp_version : Z;
  resp_status : Z;
  resp_request_id : Z;
  resp_granted_capabilities : Z;
  resp_payload_length : Z;
  resp_provider : bytes;
  resp_payload : bytes;
}.

(** [offsetof(razion_ai_request_t, payload)] and the response's. *)
Definition req_header : nat := 72.
Definition resp_header : nat := 52.

Definition encode_request (q : request) : bytes :=
  le_split 4 (req_magic q) ++ le_split 2 (req_version q) ++ le_split 2 (req_operation q) ++
  le_split 4 (req_request_id q) ++ le_split 4 (req_flags q) ++
  le_split 4 (req_requested_capabilities q) ++ le_split 4 (req_payload_length q) ++
  req_app_id q ++ req_payload q.

(** A request read in place from a buffer of at least 840 bytes. *)
Definition decode_request (buf : bytes) : request :=
  Request (field 0 4 buf) (field 4 2 buf) (field 6 2 buf) (field 8 4 buf) (field 12 4 buf)
    (field 16 4 buf) (field 20 4 buf)
    (slice 24 RAZION_AI_MAX_APP_ID buf) (slice 72 RAZION_AI_MAX_PAYLOAD buf).

(** The first [offsetof(payload) + payload_length] bytes of a response. *)
Definition encode_response (p : response) : bytes :=
  le_split 4 (resp_magic p) ++ le_split 2 (resp_version p) ++ le_split 2 (resp_status p) ++
  le_split 4 (resp_request_id p) ++ le_split 4 (resp_granted_capabilities p) ++
  le_split 4 (resp_payload_length p) ++ resp_provider p ++ resp_payload p.

Definition decode_response (buf : bytes) : response :=
  Response (field 0 4 buf) (field 4 2 buf) (field 6 2 buf) (field 8 4 buf) (field 12 4 buf)
    (field 16 4 buf) (slice 20 RAZION_AI_MAX_PROVIDER_NAME buf)
    (slice 52 (Z.to_nat (field 16 4 buf)) buf).

(** ** The PEX environment *)

Inductive pex_call :=
| PexConnect (endpoint : bytes)
| PexReply (endpoint : bytes) (data : bytes)
| PexWait (endpoint : bytes) (timeout : Z)
| PexRecv (endpoint : bytes)
| PexSend (client : Z) (data : bytes)
| Audit (record : bytes).

Abbreviation history := (list pex_call).

(** What the other side does, given everything that happened so far:
    whether [fopen] of the endpoint succeeds, how many bytes [write] takes,
    what [fswait2] returns, what [read] delivers ([None]: it failed), the time,
    and whether the audit log can be opened. *)
Class PexEnv := {
  env_connects : history → bytes → bool;
  env_written : history → bytes → bytes → Z;
  env_fswait : history → bytes → Z;
  env_read : history → bytes → option bytes;
  env_time : history → Z;
  env_audit : history → bool;
}.

(** What is read from an endpoint is bytes. *)
Class PexBytes `{PexEnv} : Prop := env_read_bytes :
  ∀ h ep bs, env_read h ep = Some bs → Forall is_byte bs.

Section pex.
Context `{PexEnv}.

(** [pex_connect]: names longer than 80 bytes are refused unopened. *)
Definition pex_connect (target : bytes) : M history bool :=
  if (80 <? length target)%nat then mret false
  else ok ← gets (λ h, env_connects h target); log (PexConnect target);; mret ok.

Definition pex_reply (sock : bytes) (blob : bytes) : M history Z :=
  n ← gets (λ h, env_written h sock blob); log (PexReply sock blob);; mret n.

Definition fswait2 (sock : bytes) (timeout : Z) : M history Z :=
  r ← gets (λ h, env_fswait h sock); log (PexWait sock timeout);; mret r.

(** [pex_recv]: the buffer is zeroed first; a failed [read] returns -1, which
    as a [size_t] is larger than any length.  The result is the count and the
    buffer. *)
Definition pex_recv (sock : bytes) : M history (Z * bytes) :=
  r ← gets (λ h, env_read h sock); log (PexRecv sock);;
  mret match r with
       | None => (2 ^ 64 - 1, replicate MAX_PACKET_SIZE 0)
       | Some bs => let bs := take MAX_PACKET_SIZE bs in
                    (Z.of_nat (length bs), bs ++ replicate (MAX_PACKET_SIZE - length bs) 0)
       end.

Definition pex_send (client : Z) (blob : bytes) : M history unit := log (PexSend client blob).

(** ** The client *)

Definition operation_capabilities (operation : Z) : Z :=
  let any ops := existsb (Z.eqb operation) ops in
  if any [OP_SEARCH] then Z.lor CAP_TEXT CAP_FILE_SEARCH
  else if any [OP_ANALYZE] then Z.lor CAP_TEXT CAP_SYSTEM_READ
  else if any [OP_RUN_TASK] then Z.lor CAP_TEXT CAP_TASK_PROPOSE
  else if any [OP_GENERATE_CODE] then Z.lor CAP_TEXT CAP_CODE
  else if any [OP_SEARCH_FILES; OP_APPLICATION_SEARCH; OP_DOCUMENT_SEARCH]
  then Z.lor CAP_TEXT CAP_FILE_SEARCH
  else if any [OP_ANALYZE_LOGS; OP_PROCESS_INFO; OP_DISK_INFO; OP_NETWORK_DIAGNOSTICS; OP_SYSTEM_HEALTH]
  then Z.lor CAP_TEXT CAP_SYSTEM_READ
  else if any [OP_VOICE_COMMAND] then Z.lor (Z.lor CAP_TEXT CAP_VOICE) CAP_TASK_PROPOSE
  else if any [OP_SETTINGS_REQUEST] then Z.lor (Z.lor CAP_TEXT CAP_SETTINGS) CAP_TASK_PROPOSE
  else if any [OP_CLASSIFY_INTENT] then Z.lor CAP_TEXT CAP_TASK_PROPOSE
  else if any [OP_ASK; OP_EXPLAIN_ERROR; OP_SUMMARIZE] then CAP_TEXT
  else 0.

(** [razion_ai_context_t] *)
Record context := Context {
  ctx_app_id : bytes;
  ctx_default_flags : Z;
  ctx_requested_capabilities : Z;
  ctx_next_request_id : Z;
  ctx_timeout_ms : Z;
}.

(** [None]: [EINVAL]. *)
Definition razion_ai_init (app_id : option bytes) (pid : Z) : option context :=
  match app_id with
  | Some ((_ :: _) as s) =>
      Some (Context (char_array RAZION_AI_MAX_APP_ID s) FLAG_PREFER_LOCAL CAP_TEXT
              (Z.lor (u32 (Z.shiftl (u32 pid) 16)) 1) 5000)
  | _ => None
  end.

(** The request the client builds; the structure is zeroed first. *)
Definition build_request (ctx : context) (operation : Z) (input : bytes) (flags : Z) : request :=
  Request RAZION_AI_PROTOCOL_MAGIC RAZION_AI_PROTOCOL_VERSION (u16 operation)
    (ctx_next_request_id ctx) (Z.lor (ctx_default_flags ctx) flags)
    (Z.lor (ctx_requested_capabilities ctx) (operation_capabilities operation))
    (Z.of_nat (length input))
    (take (RAZION_AI_MAX_APP_ID - 1) (ctx_app_id ctx) ++ [0])
    (input ++ replicate (RAZION_AI_MAX_PAYLOAD - length input) 0).

Definition bump_request_id (ctx : context) : context :=
  Context (ctx_app_id ctx) (ctx_default_flags ctx) (ctx_requested_capabilities ctx)
    (u32 (ctx_next_request_id ctx + 1)) (ctx_timeout_ms ctx).

(** The tests on a reply of [received] bytes, shared by client and engine. *)
Definition reply_ok (id : Z) (received : Z) (reply : response) : bool :=
  (resp_magic reply =? RAZION_AI_PROTOCOL_MAGIC) &&
  (resp_version reply =? RAZION_AI_PROTOCOL_VERSION) &&
  (resp_request_id reply =? id) &&
  (resp_payload_length reply <? Z.of_nat RAZION_AI_MAX_PAYLOAD) &&
  (Z.of_nat resp_header + resp_payload_length reply <=? received).

(** [response->provider[31] = 0]. *)
Definition terminate_provider (p : response) : response :=
  Response (resp_magic p) (resp_version p) (resp_status p) (resp_request_id p)
    (resp_granted_capabilities p) (resp_payload_length p)
    (take (RAZION_AI_MAX_PROVIDER_NAME - 1) (resp_provider p) ++ [0]) (resp_payload p).

(** [errno], where the source sets it; [None] where it leaves it alone. *)
Definition razion_ai_request (ctx : context) (operation : Z) (input : option bytes) (flags : Z) :
    M history ((option Z + response) * context) :=
  let text := default [] input in
  if (RAZION_AI_MAX_PAYLOAD <=? length text)%nat then mret (inl (Some E2BIG), ctx) else
  let q := build_request ctx operation text flags in
  let ctx := bump_request_id ctx in
  let fail e := mret (inl e, ctx) in
  ok ← pex_connect RAZION_AI_ENDPOINT;
  if negb ok then fail None else
  let size := (req_header + length text)%nat in
  n ← pex_reply RAZION_AI_ENDPOINT (take size (encode_request q));
  if negb (n =? Z.of_nat size) then fail (Some EIO) else
  w ← fswait2 RAZION_AI_ENDPOINT (ctx_timeout_ms ctx);
  if negb (w =? 0) then fail (Some ETIMEDOUT) else
  r ← pex_recv RAZION_AI_ENDPOINT;
  let '(received, buf) := r in
  if received <? Z.of_nat resp_header then fail (Some EPROTO) else
  let reply := decode_response buf in
  if negb (reply_ok (req_request_id q) received reply) then fail (Some EPROTO) else
  mret (inr (terminate_provider reply), ctx).

(** The typed entry points. *)
Definition razion_ai_ask ctx input := razion_ai_request ctx OP_ASK input 0.
Definition razion_ai_search ctx input := razion_ai_request ctx OP_SEARCH input 0.
Definition razion_ai_analyze ctx input := razion_ai_request ctx OP_ANALYZE input 0.
Definition razion_ai_summarize ctx input := razion_ai_request ctx OP_SUMMARIZE input 0.
Definition razion_ai_generate_code ctx input := razion_ai_request ctx OP_GENERATE_CODE input 0.
Definition razion_ai_explain_error ctx input := razion_ai_request ctx OP_EXPLAIN_ERROR input 0.
Definition razion_ai_search_files ctx input := razion_ai_request ctx OP_SEARCH_FILES input 0.
Definition razion_ai_analyze_logs ctx input := razion_ai_request ctx OP_ANALYZE_LOGS input 0.
Definition razion_ai_process_info ctx input := razion_ai_request ctx OP_PROCESS_INFO input 0.
Definition razion_ai_disk_info ctx input := razion_ai_request ctx OP_DISK_INFO input 0.
Definition razion_ai_network_diagnostics ctx input := razion_ai_request ctx OP_NETWORK_DIAGNOSTICS input 0.
Definition razion_ai_system_health ctx input := razion_ai_request ctx OP_SYSTEM_HEALTH input 0.
Definition razion_ai_application_search ctx input := razion_ai_request ctx OP_APPLICATION_SEARCH input 0.
Definition razion_ai_voice_command ctx input := razion_ai_request ctx OP_VOICE_COMMAND input 0.
Definition razion_ai_document_search ctx input := razion_ai_request ctx OP_DOCUMENT_SEARCH input 0.
Definition razion_ai_settings_request ctx input := razion_ai_request ctx OP_SETTINGS_REQUEST input 0.
Definition razion_ai_classify_intent ctx input := razion_ai_request ctx OP_CLASSIFY_INTENT input 0.
Definition razion_ai_run_task ctx input flags := razion_ai_request ctx OP_RUN_TASK input flags.
Definition razion_ai_health ctx := razion_ai_request ctx OP_HEALTH None 0.
Definition razion_ai_list_providers ctx := razion_ai_request ctx OP_LIST_PROVIDERS None 0.

End pex.

Definition razion_ai_status_string (status : Z) : bytes :=
  if status =? STATUS_OK then bytes_of "ok"
  else if status =? STATUS_INVALID_REQUEST then bytes_of "invalid request"
  else if status =? STATUS_PROTOCOL_ERROR then bytes_of "protocol error"
  else if status =? STATUS_NO_PROVIDER then bytes_of "no compatible provider"
  else if status =? STATUS_PROVIDER_UNAVAILABLE then bytes_of "provider unavailable"
  else if status =? STATUS_PERMISSION_DENIED then bytes_of "permission denied"
  else if status =? STATUS_CONFIRMATION_REQUIRED then bytes_of "confirmation required"
  else if status =? STATUS_UNSUPPORTED then bytes_of "unsupported"
  else if status =? STATUS_INTERNAL_ERROR then bytes_of "internal error"
  else bytes_of "unknown status".

(** ** Wire format: decoding inverts encoding *)

Lemma slice_hd a b n : length a = n → slice 0 n (a ++ b) = a.
Proof. intros <-. rewrite slice_app_l by lia. apply slice_all. Qed.

Lemma slice_skip a b off n k : length a = k → slice (k + off) n (a ++ b) = slice off n b.
Proof. intros <-. rewrite slice_app_r by lia. f_equal. lia. Qed.

Lemma field_hd n w b : 0 ≤ w < 256 ^ Z.of_nat n → field 0 n (le_split n w ++ b) = w.
Proof. intros Hw. unfold field. rewrite slice_hd by apply le_split_length. by apply le_combine_split. Qed.

Lemma field_skip a b off n k : length a = k → field (k + off) n (a ++ b) = field off n b.
Proof. intros Ha. unfold field. by rewrite (slice_skip a b off n k). Qed.

(** Step over the fields before an offset, then read the one at the front. *)
Ltac wire :=
  repeat match goal with
  | |- context [field 0 ?n (le_split ?n ?w ++ ?b)] => rewrite (field_hd n w b) by (cbn; lia)
  | |- context [field ?o ?n (le_split ?k ?w ++ ?b)] =>
      change (field o n (le_split k w ++ b)) with (field (k + (o - k)) n (le_split k w ++ b));
      rewrite (field_skip (le_split k w) b (o - k) n k (le_split_length k w)); cbn [Nat.sub]
  | |- context [slice ?o ?n (le_split ?k ?w ++ ?b)] =>
      change (slice o n (le_split k w ++ b)) with (slice (k + (o - k)) n (le_split k w ++ b));
      rewrite (slice_skip (le_split k w) b (o - k) n k (le_split_length k w)); cbn [Nat.sub]
  end.

(** A request as the client builds it. *)
Record request_ok (q : request) : Prop := {
  rq_magic : 0 ≤ req_magic q < 2 ^ 32;
  rq_version : 0 ≤ req_version q < 2 ^ 16;
  rq_operation : 0 ≤ req_operation q < 2 ^ 16;
  rq_id : 0 ≤ req_request_id q < 2 ^ 32;
  rq_flags : 0 ≤ req_flags q < 2 ^ 32;
  rq_caps : 0 ≤ req_requested_capabilities q < 2 ^ 32;
  rq_length : 0 ≤ req_payload_length q < Z.of_nat RAZION_AI_MAX_PAYLOAD;
  rq_app : length (req_app_id q) = RAZION_AI_MAX_APP_ID;
  rq_payload : ∃ text, req_payload q = text ++ replicate (RAZION_AI_MAX_PAYLOAD - length text) 0 ∧
    Z.of_nat (length text) = req_payload_length q;
}.

Definition req_hdr (q : request) : bytes :=
  le_split 4 (req_magic q) ++ le_split 2 (req_version q) ++ le_split 2 (req_operation q) ++
  le_split 4 (req_request_id q) ++ le_split 4 (req_flags q) ++
  le_split 4 (req_requested_capabilities q) ++ le_split 4 (req_payload_length q) ++ req_app_id q.

Lemma encode_request_hdr q : encode_request q = req_hdr q ++ req_payload q.
Proof. unfold encode_request, req_hdr. by rewrite <-!(assoc_L (++)). Qed.

Lemma req_hdr_length q : length (req_app_id q) = RAZION_AI_MAX_APP_ID → length (req_hdr q) = req_header.
Proof. intros Ha. unfold req_hdr. rewrite !length_app, !le_split_length, Ha. done. Qed.

(** A sent request, received into a zeroed buffer of [n] bytes, reads back. *)
Lemma decode_encode_request q n :
  request_ok q → (req_header + RAZION_AI_MAX_PAYLOAD ≤ n)%nat →
  let size := (req_header + Z.to_nat (req_payload_length q))%nat in
  decode_request (take size (encode_request q) ++ replicate (n - size) 0) = q.
Proof.
  intros Hq Hn size. destruct (rq_payload q Hq) as (text & Hp & Hl).
  pose proof (rq_length q Hq) as Hlen. pose proof (req_hdr_length q (rq_app q Hq)) as Hh.
  assert (Hbuf : take size (encode_request q) ++ replicate (n - size) 0 =
                 req_hdr q ++ text ++ replicate (n - size) 0).
  { rewrite encode_request_hdr, Hp, (assoc_L (++)), take_app_length'; [by rewrite <-(assoc_L (++))|].
    rewrite length_app, Hh. subst size. lia. }
  rewrite Hbuf. unfold decode_request, req_hdr. rewrite <-!(assoc_L (++)).
  destruct Hq as [? ? ? ? ? ? ? Happ _]. destruct q as [mg v op id fl cp pl app pay].
  cbn [req_magic req_version req_operation req_request_id req_flags req_requested_capabilities
    req_payload_length req_app_id req_payload] in *.
  change (Z.of_nat RAZION_AI_MAX_PAYLOAD) with 768 in *.
  wire. rewrite slice_hd by done. change 48%nat with (RAZION_AI_MAX_APP_ID + 0)%nat.
  rewrite (slice_skip app _ 0 _ _ Happ). f_equal. subst pay. unfold slice. rewrite drop_0.
  rewrite take_app_ge by (unfold RAZION_AI_MAX_PAYLOAD; lia). f_equal. rewrite take_replicate. f_equal.
  unfold size, req_header, RAZION_AI_MAX_PAYLOAD in *. lia.
Qed.

(** A response that can be sent: the payload has its announced length. *)
Record response_ok (p : response) : Prop := {
  rp_magic : resp_magic p = RAZION_AI_PROTOCOL_MAGIC;
  rp_version : resp_version p = RAZION_AI_PROTOCOL_VERSION;
  rp_status : 0 ≤ resp_status p < 2 ^ 16;
  rp_id : 0 ≤ resp_request_id p < 2 ^ 32;
  rp_caps : 0 ≤ resp_granted_capabilities p < 2 ^ 32;
  rp_length : 0 ≤ resp_payload_length p < Z.of_nat RAZION_AI_MAX_PAYLOAD;
  rp_provider : length (resp_provider p) = RAZION_AI_MAX_PROVIDER_NAME;
  rp_payload : Z.of_nat (length (resp_payload p)) = resp_payload_length p;
}.

Lemma encode_response_length p : response_ok p →
  Z.of_nat (length (encode_response p)) = Z.of_nat resp_header + resp_payload_length p.
Proof.
  intros [? ? ? ? ? ? Hp Hl]. unfold encode_response. rewrite !length_app, !le_split_length, Hp, <-Hl.
  unfold resp_header, RAZION_AI_MAX_PROVIDER_NAME. lia.
Qed.

Lemma decode_encode_response p rest : response_ok p → decode_response (encode_response p ++ rest) = p.
Proof.
  intros [Hm Hv ? ? ? Hl Hp Hpl]. unfold decode_response, encode_response. rewrite <-!(assoc_L (++)).
  destruct p as [mg v st id cp pl prov pay].
  cbn [resp_magic resp_version resp_status resp_request_id resp_granted_capabilities
    resp_payload_length resp_provider resp_payload] in *. subst mg v.
  change RAZION_AI_PROTOCOL_MAGIC with 0x52414931. change RAZION_AI_PROTOCOL_VERSION with 1.
  change (Z.of_nat RAZION_AI_MAX_PAYLOAD) with 768 in *.
  wire. rewrite slice_hd by done. change 32%nat with (RAZION_AI_MAX_PROVIDER_NAME + 0)%nat at 1.
  rewrite (slice_skip prov _ 0 _ _ Hp). rewrite slice_hd by lia. done.
Qed.

Lemma reply_ok_sound p received : response_ok p → 
  Z.of_nat resp_header + resp_payload_length p ≤ received → reply_ok (resp_request_id p) received p = true.
Proof.
  intros [Hm Hv ? ? ? Hl ? ?] Hr. unfold reply_ok. rewrite Hm, Hv, !Z.eqb_refl.
  rewrite (proj2 (Z.ltb_lt _ _)), (proj2 (Z.leb_le _ _)) by lia. done.
Qed.

(** ** Reasoning about the calls *)

Section pex_emits.
Context `{PexEnv}.

Lemma pex_connect_emits P ep : P (PexConnect ep) → emits P (λ _, True) (pex_connect ep).
Proof.
  intros Hp. unfold pex_connect. destruct (_ <? _)%nat; [by apply emits_ret|].
  eapply emits_bind; [by apply (emits_gets _ (λ _, True))|]. intros ok _.
  eapply emits_bind; [by apply emits_log|]. intros _ _. by apply emits_ret.
Qed.

Lemma pex_reply_emits P ep data : P (PexReply ep data) → emits P (λ _, True) (pex_reply ep data).
Proof.
  intros Hp. eapply emits_bind; [by apply (emits_gets _ (λ _, True))|]. intros n _.
  eapply emits_bind; [by apply emits_log|]. intros _ _. by apply emits_ret.
Qed.

Lemma fswait2_emits P ep t : P (PexWait ep t) → emits P (λ _, True) (fswait2 ep t).
Proof.
  intros Hp. eapply emits_bind; [by apply (emits_gets _ (λ _, True))|]. intros n _.
  eapply emits_bind; [by apply emits_log|]. intros _ _. by apply emits_ret.
Qed.

(** What [pex_recv] may deliver. *)
Definition received_ok (ep : bytes) (r : Z * bytes) : Prop :=
  length r.2 = MAX_PACKET_SIZE ∧ Forall is_byte r.2 ∧
  (r.2 = replicate MAX_PACKET_SIZE 0 ∨
   ∃ h bs, env_read h ep = Some bs ∧ r.1 ≤ Z.of_nat (length bs)).

Lemma pex_recv_emits `{!PexBytes} P ep : P (PexRecv ep) → emits P (received_ok ep) (pex_recv ep).
Proof.
  intros Hp. eapply emits_bind; [apply (emits_gets _ (λ r, ∃ h, r = env_read h ep)); eauto|].
  intros r (h & ->). eapply emits_bind; [by apply emits_log|]. intros _ _. apply emits_ret.
  assert (Hz : ∀ k, Forall is_byte (replicate k 0)) by (intros k; apply Forall_replicate; done).
  destruct (env_read h ep) as [bs|] eqn:E; unfold received_ok; cbn [fst snd].
  - rewrite length_app, length_replicate, length_take. split_and!; [lia| |].
    + apply Forall_app. split; [by apply Forall_take, (env_read_bytes h ep)|done].
    + right. exists h, bs. split; [done|]. lia.
  - rewrite length_replicate. split_and!; [done|done|by left].
Qed.
End pex_emits.

(** A reply decoded from a full buffer has its fields in range. *)
Lemma field_range off n buf : Forall is_byte buf → (off + n ≤ length buf)%nat →
  0 ≤ field off n buf < 256 ^ Z.of_nat n.
Proof.
  intros Hb Hl. unfold field. assert (Hs : Forall is_byte (slice off n buf)).
  { by apply Forall_take, Forall_drop. }
  pose proof (le_combine_bound _ Hs) as Hc. unfold slice in *. rewrite length_take, length_drop in Hc.
  by rewrite Nat.min_l in Hc by lia.
Qed.

(** An accepted reply was read from the endpoint, and its payload with it. *)
Definition came_from `{PexEnv} (ep : bytes) (r : response) : Prop :=
  ∃ h bs, env_read h ep = Some bs ∧ Z.of_nat resp_header + resp_payload_length r ≤ Z.of_nat (length bs).

Lemma reply_ok_response `{PexEnv} ep id received buf :
  received_ok ep (received, buf) → reply_ok id received (decode_response buf) = true →
  response_ok (decode_response buf) ∧ resp_request_id (decode_response buf) = id ∧
  came_from ep (decode_response buf).
Proof.
  intros (Hl & Hb & Hread) Hr. cbn [fst snd] in *. unfold reply_ok in Hr. rewrite !andb_true_iff in Hr.
  destruct Hr as [[[[Hm Hv] Hi] Hp] Hrc].
  apply Z.eqb_eq in Hm, Hv, Hi. apply Z.ltb_lt in Hp. apply Z.leb_le in Hrc. split; [|split; [done|]].
  2: { destruct Hread as [->|(h & bs & He & Hle)]; [by vm_compute in Hm|]. exists h, bs. split; [done|]. lia. }
  unfold MAX_PACKET_SIZE in Hl.
  pose proof (field_range 16 4 buf Hb ltac:(lia)) as Hpl. cbn [resp_payload_length decode_response] in Hp.
  split; try done; cbn [resp_status resp_request_id resp_granted_capabilities resp_payload_length
    resp_provider resp_payload decode_response].
  - apply (field_range 6 2 buf Hb). lia.
  - apply (field_range 8 4 buf Hb). lia.
  - apply (field_range 12 4 buf Hb). lia.
  - lia.
  - unfold slice. rewrite length_take, length_drop. unfold RAZION_AI_MAX_PROVIDER_NAME. lia.
  - unfold slice, RAZION_AI_MAX_PAYLOAD in *. rewrite length_take, length_drop. lia.
Qed.

(** ** The client *)

Lemma lor_range a b n : 0 ≤ n → 0 ≤ a < 2 ^ n → 0 ≤ b < 2 ^ n → 0 ≤ Z.lor a b < 2 ^ n.
Proof.
  intros Hn Ha Hb. split; [apply Z.lor_nonneg; lia|].
  assert (Heq : Z.lor a b = Z.land (Z.lor a b) (Z.ones n)).
  { rewrite Z.land_lor_distr_l, !Z.land_ones, !Z.mod_small by lia. done. }
  rewrite Heq, Z.land_ones by lia. apply Z.mod_pos_bound. lia.
Qed.

Lemma operation_capabilities_range op : 0 ≤ operation_capabilities op < 2 ^ 8.
Proof.
  unfold operation_capabilities.
  repeat match goal with |- context [if ?c then _ else _] => destruct c end; by vm_compute.
Qed.

(** The contexts [razion_ai_init] makes, and those a client derives from them. *)
Record context_ok (ctx : context) : Prop := {
  cx_app : length (ctx_app_id ctx) = RAZION_AI_MAX_APP_ID;
  cx_flags : 0 ≤ ctx_default_flags ctx < 2 ^ 32;
  cx_caps : 0 ≤ ctx_requested_capabilities ctx < 2 ^ 32;
  cx_id : 0 ≤ ctx_next_request_id ctx < 2 ^ 32;
}.

Lemma razion_ai_init_ok app_id pid ctx : razion_ai_init app_id pid = Some ctx → context_ok ctx.
Proof.
  destruct app_id as [[|c s]|]; try done. intros [= <-].
  split; cbn [ctx_app_id ctx_default_flags ctx_requested_capabilities ctx_next_request_id]; try done.
  - apply char_array_length. unfold RAZION_AI_MAX_APP_ID. lia.
  - apply (lor_range _ _ 32); [lia|apply (wrap_bound 32); lia|lia].
Qed.

Lemma build_request_ok ctx op input flags :
  context_ok ctx → 0 ≤ flags < 2 ^ 32 → (length input < RAZION_AI_MAX_PAYLOAD)%nat →
  request_ok (build_request ctx op input flags).
Proof.
  intros [Ha Hf Hc Hi] Hfl Hl. pose proof (operation_capabilities_range op) as Hop.
  split; cbn [build_request req_magic req_version req_operation req_request_id req_flags
    req_requested_capabilities req_payload_length req_app_id req_payload]; try done.
  - apply (wrap_bound 16). lia.
  - by apply (lor_range _ _ 32).
  - apply (lor_range _ _ 32); [lia|done|]. lia.
  - lia.
  - rewrite length_app, length_take, Ha. unfold RAZION_AI_MAX_APP_ID. cbn. lia.
  - by exists input.
Qed.

(** What an answer the client accepts is. *)
Definition accepted (id : Z) (r : response) : Prop :=
  response_ok r ∧ resp_request_id r = id ∧ resp_provider r !! (RAZION_AI_MAX_PROVIDER_NAME - 1)%nat = Some 0.

Lemma terminate_provider_accepted id r :
  response_ok r → resp_request_id r = id → accepted id (terminate_provider r).
Proof.
  intros [Hm Hv Hs Hi Hc Hl Hp Hpl] Hid.
  assert (Hlen : length (take (RAZION_AI_MAX_PROVIDER_NAME - 1) (resp_provider r)) = 31%nat)
    by (rewrite length_take, Hp; done).
  split_and!; [|done|].
  - split; cbn [terminate_provider resp_magic resp_version resp_status resp_request_id
      resp_granted_capabilities resp_payload_length resp_provider resp_payload]; try done.
    by rewrite length_app, Hlen.
  - cbn [terminate_provider resp_provider]. by rewrite lookup_app_r, Hlen by (rewrite Hlen; done).
Qed.

Section client.
Context `{PexEnv} `{!PexBytes}.

(** The calls a client makes: all to the engine, at most its own request. *)
Definition client_call (q : request) (c : pex_call) : Prop :=
  match c with
  | PexConnect ep | PexWait ep _ | PexRecv ep => ep = RAZION_AI_ENDPOINT
  | PexReply ep data => ep = RAZION_AI_ENDPOINT ∧
      data = take (req_header + Z.to_nat (req_payload_length q)) (encode_request q)
  | PexSend _ _ | Audit _ => False
  end.

Lemma razion_ai_request_emits ctx op input flags :
  let text := default [] input in
  let q := build_request ctx op text flags in
  (length text < RAZION_AI_MAX_PAYLOAD)%nat →
  emits (client_call q)
    (λ res, res.2 = bump_request_id ctx ∧
            match res.1 with
            | inl e => e ∈ [None; Some EIO; Some ETIMEDOUT; Some EPROTO]
            | inr r => accepted (ctx_next_request_id ctx) r ∧ came_from RAZION_AI_ENDPOINT r
            end)
    (razion_ai_request ctx op input flags).
Proof.
  intros text q Hl. unfold razion_ai_request. fold text. fold q.
  rewrite (proj2 (Nat.leb_gt _ _)) by done.
  assert (Hsz : (req_header + length text)%nat = (req_header + Z.to_nat (req_payload_length q))%nat).
  { cbn [q build_request req_payload_length]. by rewrite Nat2Z.id. }
  rewrite Hsz. eapply emits_bind; [by apply pex_connect_emits|]. intros ok _.
  destruct ok; cbn [negb]; [|apply emits_ret; split; [done|by left]].
  eapply emits_bind; [by apply pex_reply_emits|]. intros n _.
  destruct (negb _); [apply emits_ret; split; [done|by right; left]|].
  eapply emits_bind; [by apply fswait2_emits|]. intros w _.
  destruct (negb _); [apply emits_ret; split; [done|by right; right; left]|].
  eapply emits_bind; [by apply pex_recv_emits|]. intros [received buf] Hrcv.
  assert (He : Some EPROTO ∈ [None; Some EIO; Some ETIMEDOUT; Some EPROTO]) by (by do 3 right; left).
  destruct (_ <? _); [by apply emits_ret|].
  destruct (reply_ok _ _ _) eqn:Hok; cbn [negb]; [|by apply emits_ret].
  destruct (reply_ok_response _ _ _ _ Hrcv Hok) as (Hresp & Hid & Hcame).
  apply emits_ret. split; [done|]. split; [by apply terminate_provider_accepted|exact Hcame].
Qed.

End client.

(** C25: the client library is safe against any engine: for every behaviour of
    the endpoint a request returns, having talked to the engine only and sent
    nothing but its own request; an answer is handed to the application only
    if it is well-formed, bears the identifier of this request and its
    provider name is terminated; an input that does not fit is refused before
    any call, and each accepted request uses a fresh identifier. *)
Theorem client_request_safe `{PexEnv} `{!PexBytes} ctx op input flags h :
  let text := default [] input in
  ∃ res ctx' l, razion_ai_request ctx op input flags h = Ret ((res, ctx'), h ++ l) ∧
    ((RAZION_AI_MAX_PAYLOAD ≤ length text)%nat → res = inl (Some E2BIG) ∧ ctx' = ctx ∧ l = []) ∧
    ((length text < RAZION_AI_MAX_PAYLOAD)%nat →
     ctx' = bump_request_id ctx ∧ Forall (client_call (build_request ctx op text flags)) l ∧
     match res with
     | inl e => e ∈ [None; Some EIO; Some ETIMEDOUT; Some EPROTO]
     | inr r => accepted (ctx_next_request_id ctx) r
     end).
Proof.
  intros text. destruct (Nat.le_gt_cases RAZION_AI_MAX_PAYLOAD (length text)) as [Hge|Hlt].
  - exists (inl (Some E2BIG)), ctx, []. unfold razion_ai_request. fold text.
    rewrite (proj2 (Nat.leb_le _ _)), app_nil_r by done. split_and!; [done..|lia].
  - destruct (razion_ai_request_emits ctx op input flags Hlt h) as ([res ctx'] & l & Hr & Hl & Hc & Hres).
    exists res, ctx', l. split_and!; [done|lia|]. intros _. split_and!; [done|done|].
    destruct res; [done|apply Hres].
Qed.
