(* ===== verification/AIEngine.v ===== *)
(** * The Razion AI engine ([apps/razion-ai-engine.c])

    The root-owned service that routes requests to provider adapters: its
    configuration, the selection of a provider under the privacy policy, the
    exchange with the provider, the handling of every operation, and one
    iteration of its service loop.  Provider adapters and clients are the
    environment of [AIProtocol]; the history of PEX calls is the state. *)

From S2P Require Import Prelude Memory Text AIProtocol.

Definition MAX_PROVIDERS : nat := 24.
Definition RAZION_AI_MAX_PROVIDER_ENDPOINT : nat := 80.
Definition DEFAULT_AUDIT_LOG : bytes := bytes_of "/var/log/razion-ai.log".

(** ** Configuration *)

(** [razion_ai_provider_class_t] *)
Inductive provider_class := PROVIDER_LOCAL | PROVIDER_CLOUD.

#[global] Instance provider_class_eq_dec : EqDecision provider_class.
Proof. solve_decision. Defined.

(** [razion_ai_provider_descriptor_t]; names are C strings. *)
Record provider := Provider {
  pv_name : bytes;
  pv_endpoint : bytes;
  pv_class : provider_class;
  pv_capabilities : Z;
  pv_priority : Z;
  pv_enabled : bool;
}.

(** [engine_config_t]; [providers] holds the first [provider_count] entries. *)
Record engine_config := Config {
  local_first : Z;
  allow_cloud : Z;
  cloud_fallback : Z;
  audit_enabled : Z;
  audit_log : bytes;
  provider_timeout_ms : Z;
  providers : list provider;
}.

Definition default_config : engine_config := Config 1 0 1 1 DEFAULT_AUDIT_LOG 5000 [].

(** What the engine uses of [lib/confreader.c]: the section names in the order
    [hashmap_keys] lists them, and the value of a key of a section. *)
Record confreader := Confreader {
  conf_sections : list bytes;
  confreader_get : bytes → bytes → option bytes;
}.

Definition confreader_getd (c : confreader) (section key def : bytes) : bytes :=
  default def (confreader_get c section key).
Definition confreader_intd (c : confreader) (section key : bytes) (def : Z) : Z :=
  match confreader_get c section key with None => def | Some v => libc_atoi v end.

Definition parse_capabilities (value : option bytes) : Z :=
  match value with
  | None => 0
  | Some v =>
      let add out name cap := if contains v name then Z.lor out cap else out in
      let out := add 0 (bytes_of "text") CAP_TEXT in
      let out := add out (bytes_of "search") CAP_FILE_SEARCH in
      let out := add out (bytes_of "system-read") CAP_SYSTEM_READ in
      let out := add out (bytes_of "task-propose") CAP_TASK_PROPOSE in
      let out := add out (bytes_of "task-execute") CAP_TASK_EXECUTE in
      let out := add out (bytes_of "voice") CAP_VOICE in
      let out := add out (bytes_of "code") CAP_CODE in
      add out (bytes_of "settings") CAP_SETTINGS
  end.

Definition set_providers (cfg : engine_config) (ps : list provider) : engine_config :=
  Config (local_first cfg) (allow_cloud cfg) (cloud_fallback cfg) (audit_enabled cfg)
    (audit_log cfg) (provider_timeout_ms cfg) ps.

Definition load_provider (c : confreader) (cfg : engine_config) (section : bytes) : engine_config :=
  if (MAX_PROVIDERS <=? length (providers cfg))%nat then cfg else
  let get key def := confreader_getd c section key def in
  let enabled := get (bytes_of "enabled") (bytes_of "0") in
  if negb (bytes_eqb enabled (bytes_of "1")) && negb (bytes_eqb enabled (bytes_of "yes")) &&
     negb (bytes_eqb enabled (bytes_of "true")) then cfg else
  let name := take (RAZION_AI_MAX_PROVIDER_NAME - 1) (drop (length (bytes_of "provider.")) section) in
  let endpoint := take (RAZION_AI_MAX_PROVIDER_ENDPOINT - 1) (get (bytes_of "endpoint") []) in
  let class := if bytes_eqb (get (bytes_of "class") (bytes_of "cloud")) (bytes_of "local")
               then PROVIDER_LOCAL else PROVIDER_CLOUD in
  let priority := confreader_intd c section (bytes_of "priority") 100 in
  let capabilities := parse_capabilities (Some (get (bytes_of "capabilities") (bytes_of "text"))) in
  let enabled := match endpoint with [] => false | _ => true end in
  if enabled then
    set_providers cfg (providers cfg ++ [Provider name endpoint class capabilities priority enabled])
  else cfg.

Definition clamp_timeout (t : Z) : Z := if t <? 100 then 100 else if 30000 <? t then 30000 else t.

Definition load_config (conf : option confreader) (cfg : engine_config) : engine_config :=
  match conf with
  | None => cfg
  | Some c =>
      let int key def := confreader_intd c (bytes_of "engine") key def in
      let cfg := Config (int (bytes_of "local_first") 1) (int (bytes_of "allow_cloud") 0) (int (bytes_of "cloud_fallback") 1)
                   (int (bytes_of "audit_enabled") 1)
                   (take 159 (confreader_getd c (bytes_of "engine") (bytes_of "audit_log") DEFAULT_AUDIT_LOG))
                   (clamp_timeout (int (bytes_of "provider_timeout_ms") 5000)) (providers cfg) in
      fold_left (λ cfg section,
        if is_prefix (bytes_of "provider.") section then load_provider c cfg section else cfg)
        (conf_sections c) cfg
  end.

(** ** Routing *)

Section engine.
Context `{PexEnv} (cfg : engine_config).

Definition provider_is_available (p : provider) : M history bool := pex_connect (pv_endpoint p).

Definition provider_matches (p : provider) (q : request) (cls : provider_class) : M history bool :=
  if negb (pv_enabled p) || negb (bool_decide (pv_class p = cls)) then mret false else
  if negb (Z.land (pv_capabilities p) (req_requested_capabilities q) =? req_requested_capabilities q)
  then mret false else
  if bool_decide (cls = PROVIDER_CLOUD) &&
     ((allow_cloud cfg =? 0) || negb (has_flag (req_flags q) FLAG_ALLOW_CLOUD) ||
      has_flag (req_flags q) FLAG_LOCAL_ONLY)
  then mret false
  else provider_is_available p.

(** The loop of [select_provider] over providers [i], [i+1], ..., with
    [selected] the index chosen so far. *)
Fixpoint select_loop (q : request) (cls : provider_class) (attempted : list bool)
    (ps : list provider) (i : nat) (selected : option (nat * provider)) :
    M history (option (nat * provider)) :=
  match ps with
  | [] => mret selected
  | candidate :: ps =>
      if default false (attempted !! i) then select_loop q cls attempted ps (S i) selected else
      ok ← provider_matches candidate q cls;
      if negb ok then select_loop q cls attempted ps (S i) selected else
      let selected := match selected with
                      | None => Some (i, candidate)
                      | Some (j, s) =>
                          if pv_priority candidate <? pv_priority s then Some (i, candidate)
                          else Some (j, s)
                      end in
      select_loop q cls attempted ps (S i) selected
  end.

Definition select_provider (q : request) (cls : provider_class) (attempted : list bool) :
    M history (option (nat * provider)) :=
  select_loop q cls attempted (providers cfg) 0 None.

(** [response->provider] and the granted capabilities are overwritten. *)
Definition brand_response (p : provider) (q : request) (r : response) : response :=
  Response (resp_magic r) (resp_version r) (resp_status r) (resp_request_id r)
    (Z.land (resp_granted_capabilities r) (Z.land (pv_capabilities p) (req_requested_capabilities q)))
    (resp_payload_length r) (char_array RAZION_AI_MAX_PROVIDER_NAME (pv_name p)) (resp_payload r).

(** [None]: the function returned -1. *)
Definition forward_to_provider (p : provider) (q : request) : M history (option response) :=
  ok ← pex_connect (pv_endpoint p);
  if negb ok then mret None else
  let size := (req_header + Z.to_nat (req_payload_length q))%nat in
  n ← pex_reply (pv_endpoint p) (take size (encode_request q));
  if negb (n =? Z.of_nat size) then mret None else
  w ← fswait2 (pv_endpoint p) (provider_timeout_ms cfg);
  if negb (w =? 0) then mret None else
  r ← pex_recv (pv_endpoint p);
  let '(received, buf) := r in
  if received <? Z.of_nat resp_header then mret None else
  let reply := decode_response buf in
  if negb (reply_ok (req_request_id q) received reply) then mret None
  else mret (Some (brand_response p q reply)).

(** How routing ended: a provider answered, none was compatible (-1), or every
    compatible one failed (-2, with the name of the last). *)
Inductive routed := Routed (r : response) | NoProvider | AllFailed (last : bytes).

(** The [while (1)] loop for one class: select, mark, forward.  [last] is the
    name of the last provider attempted. *)
Fixpoint route_class (fuel : nat) (q : request) (cls : provider_class)
    (attempted : list bool) (last : option bytes) :
    M history (option response * list bool * option bytes) :=
  match fuel with
  | O => spin
  | S fuel =>
      sel ← select_provider q cls attempted;
      match sel with
      | None => mret (None, attempted, last)
      | Some (i, p) =>
          let attempted := <[i := true]> attempted in
          r ← forward_to_provider p q;
          match r with
          | Some resp => mret (Some resp, attempted, Some (pv_name p))
          | None => route_class fuel q cls attempted (Some (pv_name p))
          end
      end
  end.

(** A class takes at most one iteration per provider, and one to find none. *)
Definition route_fuel : nat := S (length (providers cfg)).

Definition route_to_provider (q : request) : M history routed :=
  let attempted := replicate MAX_PROVIDERS false in
  let prefer_local := negb (local_first cfg =? 0) || has_flag (req_flags q) FLAG_PREFER_LOCAL in
  let first := if prefer_local then PROVIDER_LOCAL else PROVIDER_CLOUD in
  let second := if prefer_local then PROVIDER_CLOUD else PROVIDER_LOCAL in
  let finish last := match last with Some n => AllFailed n | None => NoProvider end in
  r ← route_class route_fuel q first attempted None;
  let '(resp, attempted, last) := r in
  match resp with
  | Some resp => mret (Routed resp)
  | None =>
      if bool_decide (first = PROVIDER_LOCAL) && (cloud_fallback cfg =? 0)
      then mret (finish last) else
      r ← route_class route_fuel q second attempted last;
      let '(resp, _, last) := r in
      mret match resp with Some resp => Routed resp | None => finish last end
  end.

(** ** Responses *)

Definition set_response (id status : Z) (prov message : bytes) : response :=
  let payload := take (RAZION_AI_MAX_PAYLOAD - 1) message in
  Response RAZION_AI_PROTOCOL_MAGIC RAZION_AI_PROTOCOL_VERSION status id 0
    (Z.of_nat (length payload)) (char_array RAZION_AI_MAX_PROVIDER_NAME prov) payload.

Fixpoint count_available (ps : list provider) : M history Z :=
  match ps with
  | [] => mret 0
  | p :: ps => ok ← provider_is_available p; n ← count_available ps;
               mret (if ok : bool then n + 1 else n)
  end.

Definition health_response (q : request) : M history response :=
  available ← count_available (providers cfg);
  let message :=
    bytes_of "engine=ready;protocol=" ++ dec RAZION_AI_PROTOCOL_VERSION ++
    bytes_of ";providers=" ++ dec (Z.of_nat (length (providers cfg))) ++
    bytes_of ";available=" ++ dec available ++
    bytes_of ";local_first=" ++ (if local_first cfg =? 0 then bytes_of "off" else bytes_of "on") ++
    bytes_of ";cloud=" ++ (if allow_cloud cfg =? 0 then bytes_of "disabled" else bytes_of "opt-in") in
  mret (set_response (req_request_id q) STATUS_OK (bytes_of "engine")
          (snprintf RAZION_AI_MAX_PAYLOAD message)).

Definition provider_text (p : provider) (available : bool) : bytes :=
  pv_name p ++ bytes_of ":" ++
  (if bool_decide (pv_class p = PROVIDER_LOCAL) then bytes_of "local" else bytes_of "cloud") ++ bytes_of ":" ++
  (if available then bytes_of "available" else bytes_of "unavailable") ++
  bytes_of ":priority=" ++ dec (pv_priority p).

(** [message] holds the text written so far: complete entries, and on the last
    iteration possibly a truncated one ([break]).  [used] is the length of the
    complete part. *)
Fixpoint provider_list_loop (ps : list provider) (used : nat) (message : bytes) : M history (nat * bytes) :=
  match ps with
  | [] => mret (used, message)
  | p :: ps =>
      ok ← provider_is_available p;
      let text := (if (used =? 0)%nat then [] else bytes_of ";") ++ provider_text p ok in
      let room := (RAZION_AI_MAX_PAYLOAD - used)%nat in
      let message := take used message ++ snprintf room text in
      if (room <=? length text)%nat then mret (used, message)
      else provider_list_loop ps (used + length text) message
  end.

Definition provider_list_response (q : request) : M history response :=
  r ← provider_list_loop (providers cfg) 0 [];
  let '(used, message) := r in
  mret (set_response (req_request_id q) STATUS_OK (bytes_of "engine")
          (if (used =? 0)%nat then bytes_of "no providers configured" else message)).

Definition operation_names : list (Z * bytes) :=
  [(OP_HEALTH, bytes_of "health"); (OP_LIST_PROVIDERS, bytes_of "providers");
   (OP_ASK, bytes_of "ask"); (OP_SEARCH, bytes_of "search"); (OP_ANALYZE, bytes_of "analyze");
   (OP_RUN_TASK, bytes_of "run-task"); (OP_SUMMARIZE, bytes_of "summarize");
   (OP_GENERATE_CODE, bytes_of "generate-code"); (OP_EXPLAIN_ERROR, bytes_of "explain-error");
   (OP_SEARCH_FILES, bytes_of "search-files"); (OP_ANALYZE_LOGS, bytes_of "analyze-logs");
   (OP_PROCESS_INFO, bytes_of "process-info"); (OP_DISK_INFO, bytes_of "disk-info");
   (OP_NETWORK_DIAGNOSTICS, bytes_of "network-diagnostics");
   (OP_SYSTEM_HEALTH, bytes_of "system-health");
   (OP_APPLICATION_SEARCH, bytes_of "application-search");
   (OP_VOICE_COMMAND, bytes_of "voice-command"); (OP_DOCUMENT_SEARCH, bytes_of "document-search");
   (OP_SETTINGS_REQUEST, bytes_of "settings-request");
   (OP_CLASSIFY_INTENT, bytes_of "classify-intent")].

Definition operation_name (operation : Z) : bytes :=
  match List.find (λ e, e.1 =? operation) operation_names with
  | Some e => e.2
  | None => bytes_of "unknown"
  end.

(** The operations that [handle_request] routes to a provider. *)
Definition routable (operation : Z) : bool := (OP_ASK <=? operation) && (operation <=? OP_CLASSIFY_INTENT).

Definition handle_request (q : request) : M history response :=
  let reply status prov message := set_response (req_request_id q) status prov message in
  if has_flag (req_flags q) FLAG_EXECUTE_ACTION then
    mret (if negb (has_flag (req_flags q) FLAG_USER_CONFIRMED) then
            reply STATUS_CONFIRMATION_REQUIRED (bytes_of "engine")
              (bytes_of "Action execution requires explicit user confirmation.")
          else
            reply STATUS_PERMISSION_DENIED (bytes_of "engine")
              (bytes_of "Direct provider action execution is disabled; use an approved native broker."))
  else if req_operation q =? OP_HEALTH then health_response q
  else if req_operation q =? OP_LIST_PROVIDERS then provider_list_response q
  else if negb (routable (req_operation q)) then
    mret (reply STATUS_UNSUPPORTED (bytes_of "engine") (bytes_of "The requested operation is not supported."))
  else
    r ← route_to_provider q;
    mret match r with
         | Routed resp => resp
         | NoProvider =>
             reply STATUS_NO_PROVIDER (bytes_of "engine")
               (bytes_of "No compatible provider is available under the current privacy policy.")
         | AllFailed last =>
             reply STATUS_PROVIDER_UNAVAILABLE last (bytes_of "All compatible providers failed or timed out.")
         end.

(** ** The service loop *)

(** [pex_packet_t]: [data] is the buffer of 1025 bytes, zero beyond [size]. *)
Record packet := Packet { pkt_source : Z; pkt_size : Z; pkt_data : bytes }.

Definition app_id_char (c : Z) : bool := isalnum c || (c =? 46) || (c =? 95) || (c =? 45).

(** [for (i = 0; app_id[i]; ++i)] replaces every other character by '_'. *)
Fixpoint sanitize (app_id : bytes) : bytes :=
  match app_id with
  | [] => []
  | c :: rest => if c =? 0 then c :: rest else (if app_id_char c then c else 95) :: sanitize rest
  end.

Definition validate_request (pkt : packet) : option request :=
  if pkt_size pkt <? Z.of_nat req_header then None else
  let q := decode_request (pkt_data pkt) in
  if negb (req_magic q =? RAZION_AI_PROTOCOL_MAGIC) ||
     negb (req_version q =? RAZION_AI_PROTOCOL_VERSION) ||
     (Z.of_nat RAZION_AI_MAX_PAYLOAD <=? req_payload_length q) ||
     (pkt_size pkt <? Z.of_nat req_header + req_payload_length q) then None else
  let app_id := sanitize (<[(RAZION_AI_MAX_APP_ID - 1)%nat := 0]> (req_app_id q)) in
  let payload := <[Z.to_nat (req_payload_length q) := 0]> (req_payload q) in
  Some (Request (req_magic q) (req_version q) (req_operation q) (req_request_id q) (req_flags q)
          (req_requested_capabilities q) (req_payload_length q) app_id payload).

(** Hexadecimal for [0x%x]. *)
Definition hex_digit (d : Z) : Z := if d <? 10 then 48 + d else 87 + d.
Fixpoint hex_digits (fuel : nat) (z : Z) : bytes :=
  match fuel with
  | O => []
  | S fuel => if z <? 16 then [hex_digit z] else hex_digits fuel (z / 16) ++ [hex_digit (z mod 16)]
  end.

Definition audit_request (source : Z) (q : request) (r : response) : M history unit :=
  if audit_enabled cfg =? 0 then mret tt else
  opened ← gets env_audit;
  if negb opened then mret tt else
  now ← gets env_time;
  let prov := until_nul (resp_provider r) in
  log (Audit (bytes_of "time=" ++ dec now ++ bytes_of " source=" ++ dec source ++
         bytes_of " app=" ++ until_nul (req_app_id q) ++
         bytes_of " operation=" ++ operation_name (req_operation q) ++
         bytes_of " provider=" ++ (match prov with [] => bytes_of "none" | _ => prov end) ++
         bytes_of " status=" ++ dec (resp_status r) ++
         bytes_of " flags=0x" ++ hex_digits 8 (req_flags q) ++
         bytes_of " capabilities=0x" ++ hex_digits 8 (req_requested_capabilities q))).

(** One iteration of [run_engine] on a packet it received. *)
Definition engine_step (pkt : packet) : M history unit :=
  resp ← (match validate_request pkt with
          | None =>
              let id := if Z.of_nat 12 <=? pkt_size pkt then field 8 4 (pkt_data pkt) else 0 in
              mret (set_response id STATUS_PROTOCOL_ERROR (bytes_of "engine")
                      (bytes_of "Invalid Razion AI protocol request."))
          | Some q =>
              resp ← handle_request q;
              audit_request (pkt_source pkt) q resp;;
              mret resp
          end);
  pex_send (pkt_source pkt) (encode_response resp).

(** The service loop over the packets that arrive. *)
Fixpoint run_engine (pkts : list packet) : M history unit :=
  match pkts with [] => mret tt | pkt :: pkts => engine_step pkt;; run_engine pkts end.

End engine.

(** ** The privacy policy *)

Section policy.
Context `{PexEnv} `{!PexBytes} (cfg : engine_config).

(** A provider may be given a request: it is enabled and has the capabilities,
    and if it is a cloud provider, the system allows the cloud, the request
    allows it, and the request is not local-only. *)
Definition eligible (p : provider) (q : request) : Prop :=
  pv_enabled p = true ∧
  Z.land (pv_capabilities p) (req_requested_capabilities q) = req_requested_capabilities q ∧
  (pv_class p = PROVIDER_CLOUD →
   allow_cloud cfg ≠ 0 ∧ has_flag (req_flags q) FLAG_ALLOW_CLOUD = true ∧
   has_flag (req_flags q) FLAG_LOCAL_ONLY = false).

(** The bytes of a request that go over the wire. *)
Definition request_bytes (q : request) : bytes :=
  take (req_header + Z.to_nat (req_payload_length q)) (encode_request q).

(** An availability probe: a connection to a configured endpoint, no data. *)
Definition probe (c : pex_call) : Prop :=
  ∃ p, p ∈ providers cfg ∧ c = PexConnect (pv_endpoint p).

(** The calls the engine may make for [q]. *)
Definition permitted (q : request) (c : pex_call) : Prop :=
  match c with
  | PexConnect ep => ∃ p, p ∈ providers cfg ∧ pv_endpoint p = ep
  | PexReply ep data =>
      data = request_bytes q ∧ ∃ p, p ∈ providers cfg ∧ pv_endpoint p = ep ∧ eligible p q
  | PexWait ep _ | PexRecv ep => ∃ p, p ∈ providers cfg ∧ pv_endpoint p = ep ∧ eligible p q
  | PexSend _ _ | Audit _ => False
  end.

Lemma probe_permitted q c : probe c → permitted q c.
Proof. intros (p & Hp & ->). by exists p. Qed.

Lemma provider_matches_emits p q cls : p ∈ providers cfg →
  emits probe (λ ok, ok = true → eligible p q ∧ pv_class p = cls) (provider_matches cfg p q cls).
Proof.
  intros Hp. unfold provider_matches.
  destruct (pv_enabled p) eqn:He; cbn [negb orb]; [|by apply emits_ret].
  case_bool_decide as Hc; cbn [negb]; [|by apply emits_ret].
  destruct (Z.eqb_spec (Z.land (pv_capabilities p) (req_requested_capabilities q))
    (req_requested_capabilities q)) as [Hcap|]; cbn [negb]; [|by apply emits_ret].
  destruct (_ && _) eqn:Hpol; [by apply emits_ret|].
  eapply emits_mono; [apply (pex_connect_emits probe); by exists p|done|].
  intros ok _ _. split; [|done]. split_and!; [done|done|]. intros Hcloud.
  rewrite <-Hc, bool_decide_eq_true_2 in Hpol by done. cbn [andb] in Hpol.
  rewrite !orb_false_iff, negb_false_iff, Z.eqb_neq in Hpol. tauto.
Qed.

(** A selection is a configured, unattempted, eligible provider of its class. *)
Definition sel_ok (q : request) (cls : provider_class) (att : list bool)
    (sel : option (nat * provider)) : Prop :=
  ∀ i p, sel = Some (i, p) →
    providers cfg !! i = Some p ∧ eligible p q ∧ pv_class p = cls ∧ default false (att !! i) = false.

Lemma select_loop_emits q cls att : ∀ ps i sel,
  (∀ j p, ps !! j = Some p → providers cfg !! (i + j)%nat = Some p) → sel_ok q cls att sel →
  emits probe (sel_ok q cls att) (select_loop cfg q cls att ps i sel).
Proof.
  induction ps as [|c ps IH]; intros i sel Hps Hsel; cbn [select_loop]; [by apply emits_ret|].
  assert (Hc : providers cfg !! i = Some c) by (rewrite <-(Nat.add_0_r i); by apply Hps).
  assert (Hnext : ∀ s, sel_ok q cls att s → emits probe (sel_ok q cls att) (select_loop cfg q cls att ps (S i) s)).
  { intros s Hs. apply IH; [|done]. intros j p Hj. replace (S i + j)%nat with (i + S j)%nat by lia. by apply Hps. }
  destruct (default false (att !! i)) eqn:Ha; [by apply Hnext|].
  eapply emits_bind; [apply provider_matches_emits; by eapply list_elem_of_lookup_2|].
  intros ok Hok. destruct ok; cbn [negb]; [|by apply Hnext]. destruct (Hok eq_refl) as [Hel Hcls].
  apply Hnext. intros j p. destruct sel as [[j' s]|].
  - destruct (_ <? _); [by intros [= <- <-]|]. intros [= <- <-]. by apply Hsel.
  - by intros [= <- <-].
Qed.

Lemma select_provider_emits q cls att : emits probe (sel_ok q cls att) (select_provider cfg q cls att).
Proof. apply select_loop_emits; [done|]. by intros i p. Qed.

(** ** Forwarding *)

(** A response passed back for [q]: well-formed, with the request's identifier
    and no capability the request did not ask for. *)
Definition good_response (q : request) (r : response) : Prop :=
  response_ok r ∧ resp_request_id r = req_request_id q ∧
  Z.land (resp_granted_capabilities r) (req_requested_capabilities q) = resp_granted_capabilities r.

Lemma land_range a b n : 0 ≤ n → 0 ≤ a < 2 ^ n → 0 ≤ Z.land a b < 2 ^ n.
Proof.
  intros Hn Ha. split; [apply Z.land_nonneg; lia|].
  assert (Heq : Z.land a b = Z.land (Z.land a b) (Z.ones n)).
  { rewrite <-Z.land_assoc, (Z.land_comm b), Z.land_assoc, Z.land_ones, Z.mod_small by lia. done. }
  rewrite Heq, Z.land_ones by lia. apply Z.mod_pos_bound. lia.
Qed.

Lemma brand_response_good p q r :
  response_ok r → resp_request_id r = req_request_id q → good_response q (brand_response p q r).
Proof.
  intros [Hm Hv Hs Hi Hc Hl Hp Hpl] Hid. split_and!; [|done|].
  - split; cbn [brand_response resp_magic resp_version resp_status resp_request_id
      resp_granted_capabilities resp_payload_length resp_provider resp_payload]; try done.
    + by apply (land_range _ _ 32).
    + apply char_array_length. unfold RAZION_AI_MAX_PROVIDER_NAME. lia.
  - cbn [brand_response resp_granted_capabilities]. rewrite <-!Z.land_assoc, Z.land_diag. done.
Qed.

Definition reply_eps (l : list pex_call) : list bytes :=
  omap (λ c, match c with PexReply ep _ => Some ep | _ => None end) l.

Lemma reply_eps_app l1 l2 : reply_eps (l1 ++ l2) = reply_eps l1 ++ reply_eps l2.
Proof. apply omap_app. Qed.

Lemma probe_no_reply l : Forall probe l → reply_eps l = [].
Proof. induction 1 as [|c l (p & _ & ->) _ IH]; [done|]. exact IH. Qed.

(** The calls after a successful connection send at most once, to [p]. *)
Lemma forward_run p q h : p ∈ providers cfg → eligible p q →
  ∃ r l, forward_to_provider cfg p q h = Ret (r, h ++ l) ∧ Forall (permitted q) l ∧
    sublist (reply_eps l) [pv_endpoint p] ∧ (∀ resp, r = Some resp → good_response q resp).
Proof.
  intros Hp Hel.
  destruct (pex_connect_emits probe (pv_endpoint p) ltac:(by exists p) h) as (ok & l1 & Hr1 & Hl1 & _).
  assert (Hf1 : Forall (permitted q) l1) by (apply (Forall_impl _ _ _ Hl1), probe_permitted).
  unfold forward_to_provider. rewrite (run_bind_Ret _ _ _ _ _ Hr1).
  destruct ok; cbn [negb].
  2: { exists None, l1. rewrite (probe_no_reply _ Hl1). split_and!; [done|done|apply sublist_nil_l|done]. }
  fold (request_bytes q). set (ep := pv_endpoint p).
  assert (Hperm : permitted q (PexReply ep (request_bytes q)) ∧ permitted q (PexWait ep (provider_timeout_ms cfg)) ∧
                  permitted q (PexRecv ep)) by (split_and!; cbn; eauto 6).
  destruct Hperm as (Hp1 & Hp2 & Hp3).
  rewrite (run_bind_Ret _ _ (h ++ l1) _ _ eq_refl).
  destruct (negb _).
  { exists None, (l1 ++ [PexReply ep (request_bytes q)]). rewrite reply_eps_app, (probe_no_reply _ Hl1).
    split_and!; [by rewrite (assoc_L (++))|apply Forall_app; auto|done|done]. }
  rewrite (run_bind_Ret _ _ _ _ _ eq_refl).
  destruct (negb _).
  { exists None, (l1 ++ [PexReply ep (request_bytes q); PexWait ep (provider_timeout_ms cfg)]).
    rewrite reply_eps_app, (probe_no_reply _ Hl1).
    split_and!; [by rewrite <-!(assoc_L (++))|apply Forall_app; auto|done|done]. }
  destruct (pex_recv_emits (λ c, c = PexRecv ep) ep eq_refl
    (((h ++ l1) ++ [PexReply ep (request_bytes q)]) ++ [PexWait ep (provider_timeout_ms cfg)]))
    as ([received buf] & l2 & Hr2 & Hl2 & Hrcv).
  rewrite (run_bind_Ret _ _ _ _ _ Hr2). cbn beta iota.
  assert (Hl2' : Forall (permitted q) l2 ∧ reply_eps l2 = []).
  { clear Hr2. induction Hl2 as [|c l2 -> _ [IH1 IH2]]; [done|]. split; [by constructor|exact IH2]. }
  destruct Hl2' as [Hf2 Hn2].
  assert (Hall : ∀ r : option response, (∀ resp, r = Some resp → good_response q resp) →
    ∃ r' l, Ret (r, (((h ++ l1) ++ [PexReply ep (request_bytes q)]) ++
                     [PexWait ep (provider_timeout_ms cfg)]) ++ l2) = Ret (r', h ++ l) ∧
      Forall (permitted q) l ∧ sublist (reply_eps l) [ep] ∧ (∀ resp, r' = Some resp → good_response q resp)).
  { intros r Hr. exists r, (l1 ++ [PexReply ep (request_bytes q); PexWait ep (provider_timeout_ms cfg)] ++ l2).
    rewrite !reply_eps_app, (probe_no_reply _ Hl1), Hn2.
    split_and!; [by rewrite <-!(assoc_L (++))|rewrite !Forall_app; auto|done|done]. }
  destruct (_ <? _); [by apply (Hall None)|]. destruct (reply_ok _ _ _) eqn:Hok; cbn [negb]; [|by apply (Hall None)].
  destruct (reply_ok_response _ _ _ _ Hrcv Hok) as (Hresp & Hid & _).
  apply (Hall (Some _)). intros resp [= <-]. by apply brand_response_good.
Qed.

(** ** Routing *)

(** Providers not yet attempted. *)
Definition pending (att : list bool) : nat :=
  length (List.filter negb (take (length (providers cfg)) att)).

Lemma filter_insert_true (bs : list bool) i :
  bs !! i = Some false → S (length (List.filter negb (<[i := true]> bs))) = length (List.filter negb bs).
Proof.
  revert i. induction bs as [|b bs IH]; intros [|i] Hi; cbn in Hi; simplify_eq; [done|].
  change (<[S i := true]> (b :: bs)) with (b :: <[i := true]> bs).
  specialize (IH _ Hi). destruct b; cbn [List.filter negb length]; lia.
Qed.

Lemma pending_insert att i : (i < length (providers cfg))%nat → att !! i = Some false →
  S (pending (<[i := true]> att)) = pending att.
Proof.
  intros Hi Ha. unfold pending. rewrite take_insert_lt by done. apply filter_insert_true.
  by rewrite lookup_take_lt.
Qed.

Lemma pending_bound att : (pending att ≤ length (providers cfg))%nat.
Proof.
  unfold pending. etrans; [apply filter_length_le|]. rewrite length_take. lia.
Qed.

Definition endpoint_at (i : nat) : bytes := from_option pv_endpoint [] (providers cfg !! i).

(** What routing within a class did: the providers tried, each once. *)
Record class_routed (q : request) (cls : provider_class) (att att' : list bool)
    (idx : list nat) (l : list pex_call) (resp : option response) : Prop := {
  cr_permitted : Forall (permitted q) l;
  cr_good : ∀ r, resp = Some r → good_response q r;
  cr_nodup : NoDup idx;
  cr_tried : ∀ i, i ∈ idx → att !! i = Some false ∧ att' !! i = Some true ∧
    ∃ p, providers cfg !! i = Some p ∧ pv_class p = cls ∧ eligible p q;
  cr_kept : ∀ i, i ∉ idx → att' !! i = att !! i;
  cr_replies : sublist (reply_eps l) (endpoint_at <$> idx);
}.

Lemma class_routed_nil q cls att l resp :
  Forall probe l → (∀ r, resp = Some r → good_response q r) →
  class_routed q cls att att [] l resp.
Proof.
  intros Hl Hg. split; [|done|constructor|by intros ? ?%not_elem_of_nil|done|].
  - apply (Forall_impl _ _ _ Hl), probe_permitted.
  - rewrite (probe_no_reply _ Hl). constructor.
Qed.

(** One attempt on provider [i], then what follows it. *)
Lemma class_routed_cons q cls att att' i p idx l1 l2 l3 resp :
  att !! i = Some false → providers cfg !! i = Some p → eligible p q → pv_class p = cls →
  Forall probe l1 → Forall (permitted q) l2 → sublist (reply_eps l2) [pv_endpoint p] →
  class_routed q cls (<[i := true]> att) att' idx l3 resp →
  class_routed q cls att att' (i :: idx) (l1 ++ l2 ++ l3) resp.
Proof.
  intros Ha Hp Hel Hcls Hl1 Hl2 Hs [Hperm Hg Hnd Ht Hk Hr].
  pose proof (lookup_lt_Some _ _ _ Ha) as Hlt.
  assert (Hi : i ∉ idx).
  { intros Hin. destruct (Ht i Hin) as [Hf _]. by rewrite list_lookup_insert_eq in Hf. }
  split.
  - rewrite !Forall_app. split_and!; [|done|done]. apply (Forall_impl _ _ _ Hl1), probe_permitted.
  - done.
  - by constructor.
  - intros j [->|Hj]%elem_of_cons.
    + split_and!; [done| |eauto]. rewrite Hk by done. by rewrite list_lookup_insert_eq.
    + destruct (Ht j Hj) as (Hf & Hrest). split; [|done].
      destruct (decide (i = j)) as [->|]; [done|]. by rewrite list_lookup_insert_ne in Hf.
  - intros j [Hne Hj]%not_elem_of_cons. rewrite Hk by done. by rewrite list_lookup_insert_ne by congruence.
  - rewrite !reply_eps_app, (probe_no_reply _ Hl1). cbn [app fmap list_fmap].
    assert (He : endpoint_at i = pv_endpoint p) by (unfold endpoint_at; by rewrite Hp). rewrite He.
    by apply (sublist_app _ [_]).
Qed.

Lemma route_class_run fuel q cls : ∀ att last h,
  length att = MAX_PROVIDERS → (length (providers cfg) ≤ MAX_PROVIDERS)%nat → (pending att < fuel)%nat →
  ∃ resp att' last' idx l,
    route_class cfg fuel q cls att last h = Ret ((resp, att', last'), h ++ l) ∧
    class_routed q cls att att' idx l resp ∧ length att' = MAX_PROVIDERS ∧
    (last' = None ↔ last = None ∧ idx = []) ∧ (is_Some resp → idx ≠ []).
Proof.
  induction fuel as [|fuel IH]; intros att last h Hatt Hn Hf; [lia|]. cbn [route_class].
  destruct (select_provider_emits q cls att h) as (sel & l1 & Hr1 & Hl1 & Hsel).
  rewrite (run_bind_Ret _ _ _ _ _ Hr1). destruct sel as [[i p]|].
  2: { exists None, att, last, [], l1. split; [done|]. split; [by apply class_routed_nil|].
       split; [done|]. split; [naive_solver|by intros []]. }
  destruct (Hsel i p eq_refl) as (Hp & Hel & Hcls & Ha).
  assert (Hai : att !! i = Some false).
  { pose proof (lookup_lt_Some _ _ _ Hp). destruct (lookup_lt_is_Some_2 att i) as [[] Hb]; [lia| |done].
    by rewrite Hb in Ha. }
  destruct (forward_run p q (h ++ l1) ltac:(by eapply list_elem_of_lookup_2) Hel)
    as (r & l2 & Hr2 & Hl2 & Hs & Hg).
  rewrite (run_bind_Ret _ _ _ _ _ Hr2). pose proof (pending_insert att i (lookup_lt_Some _ _ _ Hp) Hai) as Hpd.
  destruct r as [resp|].
  - exists (Some resp), (<[i := true]> att), (Some (pv_name p)), [i], (l1 ++ l2 ++ []). split_and!.
    + by rewrite app_nil_r, (assoc_L (++)).
    + apply (class_routed_cons q cls att _ i p); try done. by apply class_routed_nil.
    + by rewrite length_insert.
    + naive_solver.
    + done.
  - destruct (IH (<[i := true]> att) (Some (pv_name p)) ((h ++ l1) ++ l2))
      as (resp & att' & last' & idx & l3 & Hr3 & Hcr & Hlen & Hlast & Hpe); [by rewrite length_insert|done|lia|].
    exists resp, att', last', (i :: idx), (l1 ++ l2 ++ l3). split_and!.
    + by rewrite Hr3, !(assoc_L (++)).
    + by apply (class_routed_cons q cls att _ i p).
    + done.
    + naive_solver.
    + done.
Qed.

(** The providers an exchange of [q] tried, in order of preference. *)
Definition class_at (i : nat) : option provider_class := pv_class <$> providers cfg !! i.

Definition prefer_local (q : request) : bool :=
  negb (local_first cfg =? 0) || has_flag (req_flags q) FLAG_PREFER_LOCAL.
Definition first_class (q : request) := if prefer_local q then PROVIDER_LOCAL else PROVIDER_CLOUD.
Definition second_class (q : request) := if prefer_local q then PROVIDER_CLOUD else PROVIDER_LOCAL.

Record route_trace (q : request) (idx1 idx2 : list nat) (l : list pex_call) : Prop := {
  rt_permitted : Forall (permitted q) l;
  rt_nodup : NoDup (idx1 ++ idx2);
  rt_first : Forall (λ i, class_at i = Some (first_class q)) idx1;
  rt_second : Forall (λ i, class_at i = Some (second_class q)) idx2;
  rt_fallback : first_class q = PROVIDER_LOCAL → cloud_fallback cfg = 0 → idx2 = [];
  rt_replies : sublist (reply_eps l) (endpoint_at <$> (idx1 ++ idx2));
}.

(** The result of routing agrees with what was tried. *)
Definition route_result (q : request) (idx : list nat) (r : routed) : Prop :=
  match r with
  | Routed resp => good_response q resp ∧ idx ≠ []
  | NoProvider => idx = []
  | AllFailed _ => idx ≠ []
  end.

Lemma class_routed_classes q cls att att' idx l resp :
  class_routed q cls att att' idx l resp → Forall (λ i, class_at i = Some cls) idx.
Proof.
  intros Hc. apply Forall_forall. intros i Hi.
  destruct (cr_tried _ _ _ _ _ _ _ Hc i Hi) as (_ & _ & p & Hp & Hcls & _).
  unfold class_at. rewrite Hp. cbn. by rewrite Hcls.
Qed.

Lemma class_routed_trace q att att' idx l resp :
  class_routed q (first_class q) att att' idx l resp → route_trace q idx [] l.
Proof.
  intros Hc. pose proof (class_routed_classes _ _ _ _ _ _ _ Hc). destruct Hc.
  split; rewrite ?app_nil_r; done.
Qed.

Lemma class_routed_trace2 q att att' att2 idx1 idx2 l1 l2 r1 r2 :
  class_routed q (first_class q) att att' idx1 l1 r1 →
  class_routed q (second_class q) att' att2 idx2 l2 r2 →
  bool_decide (first_class q = PROVIDER_LOCAL) && (cloud_fallback cfg =? 0) = false →
  route_trace q idx1 idx2 (l1 ++ l2).
Proof.
  intros Hc1 Hc2 Hfb. pose proof (class_routed_classes _ _ _ _ _ _ _ Hc1).
  pose proof (class_routed_classes _ _ _ _ _ _ _ Hc2).
  destruct Hc1 as [? _ Hn1 Ht1 _ Hr1], Hc2 as [? _ Hn2 Ht2 _ Hr2]. split; try done.
  - by apply Forall_app.
  - apply NoDup_app. split_and!; [done| |done]. intros i Hi Hi2.
    destruct (Ht1 i Hi) as (_ & Ha & _), (Ht2 i Hi2) as (Hb & _). congruence.
  - intros Hl Hz. rewrite bool_decide_eq_true_2, Hz in Hfb by done. done.
  - rewrite reply_eps_app, fmap_app. by apply sublist_app.
Qed.

Lemma route_to_provider_run q h : (length (providers cfg) ≤ MAX_PROVIDERS)%nat →
  ∃ r idx1 idx2 l, route_to_provider cfg q h = Ret (r, h ++ l) ∧
    route_trace q idx1 idx2 l ∧ route_result q (idx1 ++ idx2) r.
Proof.
  intros Hn. unfold route_to_provider. fold (prefer_local q). fold (first_class q). fold (second_class q).
  destruct (route_class_run (route_fuel cfg) q (first_class q) (replicate MAX_PROVIDERS false) None h)
    as (resp & att' & last & idx1 & l1 & Hr1 & Hc1 & Hlen & Hlast & Hans);
    [by rewrite length_replicate|done|pose proof (pending_bound (replicate MAX_PROVIDERS false)); unfold route_fuel; lia|].
  rewrite (run_bind_Ret _ _ _ _ _ Hr1). cbn beta iota.
  pose proof (class_routed_trace _ _ _ _ _ _ Hc1) as Htr1.
  destruct resp as [resp|].
  { exists (Routed resp), idx1, [], l1. rewrite app_nil_r.
    split; [done|]. split; [done|]. split; [by apply (cr_good _ _ _ _ _ _ _ Hc1)|by apply Hans]. }
  destruct (_ && _) eqn:Hfb.
  { eexists _, idx1, [], l1. rewrite app_nil_r. split; [done|]. split; [done|].
    destruct last; cbn; naive_solver. }
  destruct (route_class_run (route_fuel cfg) q (second_class q) att' last (h ++ l1))
    as (resp2 & att2 & last2 & idx2 & l2 & Hr2 & Hc2 & Hlen2 & Hlast2 & Hans2);
    [done|done|pose proof (pending_bound att'); unfold route_fuel; lia|].
  rewrite (run_bind_Ret _ _ _ _ _ Hr2). cbn beta iota.
  eexists _, idx1, idx2, (l1 ++ l2). split; [by rewrite (assoc_L (++))|].
  split; [by eapply class_routed_trace2|].
  destruct resp2 as [resp2|]; cbn.
  - split; [by apply (cr_good _ _ _ _ _ _ _ Hc2)|]. intros [_ ?]%app_nil. by apply Hans2.
  - destruct last2, idx1, idx2; cbn in *; naive_solver.
Qed.

(** ** Handling a request *)

Lemma set_response_good q status prov message :
  0 ≤ req_request_id q < 2 ^ 32 → 0 ≤ status < 2 ^ 16 →
  good_response q (set_response (req_request_id q) status prov message).
Proof.
  intros Hid Hs. split_and!; [|done|done]. unfold set_response. split; cbn [resp_magic resp_version
    resp_status resp_request_id resp_granted_capabilities resp_payload_length resp_provider resp_payload];
    try done.
  - rewrite length_take. unfold RAZION_AI_MAX_PAYLOAD. lia.
  - apply char_array_length. unfold RAZION_AI_MAX_PROVIDER_NAME. lia.
Qed.

Lemma count_available_emits ps : (∀ p, p ∈ ps → p ∈ providers cfg) →
  emits probe (λ _, True) (count_available ps).
Proof.
  induction ps as [|p ps IH]; intros Hps; cbn [count_available]; [by apply emits_ret|].
  eapply emits_bind; [apply (pex_connect_emits probe); exists p; split; [apply Hps; by left|done]|].
  intros ok _. eapply emits_bind; [apply IH; intros p' Hp'; apply Hps; by right|].
  intros n _. by apply emits_ret.
Qed.

Lemma provider_list_loop_emits ps : ∀ used message, (∀ p, p ∈ ps → p ∈ providers cfg) →
  emits probe (λ _, True) (provider_list_loop ps used message).
Proof.
  induction ps as [|p ps IH]; intros used message Hps; cbn [provider_list_loop]; [by apply emits_ret|].
  eapply emits_bind; [apply (pex_connect_emits probe); exists p; split; [apply Hps; by left|done]|].
  intros ok _. destruct (_ <=? _)%nat; [by apply emits_ret|]. apply IH. intros p' Hp'. apply Hps. by right.
Qed.

(** A request that carries [EXECUTE_ACTION] makes no call at all; any other
    makes only calls the policy permits; the answer is always well-formed. *)
Lemma handle_request_run q h :
  (length (providers cfg) ≤ MAX_PROVIDERS)%nat → 0 ≤ req_request_id q < 2 ^ 32 →
  ∃ r l, handle_request cfg q h = Ret (r, h ++ l) ∧ Forall (permitted q) l ∧ good_response q r ∧
    (has_flag (req_flags q) FLAG_EXECUTE_ACTION = true →
     l = [] ∧ (resp_status r = STATUS_CONFIRMATION_REQUIRED ∨ resp_status r = STATUS_PERMISSION_DENIED)).
Proof.
  intros Hn Hid. unfold handle_request.
  assert (Hset : ∀ st prov msg, 0 ≤ st < 9 → good_response q (set_response (req_request_id q) st prov msg)).
  { intros st prov msg Hst. apply set_response_good; [done|lia]. }
  assert (Hprobe : ∀ m, emits probe (good_response q) m →
    ∃ r l, m h = Ret (r, h ++ l) ∧ Forall (permitted q) l ∧ good_response q r).
  { intros m Hm. destruct (Hm h) as (r & l & Hr & Hl & Hg). exists r, l. split_and!; [done| |done..].
    apply (Forall_impl _ _ _ Hl), probe_permitted. }
  destruct (has_flag (req_flags q) FLAG_EXECUTE_ACTION).
  { eexists _, []. rewrite app_nil_r. split; [done|]. split; [constructor|].
    destruct (negb _); (split; [apply Hset; unfold STATUS_CONFIRMATION_REQUIRED, STATUS_PERMISSION_DENIED; lia|]);
      intros _; (split; [done|]); [by left|by right]. }
  enough (Hgoal : ∀ m, (∃ r l, m h = Ret (r, h ++ l) ∧ Forall (permitted q) l ∧ good_response q r) →
    ∃ r l, m h = Ret (r, h ++ l) ∧ Forall (permitted q) l ∧ good_response q r ∧
      (false = true → l = [] ∧ (resp_status r = STATUS_CONFIRMATION_REQUIRED ∨
                                resp_status r = STATUS_PERMISSION_DENIED))).
  { apply Hgoal. clear Hgoal. destruct (_ =? OP_HEALTH); [|destruct (_ =? OP_LIST_PROVIDERS);
      [|destruct (negb _)]].
    - apply Hprobe. eapply emits_bind; [by apply count_available_emits|]. intros n _. apply emits_ret, Hset. done.
    - apply Hprobe. eapply emits_bind; [by apply provider_list_loop_emits|]. intros [u msg] _. apply emits_ret, Hset. done.
    - apply Hprobe, emits_ret, Hset. done.
    - destruct (route_to_provider_run q h Hn) as (r & idx1 & idx2 & l & Hr & Ht & Hres).
      rewrite (run_bind_Ret _ _ _ _ _ Hr). eexists _, l. split; [done|]. split; [apply Ht|].
      destruct r; [apply Hres|apply Hset; done|apply Hset; done]. }
  intros m (r & l & ? & ? & ?). exists r, l. by split_and!.
Qed.

(** ** Selection *)

Section stable.
Context (up : bytes → bool) (Hup : ∀ h ep, env_connects h ep = up ep).

Definition candidate (q : request) (cls : provider_class) (att : list bool) (i : nat) (p : provider) : Prop :=
  providers cfg !! i = Some p ∧ default false (att !! i) = false ∧ eligible p q ∧ pv_class p = cls ∧
  (length (pv_endpoint p) ≤ 80)%nat ∧ up (pv_endpoint p) = true.

Lemma pex_connect_stable ep h :
  ∃ ok l, pex_connect ep h = Ret (ok, h ++ l) ∧ (ok = true ↔ (length ep ≤ 80)%nat ∧ up ep = true).
Proof using Hup.
  unfold pex_connect. destruct (Nat.ltb_spec 80 (length ep)).
  - exists false, []. rewrite app_nil_r. split; [done|]. split; [done|lia].
  - exists (up ep), [PexConnect ep]. split; [mrun; by rewrite Hup|]. split; [done|tauto].
Qed.

Lemma provider_matches_stable p q cls h :
  ∃ ok l, provider_matches cfg p q cls h = Ret (ok, h ++ l) ∧
    (ok = true ↔ eligible p q ∧ pv_class p = cls ∧ (length (pv_endpoint p) ≤ 80)%nat ∧
                 up (pv_endpoint p) = true).
Proof using Hup.
  unfold provider_matches, eligible.
  assert (Hno : ∀ P : Prop, ¬ P → ∃ ok l, (mret false : M history bool) h = Ret (ok, h ++ l) ∧ (ok = true ↔ P)).
  { intros P HP. exists false, []. rewrite app_nil_r. by split. }
  destruct (pv_enabled p) eqn:He; cbn [negb orb]; [|apply Hno; by intros ((? & _) & _)].
  case_bool_decide as Hc; cbn [negb]; [|apply Hno; tauto].
  destruct (Z.eqb_spec (Z.land (pv_capabilities p) (req_requested_capabilities q))
    (req_requested_capabilities q)) as [Hcap|]; cbn [negb]; [|apply Hno; tauto].
  destruct (_ && _) eqn:Hpol.
  - apply Hno. rewrite andb_true_iff, bool_decide_eq_true, !orb_true_iff, negb_true_iff, Z.eqb_eq in Hpol.
    intros ((_ & _ & Hcl) & _). destruct Hpol as [Hcc Hd]. rewrite Hc in Hcl.
    destruct (Hcl Hcc) as (? & ? & ?). destruct Hd as [[?|?]|?]; congruence.
  - destruct (pex_connect_stable (pv_endpoint p) h) as (ok & l & Hr & Hok). exists ok, l.
    split; [done|]. rewrite Hok. split; [|tauto]. intros Hu. split_and!; try done; try tauto.
    all: intros Hcloud; rewrite <-Hc, bool_decide_eq_true_2 in Hpol by done; cbn [andb] in Hpol;
      rewrite !orb_false_iff, negb_false_iff, Z.eqb_neq in Hpol; tauto.
Qed.

(** [sel] is the best candidate below index [n]: lowest priority number,
    earliest in the configuration among equals. *)
Definition best (q : request) (cls : provider_class) (att : list bool) (n : nat)
    (sel : option (nat * provider)) : Prop :=
  match sel with
  | None => ∀ i p, (i < n)%nat → ¬ candidate q cls att i p
  | Some (i, p) => (i < n)%nat ∧ candidate q cls att i p ∧
      ∀ j p', (j < n)%nat → candidate q cls att j p' →
        pv_priority p < pv_priority p' ∨ (pv_priority p = pv_priority p' ∧ (i ≤ j)%nat)
  end.

Lemma best_skip q cls att n sel :
  best q cls att n sel → (∀ p, ¬ candidate q cls att n p) → best q cls att (S n) sel.
Proof using.
  intros Hb Hn. destruct sel as [[i p]|]; cbn in *.
  - destruct Hb as (? & ? & Hb). split_and!; [lia|done|]. intros j p' Hj Hc.
    destruct (decide (j = n)) as [->|]; [by apply Hn in Hc|]. apply Hb; [lia|done].
  - intros i p Hi Hc. destruct (decide (i = n)) as [->|]; [by apply Hn in Hc|]. apply (Hb i p); [lia|done].
Qed.

Lemma best_take q cls att n p sel :
  best q cls att n sel → candidate q cls att n p →
  best q cls att (S n) (match sel with
                        | None => Some (n, p)
                        | Some (j, s) => if pv_priority p <? pv_priority s then Some (n, p) else Some (j, s)
                        end).
Proof using.
  intros Hb Hc.
  assert (Huniq : ∀ p', candidate q cls att n p' → p' = p) by (intros p' (Hp' & _); destruct Hc as (Hp & _); congruence).
  destruct sel as [[j s]|]; cbn in Hb.
  - destruct Hb as (Hj & Hcj & Hb). destruct (Z.ltb_spec (pv_priority p) (pv_priority s)); cbn.
    + split_and!; [lia|done|]. intros k p' Hk Hc'. destruct (decide (k = n)) as [->|].
      * apply Huniq in Hc' as ->. right. lia.
      * left. specialize (Hb k p' ltac:(lia) Hc'). lia.
    + split_and!; [lia|done|]. intros k p' Hk Hc'. destruct (decide (k = n)) as [->|].
      * apply Huniq in Hc' as ->. lia.
      * apply Hb; [lia|done].
  - cbn. split_and!; [lia|done|]. intros k p' Hk Hc'. destruct (decide (k = n)) as [->|].
    + apply Huniq in Hc' as ->. right. lia.
    + exfalso. by apply (Hb k p' ltac:(lia)).
Qed.

Lemma select_loop_best q cls att : ∀ ps i sel h,
  (∀ j, providers cfg !! (i + j)%nat = ps !! j) → best q cls att i sel →
  ∃ sel' l, select_loop cfg q cls att ps i sel h = Ret (sel', h ++ l) ∧
    best q cls att (i + length ps) sel'.
Proof using Hup.
  induction ps as [|c ps IH]; intros i sel h Hps Hb; cbn [select_loop length].
  { exists sel, []. rewrite app_nil_r, Nat.add_0_r. done. }
  assert (Hc : providers cfg !! i = Some c) by (by rewrite <-(Nat.add_0_r i), Hps).
  assert (Hnext : ∀ j, providers cfg !! (S i + j)%nat = ps !! j).
  { intros j. replace (S i + j)%nat with (i + S j)%nat by lia. apply Hps. }
  replace (i + S (length ps))%nat with (S i + length ps)%nat by lia.
  destruct (default false (att !! i)) eqn:Ha.
  { apply IH; [done|]. apply best_skip; [done|]. intros p (_ & Hf & _). congruence. }
  destruct (provider_matches_stable c q cls h) as (ok & l & Hr & Hok).
  rewrite (run_bind_Ret _ _ _ _ _ Hr).
  assert (Hcand : ok = true ↔ candidate q cls att i c) by (rewrite Hok; unfold candidate; tauto).
  assert (Hstep : ∀ s, best q cls att (S i) s →
    ∃ sel' l', select_loop cfg q cls att ps (S i) s (h ++ l) = Ret (sel', h ++ l') ∧
      best q cls att (S i + length ps) sel').
  { intros s Hs. destruct (IH (S i) s (h ++ l) Hnext Hs) as (sel' & l' & ? & ?). exists sel', (l ++ l').
    by rewrite (assoc_L (++)). }
  destruct ok; cbn [negb].
  - apply Hstep, best_take; [done|]. by apply Hcand.
  - apply Hstep, best_skip; [done|]. intros p Hp. assert (p = c) as ->.
    { destruct Hp as (Hp & _). congruence. }
    apply Hcand in Hp. done.
Qed.
End stable.

End policy.

(** ** The service loop *)

(** What [pex_listen] leaves in the packet buffer. *)
Definition packet_ok (pkt : packet) : Prop :=
  length (pkt_data pkt) = S MAX_PACKET_SIZE ∧ Forall is_byte (pkt_data pkt).

Lemma sanitize_length s : length (sanitize s) = length s.
Proof. induction s as [|c s IH]; cbn; [done|]. destruct (c =? 0); cbn; [done|]. by rewrite IH. Qed.

Lemma app_id_char_nonzero c : app_id_char c = true → c ≠ 0.
Proof. intros Hc ->. done. Qed.

Lemma sanitize_safe s : Forall (λ c, app_id_char c = true) (until_nul (sanitize s)).
Proof.
  induction s as [|c s IH]; cbn; [constructor|]. destruct (Z.eqb_spec c 0) as [->|Hc]; cbn; [constructor|].
  destruct (app_id_char c) eqn:E.
  - rewrite (proj2 (Z.eqb_neq c 0)) by done. by constructor.
  - cbn. by constructor.
Qed.

Lemma sanitize_bound s i : s !! i = Some 0 → (length (until_nul (sanitize s)) ≤ i)%nat.
Proof.
  revert i. induction s as [|c s IH]; intros [|i] Hi; cbn in Hi; simplify_eq; [done|]. cbn.
  destruct (Z.eqb_spec c 0) as [->|Hc]; cbn; [lia|].
  destruct ((if app_id_char c then c else 95) =? 0); cbn; [lia|]. specialize (IH _ Hi). lia.
Qed.

(** The conditions under which a packet is a request. *)
Definition well_formed_packet (pkt : packet) : Prop :=
  let q := decode_request (pkt_data pkt) in
  Z.of_nat req_header ≤ pkt_size pkt ∧ req_magic q = RAZION_AI_PROTOCOL_MAGIC ∧
  req_version q = RAZION_AI_PROTOCOL_VERSION ∧ req_payload_length q < Z.of_nat RAZION_AI_MAX_PAYLOAD ∧
  Z.of_nat req_header + req_payload_length q ≤ pkt_size pkt.

Lemma validate_request_spec pkt :
  match validate_request pkt with
  | None => ¬ well_formed_packet pkt
  | Some q => well_formed_packet pkt ∧
      req_request_id q = field 8 4 (pkt_data pkt) ∧
      req_flags q = req_flags (decode_request (pkt_data pkt)) ∧
      req_payload_length q = req_payload_length (decode_request (pkt_data pkt)) ∧
      req_app_id q = sanitize (<[(RAZION_AI_MAX_APP_ID - 1)%nat := 0]> (req_app_id (decode_request (pkt_data pkt)))) ∧
      req_payload q = <[Z.to_nat (req_payload_length q) := 0]> (req_payload (decode_request (pkt_data pkt)))
  end.
Proof.
  unfold validate_request, well_formed_packet. destruct (Z.ltb_spec (pkt_size pkt) (Z.of_nat req_header)); [lia|].
  destruct (_ || _) eqn:E.
  - rewrite !orb_true_iff, !negb_true_iff, !Z.eqb_neq, Z.leb_le, Z.ltb_lt in E. lia.
  - rewrite !orb_false_iff, !negb_false_iff, !Z.eqb_eq, Z.leb_gt, Z.ltb_ge in E.
    destruct E as [[[? ?] ?] ?]. split; [split_and!; lia|]. done.
Qed.

Section serve.
Context `{PexEnv} `{!PexBytes} (cfg : engine_config).
Context (Hcfg : (length (providers cfg) ≤ MAX_PROVIDERS)%nat).

(** The calls of one iteration before the response is sent. *)
Definition step_call (pkt : packet) (c : pex_call) : Prop :=
  match c with
  | PexSend _ _ => False
  | Audit _ => is_Some (validate_request pkt)
  | _ => ∃ q, validate_request pkt = Some q ∧ permitted cfg q c ∧
              (∀ ep data, c = PexReply ep data → has_flag (req_flags q) FLAG_EXECUTE_ACTION = false)
  end.

(** The answer to a packet. *)
Definition step_answer (pkt : packet) (r : response) : Prop :=
  match validate_request pkt with
  | None => response_ok r ∧ resp_status r = STATUS_PROTOCOL_ERROR ∧ resp_granted_capabilities r = 0
  | Some q => good_response q r
  end.

Lemma audit_request_emits source q r pkt : validate_request pkt = Some q →
  emits (step_call pkt) (λ _, True) (audit_request cfg source q r).
Proof using.
  intros Hv. unfold audit_request. destruct (_ =? 0); [by apply emits_ret|].
  eapply emits_bind; [by apply (emits_gets _ (λ _, True))|]. intros [] _; cbn [negb]; [|by apply emits_ret].
  eapply emits_bind; [by apply (emits_gets _ (λ _, True))|]. intros now _.
  apply emits_log. cbn. eauto.
Qed.

Lemma engine_step_run pkt h : packet_ok pkt →
  ∃ r l, engine_step cfg pkt h = Ret (tt, h ++ l ++ [PexSend (pkt_source pkt) (encode_response r)]) ∧
    Forall (step_call pkt) l ∧ step_answer pkt r.
Proof using All.
  intros [Hlen Hb]. unfold engine_step, step_answer. pose proof (validate_request_spec pkt) as Hv.
  assert (Hid : 0 ≤ field 8 4 (pkt_data pkt) < 2 ^ 32).
  { apply (field_range 8 4 _ Hb). rewrite Hlen. unfold MAX_PACKET_SIZE. lia. }
  destruct (validate_request pkt) as [q|] eqn:E.
  - destruct Hv as (_ & Hqid & _).
    destruct (handle_request_run cfg q h Hcfg) as (r & l & Hr & Hl & Hg & Hx); [by rewrite Hqid|].
    destruct (audit_request_emits (pkt_source pkt) q r pkt E (h ++ l)) as ([] & la & Hra & Hla & _).
    exists r, (l ++ la). split_and!; [| |done].
    + rewrite bind_assoc, (run_bind_Ret _ _ _ _ _ Hr), bind_assoc, (run_bind_Ret _ _ _ _ _ Hra), run_mret_bind.
      unfold pex_send, log. mrun. by rewrite <-!(assoc_L (++)).
    + apply Forall_app. split; [|done]. apply Forall_forall. intros c Hc.
      pose proof (proj1 (Forall_forall _ _) Hl c Hc) as Hp.
      assert (Hcl : ∃ q0, validate_request pkt = Some q0 ∧ permitted cfg q0 c ∧
        (∀ ep data, c = PexReply ep data → has_flag (req_flags q0) FLAG_EXECUTE_ACTION = false)).
      { exists q. split_and!; [done|done|]. intros ep data ->.
        destruct (has_flag (req_flags q) FLAG_EXECUTE_ACTION); [|done].
        destruct (Hx eq_refl) as [-> _]. by apply not_elem_of_nil in Hc. }
      destruct c; try exact Hcl; done.
  - eexists _, []. rewrite run_mret_bind. split_and!; [done|constructor|..].
    + apply (set_response_good (Request 0 0 0 _ 0 0 0 [] [])); [cbn [req_request_id]|done].
      destruct (_ <=? _); [done|lia].
    + done.
    + done.
Qed.

(** A request that was forwarded, and why it could be. *)
Definition authorised (pkts : list packet) (ep data : bytes) : Prop :=
  ∃ pkt q p, pkt ∈ pkts ∧ validate_request pkt = Some q ∧ data = request_bytes q ∧
    p ∈ providers cfg ∧ pv_endpoint p = ep ∧ eligible cfg p q ∧
    has_flag (req_flags q) FLAG_EXECUTE_ACTION = false.

Lemma run_engine_run pkts : ∀ h, Forall packet_ok pkts →
  ∃ l, run_engine cfg pkts h = Ret (tt, h ++ l) ∧
    ∀ ep data, PexReply ep data ∈ l → authorised pkts ep data.
Proof using All.
  induction pkts as [|pkt pkts IH]; intros h Hok; cbn [run_engine].
  { exists []. rewrite app_nil_r. split; [done|]. by intros ep data ?%not_elem_of_nil. }
  apply Forall_cons in Hok as [Hp Hok].
  destruct (engine_step_run pkt h Hp) as (r & l & Hr & Hl & _). rewrite (run_bind_Ret _ _ _ _ _ Hr).
  destruct (IH (h ++ l ++ [PexSend (pkt_source pkt) (encode_response r)]) Hok) as (l2 & Hr2 & Hl2).
  exists ((l ++ [PexSend (pkt_source pkt) (encode_response r)]) ++ l2). split; [by rewrite Hr2, <-!(assoc_L (++))|].
  intros ep data [[Hin|Hin]%elem_of_app|Hin]%elem_of_app.
  - pose proof (proj1 (Forall_forall _ _) Hl _ Hin) as (q & Hv & (Hd & p & Hpp & Hep & Hel) & Hx).
    exists pkt, q, p. split_and!; try done; [by left|by eapply Hx].
  - apply list_elem_of_singleton in Hin. done.
  - destruct (Hl2 _ _ Hin) as (pkt' & q & p & Hin' & Hrest). exists pkt', q, p. split; [by right|done].
Qed.

End serve.

(** ** Client and engine *)

(** The packet the engine receives when a client sends [q]. *)
Definition packet_of (source : Z) (q : request) : packet :=
  let data := request_bytes q in
  Packet source (Z.of_nat (length data)) (data ++ replicate (S MAX_PACKET_SIZE - length data) 0).

(** [q] with the application identifier the engine will log. *)
Definition sanitized (q : request) : request :=
  Request (req_magic q) (req_version q) (req_operation q) (req_request_id q) (req_flags q)
    (req_requested_capabilities q) (req_payload_length q)
    (sanitize (<[(RAZION_AI_MAX_APP_ID - 1)%nat := 0]> (req_app_id q))) (req_payload q).

Lemma request_bytes_length q : request_ok q →
  length (request_bytes q) = (req_header + Z.to_nat (req_payload_length q))%nat.
Proof.
  intros Hq. unfold request_bytes. rewrite encode_request_hdr, length_take, length_app.
  rewrite (req_hdr_length q (rq_app q Hq)). destruct (rq_payload q Hq) as (text & -> & Hl).
  rewrite length_app, length_replicate. lia.
Qed.

Lemma validate_packet_of source q : request_ok q →
  req_magic q = RAZION_AI_PROTOCOL_MAGIC → req_version q = RAZION_AI_PROTOCOL_VERSION →
  validate_request (packet_of source q) = Some (sanitized q).
Proof.
  intros Hq Hm Hv. unfold validate_request, packet_of. cbn [pkt_size pkt_data].
  rewrite (request_bytes_length q Hq). pose proof (rq_length q Hq) as Hl.
  rewrite (proj2 (Z.ltb_ge _ _)) by lia.
  unfold request_bytes. rewrite (decode_encode_request q (S MAX_PACKET_SIZE) Hq)
    by (unfold MAX_PACKET_SIZE, req_header, RAZION_AI_MAX_PAYLOAD; lia).
  rewrite Hm, Hv, !Z.eqb_refl, (proj2 (Z.leb_gt _ _)), (proj2 (Z.ltb_ge _ _)) by lia. cbn [negb orb].
  unfold sanitized. do 2 f_equal; [done|done|].
  destruct (rq_payload q Hq) as (text & Hp & Ht). rewrite Hp. apply list_insert_id.
  rewrite lookup_app_r by lia. rewrite lookup_replicate_2; [done|]. lia.
Qed.

(** ** The configuration *)

Definition provider_ok (c : confreader) (p : provider) : Prop :=
  ∃ section, section ∈ conf_sections c ∧
    pv_name p = take 31 (drop 9 section) ∧ pv_enabled p = true ∧
    (0 < length (pv_endpoint p) ≤ 79)%nat ∧
    (pv_class p = PROVIDER_LOCAL →
     confreader_get c section (bytes_of "class") = Some (bytes_of "local")).

Lemma load_provider_ok c cfg section :
  section ∈ conf_sections c →
  (length (providers cfg) ≤ MAX_PROVIDERS)%nat → Forall (provider_ok c) (providers cfg) →
  let cfg' := load_provider c cfg section in
  (length (providers cfg') ≤ MAX_PROVIDERS)%nat ∧ Forall (provider_ok c) (providers cfg') ∧
  set_providers cfg' [] = set_providers cfg [].
Proof.
  intros Hin Hn Hf. unfold load_provider. destruct (Nat.leb_spec MAX_PROVIDERS (length (providers cfg))); [done|].
  destruct (_ && _); [done|]. set (ep := take _ (confreader_getd _ _ (bytes_of "endpoint") _)).
  assert (Hep : (length ep ≤ 79)%nat) by (subst ep; rewrite length_take; unfold RAZION_AI_MAX_PROVIDER_ENDPOINT; lia).
  destruct ep as [|b ep]; [done|]. cbn zeta. split_and!.
  - cbn [set_providers providers]. rewrite length_app. cbn. lia.
  - cbn [set_providers providers]. apply Forall_app. split; [done|]. constructor; [|constructor].
    exists section. split_and!; try done; cbn [pv_endpoint pv_class length] in *; try lia.
    unfold confreader_getd, bytes_eqb. case_bool_decide as Hc; [|done]. intros _.
    destruct (confreader_get c section (bytes_of "class")); cbn in Hc; [by rewrite Hc|done].
  - done.
Qed.

Lemma load_providers_ok c sections : ∀ cfg,
  (∀ s, s ∈ sections → s ∈ conf_sections c) →
  (length (providers cfg) ≤ MAX_PROVIDERS)%nat → Forall (provider_ok c) (providers cfg) →
  let cfg' := fold_left (λ cfg section,
    if is_prefix (bytes_of "provider.") section then load_provider c cfg section else cfg) sections cfg in
  (length (providers cfg') ≤ MAX_PROVIDERS)%nat ∧ Forall (provider_ok c) (providers cfg') ∧
  set_providers cfg' [] = set_providers cfg [].
Proof.
  induction sections as [|s sections IH]; intros cfg Hs Hn Hf; cbn [fold_left]; [done|].
  destruct (is_prefix _ s).
  - destruct (load_provider_ok c cfg s) as (Hn' & Hf' & He); [apply Hs; by left|done|done|].
    destruct (IH (load_provider c cfg s)) as (? & ? & He'); [intros; apply Hs; by right|done|done|].
    by rewrite He', He.
  - apply IH; [intros; apply Hs; by right|done|done].
Qed.

Lemma clamp_timeout_range t : 100 ≤ clamp_timeout t ≤ 30000.
Proof. unfold clamp_timeout. destruct (Z.ltb_spec t 100), (Z.ltb_spec 30000 t); lia. Qed.

(** ** The properties *)

(** C1: no request leaves the engine for a cloud provider without consent.
    Whatever packets arrive and however providers and the network behave, the
    service loop never stops or faults, and every request it sends to an
    endpoint was received as a valid packet, is sent unchanged (up to the
    sanitised application name) to a configured, enabled provider that has all
    the capabilities it asks for, and, if that provider is a cloud provider,
    the system configuration allows the cloud, the request carries
    [ALLOW_CLOUD] and it is not [LOCAL_ONLY].  A request that carries
    [EXECUTE_ACTION] is never sent to any provider. *)
Theorem engine_cloud_consent `{PexEnv} `{!PexBytes} cfg pkts h :
  (length (providers cfg) ≤ MAX_PROVIDERS)%nat → Forall packet_ok pkts →
  ∃ l, run_engine cfg pkts h = Ret (tt, h ++ l) ∧
    ∀ ep data, PexReply ep data ∈ l → authorised cfg pkts ep data.
Proof. intros Hn Hp. by apply run_engine_run. Qed.

(** C14: every packet is answered exactly once, to its sender, after the other
    calls made for it, with a well-formed response that fits a PEX packet: the
    protocol's magic and version, the payload of its announced length, the
    identifier of the request, and no capability granted that the request did
    not ask for; a packet that is no request is answered with
    [PROTOCOL_ERROR] and makes no other call. *)
Theorem engine_answers `{PexEnv} `{!PexBytes} cfg pkt h :
  (length (providers cfg) ≤ MAX_PROVIDERS)%nat → packet_ok pkt →
  ∃ r l, engine_step cfg pkt h = Ret (tt, h ++ l ++ [PexSend (pkt_source pkt) (encode_response r)]) ∧
    Forall (step_call cfg pkt) l ∧ step_answer pkt r ∧
    (length (encode_response r) ≤ MAX_PACKET_SIZE)%nat.
Proof.
  intros Hn Hp. destruct (engine_step_run cfg Hn pkt h Hp) as (r & l & Hr & Hl & Ha).
  exists r, l. split_and!; [done|done|done|].
  assert (Hok : response_ok r).
  { unfold step_answer in Ha. destruct (validate_request pkt); apply Ha. }
  pose proof (encode_response_length r Hok). pose proof (rp_length r Hok).
  unfold RAZION_AI_MAX_PAYLOAD, resp_header, MAX_PACKET_SIZE in *. lia.
Qed.

(** C15: routing terminates within one attempt per provider: for every
    behaviour of the providers, a request is sent at most once to each
    provider, first to those of the preferred class (local if the system or
    the request prefers local) and then to the others, and never to the cloud
    after local when the fallback is disabled; a response is returned only if
    a provider was tried and gave a well-formed answer to this request, and
    otherwise the result tells whether any provider was compatible. *)
Theorem engine_routing_order `{PexEnv} `{!PexBytes} cfg q h :
  (length (providers cfg) ≤ MAX_PROVIDERS)%nat →
  ∃ r idx1 idx2 l, route_to_provider cfg q h = Ret (r, h ++ l) ∧
    route_trace cfg q idx1 idx2 l ∧ route_result q (idx1 ++ idx2) r.
Proof. apply route_to_provider_run. Qed.

(** While availability does not change, [select_provider] returns the
    reachable provider of the class with the lowest priority number, the
    earliest configured among equals, that was not attempted and that the
    policy allows for the request; it returns none only if there is none. *)
Theorem engine_selects_best `{PexEnv} cfg up q cls att h :
  (∀ h ep, env_connects h ep = up ep) →
  ∃ sel l, select_provider cfg q cls att h = Ret (sel, h ++ l) ∧
    best cfg up q cls att (length (providers cfg)) sel.
Proof.
  intros Hup. unfold select_provider.
  destruct (select_loop_best cfg up Hup q cls att (providers cfg) 0 None h) as (sel & l & Hr & Hb); [done|intros i p Hi; lia|].
  exists sel, l. by split.
Qed.


(** C26: the engine accepts a packet as a request exactly when its header is
    complete, magic and version are right, and the announced payload is within
    both the limit and the packet; the request it then handles has an
    application name made only of letters, digits, dots, underscores and
    dashes, at most 47 bytes long, so that a client cannot forge audit lines,
    and a payload terminated within its array. *)
Theorem validate_request_correct pkt :
  packet_ok pkt →
  match validate_request pkt with
  | None => ¬ well_formed_packet pkt
  | Some q => well_formed_packet pkt ∧
      Forall (λ c, app_id_char c = true) (until_nul (req_app_id q)) ∧
      (length (until_nul (req_app_id q)) ≤ 47)%nat ∧
      req_payload q !! Z.to_nat (req_payload_length q) = Some 0
  end.
Proof.
  intros [Hlen Hb]. pose proof (validate_request_spec pkt) as Hv.
  destruct (validate_request pkt) as [q|]; [|done].
  destruct Hv as (Hwf & _ & _ & Hpl & Happ & Hpay). split; [done|]. rewrite Happ. split_and!.
  - apply sanitize_safe.
  - apply sanitize_bound, list_lookup_insert_eq. cbn [decode_request req_app_id].
    unfold slice. rewrite length_take, length_drop, Hlen. unfold MAX_PACKET_SIZE, RAZION_AI_MAX_APP_ID. lia.
  - rewrite Hpay, list_lookup_insert_eq; [done|]. rewrite Hpl. destruct Hwf as (_ & _ & _ & Hwl & _).
    cbn [decode_request req_payload req_payload_length] in *.
    unfold slice. rewrite length_take, length_drop, Hlen. unfold MAX_PACKET_SIZE, RAZION_AI_MAX_PAYLOAD in *. lia.
Qed.

(** C27: loading the configuration keeps the engine within its bounds and
    closed by default: at most 24 providers, a provider timeout between 100
    and 30000 ms, every provider enabled with an endpoint name that fits; a
    provider counts as local only if its section says exactly so, and cloud
    use is allowed only if the configuration file sets it. *)
Theorem load_config_safe conf :
  let cfg := load_config conf default_config in
  (length (providers cfg) ≤ MAX_PROVIDERS)%nat ∧ 100 ≤ provider_timeout_ms cfg ≤ 30000 ∧
  (∀ p, p ∈ providers cfg → ∃ c, conf = Some c ∧ provider_ok c p) ∧
  (allow_cloud cfg ≠ 0 → ∃ c v, conf = Some c ∧
     confreader_get c (bytes_of "engine") (bytes_of "allow_cloud") = Some v ∧ libc_atoi v ≠ 0).
Proof.
  destruct conf as [c|]; cbn [load_config].
  2: { cbn. split_and!; [lia|lia|lia|by intros p ?%not_elem_of_nil|done]. }
  set (cfg0 := Config _ _ _ _ _ _ _).
  destruct (load_providers_ok c (conf_sections c) cfg0) as (Hn & Hf & He); [done|cbn; lia|constructor|].
  revert Hn Hf He. generalize (fold_left (λ cfg section,
    if is_prefix (bytes_of "provider.") section then load_provider c cfg section else cfg) (conf_sections c) cfg0).
  intros cfg Hn Hf He. injection He as Hlf Hac Hcf Hae Hal Hpt. cbn zeta. split_and!.
  - done.
  - rewrite Hpt. apply clamp_timeout_range.
  - rewrite Hpt. apply clamp_timeout_range.
  - intros p Hp. exists c. split; [done|]. by apply (proj1 (Forall_forall _ _) Hf).
  - rewrite Hac. unfold cfg0, confreader_intd. cbn [allow_cloud]. intros Hne.
    destruct (confreader_get c _ _) as [v|] eqn:E; [|done]. exists c, v. by split_and!.
Qed.

(** ** Witnesses: one local and one cloud provider, a client, an endpoint that
    always answers *)

Definition demo_cfg : engine_config :=
  Config 1 0 1 1 DEFAULT_AUDIT_LOG 5000
    [Provider (bytes_of "openai") (bytes_of "razion-ai-provider-openai") PROVIDER_CLOUD 207 40 true;
     Provider (bytes_of "ollama") (bytes_of "razion-ai-provider-ollama") PROVIDER_LOCAL 207 10 true].

Definition demo_ctx : context :=
  Context (char_array RAZION_AI_MAX_APP_ID (bytes_of "demo")) FLAG_PREFER_LOCAL CAP_TEXT 65537 5000.

Definition demo_response : response :=
  set_response 65537 STATUS_OK (bytes_of "ollama") (bytes_of "open-terminal").

Definition demo_env : PexEnv := {|
  env_connects _ _ := true;
  env_written _ _ data := Z.of_nat (length data);
  env_fswait _ _ := 0;
  env_read _ _ := Some (encode_response demo_response);
  env_time _ := 1700000000;
  env_audit _ := true;
|}.

Lemma demo_env_bytes : @PexBytes demo_env.
Proof. intros h ep bs [= <-]. by apply (bool_decide_unpack _). Qed.

Definition demo_request : request := build_request demo_ctx OP_CLASSIFY_INTENT (bytes_of "open a shell") 0.
Definition demo_packet : packet := packet_of 7 demo_request.

Lemma demo_context_ok : context_ok demo_ctx.
Proof. split; vm_compute; try done; split; done. Qed.

Lemma demo_packet_ok : packet_ok demo_packet.
Proof. split; [reflexivity|]. by apply (bool_decide_unpack _). Qed.

Lemma demo_response_ok : response_ok demo_response.
Proof.
  apply (set_response_good (Request 0 0 0 65537 0 0 0 [] [])); unfold STATUS_OK; cbn [req_request_id]; lia.
Qed.

Lemma demo_cfg_size : (length (providers demo_cfg) ≤ MAX_PROVIDERS)%nat.
Proof. cbn. unfold MAX_PROVIDERS. lia. Qed.

Lemma engine_cloud_consent_witness :
  ∃ l, @run_engine demo_env demo_cfg [demo_packet] [] = Ret (tt, [] ++ l) ∧
    ∀ ep data, PexReply ep data ∈ l → authorised demo_cfg [demo_packet] ep data.
Proof.
  apply (@engine_cloud_consent demo_env demo_env_bytes demo_cfg [demo_packet] [] demo_cfg_size).
  constructor; [exact demo_packet_ok|constructor].
Defined.

Lemma engine_answers_witness :
  ∃ r l, @engine_step demo_env demo_cfg demo_packet [] =
      Ret (tt, [] ++ l ++ [PexSend 7 (encode_response r)]) ∧
    Forall (step_call demo_cfg demo_packet) l ∧ step_answer demo_packet r ∧
    (length (encode_response r) ≤ MAX_PACKET_SIZE)%nat.
Proof. exact (@engine_answers demo_env demo_env_bytes demo_cfg demo_packet [] demo_cfg_size demo_packet_ok). Defined.

Lemma engine_routing_order_witness :
  ∃ r idx1 idx2 l, @route_to_provider demo_env demo_cfg demo_request [] = Ret (r, [] ++ l) ∧
    route_trace demo_cfg demo_request idx1 idx2 l ∧ route_result demo_request (idx1 ++ idx2) r.
Proof. exact (@engine_routing_order demo_env demo_env_bytes demo_cfg demo_request [] demo_cfg_size). Defined.

Lemma engine_selects_best_witness :
  ∃ sel l, @select_provider demo_env demo_cfg demo_request PROVIDER_LOCAL [] [] = Ret (sel, [] ++ l) ∧
    best demo_cfg (λ _, true) demo_request PROVIDER_LOCAL [] 2 sel.
Proof.
  exact (@engine_selects_best demo_env demo_cfg (λ _, true) demo_request PROVIDER_LOCAL [] []
           (λ _ _, eq_refl)).
Defined.


Lemma client_request_safe_witness :
  ∃ res ctx' l, @razion_ai_request demo_env demo_ctx OP_ASK None 0 [] = Ret ((res, ctx'), [] ++ l) ∧
    ctx' = bump_request_id demo_ctx.
Proof.
  destruct (@client_request_safe demo_env demo_env_bytes demo_ctx OP_ASK None 0 [])
    as (res & ctx' & l & Hr & _ & Hlt).
  exists res, ctx', l. split; [exact Hr|]. apply Hlt. vm_compute. lia.
Defined.

Lemma validate_request_correct_witness :
  match validate_request demo_packet with
  | None => ¬ well_formed_packet demo_packet
  | Some q => well_formed_packet demo_packet ∧
      Forall (λ c, app_id_char c = true) (until_nul (req_app_id q)) ∧
      (length (until_nul (req_app_id q)) ≤ 47)%nat ∧
      req_payload q !! Z.to_nat (req_payload_length q) = Some 0
  end.
Proof. exact (validate_request_correct demo_packet demo_packet_ok). Defined.

(** A provider whose configuration lists [task-execute] gets that capability. *)
Lemma provider_task_execute : parse_capabilities (Some (bytes_of "text,task-execute")) = Z.lor CAP_TEXT CAP_TASK_EXECUTE.
Proof. reflexivity. Qed.
