(* ===== verification/Pulse.v ===== *)
(** * Razion Pulse: the native action broker ([lib/razion_pulse.c])

    Pulse maps free text or a provider's answer to a fixed vocabulary of
    actions and executes those it has a native implementation for.  The
    operating system is the environment: its answers may depend on all the
    calls made so far, and the list of calls is the state.  Strings are the
    bytes before the terminator; the fixed arrays the library writes to are
    buffers in which a write out of bounds is a fault. *)

From S2P Require Import Prelude Memory Text.

(** ** Constants *)

Definition RAZION_PULSE_PROTOCOL_VERSION := 1.
Definition RAZION_PULSE_MAX_APP_ID : nat := 48.
Definition RAZION_PULSE_MAX_ACTION_ID : nat := 40.
Definition RAZION_PULSE_MAX_TARGET : nat := 256.
Definition RAZION_PULSE_MAX_SUMMARY : nat := 192.
Definition NORMALIZED_REQUEST_MAX : nat := 512.

(** [razion_pulse_action_t] *)
Definition ACTION_UNKNOWN := 0.
Definition ACTION_OPEN_TERMINAL := 1.
Definition ACTION_OPEN_CALCULATOR := 2.
Definition ACTION_OPEN_FILE_BROWSER := 3.
Definition ACTION_OPEN_SYSTEM_MONITOR := 4.
Definition ACTION_OPEN_WALLPAPER_SETTINGS := 5.
Definition ACTION_OPEN_HOME := 6.
Definition ACTION_OPEN_DOWNLOADS := 7.
Definition ACTION_CHECK_MEMORY := 8.
Definition ACTION_CREATE_PYTHON_PROJECT := 9.
Definition ACTION_FIND_RECENT_PDF := 10.
Definition ACTION_RESTART_NETWORKING := 11.
Definition ACTION_INSTALL_NODEJS := 12.
Definition ACTION_SUMMARIZE_TODAY := 13.

(** [razion_pulse_risk_t] *)
Definition RISK_READ := 0.
Definition RISK_CHANGE := 1.
Definition RISK_PRIVILEGED := 2.
Definition RISK_DESTRUCTIVE := 3.

(** [razion_pulse_status_t] *)
Inductive pulse_status :=
| PULSE_OK | PULSE_UNKNOWN | PULSE_INVALID | PULSE_CAPABILITY_DENIED
| PULSE_CONFIRMATION_REQUIRED | PULSE_UNAVAILABLE | PULSE_FAILED.

#[global] Instance pulse_status_eq_dec : EqDecision pulse_status.
Proof. solve_decision. Defined.

(** [RAZION_PULSE_CAP_*] *)
Definition PCAP_APP_LAUNCH := 1.
Definition PCAP_DIRECTORY_OPEN := 2.
Definition PCAP_SYSTEM_READ := 4.
Definition PCAP_FILE_CREATE := 8.
Definition PCAP_FILE_SEARCH := 16.
Definition PCAP_PACKAGE_MANAGE := 32.
Definition PCAP_NETWORK_ADMIN := 64.
Definition PCAP_ACTIVITY_READ := 128.

(** [razion_pulse_proposal_t] *)
Record proposal := Proposal {
  pr_version : Z;
  pr_action : Z;
  pr_risk : Z;
  pr_requires_confirmation : Z;
  pr_required_capabilities : Z;
  pr_executable : Z;
  pr_action_id : bytes;
  pr_target : bytes;
  pr_summary : bytes;
}.

(** [razion_pulse_context_t] *)
Record pulse_context := PulseContext { pc_app_id : bytes; pc_granted_capabilities : Z }.

(** ** The operating system *)

Inductive os_call :=
| Access (path : bytes)
| Fork
| Execv (path : bytes) (args : list bytes)
| Stat (path : bytes)
| Mkdir (path : bytes) (mode : Z)
| OpenExcl (path : bytes) (mode : Z)
| WriteFile (path data : bytes)
| CloseFile (path : bytes)
| Unlink (path : bytes)
| Rmdir (path : bytes)
| OpenRead (path : bytes)
| AppendLog (path line : bytes).

(** A line of [/proc/meminfo] as the two [sscanf] patterns classify it. *)
Inductive meminfo_line := MemTotal (kb : Z) | MemFree (kb : Z) | OtherLine.

Abbreviation os_history := (list os_call).

(** Modes are octal in the source: 493 is 0755, 420 is 0644, 448 is 0700.
    The answers of the operating system.  [env_stat] tells whether the path
    exists and whether it is a directory; [env_mkdir] whether [mkdir] succeeds
    and otherwise whether it failed with [EEXIST]. *)
Class PulseEnv := {
  env_home : option bytes;
  env_access : os_history → bytes → bool;
  env_fork : os_history → bool;
  env_stat : os_history → bytes → option bool;
  env_mkdir : os_history → bytes → bool * bool;
  env_open_excl : os_history → bytes → bool;
  env_write : os_history → bytes → bytes → Z;
  env_meminfo : os_history → option (list meminfo_line);
  env_append : os_history → bytes → bool;
  env_now : os_history → Z;
  env_strerror : os_history → bytes;
}.

(** What a fresh array of [n] bytes on the stack holds. *)
Class Stack := {
  fresh_array : nat → bytes;
  fresh_length : ∀ n, length (fresh_array n) = n;
}.

(** ** Normalisation *)

Definition write_at (i : nat) (v : Z) : M bytes unit := λ buf,
  if (i <? length buf)%nat then Ret (tt, <[i := v]> buf) else Fault.

(** The loop of [normalize_request]; [size] is the size of the output array. *)
Fixpoint normalize_loop (c : bytes) (size used : nat) (pending_space : bool) : M bytes nat :=
  match c with
  | [] => mret used
  | b :: c =>
      if negb (used + 1 <? size)%nat then mret used else
      if isalnum b then
        used ← (if pending_space && negb (used =? 0)%nat
                then write_at used 32;; mret (used + 1)%nat else mret used);
        write_at used (tolower b);;
        normalize_loop c size (used + 1) false
      else normalize_loop c size used true
  end.

Definition normalize_request (request : bytes) (size : nat) : M bytes unit :=
  used ← normalize_loop request size 0 false;
  write_at used 0.

(** Run on a fresh array: the string it holds afterwards. *)
Definition normalized `{Stack} (request : bytes) (size : nat) : outcome bytes :=
  match normalize_request request size (fresh_array size) with
  | Ret (_, buf) => Ret (until_nul buf)
  | Fault => Fault
  | Spin => Spin
  end.

(** [strstr(request, phrase) != NULL] *)
Definition has (request : bytes) (phrase : bytes) : bool := contains request phrase.

(** ** Proposals *)

Section pulse.
Context `{PulseEnv} `{Stack}.

(** [copy_string]: a terminated copy in an array of [size] bytes. *)
Definition copy_string (size : nat) (source : bytes) : bytes := take (size - 1) source.

Definition set_proposal (action risk capabilities confirmation executable : Z)
    (action_id target summary : bytes) : proposal :=
  Proposal RAZION_PULSE_PROTOCOL_VERSION action risk confirmation capabilities executable
    (copy_string RAZION_PULSE_MAX_ACTION_ID action_id)
    (copy_string RAZION_PULSE_MAX_TARGET target)
    (copy_string RAZION_PULSE_MAX_SUMMARY summary).

(** The proposal left when nothing matches: zeroed, with the version. *)
Definition empty_proposal : proposal := Proposal RAZION_PULSE_PROTOCOL_VERSION 0 0 0 0 0 [] [] [].

Definition home_target (suffix : bytes) : bytes :=
  let home := match env_home with Some ((_ :: _) as h) => h | _ => bytes_of "/home/local" end in
  snprintf RAZION_PULSE_MAX_TARGET (home ++ suffix).

(** The rows of [razion_pulse_propose_action], in the order of its tests. *)
Definition vocabulary : list (bytes * proposal) :=
  let launch act id path summary :=
    (id, set_proposal act RISK_READ PCAP_APP_LAUNCH 0 1 id path summary) in
  [launch ACTION_OPEN_TERMINAL (bytes_of "open-terminal") (bytes_of "/bin/terminal") (bytes_of "Open Terminal");
   launch ACTION_OPEN_CALCULATOR (bytes_of "open-calculator") (bytes_of "/bin/calculator")
     (bytes_of "Open Calculator");
   launch ACTION_OPEN_FILE_BROWSER (bytes_of "open-file-browser") (bytes_of "/bin/file-browser")
     (bytes_of "Open File Browser");
   launch ACTION_OPEN_SYSTEM_MONITOR (bytes_of "open-system-monitor") (bytes_of "/bin/cpuwidget")
     (bytes_of "Open System Monitor");
   launch ACTION_OPEN_WALLPAPER_SETTINGS (bytes_of "open-wallpaper-settings")
     (bytes_of "/bin/wallpaper-picker") (bytes_of "Open Wallpaper Settings");
   (bytes_of "open-home",
    set_proposal ACTION_OPEN_HOME RISK_READ PCAP_DIRECTORY_OPEN 0 1
      (bytes_of "open-home") (home_target []) (bytes_of "Open Home"));
   (bytes_of "open-downloads",
    set_proposal ACTION_OPEN_DOWNLOADS RISK_READ PCAP_DIRECTORY_OPEN 0 1
      (bytes_of "open-downloads") (home_target (bytes_of "/Downloads")) (bytes_of "Open Downloads"));
   (bytes_of "check-memory",
    set_proposal ACTION_CHECK_MEMORY RISK_READ PCAP_SYSTEM_READ 0 1
      (bytes_of "check-memory") (bytes_of "/proc/meminfo") (bytes_of "Check Memory Usage"));
   (bytes_of "create-python-project",
    set_proposal ACTION_CREATE_PYTHON_PROJECT RISK_CHANGE PCAP_FILE_CREATE 1 1
      (bytes_of "create-python-project") (home_target (bytes_of "/Projects/python-project"))
      (bytes_of "Create a Python project without overwriting existing files"));
   (bytes_of "find-recent-pdf",
    set_proposal ACTION_FIND_RECENT_PDF RISK_READ PCAP_FILE_SEARCH 0 0
      (bytes_of "find-recent-pdf") (bytes_of "user documents")
      (bytes_of "Find recently modified PDF documents"));
   (bytes_of "restart-networking",
    set_proposal ACTION_RESTART_NETWORKING RISK_PRIVILEGED PCAP_NETWORK_ADMIN 1 0
      (bytes_of "restart-networking") (bytes_of "network service")
      (bytes_of "Restart networking through a privileged system broker"));
   (bytes_of "install-nodejs",
    set_proposal ACTION_INSTALL_NODEJS RISK_PRIVILEGED PCAP_PACKAGE_MANAGE 1 0
      (bytes_of "install-nodejs") (bytes_of "nodejs")
      (bytes_of "Install Node.js through the package manager"));
   (bytes_of "summarize-today",
    set_proposal ACTION_SUMMARIZE_TODAY RISK_READ PCAP_ACTIVITY_READ 0 0
      (bytes_of "summarize-today") (bytes_of "activity index")
      (bytes_of "Summarize today's indexed activity"))].

(** [for (c = normalized; *c; ++c) if ( *c == ' ') *c = '-';] *)
Definition dashes (s : bytes) : bytes := map (λ c, if c =? 32 then 45 else c) s.

Definition razion_pulse_propose_action (action_id : option bytes) : outcome (pulse_status * proposal) :=
  match action_id with
  | None => Ret (PULSE_INVALID, empty_proposal)
  | Some id =>
      match normalized id RAZION_PULSE_MAX_ACTION_ID with
      | Ret n =>
          Ret match List.find (λ row, bytes_eqb (dashes n) row.1) vocabulary with
              | Some row => (PULSE_OK, row.2)
              | None => (PULSE_UNKNOWN, empty_proposal)
              end
      | Fault => Fault
      | Spin => Spin
      end
  end.

(** The offline classifier: the action a normalised request names. *)
Definition classify (n : bytes) : option bytes :=
  let has s := has n s in
  if has (bytes_of "open") && (has (bytes_of "terminal") || has (bytes_of "command line"))
  then Some (bytes_of "open-terminal")
  else if has (bytes_of "open") && has (bytes_of "calculator") then Some (bytes_of "open-calculator")
  else if has (bytes_of "open") && (has (bytes_of "file browser") || has (bytes_of "file manager"))
  then Some (bytes_of "open-file-browser")
  else if has (bytes_of "open") && (has (bytes_of "system monitor") || has (bytes_of "task manager"))
  then Some (bytes_of "open-system-monitor")
  else if (has (bytes_of "open") || has (bytes_of "change")) &&
          (has (bytes_of "wallpaper") || has (bytes_of "background"))
  then Some (bytes_of "open-wallpaper-settings")
  else if has (bytes_of "open") && has (bytes_of "downloads") then Some (bytes_of "open-downloads")
  else if has (bytes_of "open") && (has (bytes_of "home") || has (bytes_of "home folder"))
  then Some (bytes_of "open-home")
  else if (has (bytes_of "memory") || has (bytes_of "ram")) &&
          (has (bytes_of "check") || has (bytes_of "usage") || has (bytes_of "status") || has (bytes_of "show"))
  then Some (bytes_of "check-memory")
  else if has (bytes_of "create") && has (bytes_of "python") && has (bytes_of "project")
  then Some (bytes_of "create-python-project")
  else if (has (bytes_of "find") || has (bytes_of "search")) && has (bytes_of "pdf")
  then Some (bytes_of "find-recent-pdf")
  else if has (bytes_of "restart") && (has (bytes_of "network") || has (bytes_of "networking"))
  then Some (bytes_of "restart-networking")
  else if has (bytes_of "install") && (has (bytes_of "node js") || has (bytes_of "nodejs"))
  then Some (bytes_of "install-nodejs")
  else if has (bytes_of "summarize") && (has (bytes_of "today") || has (bytes_of "work"))
  then Some (bytes_of "summarize-today")
  else None.

Definition razion_pulse_propose (request : option bytes) : outcome (pulse_status * proposal) :=
  match request with
  | None | Some [] => Ret (PULSE_INVALID, empty_proposal)
  | Some s =>
      match normalized s NORMALIZED_REQUEST_MAX with
      | Ret n => match classify n with
                 | None => Ret (PULSE_UNKNOWN, empty_proposal)
                 | Some id => razion_pulse_propose_action (Some id)
                 end
      | Fault => Fault
      | Spin => Spin
      end
  end.

(** [None]: [EINVAL]. *)
Definition razion_pulse_init (app_id : option bytes) (granted : Z) : option pulse_context :=
  match app_id with
  | Some ((_ :: _) as s) =>
      let clean c := if isalnum c || (c =? 46) || (c =? 95) || (c =? 45) then c else 95 in
      Some (PulseContext (map clean (take (RAZION_PULSE_MAX_APP_ID - 1) s)) (u32 granted))
  | _ => None
  end.

(** ** Native implementations *)

Definition ask {A} (c : os_call) (answer : os_history → A) : M os_history A :=
  a ← gets answer; log c;; mret a.

(** [true]: the function returned 0.  The child's [execv] is logged as the
    program that runs. *)
Definition spawn_native (executable : bytes) (arguments : list bytes) : M os_history bool :=
  ok ← ask (Access executable) (λ h, env_access h executable);
  if negb ok then mret false else
  child ← ask Fork env_fork;
  if negb child then mret false else
  log (Execv executable arguments);; mret true.

(** [(status, result)]. *)
Definition open_application (action : Z) (result_size : nat) : M os_history (pulse_status * bytes) :=
  let executable :=
    if action =? ACTION_OPEN_TERMINAL then Some (bytes_of "/bin/terminal")
    else if action =? ACTION_OPEN_CALCULATOR then Some (bytes_of "/bin/calculator")
    else if action =? ACTION_OPEN_FILE_BROWSER then Some (bytes_of "/bin/file-browser")
    else if action =? ACTION_OPEN_SYSTEM_MONITOR then Some (bytes_of "/bin/cpuwidget")
    else if action =? ACTION_OPEN_WALLPAPER_SETTINGS then Some (bytes_of "/bin/wallpaper-picker")
    else None in
  match executable with
  | None => mret (PULSE_INVALID, [])
  | Some executable =>
      ok ← spawn_native executable [executable];
      err ← gets env_strerror;
      mret (if ok : bool
            then (PULSE_OK, snprintf result_size (bytes_of "Launched " ++ executable))
            else (PULSE_FAILED, snprintf result_size
                    (bytes_of "Unable to launch " ++ executable ++ bytes_of ": " ++ err)))
  end.

(** [stat(path, &status) || !S_ISDIR(status.st_mode)] negated. *)
Definition is_directory (path : bytes) : M os_history bool :=
  r ← ask (Stat path) (λ h, env_stat h path); mret (default false r).

Definition open_directory (action : Z) (result_size : nat) : M os_history (pulse_status * bytes) :=
  let target := home_target (if action =? ACTION_OPEN_DOWNLOADS then bytes_of "/Downloads" else []) in
  ok ← is_directory target;
  if negb ok then
    mret (PULSE_UNAVAILABLE, snprintf result_size (bytes_of "Directory is unavailable: " ++ target)) else
  ok ← spawn_native (bytes_of "/bin/file-browser") [bytes_of "/bin/file-browser"; target];
  err ← gets env_strerror;
  mret (if ok : bool then (PULSE_OK, snprintf result_size (bytes_of "Opened " ++ target))
        else (PULSE_FAILED, snprintf result_size
                (bytes_of "Unable to open " ++ target ++ bytes_of ": " ++ err))).

(** The [while (fgets(...))] loop of [check_memory]. *)
Fixpoint scan_meminfo (lines : list meminfo_line) (total available : Z) : Z * Z :=
  match lines with
  | [] => (total, available)
  | MemTotal n :: lines => scan_meminfo lines n available
  | MemFree n :: lines => scan_meminfo lines total n
  | OtherLine :: lines => scan_meminfo lines total available
  end.

Definition check_memory (result_size : nat) : M os_history (pulse_status * bytes) :=
  info ← ask (OpenRead (bytes_of "/proc/meminfo")) env_meminfo;
  err ← gets env_strerror;
  mret match info with
       | None => (PULSE_FAILED,
                  snprintf result_size (bytes_of "Unable to read memory information: " ++ err))
       | Some lines =>
           let '(total, available) := scan_meminfo lines 0 0 in
           if total <=? 0 then (PULSE_FAILED, copy_string result_size (bytes_of "Memory information is malformed."))
           else (PULSE_OK, snprintf result_size
                   (bytes_of "Memory: " ++ dec (Z.quot (total - available) 1024) ++
                    bytes_of " MB used of " ++ dec (Z.quot total 1024) ++ bytes_of " MB; " ++
                    dec (Z.quot available 1024) ++ bytes_of " MB available."))
       end.

(** The text written to [main.py]; 34 and 10 are the quote and the newline. *)
Definition starter : bytes :=
  bytes_of "def main():" ++ [10] ++ bytes_of "    print(" ++ [34] ++ bytes_of "Hello from RazionOS" ++ [34] ++
  bytes_of ")" ++ [10; 10; 10] ++ bytes_of "if __name__ == " ++ [34] ++ bytes_of "__main__" ++ [34] ++
  bytes_of ":" ++ [10] ++ bytes_of "    main()" ++ [10].

Definition create_python_project (result_size : nat) : M os_history (pulse_status * bytes) :=
  let projects := home_target (bytes_of "/Projects") in
  let project := home_target (bytes_of "/Projects/python-project") in
  let main_file := home_target (bytes_of "/Projects/python-project/main.py") in
  ok ← is_directory projects;
  if negb ok then
    mret (PULSE_UNAVAILABLE, snprintf result_size (bytes_of "Projects directory is unavailable: " ++ projects)) else
  exists_ ← ask (Stat project) (λ h, env_stat h project);
  if bool_decide (is_Some exists_) then
    mret (PULSE_UNAVAILABLE,
          snprintf result_size (bytes_of "Project already exists; no files were changed: " ++ project)) else
  made ← ask (Mkdir project 493) (λ h, env_mkdir h project);
  err ← gets env_strerror;
  if negb (made.1) then
    mret (PULSE_FAILED, snprintf result_size (bytes_of "Unable to create " ++ project ++ bytes_of ": " ++ err)) else
  opened ← ask (OpenExcl main_file 420) (λ h, env_open_excl h main_file);
  if negb opened then
    log (Rmdir project);;
    err ← gets env_strerror;
    mret (PULSE_FAILED, snprintf result_size (bytes_of "Unable to create " ++ main_file ++ bytes_of ": " ++ err)) else
  n ← ask (WriteFile main_file starter) (λ h, env_write h main_file starter);
  if negb (n =? Z.of_nat (length starter)) then
    log (CloseFile main_file);; log (Unlink main_file);; log (Rmdir project);;
    mret (PULSE_FAILED, copy_string result_size
            (bytes_of "Project creation failed; incomplete files were removed.")) else
  log (CloseFile main_file);;
  mret (PULSE_OK, snprintf result_size (bytes_of "Created Python project: " ++ project)).

Definition razion_pulse_risk_string (risk : Z) : bytes :=
  if risk =? RISK_READ then bytes_of "read"
  else if risk =? RISK_CHANGE then bytes_of "change"
  else if risk =? RISK_PRIVILEGED then bytes_of "privileged"
  else if risk =? RISK_DESTRUCTIVE then bytes_of "destructive"
  else bytes_of "unknown".

Definition razion_pulse_status_string (status : pulse_status) : bytes :=
  match status with
  | PULSE_OK => bytes_of "ok"
  | PULSE_UNKNOWN => bytes_of "unknown"
  | PULSE_INVALID => bytes_of "invalid"
  | PULSE_CAPABILITY_DENIED => bytes_of "capability-denied"
  | PULSE_CONFIRMATION_REQUIRED => bytes_of "confirmation-required"
  | PULSE_UNAVAILABLE => bytes_of "unavailable"
  | PULSE_FAILED => bytes_of "failed"
  end.

Fixpoint pulse_hex (fuel : nat) (z : Z) : bytes :=
  match fuel with
  | O => []
  | S fuel => let d d := if d <? 10 then 48 + d else 87 + d in
              if z <? 16 then [d z] else pulse_hex fuel (z / 16) ++ [d (z mod 16)]
  end.

Definition audit_action (ctx : pulse_context) (p : proposal) (status : pulse_status) : M os_history unit :=
  match env_home with
  | Some ((_ :: _) as home) =>
      let directory := snprintf RAZION_PULSE_MAX_TARGET (home ++ bytes_of "/.razion") in
      let log_path := snprintf RAZION_PULSE_MAX_TARGET (home ++ bytes_of "/.razion/pulse-audit.log") in
      made ← ask (Mkdir directory 448) (λ h, env_mkdir h directory);
      if negb (made.1) && negb (made.2) then mret tt else
      opened ← gets (λ h, env_append h log_path);
      if negb opened then mret tt else
      now ← gets env_now;
      log (AppendLog log_path
             (bytes_of "time=" ++ dec now ++ bytes_of " app=" ++ pc_app_id ctx ++
              bytes_of " action=" ++ pr_action_id p ++
              bytes_of " risk=" ++ razion_pulse_risk_string (pr_risk p) ++
              bytes_of " status=" ++ razion_pulse_status_string status ++
              bytes_of " capabilities=0x" ++ pulse_hex 8 (pr_required_capabilities p)))
  | _ => mret tt
  end.

(** ** Execution *)

(** The native implementation of an action that passed the policy. *)
Definition dispatch (action : Z) (result_size : nat) : M os_history (pulse_status * bytes) :=
  if (ACTION_OPEN_TERMINAL <=? action) && (action <=? ACTION_OPEN_WALLPAPER_SETTINGS)
  then open_application action result_size
  else if (action =? ACTION_OPEN_HOME) || (action =? ACTION_OPEN_DOWNLOADS)
  then open_directory action result_size
  else if action =? ACTION_CHECK_MEMORY then check_memory result_size
  else if action =? ACTION_CREATE_PYTHON_PROJECT then create_python_project result_size
  else mret (PULSE_UNAVAILABLE,
             copy_string result_size (bytes_of "No approved native broker is available for this action.")).

Definition razion_pulse_execute (ctx : pulse_context) (p : proposal) (confirmed : Z) (result_size : nat) :
    M os_history (pulse_status * bytes) :=
  if (result_size =? 0)%nat || negb (pr_version p =? RAZION_PULSE_PROTOCOL_VERSION) ||
     (pr_action p <=? ACTION_UNKNOWN) || (ACTION_SUMMARIZE_TODAY <? pr_action p)
  then mret (PULSE_INVALID, []) else
  match razion_pulse_propose_action (Some (pr_action_id p)) with
  | Fault => fault
  | Spin => spin
  | Ret (st, canonical) =>
      if negb (bool_decide (st = PULSE_OK)) || negb (pr_action canonical =? pr_action p)
      then mret (PULSE_INVALID, []) else
      let p := canonical in
      r ← (if negb (Z.land (pc_granted_capabilities ctx) (pr_required_capabilities p) =?
                    pr_required_capabilities p) then
             mret (PULSE_CAPABILITY_DENIED, copy_string result_size
               (bytes_of "The caller does not hold the capability required for this action."))
           else if negb (pr_requires_confirmation p =? 0) && (confirmed =? 0) then
             mret (PULSE_CONFIRMATION_REQUIRED, copy_string result_size
               (bytes_of "Explicit user confirmation is required before this action can run."))
           else if (pr_executable p =? 0) || (RISK_PRIVILEGED <=? pr_risk p) then
             mret (PULSE_UNAVAILABLE, copy_string result_size
               (bytes_of "No approved native broker is available for this action."))
           else dispatch (pr_action p) result_size);
      audit_action ctx p r.1;;
      mret r
  end.

End pulse.

(** ** Normalisation: correctness *)

(** The canonical form of a text: its alphanumeric runs in lower case, one
    space between them.  [pending]: a separator was seen; [started]: something
    was written. *)
Fixpoint canon (pending started : bool) (s : bytes) : bytes :=
  match s with
  | [] => []
  | b :: s =>
      if isalnum b
      then (if pending && started then [32] else []) ++ tolower b :: canon false true s
      else canon true started s
  end.

Lemma isalnum_tolower b : isalnum b = true → tolower b ≠ 0.
Proof.
  unfold isalnum, isalpha, isdigit, tolower. rewrite !orb_true_iff, !andb_true_iff, !Z.leb_le.
  destruct ((65 <=? b) && (b <=? 90)) eqn:E; [rewrite andb_true_iff, !Z.leb_le in E|]; lia.
Qed.

Lemma canon_nonzero s : ∀ p st, Forall (λ b, b ≠ 0) (canon p st s).
Proof.
  induction s as [|b s IH]; intros p st; cbn; [constructor|]. destruct (isalnum b) eqn:E; [|apply IH].
  apply Forall_app. split; [destruct (p && st); repeat constructor; done|].
  constructor; [by apply isalnum_tolower|apply IH].
Qed.

Lemma write_at_run i v buf : (i < length buf)%nat → write_at i v buf = Ret (tt, <[i := v]> buf).
Proof. intros Hi. unfold write_at. by rewrite (proj2 (Nat.ltb_lt _ _) Hi). Qed.

Lemma take_insert_snoc (buf : bytes) i v :
  (i < length buf)%nat → take (i + 1) (<[i := v]> buf) = take i buf ++ [v].
Proof.
  intros Hi. rewrite Nat.add_1_r.
  rewrite (take_S_r _ _ v) by (by apply list_lookup_insert_eq). by rewrite take_insert_ge by lia.
Qed.

(** The output is never longer than the input, separators included. *)
Lemma normalize_loop_run size c : ∀ used pending buf,
  length buf = size → (used + (if pending : bool then 1 else 0) + length c < size)%nat →
  let out := canon pending (negb (used =? 0)%nat) c in
  ∃ buf', normalize_loop c size used pending buf = Ret ((used + length out)%nat, buf') ∧
    length buf' = size ∧ (used + length out < size)%nat ∧ take (used + length out) buf' = take used buf ++ out.
Proof.
  induction c as [|b c IH]; intros used pending buf Hl Hs; cbn [normalize_loop canon length] in *.
  { exists buf. rewrite Nat.add_0_r, app_nil_r. split_and!; [done|done|lia|done]. }
  assert (Hu1 : (used + 1 < size)%nat) by (destruct pending; lia).
  assert (Hu2 : (used + 1 + length c < size)%nat) by (destruct pending; lia).
  rewrite (proj2 (Nat.ltb_lt (used + 1) size)) by done. cbn [negb].
  destruct (isalnum b) eqn:E; [|destruct (IH used true buf Hl) as (buf' & Hr & Hrest); [destruct pending; lia|by exists buf']].
  destruct (pending && negb (used =? 0)%nat) eqn:Esp; cbn [app length].
  - apply andb_true_iff in Esp as [-> Hu]. apply negb_true_iff, Nat.eqb_neq in Hu.
    rewrite bind_assoc, (run_bind_Ret _ _ _ _ _ (write_at_run used 32 buf ltac:(lia))), run_mret_bind.
    rewrite (run_bind_Ret _ _ _ _ _ (write_at_run (used + 1) (tolower b) (<[used := 32]> buf) ltac:(rewrite length_insert; lia))).
    set (buf2 := <[(used + 1)%nat := tolower b]> (<[used := 32]> buf)).
    destruct (IH (used + 1 + 1)%nat false buf2) as (buf' & Hr & Hl' & Hlt & Ht);
      [by subst buf2; rewrite !length_insert|cbn in *; lia|].
    rewrite (proj2 (Nat.eqb_neq (used + 1 + 1) 0)) in * by lia. cbn [negb] in *.
    exists buf'. replace (used + S (S (length (canon false true c))))%nat
      with (used + 1 + 1 + length (canon false true c))%nat by lia.
    split_and!; [done|done|done|]. rewrite Ht. subst buf2.
    rewrite take_insert_snoc by (rewrite length_insert; lia). rewrite take_insert_snoc by lia.
    by rewrite <-!(assoc_L (++)).
  - rewrite run_mret_bind.
    rewrite (run_bind_Ret _ _ _ _ _ (write_at_run used (tolower b) buf ltac:(lia))).
    destruct (IH (used + 1)%nat false (<[used := tolower b]> buf)) as (buf' & Hr & Hl' & Hlt & Ht);
      [by rewrite length_insert|lia|].
    rewrite (proj2 (Nat.eqb_neq (used + 1) 0)) in * by lia. cbn [negb] in *.
    exists buf'. replace (used + S (length (canon false true c)))%nat
      with (used + 1 + length (canon false true c))%nat by lia.
    split_and!; [done|done|done|]. rewrite Ht, take_insert_snoc by lia.
    by rewrite <-!(assoc_L (++)).
Qed.

Lemma until_nul_take_zero buf n s :
  take n buf = s → (n < length buf)%nat → Forall (λ b, b ≠ 0) s → until_nul (<[n := 0]> buf) = s.
Proof.
  intros <- Hn Hs. rewrite <-(take_drop n (<[n := 0]> buf)), take_insert_ge by lia.
  rewrite (drop_S _ 0 n) by (by apply list_lookup_insert_eq). by apply until_nul_app_zero.
Qed.

(** A text shorter than the array is normalised without truncation. *)
Lemma normalized_run `{Stack} s size :
  (length s < size)%nat → normalized s size = Ret (canon false false s).
Proof.
  intros Hs. unfold normalized, normalize_request.
  destruct (normalize_loop_run size s 0 false (fresh_array size) (fresh_length size)) as (buf & Hr & Hl & Hlt & Ht);
    [cbn; lia|]. cbn [Nat.eqb negb Nat.add] in *.
  rewrite (run_bind_Ret _ _ _ _ _ Hr), write_at_run by lia.
  f_equal. apply until_nul_take_zero; [done|lia|apply canon_nonzero].
Qed.

(** ** Normalisation: the overflow *)

Lemma normalize_loop_alnum size rest x : ∀ used buf,
  Forall (λ b, isalnum b = true) x → length buf = size → (used + length x < size)%nat →
  ∃ buf', normalize_loop (x ++ rest) size used false buf = normalize_loop rest size (used + length x) false buf' ∧
    length buf' = size.
Proof.
  induction x as [|b x IH]; intros used buf Hx Hl Hs; cbn [app normalize_loop length] in *.
  { exists buf. by rewrite Nat.add_0_r. }
  apply Forall_cons in Hx as [Hb Hx]. rewrite (proj2 (Nat.ltb_lt (used + 1) size)) by lia. cbn [negb andb].
  rewrite Hb, run_mret_bind, (run_bind_Ret _ _ _ _ _ (write_at_run used (tolower b) buf ltac:(lia))).
  destruct (IH (used + 1)%nat (<[used := tolower b]> buf)) as (buf' & Hr & Hl');
    [done|by rewrite length_insert|lia|].
  exists buf'. rewrite Hr. by replace (used + S (length x))%nat with (used + 1 + length x)%nat by lia.
Qed.

Lemma normalized_overflow `{Stack} size x y z :
  (3 ≤ size)%nat → length x = (size - 2)%nat → Forall (λ b, isalnum b = true) x →
  isalnum y = false → isalnum z = true → normalized (x ++ [y; z]) size = Fault.
Proof.
  intros Hsz Hx Hal Hy Hz. unfold normalized, normalize_request.
  destruct (normalize_loop_alnum size [y; z] x 0 (fresh_array size) Hal (fresh_length size))
    as (buf & Hr & Hl); [lia|].
  rewrite run_bind, Hr. cbn [normalize_loop Nat.add]. rewrite Hx.
  rewrite (proj2 (Nat.ltb_lt (size - 2 + 1) size)) by lia. cbn [negb]. rewrite Hy, Hz.
  rewrite (proj2 (Nat.eqb_neq (size - 2) 0)) by lia. cbn [negb andb].
  rewrite bind_assoc, (run_bind_Ret _ _ _ _ _ (write_at_run (size - 2) 32 buf ltac:(lia))), run_mret_bind.
  rewrite (run_bind_Ret _ _ _ _ _ (write_at_run (size - 2 + 1) (tolower z) (<[(size - 2)%nat := 32]> buf) ltac:(rewrite length_insert; lia))).
  cbn [mret M_ret]. unfold mret, M_ret, write_at. rewrite !length_insert, Hl.
  by rewrite (proj2 (Nat.ltb_ge _ _)) by lia.
Qed.

(** ** The vocabulary *)

Section vocabulary.
Context `{PulseEnv} `{Stack}.

(** The row an identifier names once normalised, if any. *)
Definition lookup_action (id : bytes) : option proposal :=
  snd <$> List.find (λ row, bytes_eqb (dashes (canon false false id)) row.1) vocabulary.

Lemma propose_action_run id : (length id < RAZION_PULSE_MAX_ACTION_ID)%nat →
  razion_pulse_propose_action (Some id) =
    Ret match lookup_action id with Some p => (PULSE_OK, p) | None => (PULSE_UNKNOWN, empty_proposal) end.
Proof.
  intros Hl. unfold razion_pulse_propose_action, lookup_action. rewrite normalized_run by done.
  by destruct (List.find _ _).
Qed.

Lemma lookup_action_in id p : lookup_action id = Some p → ∃ name, (name, p) ∈ vocabulary.
Proof.
  unfold lookup_action. destruct (List.find _ _) as [[name q]|] eqn:E; [|done]. intros [= <-].
  apply List.find_some in E as [Hin _]. exists name. by apply list_elem_of_In.
Qed.

(** Every action identifier names its own row. *)
Lemma lookup_action_name name p : (name, p) ∈ vocabulary →
  lookup_action name = Some p ∧ pr_action_id p = name ∧ (length name < RAZION_PULSE_MAX_ACTION_ID)%nat.
Proof.
  intros Hin. unfold vocabulary in Hin.
  repeat (apply elem_of_cons in Hin as [[= -> ->]|Hin]; [split_and!; [reflexivity|reflexivity|cbn; unfold RAZION_PULSE_MAX_ACTION_ID; lia]|]).
  by apply not_elem_of_nil in Hin.
Qed.

(** What the policy relies on, row by row. *)
Record row_ok (p : proposal) : Prop := {
  ro_version : pr_version p = RAZION_PULSE_PROTOCOL_VERSION;
  ro_action : ACTION_UNKNOWN < pr_action p ≤ ACTION_SUMMARIZE_TODAY;
  ro_change : RISK_CHANGE ≤ pr_risk p → pr_requires_confirmation p = 1;
  ro_privileged : RISK_PRIVILEGED ≤ pr_risk p → pr_executable p = 0;
  ro_app : pr_action p ≤ ACTION_OPEN_WALLPAPER_SETTINGS → pr_required_capabilities p = PCAP_APP_LAUNCH;
  ro_dir : pr_action p = ACTION_OPEN_HOME ∨ pr_action p = ACTION_OPEN_DOWNLOADS →
    pr_required_capabilities p = PCAP_DIRECTORY_OPEN;
  ro_memory : pr_action p = ACTION_CHECK_MEMORY → pr_required_capabilities p = PCAP_SYSTEM_READ;
  ro_create : pr_action p = ACTION_CREATE_PYTHON_PROJECT →
    pr_required_capabilities p = PCAP_FILE_CREATE ∧ pr_requires_confirmation p = 1;
}.

Lemma vocabulary_ok name p : (name, p) ∈ vocabulary → row_ok p.
Proof.
  intros Hin. unfold vocabulary in Hin.
  unfold ACTION_OPEN_TERMINAL, ACTION_OPEN_CALCULATOR, ACTION_OPEN_FILE_BROWSER, ACTION_OPEN_SYSTEM_MONITOR,
    ACTION_OPEN_WALLPAPER_SETTINGS, ACTION_OPEN_HOME, ACTION_OPEN_DOWNLOADS, ACTION_CHECK_MEMORY,
    ACTION_CREATE_PYTHON_PROJECT, ACTION_FIND_RECENT_PDF, ACTION_RESTART_NETWORKING, ACTION_INSTALL_NODEJS,
    ACTION_SUMMARIZE_TODAY, RISK_READ, RISK_CHANGE, RISK_PRIVILEGED in *.
  repeat (apply elem_of_cons in Hin as [[= -> ->]|Hin];
    [split; cbn [set_proposal pr_version pr_action pr_risk pr_requires_confirmation pr_required_capabilities
       pr_executable]; unfold ACTION_UNKNOWN, ACTION_SUMMARIZE_TODAY, RISK_CHANGE, RISK_PRIVILEGED,
       ACTION_OPEN_WALLPAPER_SETTINGS, ACTION_OPEN_HOME, ACTION_OPEN_DOWNLOADS, ACTION_CHECK_MEMORY,
       ACTION_CREATE_PYTHON_PROJECT; first [done|lia]|]).
  by apply not_elem_of_nil in Hin.
Qed.

(** ** The calls an execution may make *)

Definition launchable : list bytes :=
  [bytes_of "/bin/terminal"; bytes_of "/bin/calculator"; bytes_of "/bin/file-browser";
   bytes_of "/bin/cpuwidget"; bytes_of "/bin/wallpaper-picker"].

Definition project_dir : bytes := home_target (bytes_of "/Projects/python-project").
Definition project_file : bytes := home_target (bytes_of "/Projects/python-project/main.py").

Definition holds_cap (ctx : pulse_context) (cap : Z) : Prop :=
  Z.land (pc_granted_capabilities ctx) cap = cap.

(** Creating files needs the capability and the user's confirmation. *)
Definition may_create (ctx : pulse_context) (confirmed : Z) : Prop :=
  holds_cap ctx PCAP_FILE_CREATE ∧ confirmed ≠ 0.

(** The paths of the audit record. *)
Definition audit_path (suffix path : bytes) : Prop :=
  ∃ home, env_home = Some home ∧ path = snprintf RAZION_PULSE_MAX_TARGET (home ++ suffix).

Definition lawful (ctx : pulse_context) (confirmed : Z) (c : os_call) : Prop :=
  match c with
  | Execv path args =>
      (path ∈ launchable ∧ args = [path] ∧ holds_cap ctx PCAP_APP_LAUNCH) ∨
      (path = bytes_of "/bin/file-browser" ∧ holds_cap ctx PCAP_DIRECTORY_OPEN ∧
       (args = [path; home_target []] ∨ args = [path; home_target (bytes_of "/Downloads")]))
  | Mkdir path _ =>
      (path = project_dir ∧ may_create ctx confirmed) ∨ audit_path (bytes_of "/.razion") path
  | OpenExcl path _ | WriteFile path _ | CloseFile path | Unlink path =>
      path = project_file ∧ may_create ctx confirmed
  | Rmdir path => path = project_dir ∧ may_create ctx confirmed
  | OpenRead path => path = bytes_of "/proc/meminfo" ∧ holds_cap ctx PCAP_SYSTEM_READ
  | AppendLog path _ => audit_path (bytes_of "/.razion/pulse-audit.log") path
  | Access _ | Fork | Stat _ => True
  end.

Lemma ask_emits {A} (P : os_call → Prop) c (f : os_history → A) : P c → emits P (λ _, True) (ask c f).
Proof.
  intros Hc. eapply emits_bind; [by apply (emits_gets _ (λ _, True))|]. intros a _.
  eapply emits_bind; [by apply emits_log|]. intros _ _. by apply emits_ret.
Qed.

Ltac run_emits :=
  repeat first
  [ apply emits_ret
  | apply emits_log
  | eapply emits_bind; [first [apply ask_emits | apply emits_log | by apply (emits_gets _ (λ _, True))] | intros ? _]
  | match goal with |- emits _ _ (if ?c then _ else _) => destruct c end ].

Lemma spawn_native_emits ctx confirmed path args :
  lawful ctx confirmed (Execv path args) →
  emits (lawful ctx confirmed) (λ _, True) (spawn_native path args).
Proof. intros Hl. unfold spawn_native. run_emits; done. Qed.

Lemma open_application_emits ctx confirmed action size :
  holds_cap ctx PCAP_APP_LAUNCH → emits (lawful ctx confirmed) (λ _, True) (open_application action size).
Proof.
  intros Hc. unfold open_application.
  assert (Hgo : ∀ path, path ∈ launchable → emits (lawful ctx confirmed) (λ _, True)
    (ok ← spawn_native path [path]; err ← gets env_strerror;
     mret (if ok : bool then (PULSE_OK, snprintf size (bytes_of "Launched " ++ path))
           else (PULSE_FAILED, snprintf size (bytes_of "Unable to launch " ++ path ++ bytes_of ": " ++ err))))).
  { intros path Hp. eapply emits_bind; [apply spawn_native_emits; left; done|]. intros ok _. run_emits. done. }
  repeat match goal with |- context [if ?c then Some _ else _] => destruct c end;
    first [apply Hgo; unfold launchable; repeat (first [by left|right]) | by apply emits_ret].
Qed.

Lemma is_directory_emits ctx confirmed path :
  emits (lawful ctx confirmed) (λ _, True) (is_directory path).
Proof. unfold is_directory. run_emits; done. Qed.

Lemma open_directory_emits ctx confirmed action size :
  holds_cap ctx PCAP_DIRECTORY_OPEN → emits (lawful ctx confirmed) (λ _, True) (open_directory action size).
Proof.
  intros Hc. unfold open_directory. eapply emits_bind; [apply is_directory_emits|]. intros ok _.
  destruct (negb ok); [by apply emits_ret|].
  eapply emits_bind; [apply spawn_native_emits; right|].
  { split_and!; [done|done|]. destruct (action =? ACTION_OPEN_DOWNLOADS); [by right|by left]. }
  intros ok' _. run_emits. done.
Qed.

Lemma check_memory_emits ctx confirmed size :
  holds_cap ctx PCAP_SYSTEM_READ → emits (lawful ctx confirmed) (λ _, True) (check_memory size).
Proof. intros Hc. unfold check_memory. run_emits; done. Qed.

Lemma create_python_project_emits ctx confirmed size :
  may_create ctx confirmed → emits (lawful ctx confirmed) (λ _, True) (create_python_project size).
Proof.
  intros Hc. unfold create_python_project. fold project_dir. fold project_file.
  eapply emits_bind; [apply is_directory_emits|]. intros ok _.
  run_emits; cbn [lawful]; auto.
Qed.

Lemma audit_action_emits ctx confirmed p st :
  emits (lawful ctx confirmed) (λ _, True) (audit_action ctx p st).
Proof.
  unfold audit_action. destruct env_home as [[|b home]|] eqn:Eh; [by apply emits_ret| |by apply emits_ret].
  run_emits; cbn [lawful]; try done; [right|]; exists (b :: home); done.
Qed.

Lemma dispatch_emits ctx confirmed p size :
  row_ok p → holds_cap ctx (pr_required_capabilities p) →
  (pr_requires_confirmation p ≠ 0 → confirmed ≠ 0) →
  emits (lawful ctx confirmed) (λ _, True) (dispatch (pr_action p) size).
Proof.
  intros Hrow Hcap Hconf. unfold dispatch. pose proof (ro_action p Hrow) as Hact.
  destruct (_ && _) eqn:E1.
  { rewrite andb_true_iff, !Z.leb_le in E1. apply open_application_emits. by rewrite <-(ro_app p Hrow (proj2 E1)). }
  destruct (_ || _) eqn:E2.
  { rewrite orb_true_iff, !Z.eqb_eq in E2. apply open_directory_emits. by rewrite <-(ro_dir p Hrow E2). }
  destruct (Z.eqb_spec (pr_action p) ACTION_CHECK_MEMORY) as [E3|].
  { apply check_memory_emits. by rewrite <-(ro_memory p Hrow E3). }
  destruct (Z.eqb_spec (pr_action p) ACTION_CREATE_PYTHON_PROJECT) as [E4|]; [|by apply emits_ret].
  destruct (ro_create p Hrow E4) as [Hpc Hpconf]. apply create_python_project_emits.
  split; [by rewrite <-Hpc|]. apply Hconf. by rewrite Hpconf.
Qed.

(** Why an execution that succeeded was allowed to. *)
Definition allowed (ctx : pulse_context) (p : proposal) (confirmed : Z) : Prop :=
  ∃ row, lookup_action (pr_action_id p) = Some row ∧ pr_action row = pr_action p ∧
    holds_cap ctx (pr_required_capabilities row) ∧
    (pr_requires_confirmation row ≠ 0 → confirmed ≠ 0) ∧
    pr_executable row ≠ 0 ∧ pr_risk row < RISK_PRIVILEGED.

Lemma execute_emits ctx p confirmed size :
  (length (pr_action_id p) < RAZION_PULSE_MAX_ACTION_ID)%nat →
  emits (lawful ctx confirmed) (λ res, res.1 = PULSE_OK → allowed ctx p confirmed)
    (razion_pulse_execute ctx p confirmed size).
Proof.
  intros Hl. unfold razion_pulse_execute. destruct (_ || _); [by apply emits_ret|].
  rewrite propose_action_run by done.
  destruct (lookup_action (pr_action_id p)) as [row|] eqn:Erow.
  2: { rewrite bool_decide_eq_false_2 by done. by apply emits_ret. }
  rewrite bool_decide_eq_true_2 by done. cbn [negb orb].
  destruct (Z.eqb_spec (pr_action row) (pr_action p)) as [Ha|]; cbn [negb]; [|by apply emits_ret].
  destruct (lookup_action_in _ _ Erow) as [name Hin]. pose proof (vocabulary_ok _ _ Hin) as Hrow.
  assert (Hfin : ∀ m, emits (lawful ctx confirmed) (λ r : pulse_status * bytes, r.1 = PULSE_OK → allowed ctx p confirmed) m →
    emits (lawful ctx confirmed) (λ res : pulse_status * bytes, res.1 = PULSE_OK → allowed ctx p confirmed)
      (r ← m; audit_action ctx row r.1;; mret r)).
  { intros m Hm. eapply emits_bind; [exact Hm|]. intros r Hr.
    eapply emits_bind; [apply audit_action_emits|]. intros _ _. by apply emits_ret. }
  apply Hfin.
  destruct (Z.eqb_spec (Z.land (pc_granted_capabilities ctx) (pr_required_capabilities row))
    (pr_required_capabilities row)) as [Hcap|]; cbn [negb]; [|by apply emits_ret].
  destruct (_ && _) eqn:Econf; [by apply emits_ret|]. destruct (_ || _) eqn:Eexec; [by apply emits_ret|].
  assert (Hconf : pr_requires_confirmation row ≠ 0 → confirmed ≠ 0).
  { intros Hne ->. rewrite (proj2 (Z.eqb_neq _ _) Hne) in Econf. done. }
  rewrite orb_false_iff, Z.eqb_neq, Z.leb_gt in Eexec.
  eapply emits_mono; [by apply dispatch_emits|done|]. intros r _ _. exists row. tauto.
Qed.

End vocabulary.

(** ** Creating the project *)

Section project.
Context `{PulseEnv}.

Lemma ask_run {A} c (f : os_history → A) h : ask c f h = Ret (f h, h ++ [c]).
Proof. reflexivity. Qed.

Definition projects_dir : bytes := home_target (bytes_of "/Projects").

(** The calls of [create_python_project] up to each point where it stops. *)
Definition tried_stat : list os_call := [Stat projects_dir] ++ [Stat project_dir].
Definition tried_mkdir : list os_call := tried_stat ++ [Mkdir project_dir 493].
Definition tried_open : list os_call := tried_mkdir ++ [OpenExcl project_file 420].
Definition tried_write : list os_call :=
  tried_open ++ [WriteFile project_file starter; CloseFile project_file].

(** How a run ended: status and calls, with the answer that decided it. *)
Inductive project_run (h : os_history) : pulse_status → list os_call → Prop :=
| pj_no_dir : env_stat h projects_dir ≠ Some true → project_run h PULSE_UNAVAILABLE [Stat projects_dir]
| pj_exists : is_Some (env_stat (h ++ [Stat projects_dir]) project_dir) →
    project_run h PULSE_UNAVAILABLE tried_stat
| pj_mkdir_failed : (env_mkdir (h ++ tried_stat) project_dir).1 = false →
    project_run h PULSE_FAILED tried_mkdir
| pj_open_failed : env_open_excl (h ++ tried_mkdir) project_file = false →
    project_run h PULSE_FAILED (tried_open ++ [Rmdir project_dir])
| pj_write_failed : env_write (h ++ tried_open) project_file starter ≠ Z.of_nat (length starter) →
    project_run h PULSE_FAILED (tried_write ++ [Unlink project_file; Rmdir project_dir])
| pj_created : env_stat (h ++ [Stat projects_dir]) project_dir = None →
    env_write (h ++ tried_open) project_file starter = Z.of_nat (length starter) →
    project_run h PULSE_OK tried_write.

Lemma create_python_project_run size h :
  ∃ st msg l, create_python_project size h = Ret ((st, msg), h ++ l) ∧ project_run h st l.
Proof.
  unfold create_python_project. fold project_dir project_file projects_dir.
  unfold is_directory. rewrite !bind_assoc, (run_bind_Ret _ _ _ _ _ (ask_run _ _ h)), run_mret_bind.
  destruct (env_stat h projects_dir) as [[]|] eqn:E1; cbn [default from_option id negb].
  2-3: eexists _, _, _; split; [reflexivity|]; constructor; by rewrite E1.
  rewrite (run_bind_Ret _ _ _ _ _ (ask_run _ _ _)).
  destruct (env_stat (h ++ [Stat projects_dir]) project_dir) as [b|] eqn:E2.
  { rewrite bool_decide_eq_true_2 by done. eexists _, _, tried_stat. rewrite <-(assoc_L (++)). split; [reflexivity|].
    constructor. by rewrite E2. }
  rewrite bool_decide_eq_false_2 by (by intros [? ?]). rewrite <-(assoc_L (++)). fold tried_stat.
  rewrite (run_bind_Ret _ _ _ _ _ (ask_run _ _ _)), (run_bind_Ret (gets _) _ _ _ _ eq_refl).
  destruct (env_mkdir (h ++ tried_stat) project_dir).1 eqn:E3; cbn [negb].
  2: { eexists _, _, tried_mkdir. rewrite <-(assoc_L (++)). split; [reflexivity|]. by constructor. }
  rewrite <-(assoc_L (++)). fold tried_mkdir. rewrite (run_bind_Ret _ _ _ _ _ (ask_run _ _ _)).
  rewrite <-(assoc_L (++)). fold tried_open.
  destruct (env_open_excl (h ++ tried_mkdir) project_file) eqn:E4; cbn [negb].
  2: { eexists _, _, (tried_open ++ [Rmdir project_dir]). rewrite (assoc_L (++)). split; [reflexivity|]. by constructor. }
  rewrite (run_bind_Ret _ _ _ _ _ (ask_run _ _ _)).
  destruct (Z.eqb_spec (env_write (h ++ tried_open) project_file starter) (Z.of_nat (length starter))) as [E5|E5];
    cbn [negb].
  - eexists _, _, tried_write. unfold tried_write. rewrite (assoc_L (++)).
    split; [|by apply pj_created]. unfold log, modify, mbind, M_bind, mret, M_ret. by rewrite <-!(assoc_L (++)).
  - eexists _, _, (tried_write ++ [Unlink project_file; Rmdir project_dir]). split; [|by apply pj_write_failed].
    unfold log, modify, mbind, M_bind, mret, M_ret, tried_write. by rewrite <-!(assoc_L (++)).
Qed.

End project.

(** ** The properties *)


(** What a proposal says about itself cannot redirect its execution: two
    proposals with the same version, action number and action identifier
    execute identically, whatever risk, capabilities, confirmation, target and
    summary they claim. *)
Theorem pulse_execute_canonical `{PulseEnv} `{Stack} ctx p p' confirmed size h :
  pr_version p = pr_version p' → pr_action p = pr_action p' → pr_action_id p = pr_action_id p' →
  razion_pulse_execute ctx p confirmed size h = razion_pulse_execute ctx p' confirmed size h.
Proof. intros Hv Ha Hi. unfold razion_pulse_execute. by rewrite Hv, Ha, Hi. Qed.

(** C28: a proposal is always a row of the built-in vocabulary: for any
    identifier that fits its buffer, [razion_pulse_propose_action] succeeds
    exactly when the identifier's alphanumeric words, joined by dashes, name an
    action, and then returns that action's row; in every row the action is in
    range, a change needs confirmation and a privileged action is not
    executable. *)
Theorem pulse_propose_action_vocabulary `{PulseEnv} `{Stack} id :
  (length id < RAZION_PULSE_MAX_ACTION_ID)%nat →
  ∃ st p, razion_pulse_propose_action (Some id) = Ret (st, p) ∧
    ((st = PULSE_OK ∧ row_ok p ∧ (dashes (canon false false id), p) ∈ vocabulary) ∨
     (st = PULSE_UNKNOWN ∧ p = empty_proposal ∧ ∀ q, (dashes (canon false false id), q) ∉ vocabulary)).
Proof.
  intros Hl. rewrite propose_action_run by done. unfold lookup_action.
  destruct (List.find _ _) as [[name p]|] eqn:E; cbn [fmap option_fmap option_map].
  - eexists _, _. split; [reflexivity|]. left. apply List.find_some in E as [Hin Hn].
    apply bool_decide_eq_true_1 in Hn. cbn in Hn. subst name. apply list_elem_of_In in Hin.
    split_and!; [done|by eapply vocabulary_ok|done].
  - eexists _, _. split; [reflexivity|]. right. split_and!; [done|done|]. intros q Hin.
    apply list_elem_of_In in Hin. pose proof (List.find_none _ _ E _ Hin) as Hn.
    apply bool_decide_eq_false_1 in Hn. done.
Qed.

(** C29: the offline classifier proposes only known actions: a request shorter
    than its buffer gets either no proposal or the vocabulary row of the
    action its normalised words select; every identifier the classifier can
    select is in the vocabulary. *)
Theorem pulse_propose_known `{PulseEnv} `{Stack} s :
  s ≠ [] → (length s < NORMALIZED_REQUEST_MAX)%nat →
  match classify (canon false false s) with
  | None => razion_pulse_propose (Some s) = Ret (PULSE_UNKNOWN, empty_proposal)
  | Some id => ∃ p, (id, p) ∈ vocabulary ∧ razion_pulse_propose (Some s) = Ret (PULSE_OK, p)
  end.
Proof.
  intros Hne Hl. destruct s as [|b s]; [done|]. unfold razion_pulse_propose. rewrite normalized_run by done.
  destruct (classify (canon false false (b :: s))) as [id|] eqn:E; [|done].
  assert (Hin : ∃ p, (id, p) ∈ vocabulary).
  { unfold classify in E. unfold vocabulary.
    repeat match type of E with (if ?c then _ else _) = _ => destruct c end; simplify_eq;
      eexists; repeat (first [by left|right]). }
  destruct Hin as [p Hin]. exists p. split; [done|].
  destruct (lookup_action_name _ _ Hin) as (Hlk & _ & Hlen). rewrite propose_action_run by done. by rewrite Hlk.
Qed.

(** C40: the normalisation of an action identifier writes one byte past its
    array: when the output has two bytes left and a separator is pending, the
    loop stores both the space and the letter, and the terminator is then
    stored at the array's length.  So any identifier of 38 alphanumeric
    characters, a separator and one more alphanumeric overruns the 40-byte
    array of [razion_pulse_propose_action], which is called on the text a
    provider returned. *)
Theorem pulse_normalize_overflows `{PulseEnv} `{Stack} x y z :
  length x = 38%nat → Forall (λ b, isalnum b = true) x → isalnum y = false → isalnum z = true →
  razion_pulse_propose_action (Some (x ++ [y; z])) = Fault.
Proof.
  intros Hx Hal Hy Hz. unfold razion_pulse_propose_action.
  rewrite normalized_overflow; [done|unfold RAZION_PULSE_MAX_ACTION_ID; lia|done..].
Qed.

(** C30: creating the Python project is all or nothing and never overwrites:
    whatever the operating system answers, the run ends in one of six ways; it
    touches nothing when the project directory already exists, reports success
    only when the directory was absent and the whole file was written, and
    after any failure past the directory's creation it has removed the file
    and the directory again. *)
Theorem pulse_project_atomic `{PulseEnv} size h :
  ∃ st msg l, create_python_project size h = Ret ((st, msg), h ++ l) ∧ project_run h st l.
Proof. apply create_python_project_run. Qed.

(** ** Witnesses: an operating system where everything succeeds *)

Definition demo_os : PulseEnv := {|
  env_home := Some (bytes_of "/home/local");
  env_access _ _ := true;
  env_fork _ := true;
  env_stat _ path := if bytes_eqb path (bytes_of "/home/local/Projects") then Some true else None;
  env_mkdir _ _ := (true, false);
  env_open_excl _ _ := true;
  env_write _ _ data := Z.of_nat (length data);
  env_meminfo _ := Some [MemTotal 2048; MemFree 1024];
  env_append _ _ := true;
  env_now _ := 1700000000;
  env_strerror _ := bytes_of "No such file or directory";
|}.

#[refine] Definition demo_stack : Stack := {| fresh_array n := replicate n 170 |}.
Proof. intros n. apply length_replicate. Defined.

Definition demo_caps : pulse_context := PulseContext (bytes_of "razion-pulse") 15.

Definition demo_proposal : proposal :=
  Proposal 1 ACTION_CREATE_PYTHON_PROJECT 0 0 0 1 (bytes_of "create-python-project")
    (bytes_of "/etc") (bytes_of "harmless").

Example demo_propose :
  @razion_pulse_propose demo_os demo_stack (Some (bytes_of "Please OPEN   the Downloads folder!")) =
  Ret (PULSE_OK, @set_proposal ACTION_OPEN_DOWNLOADS RISK_READ PCAP_DIRECTORY_OPEN 0 1
         (bytes_of "open-downloads") (bytes_of "/home/local/Downloads") (bytes_of "Open Downloads")).
Proof. vm_compute. reflexivity. Qed.

Example demo_unconfirmed :
  match @razion_pulse_execute demo_os demo_stack demo_caps demo_proposal 0 512 [] with
  | Ret ((st, _), calls) => st = PULSE_CONFIRMATION_REQUIRED ∧ length calls = 2%nat
  | _ => False
  end.
Proof. vm_compute. split; reflexivity. Qed.

Example demo_confirmed :
  match @razion_pulse_execute demo_os demo_stack demo_caps demo_proposal 1 512 [] with
  | Ret ((st, msg), _) => st = PULSE_OK ∧ msg = bytes_of "Created Python project: /home/local/Projects/python-project"
  | _ => False
  end.
Proof. vm_compute. split; reflexivity. Qed.


Lemma pulse_execute_canonical_witness :
  @razion_pulse_execute demo_os demo_stack demo_caps demo_proposal 1 512 [] =
  @razion_pulse_execute demo_os demo_stack demo_caps
    (Proposal 1 ACTION_CREATE_PYTHON_PROJECT 3 1 128 0 (bytes_of "create-python-project") [] []) 1 512 [].
Proof. apply (@pulse_execute_canonical demo_os demo_stack demo_caps demo_proposal); reflexivity. Defined.

Lemma pulse_propose_action_vocabulary_witness :
  ∃ st p, @razion_pulse_propose_action demo_os demo_stack (Some (bytes_of "Open Terminal")) = Ret (st, p) ∧
    ((st = PULSE_OK ∧ row_ok p ∧ (bytes_of "open-terminal", p) ∈ @vocabulary demo_os) ∨
     (st = PULSE_UNKNOWN ∧ p = empty_proposal ∧ ∀ q, (bytes_of "open-terminal", q) ∉ @vocabulary demo_os)).
Proof.
  apply (@pulse_propose_action_vocabulary demo_os demo_stack (bytes_of "Open Terminal")). vm_compute. lia.
Defined.

Lemma pulse_propose_known_witness :
  ∃ p, (bytes_of "check-memory", p) ∈ @vocabulary demo_os ∧
    @razion_pulse_propose demo_os demo_stack (Some (bytes_of "Show RAM usage")) = Ret (PULSE_OK, p).
Proof.
  apply (@pulse_propose_known demo_os demo_stack (bytes_of "Show RAM usage")); [discriminate|vm_compute; lia].
Defined.

Lemma pulse_normalize_overflows_witness :
  @razion_pulse_propose_action demo_os demo_stack (Some (replicate 38 97 ++ [45; 97])) = Fault.
Proof.
  apply (@pulse_normalize_overflows demo_os demo_stack (replicate 38 97) 45 97);
    [reflexivity|by apply (bool_decide_unpack _)|reflexivity|reflexivity].
Defined.
