(* ===== verification/PulseApp.v ===== *)
(** * The pulse command ([apps/pulse.c])

    The command-line client: argument parsing, the offline proposal with the
    engine as fallback, printing a proposal, and executing it.  It runs in two
    environments at once, the PEX endpoint of the engine and the operating
    system of the broker; its state is the pair of call histories. *)

From S2P Require Import Prelude Memory Text AIProtocol AIEngine Pulse.

Definition REQUEST_MAX : nat := 512.
Definition RESULT_MAX : nat := 512.

(** ** Output *)

(** The body of [json_string], one character at a time. *)
Definition json_char (c : Z) : bytes :=
  if c =? 34 then [92; 34]
  else if c =? 92 then [92; 92]
  else if c =? 10 then [92; 110]
  else if c =? 13 then [92; 114]
  else if c =? 9 then [92; 116]
  else if 32 <=? c then [c] else [].

Definition json_string (input : bytes) : bytes := [34] ++ concat (map json_char input) ++ [34].

(** [fputs] of a text in which every quote of the source is written 34. *)
Definition quoted (s : bytes) : bytes := [34] ++ s ++ [34].

Definition print_proposal (p : proposal) (json : bool) : bytes :=
  if json then
    bytes_of "{" ++ quoted (bytes_of "version") ++ bytes_of ":1," ++ quoted (bytes_of "action") ++ bytes_of ":" ++
    json_string (pr_action_id p) ++
    bytes_of "," ++ quoted (bytes_of "summary") ++ bytes_of ":" ++ json_string (pr_summary p) ++
    bytes_of "," ++ quoted (bytes_of "target") ++ bytes_of ":" ++ json_string (pr_target p) ++
    bytes_of "," ++ quoted (bytes_of "risk") ++ bytes_of ":" ++ quoted (razion_pulse_risk_string (pr_risk p)) ++
    bytes_of "," ++ quoted (bytes_of "capabilities") ++ bytes_of ":" ++ dec (pr_required_capabilities p) ++
    bytes_of "," ++ quoted (bytes_of "confirmation_required") ++ bytes_of ":" ++
    (if pr_requires_confirmation p =? 0 then bytes_of "false" else bytes_of "true") ++
    bytes_of "," ++ quoted (bytes_of "executable") ++ bytes_of ":" ++
    (if pr_executable p =? 0 then bytes_of "false" else bytes_of "true") ++ bytes_of "}" ++ [10]
  else
    bytes_of "Razion Pulse proposal" ++ [10] ++
    bytes_of "  Action: " ++ pr_summary p ++ [10] ++
    bytes_of "  Target: " ++ pr_target p ++ [10] ++
    bytes_of "  Risk: " ++ razion_pulse_risk_string (pr_risk p) ++ [10] ++
    bytes_of "  Confirmation: " ++
    (if pr_requires_confirmation p =? 0 then bytes_of "not required" else bytes_of "required") ++ [10] ++
    bytes_of "  Native broker: " ++
    (if pr_executable p =? 0 then bytes_of "not available in this phase" else bytes_of "available") ++ [10].

(** ** Arguments *)

Record options := Options { plan_only : bool; confirmed : bool; json : bool; request_text : bytes }.

(** [None]: usage or an over-long request, exit status 1. *)
Fixpoint parse_args (argv : list bytes) (o : options) : option options :=
  match argv with
  | [] => Some o
  | arg :: argv =>
      if bytes_eqb arg (bytes_of "--help") || bytes_eqb arg (bytes_of "-h") then None
      else if bytes_eqb arg (bytes_of "--plan")
      then parse_args argv (Options true (confirmed o) (json o) (request_text o))
      else if bytes_eqb arg (bytes_of "--confirm")
      then parse_args argv (Options (plan_only o) true (json o) (request_text o))
      else if bytes_eqb arg (bytes_of "--json")
      then parse_args argv (Options true (confirmed o) true (request_text o))
      else
        let sep := match request_text o with [] => 0%nat | _ => 1%nat end in
        if (REQUEST_MAX <=? length (request_text o) + length arg + sep)%nat then None
        else parse_args argv (Options (plan_only o) (confirmed o) (json o)
               (request_text o ++ (match request_text o with [] => [] | _ => [32] end) ++ arg))
  end.

Section app.
Context `{PexEnv} `{PulseEnv} `{Stack}.

Abbreviation app_state := (history * os_history)%type.

Definition on_pex {A} (m : M history A) : M app_state A := λ s,
  match m s.1 with Ret (a, h) => Ret (a, (h, s.2)) | Fault => Fault | Spin => Spin end.
Definition on_os {A} (m : M os_history A) : M app_state A := λ s,
  match m s.2 with Ret (a, h) => Ret (a, (s.1, h)) | Fault => Fault | Spin => Spin end.
Definition lift_outcome {A} (r : outcome A) : M app_state A := λ s,
  match r with Ret a => Ret (a, s) | Fault => Fault | Spin => Spin end.

(** The context of the fallback: [razion_ai_init], then [LOCAL_ONLY] added. *)
Definition fallback_context (pid : Z) : option context :=
  (λ ctx, Context (ctx_app_id ctx) (Z.lor (ctx_default_flags ctx) FLAG_LOCAL_ONLY)
            (ctx_requested_capabilities ctx) (ctx_next_request_id ctx) (ctx_timeout_ms ctx))
    <$> razion_ai_init (Some (bytes_of "razion-pulse")) pid.

Definition local_ai_fallback (pid : Z) (request : bytes) : M app_state (pulse_status * proposal) :=
  match fallback_context pid with
  | None => mret (PULSE_UNKNOWN, empty_proposal)
  | Some ai =>
      r ← on_pex (razion_ai_classify_intent ai (Some request));
      match r.1 with
      | inl _ => mret (PULSE_UNKNOWN, empty_proposal)
      | inr resp =>
          if negb (resp_status resp =? STATUS_OK) then mret (PULSE_UNKNOWN, empty_proposal)
          else lift_outcome (razion_pulse_propose_action (Some (until_nul (resp_payload resp))))
      end
  end.

(** The capabilities the command grants itself. *)
Definition pulse_capabilities : Z :=
  Z.lor (Z.lor (Z.lor PCAP_APP_LAUNCH PCAP_DIRECTORY_OPEN) PCAP_SYSTEM_READ) PCAP_FILE_CREATE.

(** [main] after the request is known: (exit status, standard output). *)
Definition pulse_run (pid : Z) (o : options) : M app_state (Z * bytes) :=
  r ← lift_outcome (razion_pulse_propose (Some (request_text o)));
  r ← (if bool_decide (r.1 = PULSE_UNKNOWN) then local_ai_fallback pid (request_text o) else mret r);
  let '(status, p) := r in
  if negb (bool_decide (status = PULSE_OK)) then mret (2, []) else
  let out := print_proposal p (json o) in
  if plan_only o then mret (0, out) else
  match razion_pulse_init (Some (bytes_of "razion-pulse")) pulse_capabilities with
  | None => mret (1, out)
  | Some ctx =>
      r ← on_os (razion_pulse_execute ctx p (if confirmed o then 1 else 0) RESULT_MAX);
      let '(status, result) := r in
      let out := out ++ bytes_of "Result: " ++ result ++ [10] ++
        (if bool_decide (status = PULSE_CONFIRMATION_REQUIRED)
         then bytes_of "Review the target, then repeat with --confirm to approve it." ++ [10] else []) in
      mret (if bool_decide (status = PULSE_OK) then 0 else 3, out)
  end.

(** The line read when no request is given: at most 511 bytes, up to the
    newline; [None]: end of input. *)
Definition read_request (stdin : option bytes) : bytes :=
  match stdin with
  | None => []
  | Some line => (fix cut s := match s with c :: s => if c =? 10 then [] else c :: cut s | [] => [] end)
                   (take (REQUEST_MAX - 1) line)
  end.

(** The prompt printed when no request is given. *)
Definition prompt : bytes := bytes_of "Razion Pulse" ++ [10] ++ bytes_of "Describe one operating-system action: ".

Definition pulse_main (pid : Z) (argv : list bytes) (stdin : option bytes) : M app_state (Z * bytes) :=
  match parse_args argv (Options false false false []) with
  | None => mret (1, [])
  | Some o =>
      match request_text o with
      | [] => match until_nul (read_request stdin) with
              | [] => mret (1, prompt)
              | s => r ← pulse_run pid (Options (plan_only o) (confirmed o) (json o) s);
                     mret (r.1, prompt ++ r.2)
              end
      | _ => pulse_run pid o
      end
  end.

End app.

(** ** JSON strings *)

(** Reading back the characters after the opening quote, up to the closing
    quote, which must be the last character. *)
Fixpoint json_unescape (s : bytes) : option bytes :=
  match s with
  | [] => None
  | c :: s =>
      if c =? 34 then match s with [] => Some [] | _ => None end
      else if c =? 92 then
        match s with
        | [] => None
        | e :: s =>
            let take c := cons c <$> json_unescape s in
            if e =? 34 then take 34 else if e =? 92 then take 92
            else if e =? 110 then take 10 else if e =? 114 then take 13
            else if e =? 116 then take 9 else None
        end
      else if c <? 32 then None
      else cons c <$> json_unescape s
  end.

(** The characters [json_string] does not drop. *)
Definition json_kept (c : Z) : bool := (32 <=? c) || (c =? 10) || (c =? 13) || (c =? 9).

Lemma json_unescape_char c s :
  json_unescape (json_char c ++ s) = if json_kept c then cons c <$> json_unescape s else json_unescape s.
Proof.
  unfold json_char, json_kept.
  destruct (Z.eqb_spec c 34) as [->|]; [done|]. destruct (Z.eqb_spec c 92) as [->|]; [done|].
  destruct (Z.eqb_spec c 10) as [->|]; [done|]. destruct (Z.eqb_spec c 13) as [->|]; [done|].
  destruct (Z.eqb_spec c 9) as [->|]; [done|]. rewrite !orb_false_r.
  destruct (Z.leb_spec 32 c); [|done]. cbn.
  rewrite (proj2 (Z.eqb_neq c 34)), (proj2 (Z.eqb_neq c 92)), (proj2 (Z.ltb_ge c 32)) by done. done.
Qed.

Lemma json_unescape_body s : json_unescape (concat (map json_char s) ++ [34]) = Some (List.filter json_kept s).
Proof.
  induction s as [|c s IH]; [done|]. cbn [map concat List.filter]. rewrite <-(assoc_L (++)), json_unescape_char, IH.
  by destruct (json_kept c).
Qed.

(** ** Both environments *)

Section app_run.
Context `{PexEnv} `{!PexBytes} `{PulseEnv} `{Stack}.

(** [m] terminates, its calls satisfy [P] and [Q], its result [R]. *)
Definition app_emits {A} (P : pex_call → Prop) (Q : os_call → Prop) (R : A → Prop)
    (m : M (history * os_history) A) : Prop :=
  ∀ h os, ∃ a l l', m (h, os) = Ret (a, (h ++ l, os ++ l')) ∧ Forall P l ∧ Forall Q l' ∧ R a.

Lemma app_emits_ret {A} P Q (R : A → Prop) a : R a → app_emits P Q R (mret a).
Proof. intros HR h os. exists a, [], []. by rewrite !app_nil_r. Qed.

Lemma app_emits_bind {A B} P Q (R : A → Prop) (R' : B → Prop) m (k : A → M (history * os_history) B) :
  app_emits P Q R m → (∀ a, R a → app_emits P Q R' (k a)) → app_emits P Q R' (m ≫= k).
Proof.
  intros Hm Hk h os. destruct (Hm h os) as (a & l & l' & Hr & HP & HQ & HR).
  destruct (Hk a HR (h ++ l) (os ++ l')) as (b & l2 & l2' & Hr2 & HP2 & HQ2 & HR2).
  exists b, (l ++ l2), (l' ++ l2'). rewrite (run_bind_Ret _ _ _ _ _ Hr), Hr2, !(assoc_L (++)).
  split_and!; [done|by apply Forall_app|by apply Forall_app|done].
Qed.

Lemma on_pex_emits {A} P Q (R : A → Prop) m : emits P R m → app_emits P Q R (on_pex m).
Proof.
  intros Hm h os. destruct (Hm h) as (a & l & Hr & HP & HR). exists a, l, [].
  unfold on_pex. cbn [fst snd]. rewrite Hr, app_nil_r. by split_and!.
Qed.

Lemma on_os_emits {A} P Q (R : A → Prop) m : emits Q R m → app_emits P Q R (on_os m).
Proof.
  intros Hm h os. destruct (Hm os) as (a & l & Hr & HQ & HR). exists a, [], l.
  unfold on_os. cbn [fst snd]. rewrite Hr, app_nil_r. by split_and!.
Qed.

Lemma lift_outcome_emits {A} P Q (R : A → Prop) a : R a → app_emits P Q R (lift_outcome (Ret a)).
Proof. intros HR. by apply app_emits_ret. Qed.

(** The calls the command makes to the engine: a request of its own, marked
    local-only and not to be executed, which no cloud provider may be given. *)
Definition local_call (c : pex_call) : Prop :=
  match c with
  | PexReply ep data => ep = RAZION_AI_ENDPOINT ∧ ∃ q, data = request_bytes q ∧
      has_flag (req_flags q) FLAG_LOCAL_ONLY = true ∧
      has_flag (req_flags q) FLAG_EXECUTE_ACTION = false ∧
      ∀ cfg p, eligible cfg p q → pv_class p = PROVIDER_LOCAL
  | PexConnect ep | PexWait ep _ | PexRecv ep => ep = RAZION_AI_ENDPOINT
  | PexSend _ _ | Audit _ => False
  end.

Lemma client_call_local ctx op text :
  ctx_default_flags ctx = Z.lor FLAG_PREFER_LOCAL FLAG_LOCAL_ONLY →
  ∀ c, client_call (build_request ctx op text 0) c → local_call c.
Proof.
  intros Hf c. destruct c as [ep|ep data|ep t|ep|cl data|rec]; cbn [client_call local_call]; try done.
  intros [-> ->]. split; [done|]. set (q := build_request ctx op text 0).
  assert (Hq : req_flags q = 3) by (cbn [q build_request req_flags]; by rewrite Hf).
  exists q. rewrite Hq. split_and!; try done. intros cfg p (_ & _ & Hel).
  destruct (pv_class p); [done|]. destruct (Hel eq_refl) as (_ & _ & Hl). by rewrite Hq in Hl.
Qed.

(** A proposal the command works with: of the vocabulary, or the empty one. *)
Definition proposal_ok (r : pulse_status * proposal) : Prop :=
  r.1 = PULSE_OK → (length (pr_action_id r.2) < RAZION_PULSE_MAX_ACTION_ID)%nat.

Lemma propose_action_ok id : (length id < RAZION_PULSE_MAX_ACTION_ID)%nat →
  ∃ r, razion_pulse_propose_action (Some id) = Ret r ∧ proposal_ok r.
Proof.
  intros Hl. rewrite propose_action_run by done. eexists. split; [reflexivity|].
  destruct (lookup_action id) as [p|] eqn:E; [|by intros ?]. intros _. cbn [snd].
  destruct (lookup_action_in _ _ E) as [name Hin]. destruct (lookup_action_name _ _ Hin) as (_ & -> & ?). done.
Qed.

(** What the documentation requires of a classifier: its answer is at most an
    action identifier. *)
Definition short_answers : Prop :=
  ∀ h bs, env_read h RAZION_AI_ENDPOINT = Some bs →
    (length bs < resp_header + RAZION_PULSE_MAX_ACTION_ID)%nat.

(** The caller's context of the broker. *)
Definition pulse_ctx : pulse_context := PulseContext (bytes_of "razion-pulse") 15.

Lemma pulse_init_run :
  razion_pulse_init (Some (bytes_of "razion-pulse")) pulse_capabilities = Some pulse_ctx.
Proof. reflexivity. Qed.

Lemma until_nul_length s : (length (until_nul s) ≤ length s)%nat.
Proof. induction s as [|c s IH]; cbn; [done|]. destruct (c =? 0); cbn; lia. Qed.

Lemma fallback_context_flags pid : ∃ ctx,
  fallback_context pid = Some ctx ∧ ctx_default_flags ctx = Z.lor FLAG_PREFER_LOCAL FLAG_LOCAL_ONLY.
Proof. eexists. split; reflexivity. Qed.

Lemma fallback_emits Q pid request :
  short_answers → (length request < REQUEST_MAX)%nat →
  app_emits local_call Q proposal_ok (local_ai_fallback pid request).
Proof.
  intros Hshort Hl. unfold local_ai_fallback. destruct (fallback_context_flags pid) as (ctx & -> & Hf).
  assert (Hno : proposal_ok (PULSE_UNKNOWN, empty_proposal)) by done.
  assert (Hreq : (length (default [] (Some request)) < RAZION_AI_MAX_PAYLOAD)%nat).
  { cbn. unfold REQUEST_MAX, RAZION_AI_MAX_PAYLOAD in *. lia. }
  pose proof (razion_ai_request_emits ctx OP_CLASSIFY_INTENT (Some request) 0 Hreq) as Hem.
  eapply app_emits_bind.
  { apply on_pex_emits. eapply emits_mono; [exact Hem|by apply client_call_local|]. intros r Hr. exact Hr. }
  intros [[e|resp] ctx'] [_ Hres]; cbn [fst snd] in *; [by apply app_emits_ret|].
  destruct (negb _); [by apply app_emits_ret|]. destruct Hres as [(Hok & _ & _) (h & bs & Hrd & Hlen)].
  destruct (propose_action_ok (until_nul (resp_payload resp))) as (r & -> & Hr); [|by apply lift_outcome_emits].
  pose proof (until_nul_length (resp_payload resp)). pose proof (rp_payload _ Hok). pose proof (Hshort h bs Hrd).
  unfold RAZION_PULSE_MAX_ACTION_ID, resp_header in *. lia.
Qed.

(** The calls of a run: local requests, and the broker's calls unless the run
    only plans. *)
Definition run_call (o : options) (c : os_call) : Prop :=
  plan_only o = false ∧ lawful pulse_ctx (if confirmed o then 1 else 0) c.

Lemma propose_ok s : s ≠ [] → (length s < NORMALIZED_REQUEST_MAX)%nat →
  ∃ r, razion_pulse_propose (Some s) = Ret r ∧ proposal_ok r.
Proof.
  intros Hne Hl. destruct s as [|b s]; [done|]. unfold razion_pulse_propose. rewrite normalized_run by done.
  destruct (classify _) as [id|] eqn:E; [|eexists; split; [reflexivity|done]].
  apply propose_action_ok. unfold classify in E.
  repeat match type of E with (if ?c then _ else _) = _ => destruct c end; simplify_eq; vm_compute; lia.
Qed.

Lemma pulse_run_emits pid o :
  short_answers → request_text o ≠ [] → (length (request_text o) < REQUEST_MAX)%nat →
  app_emits local_call (run_call o) (λ _, True) (pulse_run pid o).
Proof.
  intros Hshort Hne Hl. unfold pulse_run. destruct (propose_ok _ Hne Hl) as (r & -> & Hr).
  eapply app_emits_bind; [by apply lift_outcome_emits|]. clear r Hr. intros r Hr.
  eapply (app_emits_bind _ _ proposal_ok).
  { destruct (bool_decide _); [by apply fallback_emits|by apply app_emits_ret]. }
  clear r Hr. intros [status p] Hp. case_bool_decide as Hst; cbn [negb]; [|by apply app_emits_ret].
  destruct (plan_only o) eqn:Epl; [by apply app_emits_ret|]. rewrite pulse_init_run.
  eapply app_emits_bind.
  { apply on_os_emits. eapply emits_mono; [by apply execute_emits, Hp| |intros r _; exact I].
    intros c Hc. by split. }
  intros [st result] _. by apply app_emits_ret.
Qed.

(** The request of the command line fits its buffer. *)
Lemma parse_args_fits argv : ∀ o o', parse_args argv o = Some o' →
  (length (request_text o) < REQUEST_MAX)%nat → (length (request_text o') < REQUEST_MAX)%nat.
Proof.
  induction argv as [|arg argv IH]; intros o o' Hp Hl; cbn [parse_args] in Hp; [by simplify_eq|].
  destruct (_ || _); [done|]. destruct (bytes_eqb arg _); [by eapply IH|].
  destruct (bytes_eqb arg _); [by eapply IH|]. destruct (bytes_eqb arg _); [by eapply IH|].
  match type of Hp with (if ?c then _ else _) = _ => destruct c eqn:E end; [done|]. apply Nat.leb_gt in E.
  eapply IH; [exact Hp|]. cbn [request_text]. rewrite !length_app. destruct (request_text o); cbn in *; lia.
Qed.

(** Once [--plan] or [--json] was seen, the run only plans; only [--confirm]
    confirms. *)
Lemma parse_args_plan argv : ∀ o o', parse_args argv o = Some o' →
  (plan_only o = true ∨ bytes_of "--plan" ∈ argv ∨ bytes_of "--json" ∈ argv → plan_only o' = true) ∧
  (confirmed o' = true → confirmed o = true ∨ bytes_of "--confirm" ∈ argv).
Proof.
  induction argv as [|arg argv IH]; intros o o' Hp; cbn [parse_args] in Hp.
  { simplify_eq. split; [|by left]. intros [?|[?%not_elem_of_nil|?%not_elem_of_nil]]; done. }
  destruct (_ || _) eqn:E0; [done|]. unfold bytes_eqb in *.
  case_bool_decide as E1; [|case_bool_decide as E2; [|case_bool_decide as E3]].
  - destruct (IH _ _ Hp) as [Hpl Hcf]. split; [intros _; apply Hpl; by left|].
    intros Hc. destruct (Hcf Hc) as [?|?]; [by left|right; by right].
  - destruct (IH _ _ Hp) as [Hpl Hcf]. split.
    + intros Hc. apply Hpl. rewrite !elem_of_cons in Hc. subst arg. by destruct Hc as [?|[[?|?]|[?|?]]]; auto.
    + intros _. right. rewrite E2. by left.
  - destruct (IH _ _ Hp) as [Hpl Hcf]. split; [intros _; apply Hpl; by left|].
    intros Hc. destruct (Hcf Hc) as [?|?]; [by left|right; by right].
  - match type of Hp with (if ?c then _ else _) = _ => destruct c end; [done|].
    destruct (IH _ _ Hp) as [Hpl Hcf]. split.
    + intros Hc. apply Hpl. rewrite !elem_of_cons in Hc. destruct Hc as [?|[[?|?]|[?|?]]]; auto; congruence.
    + intros Hc. destruct (Hcf Hc) as [?|?]; [by left|right; by right].
Qed.

Lemma read_request_fits stdin : (length (until_nul (read_request stdin)) < REQUEST_MAX)%nat.
Proof.
  eapply Nat.le_lt_trans; [apply until_nul_length|]. unfold read_request. destruct stdin as [line|]; [|cbn; unfold REQUEST_MAX; lia].
  assert (Hcut : ∀ s, (length ((fix cut s := match s with c :: s => if (c =? 10)%Z then [] else c :: cut s | [] => [] end) s)
    ≤ length s)%nat).
  { induction s as [|c s IH]; [done|]. destruct (c =? 10); cbn; lia. }
  eapply Nat.le_lt_trans; [apply Hcut|]. rewrite length_take. unfold REQUEST_MAX. lia.
Qed.

End app_run.

(** ** The properties *)

(** C10: the pulse command stays within what it was asked: for every command
    line, input, engine and operating system, as long as the engine's answers
    are no longer than an action identifier, it terminates; whatever it sends
    to the engine is a local-only request that no cloud provider is eligible
    for; with [--plan] or [--json] it makes no operating-system call at all;
    and every call it makes otherwise is lawful for its fixed capabilities,
    confirmed only if [--confirm] was given. *)
Theorem pulse_main_confined `{PexEnv} `{!PexBytes} `{PulseEnv} `{Stack} pid argv stdin h os :
  short_answers →
  ∃ r l l', pulse_main pid argv stdin (h, os) = Ret (r, (h ++ l, os ++ l')) ∧
    Forall local_call l ∧
    (bytes_of "--plan" ∈ argv ∨ bytes_of "--json" ∈ argv → l' = []) ∧
    Forall (λ c, lawful pulse_ctx 0 c ∨ (bytes_of "--confirm" ∈ argv ∧ lawful pulse_ctx 1 c)) l'.
Proof.
  intros Hshort. unfold pulse_main.
  destruct (parse_args argv (Options false false false [])) as [o|] eqn:Ep.
  2: { eexists _, [], []. rewrite !app_nil_r. split_and!; [reflexivity|constructor|done|constructor]. }
  destruct (parse_args_plan _ _ _ Ep) as [Hplan Hconf].
  assert (Hgo : ∀ s (m : M _ (Z * bytes)), app_emits local_call (run_call (Options (plan_only o) (confirmed o) (json o) s))
      (λ _, True) m →
    ∃ r l l', m (h, os) = Ret (r, (h ++ l, os ++ l')) ∧ Forall local_call l ∧
      (bytes_of "--plan" ∈ argv ∨ bytes_of "--json" ∈ argv → l' = []) ∧
      Forall (λ c, lawful pulse_ctx 0 c ∨ (bytes_of "--confirm" ∈ argv ∧ lawful pulse_ctx 1 c)) l').
  { intros s m Hm. destruct (Hm h os) as (r & l & l' & Hr & Hl & Hl' & _). exists r, l, l'.
    split_and!; [done|done| |].
    - intros Hp. destruct Hl' as [|c l' [Hc _] _]; [done|]. cbn in Hc. rewrite Hplan in Hc by auto. done.
    - apply (Forall_impl _ _ _ Hl'). intros c [_ Hc]. cbn in Hc. destruct (confirmed o); [|by left].
      right. split; [|done]. by destruct (Hconf eq_refl). }
  destruct (request_text o) as [|b t] eqn:Et.
  - destruct (until_nul (read_request stdin)) as [|c s] eqn:Es.
    { eexists _, [], []. rewrite !app_nil_r. split_and!; [reflexivity|constructor|done|constructor]. }
    apply (Hgo (c :: s)). eapply app_emits_bind; [|intros r _; by apply app_emits_ret].
    apply pulse_run_emits; [done|done|]. cbn [request_text]. rewrite <-Es. apply read_request_fits.
  - apply (Hgo (b :: t)). rewrite <-Et. destruct o as [pl cf js tx]. cbn [request_text plan_only confirmed json] in *.
    apply pulse_run_emits; [done|by rewrite Et|]. cbn [request_text].
    eapply (parse_args_fits _ _ _ Ep). cbn. unfold REQUEST_MAX. lia.
Qed.

(** C31: the JSON the command prints is well-formed: every string it writes is
    a quoted string that reads back, by the JSON escapes, as the original text
    without its other control characters. *)
Theorem json_string_reads_back s :
  ∃ body, json_string s = 34 :: body ∧ json_unescape body = Some (List.filter json_kept s).
Proof. eexists. split; [reflexivity|]. apply json_unescape_body. Qed.

(** ** Witnesses *)

Lemma demo_short_answers : @short_answers demo_env.
Proof. intros h bs [= <-]. vm_compute. lia. Qed.

Lemma pulse_main_confined_witness :
  ∃ r l l', @pulse_main demo_env demo_os demo_stack 1 [bytes_of "--plan"; bytes_of "do"; bytes_of "something"] None
      ([], []) = Ret (r, ([] ++ l, [] ++ l')) ∧ Forall local_call l ∧ l' = [].
Proof.
  destruct (@pulse_main_confined demo_env demo_env_bytes demo_os demo_stack 1
    [bytes_of "--plan"; bytes_of "do"; bytes_of "something"] None [] [] demo_short_answers)
    as (r & l & l' & Hr & Hl & Hp & _).
  exists r, l, l'. split; [exact Hr|]. split; [exact Hl|]. apply Hp. left. left.
Defined.

(** The command asked in plain words, end to end with the endpoint that
    always answers "open-terminal". *)
Example demo_pulse_main :
  match @pulse_main demo_env demo_os demo_stack 1 [bytes_of "start"; bytes_of "a"; bytes_of "shell"] None ([], []) with
  | Ret ((code, _), (pex, os)) =>
      code = 0 ∧ length pex = 4%nat ∧
      os !! 2%nat = Some (Execv (bytes_of "/bin/terminal") [bytes_of "/bin/terminal"])
  | _ => False
  end.
Proof. vm_compute. split_and!; reflexivity. Qed.
