(* ===== verification/RingBuffer.v ===== *)
(** * The kernel ring buffer (kernel/misc/ringbuffer.c)

    The byte queue behind terminals and other character devices, with readers
    and writers that sleep.  The file has three layers.

    - [ring] is the storage: the array with its read and write index, in the
      64-bit arithmetic of the code, and the two copying loops.  kernel/vfs/pipe.c
      repeats this storage line by line, so [Pipe] reuses it.
    - [ring_buffer] is the shared object with its wait queues.  Every function
      of the file is a command on it.  A call that sleeps is cut where it gives
      up the processor: the command runs up to the sleep and returns the
      [frame] that [resume] continues from.  A command is one critical section
      of the code, with the wake-ups that follow its unlock.
    - [step] is the system: any number of processes call, sleep, are woken, are
      interrupted by signals and are scheduled in any order.

    [wakeup_queue], [sleep_on_unlocking] and the interruption of a sleeper by
    [make_process_ready] come from kernel/sys/process.c.  A wait queue is the
    sequence of processes its list represents. *)

From S2P Require Import Prelude.

Abbreviation pid := positive.

(** ** Storage *)

Record ring := Ring {
  r_buffer : list Z;
  r_write_ptr : Z;
  r_read_ptr : Z;
  r_size : Z
}.

Definition unread (r : ring) : Z :=
  if r_read_ptr r =? r_write_ptr r then 0
  else if r_write_ptr r <? r_read_ptr r
  then u64 ((r_size r - r_read_ptr r) + r_write_ptr r)
  else u64 (r_write_ptr r - r_read_ptr r).

Definition available (r : ring) : Z :=
  if r_read_ptr r =? r_write_ptr r then u64 (r_size r - 1)
  else if r_write_ptr r <? r_read_ptr r
  then u64 (r_read_ptr r - r_write_ptr r - 1)
  else u64 ((r_size r - r_write_ptr r) + r_read_ptr r - 1).

Definition increment_read (r : ring) : ring :=
  let p := u64 (r_read_ptr r + 1) in
  Ring (r_buffer r) (r_write_ptr r) (if p =? r_size r then 0 else p) (r_size r).

Definition increment_write (r : ring) : ring :=
  let p := u64 (r_write_ptr r + 1) in
  Ring (r_buffer r) (if p =? r_size r then 0 else p) (r_read_ptr r) (r_size r).

Definition set_buffer (b : list Z) (r : ring) : ring :=
  Ring b (r_write_ptr r) (r_read_ptr r) (r_size r).

(** [while (unread > 0 && collected < size)]: the bytes stored into the
    caller's buffer, in order. *)
Fixpoint read_loop (fuel : nat) (size : Z) (out : list Z) (r : ring) : outcome (list Z * ring) :=
  match fuel with
  | O => Spin
  | S fuel =>
      if (0 <? unread r) && (Z.of_nat (length out) <? size) then
        match r_buffer r !! Z.to_nat (r_read_ptr r) with
        | None => Fault
        | Some b => read_loop fuel size (out ++ [b]) (increment_read r)
        end
      else Ret (out, r)
  end.

(** [while (available > 0 && written < size)] over the caller's bytes. *)
Fixpoint write_loop (fuel : nat) (data : list Z) (written : nat) (r : ring) : outcome (nat * ring) :=
  match fuel with
  | O => Spin
  | S fuel =>
      if (0 <? available r) && (written <? length data)%nat then
        match data !! written, r_buffer r !! Z.to_nat (r_write_ptr r) with
        | Some b, Some _ =>
            write_loop fuel data (S written)
              (increment_write (set_buffer (<[Z.to_nat (r_write_ptr r) := b]> (r_buffer r)) r))
        | _, _ => Fault
        end
      else Ret (written, r)
  end.

(** Each turn of a loop moves one byte, so the size of the array bounds both. *)
Definition ring_fuel (r : ring) : nat := S (length (r_buffer r)).

(** ** The shared object *)

Record ring_buffer := RingBuffer {
  rb_ring : ring;
  rb_wait_queue_readers : list pid;
  rb_wait_queue_writers : list pid;
  rb_internal_stop : bool;
  rb_alert_waiters : option (list pid);
  rb_discard : bool;
  rb_soft_stop : bool
}.

(** The object; the calls of [process_alert_node] made so far; the processes
    whose [node_waits] list the object has been entered into. *)
Record world := World { w_rb : ring_buffer; w_alerted : list pid; w_node_waits : list pid }.

Definition set_ring (r : ring) (w : world) : world :=
  let b := w_rb w in
  World (RingBuffer r (rb_wait_queue_readers b) (rb_wait_queue_writers b) (rb_internal_stop b)
           (rb_alert_waiters b) (rb_discard b) (rb_soft_stop b)) (w_alerted w) (w_node_waits w).
Definition set_queues (rs ws : list pid) (w : world) : world :=
  let b := w_rb w in
  World (RingBuffer (rb_ring b) rs ws (rb_internal_stop b) (rb_alert_waiters b) (rb_discard b)
           (rb_soft_stop b)) (w_alerted w) (w_node_waits w).
Definition set_stops (internal soft : bool) (w : world) : world :=
  let b := w_rb w in
  World (RingBuffer (rb_ring b) (rb_wait_queue_readers b) (rb_wait_queue_writers b) internal
           (rb_alert_waiters b) (rb_discard b) soft) (w_alerted w) (w_node_waits w).
Definition set_alerts (waiters : option (list pid)) (alerted : list pid) (w : world) : world :=
  let b := w_rb w in
  World (RingBuffer (rb_ring b) (rb_wait_queue_readers b) (rb_wait_queue_writers b) (rb_internal_stop b)
           waiters (rb_discard b) (rb_soft_stop b)) alerted (w_node_waits w).

(** Where a process sleeps inside a call. *)
Inductive frame :=
| InRead (size : Z)
| InWrite (data : list Z) (written : nat).

(** How a command ends: the call returns a value (and the bytes it stored in
    the caller's buffer), or the process sleeps. *)
Inductive control :=
| Returned (r : Z) (out : list Z)
| Asleep (f : frame).

Definition ERESTARTSYS : Z := 512.

(** [wakeup_queue] empties the queue: every process in it becomes ready. *)
Definition wakeup_readers : M world unit := modify (λ w, set_queues [] (rb_wait_queue_writers (w_rb w)) w).
Definition wakeup_writers : M world unit := modify (λ w, set_queues (rb_wait_queue_readers (w_rb w)) [] w).

(** [sleep_on_unlocking] up to the switch: the process enters the queue. *)
Definition sleep_readers (self : pid) (f : frame) : M world control :=
  _ ← modify (λ w, set_queues (rb_wait_queue_readers (w_rb w) ++ [self]) (rb_wait_queue_writers (w_rb w)) w);
  mret (Asleep f).
Definition sleep_writers (self : pid) (f : frame) : M world control :=
  _ ← modify (λ w, set_queues (rb_wait_queue_readers (w_rb w)) (rb_wait_queue_writers (w_rb w) ++ [self]) w);
  mret (Asleep f).

Definition on_ring {A} (f : ring → outcome (A * ring)) : M world A := λ w,
  match f (rb_ring (w_rb w)) with
  | Ret (a, r) => Ret (a, set_ring r w)
  | Fault => Fault
  | Spin => Spin
  end.

Definition ring_buffer_unread (b : ring_buffer) : Z := unread (rb_ring b).
Definition ring_buffer_size (b : ring_buffer) : Z := ring_buffer_unread b.
Definition ring_buffer_available (b : ring_buffer) : Z := available (rb_ring b).

(** Every process in the list is dequeued and alerted, from the head. *)
Definition ring_buffer_alert_waiters : M world unit :=
  modify (λ w, match rb_alert_waiters (w_rb w) with
               | None => w
               | Some ps => set_alerts (Some []) (w_alerted w ++ ps) w
               end).

Definition ring_buffer_select_wait (process : pid) : M world unit :=
  _ ← modify (λ w,
    let ps := default [] (rb_alert_waiters (w_rb w)) in
    set_alerts (Some (if bool_decide (process ∈ ps) then ps else ps ++ [process])) (w_alerted w) w);
  modify (λ w, World (w_rb w) (w_alerted w) (w_node_waits w ++ [process])).

Definition ring_buffer_discard : M world unit :=
  modify (λ w, let r := rb_ring (w_rb w) in
               set_ring (Ring (r_buffer r) (r_write_ptr r) (r_write_ptr r) (r_size r)) w).

Definition ring_buffer_read (self : pid) (size : Z) : M world control :=
  out ← on_ring (λ r, read_loop (ring_fuel r) size [] r);
  _ ← wakeup_writers;
  match out with
  | [] =>
      b ← gets w_rb;
      if rb_internal_stop b || rb_soft_stop b
      then _ ← modify (set_stops (rb_internal_stop b) false); mret (Returned 0 [])
      else sleep_readers self (InRead size)
  | _ :: _ =>
      _ ← wakeup_writers;
      mret (Returned (Z.of_nat (length out)) out)
  end.

Definition write_done (written : nat) : M world control :=
  _ ← wakeup_readers;
  _ ← ring_buffer_alert_waiters;
  mret (Returned (Z.of_nat written) []).

(** One turn of the outer loop of [ring_buffer_write]. *)
Definition write_turn (self : pid) (data : list Z) (written : nat) : M world control :=
  if (written <? length data)%nat then
    written ← on_ring (λ r, write_loop (ring_fuel r) data written r);
    _ ← wakeup_readers;
    _ ← ring_buffer_alert_waiters;
    if (written <? length data)%nat then
      b ← gets w_rb;
      if rb_discard b then write_done written
      else sleep_writers self (InWrite data written)
    else write_done written
  else write_done written.

Definition ring_buffer_write (self : pid) (data : list Z) : M world control := write_turn self data 0.

(** The rest of a call after [sleep_on_unlocking] returned [interrupted]. *)
Definition resume (self : pid) (f : frame) (interrupted : bool) : M world control :=
  match f with
  | InRead size => if interrupted then mret (Returned (- ERESTARTSYS) []) else ring_buffer_read self size
  | InWrite data written =>
      if interrupted then
        if (written =? 0)%nat then mret (Returned (- ERESTARTSYS) []) else write_done written
      else
        b ← gets w_rb;
        if rb_internal_stop b then write_done written else write_turn self data written
  end.

(** [malloc] does not clear the array: its contents are a parameter. *)
Definition ring_buffer_create (size : Z) (garbage : list Z) : ring_buffer :=
  RingBuffer (Ring garbage 0 0 size) [] [] false None false false.

(** What [ring_buffer_destroy] gives back, in order. *)
Inductive resource := BufferFrame | BufferMemory | WritersQueue | ReadersQueue | AlertsQueue.

Definition ring_buffer_destroy : M world (list resource) :=
  b ← gets w_rb;
  let buffer := if r_size (rb_ring b) =? 4096 then BufferFrame else BufferMemory in
  _ ← wakeup_writers;
  _ ← wakeup_readers;
  _ ← ring_buffer_alert_waiters;
  mret (buffer :: WritersQueue :: ReadersQueue ::
        match rb_alert_waiters b with Some _ => [AlertsQueue] | None => [] end).

Definition ring_buffer_interrupt : M world unit :=
  _ ← modify (λ w, set_stops true (rb_soft_stop (w_rb w)) w); _ ← wakeup_readers; wakeup_writers.

Definition ring_buffer_eof : M world unit :=
  _ ← modify (λ w, set_stops (rb_internal_stop (w_rb w)) true w); _ ← wakeup_readers; wakeup_writers.

(** ** The byte sequence a ring represents *)

(** Index of the [i]-th unread byte. *)
Definition slot_of (r : ring) (i : nat) : nat := Z.to_nat ((r_read_ptr r + Z.of_nat i) mod r_size r).
Definition fill (r : ring) : nat := Z.to_nat ((r_write_ptr r - r_read_ptr r) mod r_size r).
Definition contents (r : ring) : list Z := (λ i, r_buffer r !!! slot_of r i) <$> seq 0 (fill r).

(** The indices are within the array, whose size is positive and fits the
    type. *)
Definition ring_ok (r : ring) : Prop :=
  Z.of_nat (length (r_buffer r)) = r_size r ∧ r_size r < 2 ^ 64 ∧
  0 ≤ r_read_ptr r < r_size r ∧ 0 ≤ r_write_ptr r < r_size r.

Lemma contents_length r : length (contents r) = fill r.
Proof. unfold contents. by rewrite length_fmap, length_seq. Qed.

Lemma mod_up a m : 0 ≤ a < m → a mod m = a.
Proof. intros. by apply Z.mod_small. Qed.

Lemma mod_down a m : - m ≤ a < 0 → a mod m = a + m.
Proof. intros. rewrite <-(Z_mod_plus_full a 1 m). rewrite Z.mod_small; lia. Qed.

Lemma mod_over a m : m ≤ a < 2 * m → a mod m = a - m.
Proof. intros. rewrite <-(Z_mod_plus_full a (-1) m). rewrite Z.mod_small; lia. Qed.

(** Decide the remainders of a goal about indices by the range of their
    arguments. *)
Ltac mod_cases :=
  repeat match goal with
  | |- context [?a mod ?m] =>
      first [rewrite (mod_up a m) by lia | rewrite (mod_down a m) by lia | rewrite (mod_over a m) by lia]
  | H : context [?a mod ?m] |- _ =>
      first [rewrite (mod_up a m) in H by lia | rewrite (mod_down a m) in H by lia
            | rewrite (mod_over a m) in H by lia]
  end.

Lemma fill_lt r : ring_ok r → Z.of_nat (fill r) < r_size r.
Proof.
  intros (_ & _ & ? & ?). unfold fill.
  pose proof (Z.mod_pos_bound (r_write_ptr r - r_read_ptr r) (r_size r)). lia.
Qed.

Lemma unread_fill r : ring_ok r → unread r = Z.of_nat (fill r).
Proof.
  intros (_ & ? & ? & ?). unfold unread, fill.
  destruct (Z.eqb_spec (r_read_ptr r) (r_write_ptr r)) as [->|].
  { by rewrite Z.sub_diag, Z.mod_0_l by lia. }
  destruct (Z.ltb_spec (r_write_ptr r) (r_read_ptr r)); mod_cases; rewrite wrap_small; lia.
Qed.

Lemma available_fill r : ring_ok r → available r = r_size r - 1 - Z.of_nat (fill r).
Proof.
  intros (_ & ? & ? & ?). unfold available, fill.
  destruct (Z.eqb_spec (r_read_ptr r) (r_write_ptr r)) as [->|].
  { rewrite Z.sub_diag, Z.mod_0_l, wrap_small by lia. lia. }
  destruct (Z.ltb_spec (r_write_ptr r) (r_read_ptr r)); mod_cases; rewrite wrap_small; lia.
Qed.

Lemma next_index p n : 0 ≤ p < n → n < 2 ^ 64 →
  (if u64 (p + 1) =? n then 0 else u64 (p + 1)) = (p + 1) mod n.
Proof.
  intros. destruct (decide (p + 1 = 2 ^ 64)); [lia|]. rewrite wrap_small by lia.
  destruct (Z.eqb_spec (p + 1) n) as [->|]; [by rewrite Z.mod_same by lia|].
  by rewrite mod_up by lia.
Qed.

Lemma increment_read_ok r : ring_ok r → ring_ok (increment_read r).
Proof.
  intros (? & ? & ? & ?). unfold ring_ok, increment_read; cbn. rewrite next_index by lia.
  split_and!; [lia..|apply Z.mod_pos_bound; lia|apply Z.mod_pos_bound; lia|lia|lia].
Qed.

(** Reading a byte takes the head of the sequence. *)
Lemma increment_read_contents r b : ring_ok r → (0 < fill r)%nat →
  r_buffer r !! Z.to_nat (r_read_ptr r) = Some b → contents r = b :: contents (increment_read r).
Proof.
  intros (? & ? & ? & ?) Hf Hb. unfold contents.
  assert (Hfill : fill r = S (fill (increment_read r))).
  { revert Hf. unfold fill, increment_read; cbn. rewrite next_index by lia. intros Hf.
    destruct (Z.leb_spec (r_read_ptr r + 1) (r_size r - 1)); mod_cases;
      destruct (Z.leb_spec (r_read_ptr r) (r_write_ptr r)); mod_cases; lia. }
  rewrite Hfill, <-cons_seq, fmap_cons. f_equal.
  - unfold slot_of. rewrite Z.add_0_r, mod_up by lia. by apply list_lookup_total_correct.
  - rewrite <-fmap_S_seq, <-list_fmap_compose. apply list_fmap_ext. intros i j Hj. cbn. f_equal.
    unfold slot_of, increment_read; cbn. rewrite next_index by lia.
    rewrite Zplus_mod_idemp_l. do 2 f_equal. lia.
Qed.

Lemma slot_of_lt r i : ring_ok r → (slot_of r i < length (r_buffer r))%nat.
Proof.
  intros (? & ? & ? & ?). unfold slot_of.
  pose proof (Z.mod_pos_bound (r_read_ptr r + Z.of_nat i) (r_size r)). lia.
Qed.

Lemma slot_of_fill r : ring_ok r → slot_of r (fill r) = Z.to_nat (r_write_ptr r).
Proof.
  intros (? & ? & ? & ?). unfold slot_of, fill. f_equal.
  rewrite Z2Nat.id by (apply Z.mod_pos_bound; lia). rewrite Zplus_mod_idemp_r.
  rewrite mod_up by lia. lia.
Qed.

Lemma slot_of_inj r i j : ring_ok r → (i < j)%nat → Z.of_nat j < r_size r → slot_of r i ≠ slot_of r j.
Proof.
  intros (? & ? & ? & ?) ? ?. unfold slot_of.
  destruct (Z.ltb_spec (r_read_ptr r + Z.of_nat i) (r_size r));
    destruct (Z.ltb_spec (r_read_ptr r + Z.of_nat j) (r_size r)); mod_cases; lia.
Qed.

Definition push (b : Z) (r : ring) : ring :=
  increment_write (set_buffer (<[Z.to_nat (r_write_ptr r) := b]> (r_buffer r)) r).

Lemma push_ok b r : ring_ok r → ring_ok (push b r).
Proof.
  intros (? & ? & ? & ?). unfold ring_ok, push, increment_write; cbn.
  rewrite length_insert, next_index by lia.
  split_and!; [lia..|apply Z.mod_pos_bound; lia|apply Z.mod_pos_bound; lia].
Qed.

(** Writing a byte appends it. *)
Lemma push_contents b r : ring_ok r → 0 < available r → contents (push b r) = contents r ++ [b].
Proof.
  intros Hok Hav. rewrite available_fill in Hav by done. pose proof (slot_of_fill r Hok) as Hw.
  pose proof Hok as (Hl & ? & ? & ?).
  assert (Hfill : fill (push b r) = S (fill r)).
  { revert Hav. unfold fill, push, increment_write; cbn. rewrite next_index by lia. intros Hav.
    destruct (Z.leb_spec (r_write_ptr r + 1) (r_size r - 1)); mod_cases;
      destruct (Z.leb_spec (r_read_ptr r) (r_write_ptr r)); mod_cases; lia. }
  assert (Hs : ∀ i, slot_of (push b r) i = slot_of r i) by done.
  assert (Hb : r_buffer (push b r) = <[slot_of r (fill r) := b]> (r_buffer r)) by (by rewrite Hw).
  unfold contents. rewrite Hfill, seq_S, fmap_app, Hb. f_equal; cbn [fmap list_fmap Nat.add].
  - apply list_fmap_ext. intros i j Hj. apply lookup_seq in Hj as [-> Hi]. rewrite Hs.
    apply list_lookup_total_insert_ne, not_eq_sym, slot_of_inj; [done|lia|lia].
  - f_equal. rewrite Hs. apply list_lookup_total_insert_eq. by apply slot_of_lt.
Qed.

(** ** The copying loops on the sequence *)

(** [read_loop] moves the first bytes of the sequence, as many as are asked
    for and present, into the caller's buffer. *)
Lemma read_loop_run size : ∀ fuel out r,
  ring_ok r → (fill r < fuel)%nat → Z.of_nat (length out) ≤ Z.max 0 size →
  ∃ r', read_loop fuel size out r = Ret (out ++ take (Z.to_nat size - length out) (contents r), r') ∧
    ring_ok r' ∧ r_size r' = r_size r ∧ contents r' = drop (Z.to_nat size - length out) (contents r).
Proof.
  induction fuel as [|fuel IH]; intros out r Hok Hf Ho; [lia|]. cbn [read_loop].
  rewrite unread_fill by done.
  destruct (Z.ltb_spec 0 (Z.of_nat (fill r))) as [Hpos|Hz]; cbn [andb].
  - destruct (Z.ltb_spec (Z.of_nat (length out)) size).
    + assert (is_Some (r_buffer r !! Z.to_nat (r_read_ptr r))) as [b Hb].
      { apply lookup_lt_is_Some. destruct Hok as (? & ? & ? & ?). lia. }
      rewrite Hb. pose proof (increment_read_contents r b Hok ltac:(lia) Hb) as Hc.
      pose proof (f_equal length Hc) as Hlen. cbn in Hlen. rewrite !contents_length in Hlen.
      destruct (IH (out ++ [b]) (increment_read r)) as (r' & -> & Hok' & Hsz & Hc');
        [by apply increment_read_ok|lia|rewrite length_app; cbn; lia|].
      exists r'. rewrite Hc, Hc', length_app. cbn [length].
      replace (Z.to_nat size - length out)%nat with (S (Z.to_nat size - (length out + 1)))%nat by lia.
      cbn [take drop]. by rewrite <-(assoc_L (++)).
    + exists r. replace (Z.to_nat size - length out)%nat with 0%nat by lia.
      rewrite take_0, drop_0, app_nil_r. by split_and!.
  - exists r. assert (Hnil : contents r = []) by (apply nil_length_inv; rewrite contents_length; lia).
    rewrite Hnil, take_nil, drop_nil, app_nil_r. by split_and!.
Qed.

(** Room left in the ring. *)
Definition room (r : ring) : nat := (Z.to_nat (r_size r) - 1 - fill r)%nat.

(** [write_loop] appends the rest of the caller's bytes as far as there is
    room. *)
Lemma write_loop_run data : ∀ fuel written r,
  ring_ok r → (room r < fuel)%nat → (written ≤ length data)%nat →
  let n := Nat.min (room r) (length data - written) in
  ∃ r', write_loop fuel data written r = Ret ((written + n)%nat, r') ∧
    ring_ok r' ∧ r_size r' = r_size r ∧ contents r' = contents r ++ take n (drop written data).
Proof.
  induction fuel as [|fuel IH]; intros written r Hok Hf Hw; [lia|]. cbn zeta. cbn [write_loop].
  pose proof (fill_lt r Hok). rewrite available_fill by done. unfold room in *.
  destruct (Z.ltb_spec 0 (r_size r - 1 - Z.of_nat (fill r))) as [Hpos|Hz]; cbn [andb].
  - destruct (Nat.ltb_spec written (length data)) as [Hlt|Hge].
    + assert (is_Some (r_buffer r !! Z.to_nat (r_write_ptr r))) as [b0 Hb0].
      { apply lookup_lt_is_Some. destruct Hok as (? & ? & ? & ?). lia. }
      destruct (lookup_lt_is_Some_2 data written Hlt) as [b Hb]. rewrite Hb, Hb0. fold (push b r).
      assert (Hc : contents (push b r) = contents r ++ [b]).
      { apply push_contents; [done|]. rewrite available_fill by done. lia. }
      pose proof (f_equal length Hc) as Hlen. rewrite length_app, !contents_length in Hlen. cbn in Hlen.
      change (r_size (push b r)) with (r_size r) in *.
      destruct (IH (S written) (push b r)) as (r' & -> & Hok' & Hsz & Hc'); [by apply push_ok| |lia|].
      { change (r_size (push b r)) with (r_size r). lia. }
      change (r_size (push b r)) with (r_size r) in *. rewrite Hlen in *.
      exists r'. rewrite Hc', Hc, (drop_S data b written Hb), <-(assoc_L (++)).
      replace (Nat.min (Z.to_nat (r_size r) - 1 - fill r) (length data - written))
        with (S (Nat.min (Z.to_nat (r_size r) - 1 - (fill r + 1)) (length data - S written))) by lia.
      split_and!; [do 2 f_equal; lia|done..].
    + exists r. replace (length data - written)%nat with 0%nat by lia. rewrite Nat.min_0_r, take_0, app_nil_r.
      split_and!; [do 2 f_equal; lia|done..].
  - exists r. replace (Z.to_nat (r_size r) - 1 - fill r)%nat with 0%nat by lia. cbn [Nat.min].
    rewrite take_0, app_nil_r. split_and!; [do 2 f_equal; lia|done..].
Qed.

(** ** What each command does *)

Definition w_ring (w : world) : ring := rb_ring (w_rb w).
Definition w_contents (w : world) : list Z := contents (w_ring w).

(** The world after a reader took its bytes: the writers are awake. *)
Definition after_read (r : ring) (w : world) : world :=
  set_queues (rb_wait_queue_readers (w_rb w)) [] (set_ring r w).

(** The world after a writer stored its bytes: readers are awake and every
    waiting process has been alerted. *)
Definition after_write (r : ring) (w : world) : world :=
  let b := w_rb w in
  let w' := set_queues [] (rb_wait_queue_writers b) (set_ring r w) in
  match rb_alert_waiters b with
  | None => w'
  | Some ps => set_alerts (Some []) (w_alerted w ++ ps) w'
  end.

Lemma ring_fuel_enough r : ring_ok r → (fill r < ring_fuel r)%nat ∧ (room r < ring_fuel r)%nat.
Proof. intros Hok. pose proof (fill_lt r Hok). destruct Hok as (? & ? & ? & ?). unfold room, ring_fuel. lia. Qed.

Lemma on_ring_run {A} (f : ring → outcome (A * ring)) w a r :
  f (w_ring w) = Ret (a, r) → on_ring f w = Ret (a, set_ring r w).
Proof. intros H. unfold on_ring. fold (w_ring w). by rewrite H. Qed.

Lemma read_run self size w : ring_ok (w_ring w) →
  ∃ r, ring_ok r ∧ r_size r = r_size (w_ring w) ∧ contents r = drop (Z.to_nat size) (w_contents w) ∧
    ring_buffer_read self size w = Ret
      match take (Z.to_nat size) (w_contents w) with
      | [] =>
          if rb_internal_stop (w_rb w) || rb_soft_stop (w_rb w)
          then (Returned 0 [], set_stops (rb_internal_stop (w_rb w)) false (after_read r w))
          else (Asleep (InRead size),
                set_queues (rb_wait_queue_readers (w_rb w) ++ [self]) [] (after_read r w))
      | out => (Returned (Z.of_nat (length out)) out, after_read r w)
      end.
Proof.
  intros Hok. destruct (read_loop_run size (ring_fuel (w_ring w)) [] (w_ring w) Hok) as (r & Hr & Hok' & Hsz & Hc);
    [by apply ring_fuel_enough|cbn; lia|]. cbn in Hr, Hc. rewrite Nat.sub_0_r in Hr, Hc. fold (w_contents w) in Hr, Hc.
  exists r. split_and!; [done..|]. unfold ring_buffer_read.
  rewrite (run_bind_Ret _ _ _ _ _ (on_ring_run _ w _ _ Hr)).
  destruct (take (Z.to_nat size) (w_contents w)) as [|b out]; [|reflexivity].
  mrun. destruct (rb_internal_stop (w_rb w) || rb_soft_stop (w_rb w)); reflexivity.
Qed.

Lemma write_done_run n w : write_done n w = Ret (Returned (Z.of_nat n) [], after_write (w_ring w) w).
Proof.
  unfold write_done, after_write. mrun. unfold ring_buffer_alert_waiters, wakeup_readers. mrun.
  destruct w as [[] ? ?]; cbn. by destruct rb_alert_waiters0.
Qed.

Lemma after_write_idem r w : ring_ok r → after_write r (after_write r w) = after_write r w.
Proof.
  intros _. destruct w as [[] ? ?]. unfold after_write; cbn.
  destruct rb_alert_waiters0; cbn; [|done]. by rewrite app_nil_r.
Qed.

Lemma after_write_ring r w : w_ring (after_write r w) = r.
Proof. destruct w as [[] ? ?]. unfold after_write; cbn. by destruct rb_alert_waiters0. Qed.

(** Bytes a turn moves into the ring. *)
Definition moved_bytes (data : list Z) (written : nat) (w : world) : nat :=
  Nat.min (room (w_ring w)) (length data - written).

Lemma write_turn_run self data written w : ring_ok (w_ring w) → (written ≤ length data)%nat →
  let n := moved_bytes data written w in
  ∃ r, ring_ok r ∧ r_size r = r_size (w_ring w) ∧ contents r = w_contents w ++ take n (drop written data) ∧
    write_turn self data written w = Ret
      (if ((written + n <? length data)%nat && negb (rb_discard (w_rb w)))
       then (Asleep (InWrite data (written + n)),
             set_queues [] (rb_wait_queue_writers (w_rb w) ++ [self]) (after_write r w))
       else (Returned (Z.of_nat (written + n)) [], after_write r w)).
Proof.
  intros Hok Hle n. subst n. unfold moved_bytes, write_turn.
  destruct (Nat.ltb_spec written (length data)) as [Hlt|Hge].
  - destruct (write_loop_run data (ring_fuel (w_ring w)) written (w_ring w) Hok) as (r & Hr & Hok' & Hsz & Hc);
      [by apply ring_fuel_enough|lia|]. set (n := Nat.min _ _) in *. exists r. split_and!; [done..|].
    rewrite (run_bind_Ret _ _ _ _ _ (on_ring_run (λ r, write_loop (ring_fuel r) data written r) w _ _ Hr)).
    assert (Hstep : ∀ (k : M world control),
      (wakeup_readers ≫= λ _, ring_buffer_alert_waiters ≫= λ _, k) (set_ring r w) = k (after_write r w)).
    { intros k. destruct w as [[] ? ?]. unfold ring_buffer_alert_waiters, wakeup_readers, after_write. mrun.
      by destruct rb_alert_waiters0. }
    rewrite Hstep. destruct (Nat.ltb_spec (written + n) (length data)); cbn [andb].
    + assert (Hd : rb_discard (w_rb (after_write r w)) = rb_discard (w_rb w)).
      { destruct w as [[] ? ?]. unfold after_write; cbn. by destruct rb_alert_waiters0. }
      mrun. rewrite Hd. destruct (rb_discard (w_rb w)); cbn [negb].
      * by rewrite write_done_run, after_write_ring, after_write_idem.
      * destruct w as [[] ? ?]. unfold sleep_writers, after_write. mrun. by destruct rb_alert_waiters0.
    + by rewrite write_done_run, after_write_ring, after_write_idem.
  - exists (w_ring w). replace (length data - written)%nat with 0%nat by lia.
    rewrite Nat.min_0_r, take_0, app_nil_r, Nat.add_0_r. split_and!; [done..|].
    rewrite (proj2 (Nat.ltb_ge _ _)) by lia. cbn [andb]. apply write_done_run.
Qed.

(** ** The system: processes sharing the object *)

(** How a process comes to run code of the ring buffer: it calls, or it was
    asleep in a call and is scheduled again. *)
Inductive entry :=
| CallRead (size : Z)
| CallWrite (data : list Z)
| Woken (f : frame) (interrupted : bool).

Definition enter (self : pid) (e : entry) : M world control :=
  match e with
  | CallRead size => ring_buffer_read self size
  | CallWrite data => ring_buffer_write self data
  | Woken f interrupted => resume self f interrupted
  end.

Inductive event :=
| Run (p : pid) (e : entry) (c : control)
| Signal (p : pid)
| Discard (bs : list Z)
| Eof
| Interrupt
| SelectWait (p : pid).

(** Processes asleep in a call with the frame they sleep in, and the ones whose
    sleep was ended by a signal ([PROC_FLAG_SLEEP_INT]). *)
Record system := System {
  s_world : world;
  s_frames : gmap pid frame;
  s_interrupted : gset pid
}.

Definition sleeping (s : system) : list pid :=
  rb_wait_queue_readers (w_rb (s_world s)) ++ rb_wait_queue_writers (w_rb (s_world s)).

Definition settle (p : pid) (c : control) (w : world) (s : system) : system :=
  match c with
  | Returned _ _ => System w (delete p (s_frames s)) (s_interrupted s ∖ {[p]})
  | Asleep f => System w (<[p := f]> (s_frames s)) (s_interrupted s ∖ {[p]})
  end.

(** [make_process_ready] on a sleeper: out of its queue, marked interrupted. *)
Definition interrupt_sleeper (p : pid) (s : system) : system :=
  let w := s_world s in
  System (set_queues (filter (λ q, q ≠ p) (rb_wait_queue_readers (w_rb w)))
            (filter (λ q, q ≠ p) (rb_wait_queue_writers (w_rb w))) w)
    (s_frames s) ({[p]} ∪ s_interrupted s).

Definition with_world (w : world) (s : system) : system := System w (s_frames s) (s_interrupted s).

(** A process may enter with a new call when it is not inside one, and with
    the frame it left when nobody holds it in a queue any more. *)
Definition may_enter (s : system) (p : pid) (e : entry) : Prop :=
  match e with
  | CallRead _ | CallWrite _ => s_frames s !! p = None
  | Woken f i => s_frames s !! p = Some f ∧ (p ∉ sleeping s) ∧ i = bool_decide (p ∈ s_interrupted s)
  end.

Inductive step (s : system) : event → system → Prop :=
| step_run p e c w : may_enter s p e → enter p e (s_world s) = Ret (c, w) →
    step s (Run p e c) (settle p c w s)
| step_signal p : p ∈ sleeping s → step s (Signal p) (interrupt_sleeper p s)
| step_discard w : ring_buffer_discard (s_world s) = Ret (tt, w) →
    step s (Discard (w_contents (s_world s))) (with_world w s)
| step_eof w : ring_buffer_eof (s_world s) = Ret (tt, w) → step s Eof (with_world w s)
| step_interrupt w : ring_buffer_interrupt (s_world s) = Ret (tt, w) → step s Interrupt (with_world w s)
| step_select p w : ring_buffer_select_wait p (s_world s) = Ret (tt, w) → step s (SelectWait p) (with_world w s).

Inductive run (s0 : system) : list event → system → Prop :=
| run_nil : run s0 [] s0
| run_snoc tr s e s' : run s0 tr s → step s e s' → run s0 (tr ++ [e]) s'.

(** ** What a run produced and consumed *)

(** The data of the write an entry belongs to, with how much of it was written
    before. *)
Definition write_of (e : entry) : option (list Z * nat) :=
  match e with
  | CallWrite data => Some (data, 0%nat)
  | Woken (InWrite data n) _ => Some (data, n)
  | _ => None
  end.

(** How much of it is reported as written afterwards. *)
Definition written_after (c : control) : nat :=
  match c with
  | Returned r _ => Z.to_nat r
  | Asleep (InWrite _ n) => n
  | Asleep (InRead _) => 0
  end.

Definition produced_by (ev : event) : list Z :=
  match ev with
  | Run _ e c =>
      match write_of e with
      | Some (data, n) => drop n (take (written_after c) data)
      | None => []
      end
  | _ => []
  end.

Definition consumed_by (ev : event) : list Z :=
  match ev with
  | Run _ _ (Returned _ out) => out
  | Discard bs => bs
  | _ => []
  end.

Definition produced (tr : list event) : list Z := tr ≫= produced_by.
Definition consumed (tr : list event) : list Z := tr ≫= consumed_by.

(** The bytes the last write call of [p] has put into the ring. *)
Definition call_bytes_step (p : pid) (acc : list Z) (ev : event) : list Z :=
  match ev with
  | Run q e _ =>
      if bool_decide (q = p) then
        match e with
        | CallWrite _ => produced_by ev
        | _ => acc ++ produced_by ev
        end
      else acc
  | _ => acc
  end.
Definition call_bytes (p : pid) (tr : list event) : list Z := foldl (call_bytes_step p) [] tr.

Definition discarded (tr : list event) : Prop := ∃ bs, Discard bs ∈ tr.

(** A fresh ring buffer nobody uses yet. *)
Definition booted (size : Z) (garbage : list Z) : system :=
  System (World (ring_buffer_create size garbage) [] []) ∅ ∅.

(** ** The invariant *)

Record sys_ok (tr : list event) (size : Z) (s : system) : Prop := {
  ok_ring : ring_ok (w_ring (s_world s));
  ok_size : r_size (w_ring (s_world s)) = size;
  ok_fifo : consumed tr ++ w_contents (s_world s) = produced tr;
  ok_nodup : NoDup (sleeping s);
  ok_readers : ∀ p, p ∈ rb_wait_queue_readers (w_rb (s_world s)) →
    ∃ n, s_frames s !! p = Some (InRead n) ∧ (0 < n → w_contents (s_world s) = []) ∧
      rb_internal_stop (w_rb (s_world s)) = false ∧ rb_soft_stop (w_rb (s_world s)) = false;
  ok_writers : ∀ p, p ∈ rb_wait_queue_writers (w_rb (s_world s)) →
    (∃ data n, s_frames s !! p = Some (InWrite data n)) ∧
    (discarded tr ∨ room (w_ring (s_world s)) = 0%nat);
  ok_calls : ∀ p data n, s_frames s !! p = Some (InWrite data n) →
    (n < length data)%nat ∧ call_bytes p tr = take n data
}.

Definition interrupted_entry (e : entry) : bool :=
  match e with Woken _ i => i | _ => false end.

(** The ways a run of write code ends. *)
Inductive write_result (p : pid) (e : entry) (data : list Z) (n : nat) (w : world) : control → world → Prop :=
| write_restart : n = 0%nat → interrupted_entry e = true →
    write_result p e data n w (Returned (- ERESTARTSYS) []) w
| write_returns r k :
    ring_ok r → r_size r = r_size (w_ring w) → (n + k ≤ length data)%nat →
    contents r = w_contents w ++ take k (drop n data) →
    (n + k)%nat = length data ∨ interrupted_entry e = true ∨ rb_internal_stop (w_rb w) = true ∨
      rb_discard (w_rb w) = true →
    write_result p e data n w (Returned (Z.of_nat (n + k)) []) (after_write r w)
| write_sleeps r k :
    ring_ok r → r_size r = r_size (w_ring w) → (n + k < length data)%nat →
    contents r = w_contents w ++ take k (drop n data) → room r = 0%nat → interrupted_entry e = false →
    write_result p e data n w (Asleep (InWrite data (n + k)))
      (set_queues [] (rb_wait_queue_writers (w_rb w) ++ [p]) (after_write r w)).

Lemma room_contents r r' l : ring_ok r → r_size r' = r_size r → contents r' = contents r ++ l →
  room r' = (room r - length l)%nat.
Proof.
  intros Hok Hsz Hc. apply (f_equal length) in Hc. rewrite length_app, !contents_length in Hc.
  unfold room. rewrite Hsz, Hc. lia.
Qed.

Lemma write_turn_result p e data n w : ring_ok (w_ring w) → (n ≤ length data)%nat → interrupted_entry e = false →
  ∃ c w', write_turn p data n w = Ret (c, w') ∧ write_result p e data n w c w'.
Proof.
  intros Hok Hn He. destruct (write_turn_run p data n w Hok Hn) as (r & Hok' & Hsz & Hc & ->).
  set (k := moved_bytes data n w) in *.
  assert (Hk : (k ≤ length data - n)%nat) by (unfold k, moved_bytes; lia).
  destruct (Nat.ltb_spec (n + k) (length data)) as [Hlt|Hge]; cbn [andb].
  - destruct (rb_discard (w_rb w)) eqn:Hd; cbn [negb].
    + do 2 eexists. split; [done|]. apply write_returns; try done; [lia|]. tauto.
    + do 2 eexists. split; [done|]. apply write_sleeps; try done.
      rewrite (room_contents (w_ring w) r _ Hok Hsz Hc), length_take, length_drop.
      unfold k, moved_bytes in *. lia.
  - do 2 eexists. split; [done|]. apply write_returns; try done; [lia|]. left. lia.
Qed.

Lemma write_done_result p e data n w : ring_ok (w_ring w) → (n ≤ length data)%nat →
  interrupted_entry e = true ∨ rb_internal_stop (w_rb w) = true →
  ∃ c w', write_done n w = Ret (c, w') ∧ write_result p e data n w c w'.
Proof.
  intros Hok Hn He. rewrite write_done_run. do 2 eexists. split; [done|].
  replace n with (n + 0)%nat at 2 by lia. apply write_returns; try done; [lia|by rewrite take_0, app_nil_r|].
  destruct He; tauto.
Qed.

Lemma enter_write p e data n w : ring_ok (w_ring w) → write_of e = Some (data, n) → (n ≤ length data)%nat →
  ∃ c w', enter p e w = Ret (c, w') ∧ write_result p e data n w c w'.
Proof.
  intros Hok He Hn. destruct e as [|data'|[|data' n'] i]; cbn in He; simplify_eq; cbn [enter].
  - by apply write_turn_result.
  - cbn [resume]. destruct i.
    + destruct (Nat.eqb_spec n 0) as [->|].
      * do 2 eexists. split; [done|]. by constructor.
      * apply write_done_result; [done|done|by left].
    + rewrite (run_bind_Ret (gets w_rb) _ w _ _ eq_refl).
      destruct (rb_internal_stop (w_rb w)) eqn:Hs; [apply write_done_result; [done|done|by right]|].
      by apply write_turn_result.
Qed.

Lemma written_result p e data n w c w' : ring_ok (w_ring w) → (n ≤ length data)%nat →
  write_result p e data n w c w' →
  (n ≤ written_after c)%nat ∧
  w_contents w' = w_contents w ++ drop n (take (written_after c) data) ∧
  ring_ok (w_ring w') ∧ r_size (w_ring w') = r_size (w_ring w).
Proof.
  intros Hok Hn [-> _|r k Hr Hsz Hle Hc _|r k Hr Hsz Hlt Hc _ _]; cbn [written_after].
  - change (Z.to_nat (- ERESTARTSYS)) with 0%nat. rewrite take_0, drop_0, app_nil_r. by split_and!.
  - unfold w_contents at 1. rewrite after_write_ring, Nat2Z.id, <-take_drop_commute. by split_and!; [lia|..].
  - unfold w_contents at 1. change (w_ring (set_queues _ _ (after_write r w))) with (w_ring (after_write r w)).
    rewrite after_write_ring, <-take_drop_commute. by split_and!; [lia|..].
Qed.

(** ** Every step keeps the invariant *)

Lemma call_bytes_snoc p tr ev : call_bytes p (tr ++ [ev]) = call_bytes_step p (call_bytes p tr) ev.
Proof. unfold call_bytes. by rewrite foldl_app. Qed.

Lemma call_bytes_other p q e c tr : q ≠ p → call_bytes q (tr ++ [Run p e c]) = call_bytes q tr.
Proof. intros. rewrite call_bytes_snoc. cbn. by rewrite bool_decide_eq_false_2. Qed.

Lemma produced_snoc tr ev : produced (tr ++ [ev]) = produced tr ++ produced_by ev.
Proof. unfold produced. rewrite bind_app. cbn. by rewrite app_nil_r. Qed.

Lemma consumed_snoc tr ev : consumed (tr ++ [ev]) = consumed tr ++ consumed_by ev.
Proof. unfold consumed. rewrite bind_app. cbn. by rewrite app_nil_r. Qed.

Lemma fifo_snoc tr ev (old new : list Z) :
  consumed tr ++ old = produced tr → consumed_by ev ++ new = old ++ produced_by ev →
  consumed (tr ++ [ev]) ++ new = produced (tr ++ [ev]).
Proof.
  intros H1 H2. by rewrite consumed_snoc, produced_snoc, <-H1, <-!(assoc_L (++)), H2.
Qed.

Lemma discarded_snoc tr ev : discarded tr → discarded (tr ++ [ev]).
Proof. intros [bs ?]. exists bs. apply elem_of_app. by left. Qed.

Lemma after_write_fields r w :
  rb_wait_queue_readers (w_rb (after_write r w)) = [] ∧
  rb_wait_queue_writers (w_rb (after_write r w)) = rb_wait_queue_writers (w_rb w).
Proof. destruct w as [[] ? ?]. unfold after_write; cbn. by destruct rb_alert_waiters0. Qed.

(** A process that may enter is in no queue. *)
Lemma may_enter_awake tr size s p e : sys_ok tr size s → may_enter s p e → p ∉ sleeping s.
Proof.
  intros Hok He Hin. destruct e as [n|data|f i]; cbn in He; [| |by apply He].
  all: apply elem_of_app in Hin as [Hin|Hin].
  all: first [destruct (ok_readers _ _ _ Hok p Hin) as (? & ? & _)
             |destruct (ok_writers _ _ _ Hok p Hin) as [(? & ? & ?) _]]; congruence.
Qed.

(** What a process leaves behind when it stops running, seen from the others. *)
Definition frames_after (p : pid) (c : control) (fs : gmap pid frame) : gmap pid frame :=
  match c with Returned _ _ => delete p fs | Asleep f => <[p := f]> fs end.

Lemma settle_frames p c w s : s_frames (settle p c w s) = frames_after p c (s_frames s).
Proof. by destruct c. Qed.
Lemma settle_world p c w s : s_world (settle p c w s) = w.
Proof. by destruct c. Qed.
Lemma settle_sleeping p c w s :
  sleeping (settle p c w s) = rb_wait_queue_readers (w_rb w) ++ rb_wait_queue_writers (w_rb w).
Proof. unfold sleeping. by rewrite settle_world. Qed.
Lemma frames_after_other p q c fs : p ≠ q → frames_after p c fs !! q = fs !! q.
Proof. intros. destruct c; cbn; [by apply lookup_delete_ne|by apply lookup_insert_ne]. Qed.

Lemma not_sleeping_split s p : p ∉ sleeping s →
  (p ∉ rb_wait_queue_readers (w_rb (s_world s))) ∧ (p ∉ rb_wait_queue_writers (w_rb (s_world s))).
Proof. unfold sleeping. rewrite not_elem_of_app. done. Qed.

Lemma NoDup_snoc_new (l : list pid) p : NoDup l → p ∉ l → NoDup (l ++ [p]).
Proof. intros. apply NoDup_app. split_and!; [done|set_solver|apply NoDup_singleton]. Qed.

(** The obligations of one run of a process. *)
Lemma settle_ok tr size s p e c w :
  sys_ok tr size s → p ∉ sleeping s → ring_ok (w_ring w) → r_size (w_ring w) = size →
  consumed_by (Run p e c) ++ w_contents w = w_contents (s_world s) ++ produced_by (Run p e c) →
  NoDup (rb_wait_queue_readers (w_rb w) ++ rb_wait_queue_writers (w_rb w)) →
  (rb_wait_queue_readers (w_rb w) ≠ [] → rb_internal_stop (w_rb w) = false ∧ rb_soft_stop (w_rb w) = false) →
  (∀ q, q ∈ rb_wait_queue_readers (w_rb w) →
     q ∈ rb_wait_queue_readers (w_rb (s_world s)) ∧ (w_contents (s_world s) = [] → w_contents w = []) ∨
     q = p ∧ ∃ n, c = Asleep (InRead n) ∧ (0 < n → w_contents w = [])) →
  (∀ q, q ∈ rb_wait_queue_writers (w_rb w) →
     q ∈ rb_wait_queue_writers (w_rb (s_world s)) ∧ (room (w_ring (s_world s)) = 0%nat → room (w_ring w) = 0%nat) ∨
     q = p ∧ ∃ data n, c = Asleep (InWrite data n) ∧ room (w_ring w) = 0%nat) →
  (∀ data n, c = Asleep (InWrite data n) →
     (n < length data)%nat ∧ call_bytes p (tr ++ [Run p e c]) = take n data) →
  sys_ok (tr ++ [Run p e c]) size (settle p c w s).
Proof.
  intros Hok Hp Hr Hsz Hc Hnd Hst Hrd Hwr Hcl. apply not_sleeping_split in Hp as [Hpr Hpw].
  split; rewrite ?settle_frames, ?settle_world, ?settle_sleeping; try done.
  - eapply fifo_snoc; [apply (ok_fifo _ _ _ Hok)|done].
  - intros q Hq. assert (rb_wait_queue_readers (w_rb w) ≠ []) by (intros E; rewrite E in Hq; by apply elem_of_nil in Hq).
    destruct (Hrd q Hq) as [[Hq' Hk]|(-> & n & -> & Hn)].
    + destruct (ok_readers _ _ _ Hok q Hq') as (m & Hm & He & _). exists m.
      rewrite frames_after_other by (intros ->; done). split_and!; [done|auto|by apply Hst..].
    + exists n. cbn. rewrite lookup_insert_eq. split_and!; [done|done|by apply Hst..].
  - intros q Hq. destruct (Hwr q Hq) as [[Hq' Hk]|(-> & data & n & -> & Hn)].
    + destruct (ok_writers _ _ _ Hok q Hq') as [(data & m & Hm) Hd]. rewrite frames_after_other by (intros ->; done).
      split; [eauto|]. destruct Hd; [left; by apply discarded_snoc|right; auto].
    + cbn. rewrite lookup_insert_eq. split; [eauto|by right].
  - intros q data n Hq. destruct (decide (p = q)) as [<-|Hne].
    + destruct c; cbn in Hq; [by rewrite lookup_delete_eq in Hq|rewrite lookup_insert_eq in Hq; simplify_eq; auto].
    + rewrite frames_after_other in Hq by done. rewrite call_bytes_other by done. by apply (ok_calls _ _ _ Hok).
Qed.

Lemma sys_ok_read tr size s p e n c w :
  sys_ok tr size s → p ∉ sleeping s → write_of e = None → ring_buffer_read p n (s_world s) = Ret (c, w) →
  sys_ok (tr ++ [Run p e c]) size (settle p c w s).
Proof.
  intros Hok Hp He Hrun. pose proof (not_sleeping_split _ _ Hp) as [Hpr Hpw].
  pose proof (ok_size _ _ _ Hok) as Hsize. pose proof (ok_nodup _ _ _ Hok) as Hnd. apply NoDup_app in Hnd as (Hnd & _).
  destruct (read_run p n (s_world s) (ok_ring _ _ _ Hok)) as (r & Hr & Hsz & Hc & Hres).
  rewrite Hres in Hrun. clear Hres. rewrite Hsize in Hsz.
  assert (Hstops : rb_wait_queue_readers (w_rb (s_world s)) ≠ [] →
    rb_internal_stop (w_rb (s_world s)) = false ∧ rb_soft_stop (w_rb (s_world s)) = false).
  { destruct (rb_wait_queue_readers (w_rb (s_world s))) as [|q qs] eqn:E; [done|intros _].
    destruct (ok_readers _ _ _ Hok q) as (_ & _ & _ & ? & ?); [rewrite E; by left|done]. }
  assert (Hkeep : w_contents (s_world s) = [] → contents r = []) by (intros E; by rewrite Hc, E, drop_nil).
  pose proof (take_drop (Z.to_nat n) (w_contents (s_world s))) as Htd. rewrite <-Hc in Htd.
  destruct (take (Z.to_nat n) (w_contents (s_world s))) as [|b out] eqn:Htk; [destruct (_ || _) eqn:Hst|];
    injection Hrun as <- <-; apply settle_ok; try done; cbn; rewrite ?He, ?app_nil_r; try done.
  - intros H. by destruct (Hstops H) as [-> _].
  - intros q Hq. by left.
  - intros q Hq. by apply elem_of_nil in Hq.
  - by apply NoDup_snoc_new.
  - intros _. by apply orb_false_iff.
  - intros q [Hq|Hq]%elem_of_app; [by left|right]. apply list_elem_of_singleton in Hq as ->.
    split; [done|]. exists n. split; [done|]. intros Hn. unfold w_contents; cbn. rewrite Hc.
    apply (f_equal length) in Htk. rewrite length_take in Htk. cbn in Htk. apply nil_length_inv. rewrite length_drop. lia.
  - intros q Hq. by apply elem_of_nil in Hq.
  - intros q Hq. by left.
  - intros q Hq. by apply elem_of_nil in Hq.
Qed.

Lemma call_bytes_write tr size s p e data n c :
  sys_ok tr size s → may_enter s p e → write_of e = Some (data, n) → (n ≤ written_after c)%nat →
  call_bytes p (tr ++ [Run p e c]) = take (written_after c) data.
Proof.
  intros Hok Hm He Hle. rewrite call_bytes_snoc. cbn [call_bytes_step]. rewrite bool_decide_eq_true_2 by done.
  destruct e as [|data'|[|data' n'] i]; cbn in He; simplify_eq; cbn [produced_by write_of].
  - apply drop_0.
  - destruct Hm as (Hf & _). destruct (ok_calls _ _ _ Hok p data n Hf) as [_ ->].
    rewrite <-(take_drop n (take (written_after c) data)) at 2. f_equal. rewrite take_take. f_equal. lia.
Qed.

Lemma write_of_bound tr size s p e data n :
  sys_ok tr size s → may_enter s p e → write_of e = Some (data, n) → (n ≤ length data)%nat.
Proof.
  intros Hok Hm He. destruct e as [|data'|[|data' n'] i]; cbn in He; simplify_eq; [lia|].
  destruct Hm as (Hf & _). destruct (ok_calls _ _ _ Hok p data n Hf). lia.
Qed.

Lemma sys_ok_write tr size s p e data n c w :
  sys_ok tr size s → may_enter s p e → write_of e = Some (data, n) →
  write_result p e data n (s_world s) c w → sys_ok (tr ++ [Run p e c]) size (settle p c w s).
Proof.
  intros Hok Hm He Hres. pose proof (may_enter_awake _ _ _ _ _ Hok Hm) as Hp.
  pose proof (write_of_bound _ _ _ _ _ _ _ Hok Hm He) as Hn.
  destruct (written_result _ _ _ _ _ _ _ (ok_ring _ _ _ Hok) Hn Hres) as (Hle & Hc & Hr & Hsz).
  pose proof (call_bytes_write _ _ _ _ _ _ _ c Hok Hm He Hle) as Hcb.
  rewrite (ok_size _ _ _ Hok) in Hsz. pose proof (not_sleeping_split _ _ Hp) as [Hpr Hpw].
  pose proof (ok_nodup _ _ _ Hok) as Hnd. pose proof (proj1 (NoDup_app _ _) Hnd) as (_ & _ & Hndw).
  assert (Hroom : room (w_ring (s_world s)) = 0%nat → room (w_ring w) = 0%nat).
  { intros E. rewrite (room_contents (w_ring (s_world s)) (w_ring w) _ (ok_ring _ _ _ Hok)
      (eq_trans Hsz (eq_sym (ok_size _ _ _ Hok))) Hc), E. done. }
  apply settle_ok; try done.
  - cbn. rewrite He. destruct Hres; cbn; exact Hc.
  - destruct Hres; cbn; [done|by destruct (after_write_fields r (s_world s)) as [-> ->]|by apply NoDup_snoc_new].
  - destruct Hres; cbn; [|by destruct (after_write_fields r (s_world s)) as [-> _]|done].
    intros H'. destruct (rb_wait_queue_readers (w_rb (s_world s))) as [|q qs] eqn:E; [done|].
    destruct (ok_readers _ _ _ Hok q) as (_ & _ & _ & ? & ?); [rewrite E; by left|done].
  - intros q Hq. destruct Hres; cbn in Hq; [by left| |by apply elem_of_nil in Hq].
    destruct (after_write_fields r (s_world s)) as [E _]. rewrite E in Hq. by apply elem_of_nil in Hq.
  - intros q Hq. destruct Hres as [| |r k Hok' _ Hlt _ Hfull _]; [by left|left|].
    + destruct (after_write_fields r (s_world s)) as [_ E]. rewrite E in Hq. done.
    + cbn in Hq. apply elem_of_app in Hq as [Hq|Hq]; [by left|right]. apply list_elem_of_singleton in Hq as ->.
      split; [done|]. do 2 eexists. split; [done|].
      change (room (w_ring (after_write r (s_world s))) = 0%nat). by rewrite after_write_ring.
  - intros data' n' ->. inversion Hres; subst. split; [done|]. exact Hcb.
Qed.

Lemma sys_ok_enter tr size s p e c w :
  sys_ok tr size s → may_enter s p e → enter p e (s_world s) = Ret (c, w) →
  sys_ok (tr ++ [Run p e c]) size (settle p c w s).
Proof.
  intros Hok Hm Hrun. pose proof (may_enter_awake _ _ _ _ _ Hok Hm) as Hp.
  destruct (write_of e) as [[data n]|] eqn:He.
  - destruct (enter_write p e data n (s_world s) (ok_ring _ _ _ Hok) He (write_of_bound _ _ _ _ _ _ _ Hok Hm He))
      as (c' & w' & Hrun' & Hres). rewrite Hrun' in Hrun. simplify_eq. by eapply sys_ok_write.
  - destruct e as [m|data|[m|data m] i]; cbn in He; simplify_eq; cbn [enter resume] in Hrun.
    + by eapply sys_ok_read.
    + destruct i; [|by eapply sys_ok_read]. injection Hrun as <- <-.
      apply settle_ok; try done; [by apply (ok_ring _ _ _ Hok)|by apply (ok_size _ _ _ Hok)|cbn; by rewrite app_nil_r
        |by apply (ok_nodup _ _ _ Hok)| |by left|by left].
      intros H'. destruct (rb_wait_queue_readers (w_rb (s_world s))) as [|q qs] eqn:E; [done|].
      destruct (ok_readers _ _ _ Hok q) as (_ & _ & _ & ? & ?); [rewrite E; by left|done].
Qed.

(** Steps that are not a run of a process: what they may change. *)
Lemma sys_ok_other tr size s ev w fs it :
  sys_ok tr size s → (∀ p, call_bytes p (tr ++ [ev]) = call_bytes p tr) → produced_by ev = [] →
  ring_ok (w_ring w) → r_size (w_ring w) = size → consumed_by ev ++ w_contents w = w_contents (s_world s) →
  fs = s_frames s → NoDup (rb_wait_queue_readers (w_rb w) ++ rb_wait_queue_writers (w_rb w)) →
  (∀ p, p ∈ rb_wait_queue_readers (w_rb w) → p ∈ rb_wait_queue_readers (w_rb (s_world s)) ∧
    rb_internal_stop (w_rb w) = rb_internal_stop (w_rb (s_world s)) ∧
    rb_soft_stop (w_rb w) = rb_soft_stop (w_rb (s_world s))) →
  (∀ p, p ∈ rb_wait_queue_writers (w_rb w) → p ∈ rb_wait_queue_writers (w_rb (s_world s)) ∧
    (discarded (tr ++ [ev]) ∨ room (w_ring w) = room (w_ring (s_world s)))) →
  sys_ok (tr ++ [ev]) size (System w fs it).
Proof.
  intros Hok Hcb Hpr Hr Hsz Hc -> Hnd Hrd Hwr. split; cbn; try done.
  - eapply fifo_snoc; [apply (ok_fifo _ _ _ Hok)|]. by rewrite Hpr, app_nil_r.
  - intros p Hp. destruct (Hrd p Hp) as (Hp' & -> & ->).
    destruct (ok_readers _ _ _ Hok p Hp') as (n & ? & Hn & ? & ?). exists n. split_and!; try done.
    intros Hn0. specialize (Hn Hn0). rewrite Hn in Hc. by apply app_eq_nil in Hc as [_ ?].
  - intros p Hp. destruct (Hwr p Hp) as (Hp' & Hd). destruct (ok_writers _ _ _ Hok p Hp') as [? Hd'].
    split; [done|]. destruct Hd as [?|Heq]; [by left|]. rewrite Heq. destruct Hd' as [?|?]; [left; by apply discarded_snoc|by right].
  - intros p data n Hp. rewrite Hcb. by apply (ok_calls _ _ _ Hok).
Qed.

Lemma discard_contents r : contents (Ring (r_buffer r) (r_write_ptr r) (r_write_ptr r) (r_size r)) = [].
Proof. unfold contents, fill. cbn. by rewrite Z.sub_diag, Zmod_0_l. Qed.

Lemma sys_ok_step tr size s ev s' : sys_ok tr size s → step s ev s' → sys_ok (tr ++ [ev]) size s'.
Proof.
  intros Hok [p e c w Hm Hrun|p Hp|w Hrun|w Hrun|w Hrun|p w Hrun]; [by eapply sys_ok_enter|..].
  all: pose proof (ok_ring _ _ _ Hok) as Hr; pose proof (ok_size _ _ _ Hok) as Hsz;
    pose proof (ok_nodup _ _ _ Hok) as Hnd.
  all: try injection Hrun as <-; apply (sys_ok_other tr size s); try done;
    try (by intros q; rewrite call_bytes_snoc); cbn; try done.
  - unfold sleeping in Hnd. rewrite <-filter_app. by apply NoDup_filter.
  - by intros q [_ ?]%list_elem_of_filter.
  - intros q [_ ?]%list_elem_of_filter. split; [done|by right].
  - destruct Hr as (? & ? & ? & ?). unfold w_ring in *. unfold ring_ok; cbn. tauto.
  - unfold w_contents at 2; cbn. by rewrite discard_contents, app_nil_r.
  - intros q Hq. split; [done|left]. eexists. apply elem_of_app. right. by left.
  - by constructor.
  - by intros q Hq%elem_of_nil.
  - by intros q Hq%elem_of_nil.
  - by constructor.
  - by intros q Hq%elem_of_nil.
  - by intros q Hq%elem_of_nil.
  - intros q Hq. split; [done|by right].
Qed.

Lemma booted_ok size garbage : Z.of_nat (length garbage) = size → 0 < size < 2 ^ 64 →
  sys_ok [] size (booted size garbage).
Proof.
  intros Hl Hs. split; cbn; try done.
  - unfold ring_ok; cbn. lia.
  - by constructor.
  - by intros p Hp%elem_of_nil.
  - by intros p Hp%elem_of_nil.
Qed.

Lemma run_ok size garbage tr s : Z.of_nat (length garbage) = size → 0 < size < 2 ^ 64 →
  run (booted size garbage) tr s → sys_ok tr size s.
Proof. intros Hl Hs. induction 1; [by apply booted_ok|by eapply sys_ok_step]. Qed.

Lemma run_snoc_inv s0 tr e s : run s0 (tr ++ [e]) s → ∃ s1, run s0 tr s1 ∧ step s1 e s.
Proof.
  intros H. inversion H as [E|tr' s1 e' s' H1 H2 E]; [by destruct tr|].
  apply app_inj_tail in E as [-> ->]. eauto.
Qed.

Lemma enter_total tr size s p e : sys_ok tr size s → may_enter s p e → ∃ c w, enter p e (s_world s) = Ret (c, w).
Proof.
  intros Hok Hm. destruct (write_of e) as [[data n]|] eqn:He.
  - destruct (enter_write p e data n (s_world s) (ok_ring _ _ _ Hok) He (write_of_bound _ _ _ _ _ _ _ Hok Hm He))
      as (c & w & ? & _). eauto.
  - destruct e as [m|data|[m|data m] i]; cbn in He; simplify_eq; cbn [enter resume]; [|destruct i; [by eauto|]].
    all: destruct (read_run p m (s_world s) (ok_ring _ _ _ Hok)) as (r & _ & _ & _ & ->).
    all: destruct (match _ with [] => _ | _ => _ end) as [c w]; eauto.
Qed.

(** Bytes asked for by a read. *)
Definition read_of (e : entry) : Z :=
  match e with CallRead n | Woken (InRead n) _ => n | _ => 0 end.

(** How a call that returns in state [s] at the end of [tr] has ended: a write
    reports the bytes it put into the ring, a read the bytes it took out. *)
Definition call_result (tr : list event) (s : system) (p : pid) (e : entry) (v : Z) (out : list Z) : Prop :=
  let b := w_rb (s_world s) in
  match write_of e with
  | Some (data, _) =>
      (v = - ERESTARTSYS ∧ call_bytes p tr = [] ∧ interrupted_entry e = true) ∨
      (0 ≤ v ≤ Z.of_nat (length data) ∧ call_bytes p tr = take (Z.to_nat v) data ∧
       (v = Z.of_nat (length data) ∨ interrupted_entry e = true ∨ rb_internal_stop b = true ∨ rb_discard b = true))
  | None =>
      (v = - ERESTARTSYS ∧ out = [] ∧ interrupted_entry e = true) ∨
      (v = Z.of_nat (length out) ∧ out = take (Z.to_nat (read_of e)) (w_contents (s_world s)) ∧
       (v = 0 → rb_internal_stop b = true ∨ rb_soft_stop b = true))
  end.

Lemma write_returned tr size s p e data n v out w :
  sys_ok tr size s → may_enter s p e → write_of e = Some (data, n) →
  enter p e (s_world s) = Ret (Returned v out, w) →
  call_result (tr ++ [Run p e (Returned v out)]) s p e v out.
Proof.
  intros Hok Hm He Hrun. pose proof (write_of_bound _ _ _ _ _ _ _ Hok Hm He) as Hn.
  destruct (enter_write p e data n (s_world s) (ok_ring _ _ _ Hok) He Hn) as (c & w' & Hrun' & Hres).
  rewrite Hrun' in Hrun. simplify_eq.
  destruct (written_result _ _ _ _ _ _ _ (ok_ring _ _ _ Hok) Hn Hres) as (Hle & _).
  pose proof (call_bytes_write _ _ _ _ _ _ _ _ Hok Hm He Hle) as Hcb.
  unfold call_result. rewrite He. inversion Hres as [Hn0 Hi|r k ? ? Hk ? Hwhy|]; subst.
  - left. split_and!; [done| |done]. rewrite Hcb. apply take_0.
  - right. split_and!; [lia|lia|exact Hcb|]. destruct Hwhy as [Hk'|?]; [left; lia|by right].
Qed.

Lemma read_returned tr size s p e v out w :
  sys_ok tr size s → may_enter s p e → write_of e = None →
  enter p e (s_world s) = Ret (Returned v out, w) →
  call_result (tr ++ [Run p e (Returned v out)]) s p e v out.
Proof.
  intros Hok Hm He Hrun. unfold call_result. rewrite He. cbn zeta.
  assert (∃ m, (e = CallRead m ∨ ∃ i, e = Woken (InRead m) i)) as (m & Hem).
  { destruct e as [m|data|[m|data m] i]; cbn in He; simplify_eq; eauto. }
  destruct (interrupted_entry e) eqn:Hi.
  { destruct Hem as [->|(i & ->)]; cbn in Hi; [done|]. subst i. cbn in Hrun. injection Hrun as <- <- <-. by left. }
  assert (Hr : ring_buffer_read p m (s_world s) = Ret (Returned v out, w)).
  { destruct Hem as [->|(i & ->)]; [done|]. cbn in Hi. by subst i. }
  destruct (read_run p m (s_world s) (ok_ring _ _ _ Hok)) as (r & _ & _ & Hc & Hr'). rewrite Hr' in Hr. clear Hr'.
  assert (Hm' : read_of e = m) by (by destruct Hem as [->|(i & ->)]). rewrite Hm'.
  right. destruct (take (Z.to_nat m) (w_contents (s_world s))) as [|b out'] eqn:Htk.
  - destruct (_ || _) eqn:Hst; simplify_eq. split_and!; [done|done|]. intros _. by apply orb_true_iff.
  - simplify_eq. split_and!; [done|done|]. cbn. lia.
Qed.

Lemma destroy_run w :
  ∃ rs w', ring_buffer_destroy w = Ret (rs, w') ∧ NoDup rs ∧
    rb_wait_queue_readers (w_rb w') = [] ∧ rb_wait_queue_writers (w_rb w') = [] ∧
    w_alerted w' = w_alerted w ++ default [] (rb_alert_waiters (w_rb w)).
Proof.
  destruct w as [[] ? ?]. unfold ring_buffer_destroy, ring_buffer_alert_waiters, wakeup_readers, wakeup_writers. mrun.
  do 2 eexists. split; [reflexivity|]. split.
  - destruct (_ =? _), rb_alert_waiters0; repeat (constructor; [set_solver|]); constructor.
  - destruct rb_alert_waiters0; cbn; rewrite ?app_nil_r; done.
Qed.

(** ** Properties *)

(** C4: for any number of readers and writers that call, sleep, are woken, are
    interrupted and scheduled in any order, the ring buffer is a FIFO queue of
    bounded size: the bytes taken out so far followed by the ones in the ring
    are the bytes put in so far, no byte lost, duplicated or reordered.  A
    write that returns a count has put exactly that prefix of its data into
    the ring, all of it unless it was interrupted, stopped or the ring drops
    what does not fit, and asks to be restarted only if it wrote nothing; a
    read returns the oldest bytes, and 0 only for a pending stop. *)
Theorem ring_buffer_fifo size garbage tr s :
  Z.of_nat (length garbage) = size → 0 < size < 2 ^ 64 → run (booted size garbage) tr s →
  consumed tr ++ w_contents (s_world s) = produced tr ∧
  Z.of_nat (length (w_contents (s_world s))) < size ∧
  (∀ p e v out s', step s (Run p e (Returned v out)) s' →
     call_result (tr ++ [Run p e (Returned v out)]) s p e v out).
Proof.
  intros Hl Hs Hrun. pose proof (run_ok _ _ _ _ Hl Hs Hrun) as Hok. split_and!.
  - apply (ok_fifo _ _ _ Hok).
  - unfold w_contents. rewrite contents_length, <-(ok_size _ _ _ Hok). apply fill_lt, (ok_ring _ _ _ Hok).
  - intros p e v out s' Hstep. inversion Hstep as [? ? ? w Hm He| | | | |]; subst.
    destruct (write_of e) as [[data n]|] eqn:Hw; [by eapply write_returned|by eapply read_returned].
Qed.


(** C37: a stopped ring buffer still puts writers to sleep.  After
    [ring_buffer_interrupt] a read of an empty ring returns 0 at once, but a
    write to a full ring enters the queue of writers before the stop is looked
    at, and stays there: the wake-up of the stop has already been sent. *)
Theorem ring_buffer_stopped_writer_sleeps p data n w :
  ring_ok (w_ring w) → rb_internal_stop (w_rb w) = true → rb_discard (w_rb w) = false → data ≠ [] →
  (w_contents w = [] → ∃ w', ring_buffer_read p n w = Ret (Returned 0 [], w')) ∧
  (ring_buffer_available (w_rb w) = 0 → ∃ w', ring_buffer_write p data w = Ret (Asleep (InWrite data 0), w') ∧
     p ∈ rb_wait_queue_writers (w_rb w')).
Proof.
  intros Hok Hst Hd Hne. split.
  - intros He. destruct (read_run p n w Hok) as (r & _ & _ & _ & ->). rewrite He, take_nil, Hst. by eexists.
  - intros Hfull. destruct (write_turn_run p data 0 w Hok (Nat.le_0_l _)) as (r & _ & _ & _ & Hw).
    unfold ring_buffer_write. rewrite Hw. clear Hw. unfold ring_buffer_available in Hfull. fold (w_ring w) in Hfull.
    rewrite available_fill in Hfull by done. unfold moved_bytes, room.
    replace (Z.to_nat (r_size (w_ring w)) - 1 - fill (w_ring w))%nat with 0%nat by lia. cbn [Nat.min Nat.add].
    destruct data as [|b data]; [done|]. rewrite Hd. cbn. eexists. split; [done|]. cbn. apply elem_of_app. right. by left.
Qed.

(** ** Witnesses: a ring of four bytes

    Process 1 writes five bytes, sleeps after three; process 2 reads two. *)

Definition demo_events : list event :=
  [Run 1 (CallWrite [10; 20; 30; 40; 50]) (Asleep (InWrite [10; 20; 30; 40; 50] 3));
   Run 2 (CallRead 2) (Returned 2 [10; 20])].

Definition demo_run_state (s : system) (p : pid) (e : entry) : system :=
  match enter p e (s_world s) with
  | Ret (c, w) => settle p c w s
  | _ => s
  end.
Definition demo_full : system := demo_run_state (booted 4 [0; 0; 0; 0]) 1 (CallWrite [10; 20; 30; 40; 50]).
Definition demo_half : system := demo_run_state demo_full 2 (CallRead 2).

Lemma demo_run : run (booted 4 [0; 0; 0; 0]) demo_events demo_half.
Proof.
  apply (run_snoc _ [Run 1 (CallWrite [10; 20; 30; 40; 50]) (Asleep (InWrite [10; 20; 30; 40; 50] 3))] demo_full).
  - apply (run_snoc _ [] (booted 4 [0; 0; 0; 0])); [constructor|].
    apply (step_run _ 1 (CallWrite [10; 20; 30; 40; 50]) (Asleep (InWrite [10; 20; 30; 40; 50] 3)) (s_world demo_full));
      reflexivity.
  - apply (step_run _ 2 (CallRead 2) (Returned 2 [10; 20]) (s_world demo_half)); reflexivity.
Qed.

Lemma ring_buffer_fifo_witness :
  consumed demo_events = [10; 20] ∧ produced demo_events = [10; 20; 30] ∧
  consumed demo_events ++ w_contents (s_world demo_half) = produced demo_events.
Proof.
  split_and!; [reflexivity|reflexivity|].
  apply (ring_buffer_fifo 4 [0; 0; 0; 0] demo_events demo_half); [reflexivity|lia|exact demo_run].
Defined.


Definition demo_stopped : world :=
  match ring_buffer_interrupt (s_world demo_full) with Ret (_, w) => w | _ => s_world demo_full end.

Lemma ring_buffer_stopped_writer_sleeps_witness :
  ∃ w', ring_buffer_write 3 [60] demo_stopped = Ret (Asleep (InWrite [60] 0), w') ∧
    3%positive ∈ rb_wait_queue_writers (w_rb w').
Proof.
  apply (ring_buffer_stopped_writer_sleeps 3 [60] 0 demo_stopped); [|reflexivity..|done|reflexivity].
  unfold ring_ok. vm_compute. split_and!; congruence.
Defined.
