(* ===== verification/Tty.v ===== *)
(** * Terminals (kernel/vfs/tty.c)

    The pseudo-terminal driver: the line discipline between the terminal
    (master) and the programs (slave), its control calls, job control and the
    end of life of a terminal.

    [pty] is the driver's [pty_t]; the file nodes of the two endpoints are the
    records [pty_master] and [pty_slave].  The driver reaches the outside through the
    function pointers [write_in] and [write_out], the two ring buffers and the
    signal calls of the process layer: each such call is an [io] event appended
    to a history, and what it returns is decided by an arbitrary environment
    ([TtyEnv]) that sees the history.  A ring buffer write of one byte returns 1
    (the byte is queued), 0 (stopped) or a negative error, which [RingBuffer]
    proves; console drivers install other functions.

    The macros [IN], [OUT], [output_process] and [erase_one] return from the
    enclosing function on an error.  [R] is the monad of such bodies: a state
    command whose left result is an early return. *)

From S2P Require Import Prelude.

(** ** Constants (sys/termios.h, sys/signal_defs.h, bits/errno.h) *)

Definition VEOF : nat := 1.
Definition VEOL : nat := 2.
Definition VERASE : nat := 3.
Definition VINTR : nat := 4.
Definition VKILL : nat := 5.
Definition VMIN : nat := 6.
Definition VQUIT : nat := 7.
Definition VSTART : nat := 8.
Definition VSTOP : nat := 9.
Definition VSUSP : nat := 10.
Definition VTIME : nat := 11.
Definition VLNEXT : nat := 12.
Definition VWERASE : nat := 13.
Definition NCCS : nat := 32.

(** The octal constants of the header. *)
Definition BRKINT : Z := 1.
Definition ICRNL : Z := 2.
Definition IGNCR : Z := 8.
Definition INLCR : Z := 32.
Definition ISTRIP : Z := 128.
Definition IUCLC : Z := 256.
Definition OPOST : Z := 1.
Definition OLCUC : Z := 2.
Definition ONLCR : Z := 4.
Definition ONLRET : Z := 32.
Definition B38400 : Z := 15.
Definition CS8 : Z := 48.
Definition CREAD : Z := 128.
Definition ISIG : Z := 1.
Definition ICANON : Z := 2.
Definition ECHO : Z := 8.
Definition ECHOE : Z := 16.
Definition ECHOK : Z := 32.
Definition ECHONL : Z := 64.
Definition TOSTOP : Z := 256.
Definition IEXTEN : Z := 512.
Definition ECHOCTL : Z := 1024.

Definition SIGHUP : Z := 1.
Definition SIGINT : Z := 2.
Definition SIGQUIT : Z := 3.
Definition SIGWINCH : Z := 20.
Definition SIGTSTP : Z := 24.
Definition SIGTTIN : Z := 26.
Definition SIGTTOU : Z := 37.

Definition EPERM : Z := 1.
Definition EIO : Z := 5.
Definition EFAULT : Z := 14.
Definition EINVAL : Z := 22.
Definition ENOTTY : Z := 25.
Definition ERANGE : Z := 34.
Definition ERESTARTSYS : Z := 512.

Definition TTY_BUFFER_SIZE : nat := 4096.

(** ** Data *)

Record winsize := Winsize { ws_row : Z; ws_col : Z; ws_xpixel : Z; ws_ypixel : Z }.

Record termios := Termios {
  c_iflag : Z;
  c_oflag : Z;
  c_cflag : Z;
  c_lflag : Z;
  c_cc : list Z
}.

Definition flag (flags bit : Z) : bool := negb (Z.land flags bit =? 0).
Definition cc (t : termios) (i : nat) : Z := default 0 (c_cc t !! i).

(** What the driver keeps in the file node of an endpoint. *)
Record fnode := Fnode { n_uid : Z; n_gid : Z; n_mask : Z; n_mtime : Z }.

Record pty := Pty {
  pty_name : Z;
  pty_master : fnode;
  pty_slave : fnode;
  pty_size : winsize;
  tios : termios;
  canon_buffer : list Z;
  canon_bufsize : nat;
  canon_buflen : nat;
  ct_proc : Z;
  fg_proc : Z;
  next_is_verbatim : bool;
  master_closed : bool;
  slave_closed : bool
}.

(** Calls that leave the driver. *)
Inductive io :=
| In (c : Z)                          (* [pty->write_in] *)
| Out (c : Z)                         (* [pty->write_out] *)
| InEof                               (* [ring_buffer_eof(pty->in)] *)
| InDiscard                           (* [ring_buffer_discard(pty->in)] *)
| ReadIn (size : Z)                   (* [ring_buffer_read(pty->in)] *)
| ReadOut (size : Z)                  (* [ring_buffer_read(pty->out)] *)
| InterruptIn | InterruptOut          (* [ring_buffer_interrupt] *)
| AlertIn | AlertOut                  (* [ring_buffer_alert_waiters] *)
| GroupSignal (group sig : Z)         (* [group_send_signal] *)
| SessionSignal (session sig : Z)     (* [session_send_signal] *)
| Attach (id : Z)                     (* [current_process->process->pty = pty] *)
| IndexRemove (name : Z)              (* [hashmap_remove(_pty_index)] *)
| EraseProcesses                      (* [process_erase_field] of the terminal *)
| FreeCanon | DestroyIn | DestroyOut | FreePty.

Class TtyEnv := {
  write_reply : list io → io → Z;
  read_reply : list io → io → Z * list Z;
  fill_name : pty → Z → Z * list Z;
  now : list io → Z
}.

Record tty := Tty { t_pty : pty; t_io : list io }.

Definition set_pty (f : pty → pty) : M tty unit := modify (λ t, Tty (f (t_pty t)) (t_io t)).
Definition call (e : io) : M tty unit := modify (λ t, Tty (t_pty t) (t_io t ++ [e])).

Definition set_canon (buf : list Z) (len : nat) (p : pty) : pty :=
  Pty (pty_name p) (pty_master p) (pty_slave p) (pty_size p) (tios p) buf (canon_bufsize p) len
    (ct_proc p) (fg_proc p) (next_is_verbatim p) (master_closed p) (slave_closed p).
Definition set_verbatim (v : bool) (p : pty) : pty :=
  Pty (pty_name p) (pty_master p) (pty_slave p) (pty_size p) (tios p) (canon_buffer p) (canon_bufsize p)
    (canon_buflen p) (ct_proc p) (fg_proc p) v (master_closed p) (slave_closed p).
Definition set_slave_mtime (m : Z) (p : pty) : pty :=
  let n := pty_slave p in
  Pty (pty_name p) (pty_master p) (Fnode (n_uid n) (n_gid n) (n_mask n) m) (pty_size p) (tios p) (canon_buffer p)
    (canon_bufsize p) (canon_buflen p) (ct_proc p) (fg_proc p) (next_is_verbatim p) (master_closed p) (slave_closed p).
Definition set_owner (uid : Z) (p : pty) : pty :=
  let m := pty_master p in
  let n := pty_slave p in
  Pty (pty_name p) (Fnode uid (n_gid m) (n_mask m) (n_mtime m)) (Fnode uid (n_gid n) (n_mask n) (n_mtime n))
    (pty_size p) (tios p) (canon_buffer p) (canon_bufsize p) (canon_buflen p) (ct_proc p) (fg_proc p)
    (next_is_verbatim p) (master_closed p) (slave_closed p).
Definition set_size (w : winsize) (p : pty) : pty :=
  Pty (pty_name p) (pty_master p) (pty_slave p) w (tios p) (canon_buffer p) (canon_bufsize p) (canon_buflen p)
    (ct_proc p) (fg_proc p) (next_is_verbatim p) (master_closed p) (slave_closed p).
Definition set_tios (t : termios) (p : pty) : pty :=
  Pty (pty_name p) (pty_master p) (pty_slave p) (pty_size p) t (canon_buffer p) (canon_bufsize p) (canon_buflen p)
    (ct_proc p) (fg_proc p) (next_is_verbatim p) (master_closed p) (slave_closed p).
Definition set_procs (ct fg : Z) (p : pty) : pty :=
  Pty (pty_name p) (pty_master p) (pty_slave p) (pty_size p) (tios p) (canon_buffer p) (canon_bufsize p)
    (canon_buflen p) ct fg (next_is_verbatim p) (master_closed p) (slave_closed p).
Definition set_closed (m s : bool) (p : pty) : pty :=
  Pty (pty_name p) (pty_master p) (pty_slave p) (pty_size p) (tios p) (canon_buffer p) (canon_bufsize p)
    (canon_buflen p) (ct_proc p) (fg_proc p) (next_is_verbatim p) m s.

(** ** Bodies with early returns *)

Definition R (A : Type) : Type := M tty (Z + A).
#[global] Instance R_ret : MRet R := λ A a t, Ret (inr a, t).
#[global] Instance R_bind : MBind R := λ A B k m t,
  match m t with
  | Ret (inl r, t') => Ret (inl r, t')
  | Ret (inr a, t') => k a t'
  | Fault => Fault
  | Spin => Spin
  end.
(** A call whose result is used as a value, and [return r]. *)
Definition lift {A} (m : M tty A) : R A := λ t,
  match m t with Ret (a, t') => Ret (inr a, t') | Fault => Fault | Spin => Spin end.
Definition return_ {A} (r : Z) : R A := λ t, Ret (inl r, t).
(** A function with such a body. *)
Definition body (m : R Z) : M tty Z := λ t,
  match m t with
  | Ret (inl r, t') | Ret (inr r, t') => Ret (r, t')
  | Fault => Fault
  | Spin => Spin
  end.
(** [do { ssize_t written = m; if (written < 0) return written; } while (0)] *)
Definition checked (m : M tty Z) : R unit :=
  written ← lift m; if written <? 0 then return_ written else mret tt.
(** [if (b) m;] *)
Definition when (b : bool) (m : R unit) : R unit := if b then m else mret tt.
Definition the_pty : R pty := lift (gets t_pty).

Section tty.
Context `{TtyEnv}.

(** ** Output *)

Definition write_call (e : io) : M tty Z :=
  h ← gets t_io; _ ← call e; mret (write_reply h e).
Definition IN (c : Z) : R unit := checked (write_call (In (u8 c))).
Definition OUT (c : Z) : R unit := checked (write_call (Out (u8 c))).

Definition tty_output_process (c : Z) : M tty Z := body (
  p ← the_pty;
  let o := c_oflag (tios p) in
  if negb (flag o OPOST) then _ ← OUT c; return_ 1
  else if (c =? 10) && flag o ONLCR then _ ← OUT 10; _ ← OUT 13; return_ 1
  else if (c =? 13) && flag o ONLRET then return_ 1
  else if (97 <=? c) && (c <=? 122) && flag o OLCUC then _ ← OUT (c + 65 - 97); return_ 1
  else _ ← OUT c; return_ 1).

Definition output_process (c : Z) : R unit := checked (tty_output_process (u8 c)).

Definition is_control (c : Z) : bool := (c <? 32) || (c =? 127).

(** The echo of a character that is written out wherever the source echoes:
    in the caret notation if [ECHOCTL] is set and [ctl] holds of it. *)
Definition echo (ctl : bool) (c : Z) : R unit :=
  p ← the_pty;
  if flag (c_lflag (tios p)) ECHOCTL && ctl then
    _ ← output_process 94; output_process ((64 + c) mod 128)
  else output_process c.

(** ** The line buffer *)

(** [canon_buffer[i] = c], a fault outside the allocation. *)
Definition store_canon (i : nat) (c : Z) : M tty unit := λ t,
  let p := t_pty t in
  match canon_buffer p !! i with
  | Some _ => Ret (tt, Tty (set_canon (<[i := c]> (canon_buffer p)) (canon_buflen p) p) (t_io t))
  | None => Fault
  end.
Definition load_canon (i : nat) : M tty Z := λ t,
  match canon_buffer (t_pty t) !! i with Some c => Ret (c, t) | None => Fault end.
Definition set_buflen (n : nat) : M tty unit := set_pty (λ p, set_canon (canon_buffer p) n p).

Fixpoint dump_loop (fuel : nat) (c : nat) (written : Z) : R Z :=
  match fuel with
  | O => λ _, Spin
  | S fuel =>
      p ← the_pty;
      if (0 <? canon_buflen p)%nat then
        b ← lift (load_canon c);
        _ ← IN b;
        _ ← lift (set_buflen (canon_buflen p - 1));
        dump_loop fuel (S c) (written + 1)
      else return_ written
  end.

Definition dump_input_buffer : M tty Z := λ t,
  body (dump_loop (S (canon_buflen (t_pty t))) 0 0) t.

Definition clear_input_buffer : M tty unit := _ ← set_buflen 0; store_canon 0 0.

(** Backspace, blank, backspace: [vwidth] times. *)
Fixpoint rub_out (vwidth : nat) : R unit :=
  match vwidth with
  | O => mret tt
  | S n => _ ← output_process 8; _ ← output_process 32; _ ← output_process 8; rub_out n
  end.

(** [canon_buffer] is an array of [char]: the character is sign-extended. *)
Definition tty_erase_one (erase : bool) : M tty Z := body (
  p ← the_pty;
  if (0 <? canon_buflen p)%nat then
    let n := (canon_buflen p - 1)%nat in
    _ ← lift (set_buflen n);
    b ← lift (load_canon n);
    let vwidth := if is_control (s8 b) then 2%nat else 1%nat in
    _ ← lift (store_canon n 0);
    _ ← when (flag (c_lflag (tios p)) ECHO && erase) (rub_out vwidth);
    return_ 0
  else return_ 0).

Definition erase_one (erase : bool) : R unit := checked (tty_erase_one erase).

(** [while (canon_buflen && test(canon_buffer[canon_buflen-1])) erase_one] *)
Fixpoint erase_while (fuel : nat) (test : Z → bool) (erase : bool) : R unit :=
  match fuel with
  | O => λ _, Spin
  | S fuel =>
      p ← the_pty;
      if (0 <? canon_buflen p)%nat then
        b ← lift (load_canon (canon_buflen p - 1));
        if test b then _ ← erase_one erase; erase_while fuel test erase else mret tt
      else mret tt
  end.

(** The loop of [VKILL] does not look at the buffer. *)
Fixpoint erase_all (fuel : nat) (erase : bool) : R unit :=
  match fuel with
  | O => λ _, Spin
  | S fuel =>
      p ← the_pty;
      if (0 <? canon_buflen p)%nat then _ ← erase_one erase; erase_all fuel erase else mret tt
  end.

Definition append_canon (c : Z) : R unit :=
  p ← the_pty;
  when (canon_buflen p <? canon_bufsize p)%nat
    (_ ← lift (store_canon (canon_buflen p) c); lift (set_buflen (S (canon_buflen p)))).

(** ** Input *)

(** The mapping of input characters: [ISTRIP] to [IUCLC]. *)
Definition strip (t : termios) (c : Z) : Z := if flag (c_iflag t) ISTRIP then Z.land c 127 else c.
Definition translate (t : termios) (c : Z) : Z :=
  let i := c_iflag t in
  let c := if flag i INLCR && (c =? 10) then 13
           else if flag i ICRNL && (c =? 13) then 10 else c in
  if flag i IUCLC && ((65 <=? c) && (c <=? 90)) then c - 65 + 97 else c.

(** The signal character [c] stands for. *)
Definition signal_of (t : termios) (c : Z) : option Z :=
  if c =? cc t VINTR then Some SIGINT
  else if c =? cc t VQUIT then Some SIGQUIT
  else if c =? cc t VSUSP then Some SIGTSTP
  else None.

(** Canonical mode: a character that goes into the line. *)
Definition canonical_insert (c : Z) : R Z :=
  p ← the_pty;
  let t := tios p in
  let l := c_lflag t in
  _ ← append_canon c;
  _ ← when (flag l ECHO) (echo (is_control c && negb (c =? 10)) c);
  if (c =? 10) || (negb (cc t VEOL =? 0) && (c =? cc t VEOL)) then
    _ ← when (negb (flag l ECHO) && flag l ECHONL) (output_process c);
    p ← the_pty;
    _ ← lift (match canon_buflen p with O => fault | S n => store_canon n c end);
    _ ← lift dump_input_buffer;
    return_ 1
  else return_ 1.

(** Canonical mode, for a character that is not handled before. *)
Definition canonical_input (c : Z) : R Z :=
  p ← the_pty;
  let t := tios p in
  let l := c_lflag t in
  let fuel := S (canon_buflen p) in
  if (c =? cc t VLNEXT) && flag l IEXTEN then
    _ ← lift (set_pty (set_verbatim true)); _ ← output_process 94; _ ← output_process 8; return_ 1
  else if c =? cc t VKILL then
    _ ← erase_all fuel (flag l ECHOK);
    _ ← when (flag l ECHO && negb (flag l ECHOK)) (echo (is_control c) c);
    return_ 1
  else if c =? cc t VERASE then
    _ ← erase_one (flag l ECHOE);
    _ ← when (flag l ECHO && negb (flag l ECHOE)) (echo (is_control c) c);
    return_ 1
  else if (c =? cc t VWERASE) && flag l IEXTEN then
    _ ← erase_while fuel (λ b, b =? 32) (flag l ECHOE);
    _ ← erase_while fuel (λ b, negb (b =? 32)) (flag l ECHOE);
    _ ← when (flag l ECHO && negb (flag l ECHOE)) (echo (is_control c) c);
    return_ 1
  else if c =? cc t VEOF then
    _ ← lift (if (0 <? canon_buflen p)%nat then dump_input_buffer else _ ← call InEof; mret 0);
    return_ 1
  else canonical_insert c.

Definition tty_input_process (c : Z) : M tty Z := body (
  _ ← lift (λ t, set_pty (set_slave_mtime (now (t_io t))) t);
  p ← the_pty;
  let t := tios p in
  let l := c_lflag t in
  if next_is_verbatim p then
    _ ← lift (set_pty (set_verbatim false));
    _ ← append_canon c;
    _ ← when (flag l ECHO) (echo (is_control c) c);
    return_ 1
  else
    match (if flag l ISIG then signal_of t c else None) with
    | Some sig =>
        _ ← when (flag l ECHO) (echo (is_control c) c);
        _ ← lift clear_input_buffer;
        _ ← lift (if negb (fg_proc p =? 0) then call (GroupSignal (fg_proc p) sig) else mret tt);
        return_ 1
    | None =>
        let c := strip t c in
        if flag (c_iflag t) IGNCR && (c =? 13) then return_ 1
        else
          let c := translate t c in
          if flag l ICANON then canonical_input c
          else
            _ ← when (flag l ECHO) (echo (is_control c && negb (c =? 10)) c);
            _ ← IN c;
            return_ 1
    end).

(** ** The endpoints *)

Definition read_call (e : io) : M tty (Z * list Z) :=
  h ← gets t_io; _ ← call e; mret (read_reply h e).

Definition read_pty_master (size : Z) : M tty (Z * list Z) := read_call (ReadOut size).

Fixpoint write_pty_master_loop (l : Z) (bs : list Z) : M tty Z :=
  match bs with
  | [] => mret l
  | c :: bs =>
      o ← tty_input_process c;
      if (o <? 0) && (l =? 0) then mret o else write_pty_master_loop (l + 1) bs
  end.
Definition write_pty_master (bs : list Z) : M tty Z := write_pty_master_loop 0 bs.

(** The calling process, as far as the driver looks at it. *)
Record process := Process {
  proc_user : Z;
  proc_id : Z;
  proc_session : Z;
  proc_job : Z;
  proc_blocked : Z;
  proc_handler : Z → Z
}.

Definition ignoring (cur : process) (sig : Z) : bool :=
  if Z.testbit (proc_blocked cur) sig then true
  else if proc_handler cur sig =? 1 then true
  else false.

(** The caller is in the session of the terminal but not in its foreground job. *)
Definition background (p : pty) (cur : process) : bool :=
  (ct_proc p =? proc_session cur) && negb (fg_proc p =? 0) && negb (proc_job cur =? fg_proc p).

(** [while (c < vmin)]: each turn reads at least a byte or ends the call. *)
Fixpoint read_min_loop (fuel : nat) (vmin size c : Z) (out : list Z) : M tty (Z * list Z) :=
  match fuel with
  | O => λ _, Spin
  | S fuel =>
      if c <? vmin then
        r ← read_call (ReadIn (size - c));
        let '(n, bs) := r in
        if n <=? 0 then mret (if negb (c =? 0) then c else n, out)
        else read_min_loop fuel vmin size (c + n) (out ++ bs)
      else mret (c, out)
  end.

Definition read_pty_slave (cur : process) (size : Z) : M tty (Z * list Z) :=
  p ← gets t_pty;
  if background p cur then
    if ignoring cur SIGTTIN then mret (- EIO, [])
    else _ ← call (GroupSignal (proc_job cur) SIGTTIN); mret (- ERESTARTSYS, [])
  else if flag (c_lflag (tios p)) ICANON then read_call (ReadIn size)
  else if cc (tios p) VMIN =? 0 then read_call (ReadIn size)
  else
    let vmin := Z.min (cc (tios p) VMIN) size in
    read_min_loop (S (Z.to_nat vmin)) vmin size 0 [].

Fixpoint write_pty_slave_loop (l : Z) (bs : list Z) : M tty Z :=
  match bs with
  | [] => mret l
  | c :: bs =>
      o ← tty_output_process c;
      if o <? 0 then mret (if negb (l =? 0) then l else o) else write_pty_slave_loop (l + 1) bs
  end.

Definition write_pty_slave (cur : process) (bs : list Z) : M tty Z :=
  p ← gets t_pty;
  if flag (c_lflag (tios p)) TOSTOP && background p cur && negb (ignoring cur SIGTTOU) then
    _ ← call (GroupSignal (proc_job cur) SIGTTOU); mret (- ERESTARTSYS)
  else write_pty_slave_loop 0 bs.

Definition pty_teardown : M tty unit :=
  p ← gets t_pty;
  _ ← (if negb (pty_name p =? 0) then call (IndexRemove (pty_name p)) else mret tt);
  _ ← call EraseProcesses; _ ← call FreeCanon; _ ← call DestroyIn; _ ← call DestroyOut; call FreePty.

Definition close_pty_master : M tty unit :=
  _ ← call InterruptIn; _ ← call InterruptOut; _ ← call AlertIn; _ ← call AlertOut;
  p ← gets t_pty;
  _ ← (if negb (ct_proc p =? 0) then call (SessionSignal (ct_proc p) SIGHUP) else mret tt);
  _ ← set_pty (λ p, set_closed true (slave_closed p) p);
  if slave_closed p then pty_teardown else mret tt.

Definition close_pty_slave : M tty unit :=
  _ ← set_pty (λ p, set_closed (master_closed p) true p);
  p ← gets t_pty;
  if master_closed p then pty_teardown else mret tt.

(** ** Control calls *)

(** A user pointer: which sizes may be read or written through it, and the
    object it points to, at each type the driver reads it as. *)
Record uptr := Uptr {
  u_reads : Z → bool;
  u_writes : Z → bool;
  u_int : Z;
  u_winsize : winsize;
  u_termios : termios;
  u_name_len : Z;
  u_name_writes : bool
}.

(** What the call stores through the pointer. *)
Inductive reply := NoReply | ReplyWinsize (w : winsize) | ReplyTermios (t : termios) | ReplyPid (p : Z)
| ReplyName (text : list Z).

Inductive request :=
| IOCTLTTYNAME | IOCTLTTYLOGIN | TIOCSWINSZ | TIOCGWINSZ | TCGETS | TIOCSPGRP | TIOCGPGRP | TIOCGSID | TIOCSCTTY
| TCSETS | TCSETSW | TCSETSF | OtherRequest (n : Z).

Definition SIZEOF_TTY_NAME : Z := 16.
Definition SIZEOF_INT : Z := 4.
Definition SIZEOF_WINSIZE : Z := 8.
Definition SIZEOF_TERMIOS : Z := 48.

(** [if (!argp) return -EINVAL; if (!mmu_validate_user_pointer(argp, size, flags)) return -EFAULT;] *)
Definition validated (argp : option uptr) (ok : uptr → bool) (k : uptr → M tty (Z * reply)) : M tty (Z * reply) :=
  match argp with
  | None => mret (- EINVAL, NoReply)
  | Some a => if ok a then k a else mret (- EFAULT, NoReply)
  end.

Definition set_termios_common (argp : option uptr) : M tty (Z * reply) :=
  match argp with
  | Some a => if u_reads a SIZEOF_TERMIOS then _ ← set_pty (set_tios (u_termios a)); mret (0, NoReply) else fault
  | None => fault
  end.

Definition pty_ioctl (is_master : bool) (cur : process) (req : request) (argp : option uptr) : M tty (Z * reply) :=
  p ← gets t_pty;
  match req with
  | IOCTLTTYNAME =>
      validated argp (λ a, u_reads a SIZEOF_TTY_NAME) (λ a,
        if negb (u_name_writes a) then mret (- EFAULT, NoReply)
        else let '(n, text) := fill_name p (u_name_len a) in
          mret (if u_name_len a <=? u32 n then - ERANGE else 0, ReplyName text))
  | IOCTLTTYLOGIN =>
      if negb (proc_user cur =? 0) then mret (- EPERM, NoReply)
      else validated argp (λ a, u_reads a SIZEOF_INT) (λ a,
        _ ← set_pty (set_owner (u_int a)); mret (0, NoReply))
  | TIOCSWINSZ =>
      validated argp (λ a, u_reads a SIZEOF_WINSIZE) (λ a,
        _ ← set_pty (set_size (u_winsize a));
        _ ← (if negb (fg_proc p =? 0) then call (GroupSignal (fg_proc p) SIGWINCH) else mret tt);
        mret (0, NoReply))
  | TIOCGWINSZ =>
      validated argp (λ a, u_writes a SIZEOF_WINSIZE) (λ a, mret (0, ReplyWinsize (pty_size p)))
  | TCGETS =>
      validated argp (λ a, u_writes a SIZEOF_TERMIOS) (λ a, mret (0, ReplyTermios (tios p)))
  | TIOCSPGRP =>
      validated argp (λ a, u_reads a SIZEOF_INT) (λ a,
        _ ← set_pty (set_procs (ct_proc p) (u_int a)); mret (0, NoReply))
  | TIOCGPGRP =>
      validated argp (λ a, u_writes a SIZEOF_INT) (λ a,
        if negb is_master && negb (ct_proc p =? proc_session cur) then mret (- ENOTTY, NoReply)
        else mret (0, ReplyPid (fg_proc p)))
  | TIOCGSID =>
      validated argp (λ a, u_writes a SIZEOF_INT) (λ a,
        if negb is_master && negb (ct_proc p =? proc_session cur) then mret (- ENOTTY, NoReply)
        else mret (0, ReplyPid (ct_proc p)))
  | TIOCSCTTY =>
      if (proc_session cur =? proc_id cur) && (ct_proc p =? proc_session cur) then mret (0, NoReply)
      else if negb (proc_session cur =? proc_id cur) then mret (- EPERM, NoReply)
      else
        let stolen := match argp with
                      | Some a => (proc_user cur =? 0) && (u_int a =? 1)
                      | None => false
                      end in
        if negb (ct_proc p =? 0) && negb stolen then mret (- EPERM, NoReply)
        else
          _ ← set_pty (set_procs (proc_session cur) (fg_proc p));
          _ ← call (Attach (proc_id cur));
          mret (0, NoReply)
  | TCSETS | TCSETSW =>
      validated argp (λ a, u_reads a SIZEOF_TERMIOS) (λ a,
        _ ← (if negb (flag (c_lflag (u_termios a)) ICANON) && flag (c_lflag (tios p)) ICANON
             then dump_input_buffer else mret 0);
        set_termios_common argp)
  | TCSETSF => _ ← clear_input_buffer; _ ← call InDiscard; set_termios_common argp
  | OtherRequest _ => mret (- ENOTTY, NoReply)
  end.

Definition ioctl_pty_master := pty_ioctl true.
Definition ioctl_pty_slave := pty_ioctl false.

Definition chmod_pty_slave (mode : Z) (n : fnode) : fnode := Fnode (n_uid n) (n_gid n) mode (n_mtime n).
Definition chown_pty_slave (uid gid : Z) (n : fnode) : fnode :=
  Fnode (if negb (uid =? -1) then uid else n_uid n) (if negb (gid =? -1) then gid else n_gid n) (n_mask n) (n_mtime n).

(** ** A new terminal *)

Definition pty_master_create (user group time : Z) : fnode := Fnode user group 438 time.
Definition pty_slave_create (user time : Z) : fnode := Fnode user 3 400 time.

Definition default_termios (junk : list Z) : termios :=
  Termios (Z.lor ICRNL BRKINT) (Z.lor ONLCR OPOST) (Z.lor CREAD (Z.lor CS8 B38400))
    (Z.lor ECHO (Z.lor ECHOE (Z.lor ECHOK (Z.lor ICANON (Z.lor ISIG (Z.lor IEXTEN ECHOCTL))))))
    (<[VEOF := 4]> $ <[VEOL := 0]> $ <[VERASE := 127]> $ <[VINTR := 3]> $ <[VKILL := 21]> $ <[VMIN := 1]> $
     <[VQUIT := 28]> $ <[VSTART := 17]> $ <[VSTOP := 19]> $ <[VSUSP := 26]> $ <[VTIME := 0]> $ <[VLNEXT := 22]> $
     <[VWERASE := 23]> $ junk).

(** [malloc] does not clear: what the terminal and its line buffer hold where
    they are not set is [junk]. *)
Definition pty_new (size : option winsize) (index user group time : Z) (junk : pty) : pty :=
  Pty index (pty_master_create user group time) (pty_slave_create user time)
    (default (Winsize 25 80 (ws_xpixel (pty_size junk)) (ws_ypixel (pty_size junk))) size)
    (default_termios (c_cc (tios junk))) (canon_buffer junk) (TTY_BUFFER_SIZE - 2) 0 0 0 false false false.

End tty.

(** ** What the line discipline is: a line editor *)

Definition is_byte (c : Z) : Prop := 0 ≤ c < 256.

(** Output processing of a byte. *)
Definition opost (t : termios) (c : Z) : list Z :=
  let o := c_oflag t in
  if negb (flag o OPOST) then [c]
  else if (c =? 10) && flag o ONLCR then [10; 13]
  else if (c =? 13) && flag o ONLRET then []
  else if (97 <=? c) && (c <=? 122) && flag o OLCUC then [c - 32]
  else [c].

(** What a character looks like: itself, or [^X] for a control character. *)
Definition shown (t : termios) (ctl : bool) (c : Z) : list Z :=
  if flag (c_lflag t) ECHOCTL && ctl then opost t 94 ++ opost t ((64 + c) mod 128) else opost t c.

Definition echoed (t : termios) (bs : list Z) : list io := if flag (c_lflag t) ECHO then Out <$> bs else [].

(** Rubbing out a stored byte, and a suffix of the line from its end. *)
Definition rub (b : Z) : list Z := if is_control (s8 b) then [8; 32; 8; 8; 32; 8] else [8; 32; 8].
Definition rubbed (t : termios) (erase : bool) (removed : list Z) : list io :=
  if flag (c_lflag t) ECHO && erase then Out <$> (reverse removed ≫= rub) else [].

(** The echo of an editing character when its effect is not shown instead. *)
Definition echoed_unless (t : termios) (visual : bool) (c : Z) : list io :=
  if flag (c_lflag t) ECHO && negb visual then Out <$> shown t (is_control c) c else [].

(** Adding a byte to a line of at most [limit] bytes: the excess is dropped. *)
Definition add_byte (limit : nat) (line : list Z) (c : Z) : list Z :=
  if (length line <? limit)%nat then line ++ [c] else line.

Fixpoint drop_while (f : Z → bool) (l : list Z) : list Z :=
  match l with
  | [] => []
  | x :: l' => if f x then drop_while f l' else l
  end.
(** The line without the bytes at its end that satisfy [f]. *)
Definition cut_end (f : Z → bool) (line : list Z) : list Z := reverse (drop_while f (reverse line)).
Definition cut_word (line : list Z) : list Z := cut_end (λ b, negb (b =? 32)) (cut_end (λ b, b =? 32) line).

Record editor := Editor { ed_line : list Z; ed_verbatim : bool }.

Definition ends_line (t : termios) (c : Z) : bool :=
  (c =? 10) || (negb (cc t VEOL =? 0) && (c =? cc t VEOL)).

(** A character in canonical mode: the new line, and what is shown or delivered. *)
Definition edit_line (t : termios) (limit : nat) (line : list Z) (c : Z) : editor * list io :=
  let l := c_lflag t in
  if (c =? cc t VLNEXT) && flag l IEXTEN then (Editor line true, Out <$> opost t 94 ++ [8])
  else if c =? cc t VKILL then
    (Editor [] false, rubbed t (flag l ECHOK) line ++ echoed_unless t (flag l ECHOK) c)
  else if c =? cc t VERASE then
    let line' := removelast line in
    (Editor line' false, rubbed t (flag l ECHOE) (drop (length line') line) ++ echoed_unless t (flag l ECHOE) c)
  else if (c =? cc t VWERASE) && flag l IEXTEN then
    let line' := cut_word line in
    (Editor line' false, rubbed t (flag l ECHOE) (drop (length line') line) ++ echoed_unless t (flag l ECHOE) c)
  else if c =? cc t VEOF then
    (Editor [] false, match line with [] => [InEof] | _ => In <$> line end)
  else
    let line' := add_byte limit line c in
    let seen := echoed t (shown t (is_control c && negb (c =? 10)) c) in
    if ends_line t c then
      (Editor [] false,
       seen ++ (if negb (flag l ECHO) && flag l ECHONL then Out <$> opost t c else []) ++
       (In <$> removelast line' ++ [c]))
    else (Editor line' false, seen).

(** A byte from the terminal. *)
Definition edit (t : termios) (limit : nat) (fg : Z) (e : editor) (c : Z) : editor * list io :=
  if ed_verbatim e then
    (Editor (add_byte limit (ed_line e) c) false, echoed t (shown t (is_control c) c))
  else
    match (if flag (c_lflag t) ISIG then signal_of t c else None) with
    | Some sig =>
        (Editor [] false, echoed t (shown t (is_control c) c) ++ (if fg =? 0 then [] else [GroupSignal fg sig]))
    | None =>
        let c := strip t c in
        if flag (c_iflag t) IGNCR && (c =? 13) then (e, [])
        else
          let c := translate t c in
          if flag (c_lflag t) ICANON then edit_line t limit (ed_line e) c
          else (e, echoed t (shown t (is_control c && negb (c =? 10)) c) ++ [In c])
    end.

Fixpoint edit_all (t : termios) (limit : nat) (fg : Z) (e : editor) (bs : list Z) : editor * list io :=
  match bs with
  | [] => (e, [])
  | c :: bs =>
      let '(e1, out1) := edit t limit fg e c in
      let '(e2, out2) := edit_all t limit fg e1 bs in
      (e2, out1 ++ out2)
  end.

(** ** Running the driver *)

Lemma R_bind_inr {A B} (m : R A) (k : A → R B) t a t' :
  m t = Ret (inr a, t') → (m ≫= k) t = k a t'.
Proof. intros H. unfold mbind, R_bind. by rewrite H. Qed.

Lemma R_bind_inl {A B} (m : R A) (k : A → R B) t r t' :
  m t = Ret (inl r, t') → (m ≫= k) t = Ret (inl r, t').
Proof. intros H. unfold mbind, R_bind. by rewrite H. Qed.

Lemma lift_run {A} (m : M tty A) t a t' : m t = Ret (a, t') → lift m t = Ret (inr a, t').
Proof. intros H. unfold lift. by rewrite H. Qed.

Lemma the_pty_bind {B} (k : pty → R B) t : (the_pty ≫= k) t = k (t_pty t) t.
Proof. reflexivity. Qed.

(** The state after more calls. *)
Definition sent (t : tty) (es : list io) : tty := Tty (t_pty t) (t_io t ++ es).
(** The state after calls and a change of the terminal. *)
Definition moved_to (t : tty) (p : pty) (es : list io) : tty := Tty p (t_io t ++ es).

Lemma sent_nil t : sent t [] = t.
Proof. destruct t. unfold sent; cbn. by rewrite app_nil_r. Qed.
Lemma sent_sent t es es' : sent (sent t es) es' = sent t (es ++ es').
Proof. unfold sent; cbn. by rewrite (assoc_L (++)). Qed.
Lemma moved_moved t p es p' es' : moved_to (moved_to t p es) p' es' = moved_to t p' (es ++ es').
Proof. unfold moved_to; cbn. by rewrite (assoc_L (++)). Qed.
Lemma sent_moved t p es es' : sent (moved_to t p es) es' = moved_to t p (es ++ es').
Proof. unfold sent, moved_to; cbn. by rewrite (assoc_L (++)). Qed.
Lemma moved_sent t p es es' : moved_to (sent t es) p es' = moved_to t p (es ++ es').
Proof. unfold sent, moved_to; cbn. by rewrite (assoc_L (++)). Qed.
Lemma sent_pty t es : t_pty (sent t es) = t_pty t.
Proof. done. Qed.

(** The environment takes every byte (it may drop it, as a stopped ring buffer
    does, but it reports no error). *)
Class Accepting `{TtyEnv} := accepting : ∀ h e, 0 ≤ write_reply h e.

Section accepting.
Context `{Accepting}.

Lemma write_call_run e t : write_call e t = Ret (write_reply (t_io t) e, sent t [e]).
Proof. reflexivity. Qed.

Lemma checked_run (m : M tty Z) t r t' : m t = Ret (r, t') → 0 ≤ r → checked m t = Ret (inr tt, t').
Proof.
  intros Hm Hr. unfold checked. rewrite (R_bind_inr _ _ _ _ _ (lift_run _ _ _ _ Hm)).
  by rewrite (proj2 (Z.ltb_ge _ _)).
Qed.

Lemma OUT_run c t : is_byte c → OUT c t = Ret (inr tt, sent t [Out c]).
Proof.
  intros Hc. unfold OUT, is_byte in *. rewrite wrap_small by lia. eapply checked_run; [apply write_call_run|apply accepting].
Qed.

Lemma IN_run c t : is_byte c → IN c t = Ret (inr tt, sent t [In c]).
Proof.
  intros Hc. unfold IN, is_byte in *. rewrite wrap_small by lia. eapply checked_run; [apply write_call_run|apply accepting].
Qed.

Lemma tty_output_process_run c t : is_byte c →
  tty_output_process c t = Ret (1, sent t (Out <$> opost (tios (t_pty t)) c)).
Proof.
  intros Hc. unfold tty_output_process, body, opost. rewrite the_pty_bind.
  destruct (flag _ OPOST); cbn [negb].
  - destruct ((c =? 10) && _).
    { rewrite (R_bind_inr _ _ _ _ _ (OUT_run 10 t ltac:(split; lia))).
      rewrite (R_bind_inr _ _ _ _ _ (OUT_run 13 _ ltac:(split; lia))). by rewrite sent_sent. }
    destruct ((c =? 13) && _); [cbn; by rewrite sent_nil|].
    destruct ((97 <=? c) && (c <=? 122) && _) eqn:E.
    { assert (97 ≤ c ≤ 122) by (rewrite !andb_true_iff, !Z.leb_le in E; lia).
      rewrite (R_bind_inr _ _ _ _ _ (OUT_run (c + 65 - 97) t ltac:(split; lia))). cbn.
      do 4 f_equal. f_equal. lia. }
    by rewrite (R_bind_inr _ _ _ _ _ (OUT_run c t Hc)).
  - by rewrite (R_bind_inr _ _ _ _ _ (OUT_run c t Hc)).
Qed.

Lemma output_process_run c t : is_byte c →
  output_process c t = Ret (inr tt, sent t (Out <$> opost (tios (t_pty t)) c)).
Proof.
  intros Hc. unfold output_process. rewrite wrap_small by exact Hc.
  eapply checked_run; [by apply tty_output_process_run|lia].
Qed.

Lemma echo_run ctl c t : is_byte c →
  echo ctl c t = Ret (inr tt, sent t (Out <$> shown (tios (t_pty t)) ctl c)).
Proof.
  intros Hc. unfold echo, shown. rewrite the_pty_bind. destruct (_ && ctl); [|by apply output_process_run].
  rewrite (R_bind_inr _ _ _ _ _ (output_process_run 94 t ltac:(split; lia))).
  rewrite output_process_run by (pose proof (Z.mod_pos_bound (64 + c) 128); split; lia).
  by rewrite sent_sent, <-fmap_app.
Qed.

Lemma when_echo_run b ctl c t : is_byte c →
  when b (echo ctl c) t = Ret (inr tt, sent t (if b then Out <$> shown (tios (t_pty t)) ctl c else [])).
Proof. intros Hc. destruct b; cbn; [by apply echo_run|by rewrite sent_nil]. Qed.

(** Backspace and blank are not changed on output. *)
Lemma opost_plain t c : c = 8 ∨ c = 32 → opost t c = [c].
Proof. intros [-> | ->]; unfold opost; cbn; by destruct (negb _). Qed.

Lemma rub_out_run n t : rub_out n t = Ret (inr tt, sent t (Out <$> (replicate n [8; 32; 8] ≫= id))).
Proof.
  revert t. induction n as [|n IH]; intros t; cbn [rub_out]; [by rewrite sent_nil|].
  rewrite (R_bind_inr _ _ _ _ _ (output_process_run 8 t ltac:(split; lia))).
  rewrite (R_bind_inr _ _ _ _ _ (output_process_run 32 _ ltac:(split; lia))).
  rewrite (R_bind_inr _ _ _ _ _ (output_process_run 8 _ ltac:(split; lia))).
  by rewrite IH, !sent_sent, !opost_plain by tauto.
Qed.

(** ** The line buffer on sequences *)

Definition line (p : pty) : list Z := take (canon_buflen p) (canon_buffer p).

(** The line is within its limit and there is room behind it. *)
Definition pty_ok (p : pty) : Prop :=
  (canon_buflen p ≤ canon_bufsize p)%nat ∧ (0 < canon_bufsize p)%nat ∧
  (canon_bufsize p < length (canon_buffer p))%nat ∧ Forall is_byte (line p).

(** [p'] is [p] but for the line, which is now [l]. *)
Definition lines_to (p : pty) (l : list Z) (p' : pty) : Prop :=
  line p' = l ∧ length (canon_buffer p') = length (canon_buffer p) ∧ canon_buflen p' = length l ∧
  p' = set_canon (canon_buffer p') (canon_buflen p') p.

Lemma line_length p : pty_ok p → length (line p) = canon_buflen p.
Proof. intros (? & ? & ? & _). unfold line. rewrite length_take. lia. Qed.

Lemma lines_to_refl p : pty_ok p → lines_to p (line p) p.
Proof. intros Hp. split_and!; [done|done|by rewrite line_length|by destruct p]. Qed.

Lemma lines_to_trans p l p' l' p'' : lines_to p l p' → lines_to p' l' p'' → lines_to p l' p''.
Proof.
  intros (? & L1 & ? & E1) (? & L2 & ? & E2). split_and!; [done|congruence|done|].
  rewrite E1 in E2. exact E2.
Qed.

Lemma lines_to_ok p l p' : pty_ok p → lines_to p l p' → (length l ≤ canon_bufsize p)%nat → Forall is_byte l → pty_ok p'.
Proof.
  intros (? & ? & ? & ?) (E & L & N & P) Hl Hb. assert (canon_bufsize p' = canon_bufsize p) by (rewrite P; done).
  unfold pty_ok. rewrite E, L, N. split_and!; [lia..|done].
Qed.

Lemma lines_to_tios p l p' : lines_to p l p' → tios p' = tios p ∧ canon_bufsize p' = canon_bufsize p ∧
  fg_proc p' = fg_proc p ∧ next_is_verbatim p' = next_is_verbatim p.
Proof. intros (_ & _ & _ & E). rewrite E. done. Qed.

Lemma set_buflen_run n t : set_buflen n t = Ret (tt, moved_to t (set_canon (canon_buffer (t_pty t)) n (t_pty t)) []).
Proof. unfold set_buflen, set_pty, modify, moved_to. by rewrite app_nil_r. Qed.

Lemma store_canon_run i c t : (i < length (canon_buffer (t_pty t)))%nat →
  store_canon i c t =
    Ret (tt, moved_to t (set_canon (<[i := c]> (canon_buffer (t_pty t))) (canon_buflen (t_pty t)) (t_pty t)) []).
Proof.
  intros Hi. unfold store_canon, moved_to. destruct (lookup_lt_is_Some_2 _ _ Hi) as [b ->]. by rewrite app_nil_r.
Qed.

Lemma load_canon_run i b t : (i < canon_buflen (t_pty t))%nat → line (t_pty t) !! i = Some b →
  load_canon i t = Ret (b, t).
Proof. intros Hi Hb. unfold load_canon. unfold line in Hb. rewrite lookup_take_lt in Hb by done. by rewrite Hb. Qed.

Lemma line_snoc p l b : pty_ok p → line p = l ++ [b] → canon_buflen p = S (length l).
Proof. intros Hp E. rewrite <-(line_length p Hp), E, length_app. cbn. lia. Qed.

(** [tty_erase_one] drops the last byte and rubs it out. *)
Lemma tty_erase_one_run erase t l b : pty_ok (t_pty t) → line (t_pty t) = l ++ [b] →
  ∃ p', tty_erase_one erase t = Ret (0, moved_to t p' (rubbed (tios (t_pty t)) erase [b])) ∧
    lines_to (t_pty t) l p'.
Proof.
  intros Hp El. pose proof (line_snoc _ _ _ Hp El) as En. destruct Hp as (Hle & _ & Hlt & _).
  unfold tty_erase_one, body. rewrite the_pty_bind, En. cbn [Nat.ltb Nat.leb]. rewrite Nat.sub_succ, Nat.sub_0_r.
  rewrite (R_bind_inr _ _ _ _ _ (lift_run _ _ _ _ (set_buflen_run (length l) t))).
  set (p1 := set_canon (canon_buffer (t_pty t)) (length l) (t_pty t)).
  assert (Hb : canon_buffer (t_pty t) !! length l = Some b).
  { rewrite <-(lookup_take_lt _ (canon_buflen (t_pty t))) by lia. fold (line (t_pty t)). rewrite El.
    by apply list_lookup_middle. }
  assert (Hload : load_canon (length l) (moved_to t p1 []) = Ret (b, moved_to t p1 [])).
  { unfold load_canon. cbn. by rewrite Hb. }
  rewrite (R_bind_inr _ _ _ _ _ (lift_run _ _ _ _ Hload)).
  rewrite (R_bind_inr _ _ _ _ _ (lift_run _ _ _ _ (store_canon_run (length l) 0 (moved_to t p1 []) ltac:(cbn; lia)))).
  set (p2 := set_canon (<[length l := 0]> (canon_buffer (t_pty t))) (length l) (t_pty t)).
  exists p2. split.
  - unfold rubbed. destruct (flag _ ECHO && erase); cbn [when].
    + rewrite (R_bind_inr _ _ _ _ _ (rub_out_run _ _)). cbn. unfold rub.
      rewrite app_nil_r, moved_moved, sent_moved. by destruct (is_control (s8 b)).
    + cbn. by rewrite moved_moved.
  - split_and!; [|cbn; apply length_insert|done|done]. unfold line; cbn.
    rewrite take_insert_ge by lia. apply (f_equal (take (length l))) in El. rewrite take_app_length in El.
    unfold line in El. rewrite take_take, Nat.min_l in El by lia. exact El.
Qed.

Lemma erase_one_run erase t l b : pty_ok (t_pty t) → line (t_pty t) = l ++ [b] →
  ∃ p', erase_one erase t = Ret (inr tt, moved_to t p' (rubbed (tios (t_pty t)) erase [b])) ∧
    lines_to (t_pty t) l p'.
Proof.
  intros Hp El. destruct (tty_erase_one_run erase t l b Hp El) as (p' & Hr & Hl). exists p'. split; [|done].
  eapply checked_run; [exact Hr|lia].
Qed.

Lemma rubbed_snoc t erase l b : rubbed t erase [b] ++ rubbed t erase l = rubbed t erase (l ++ [b]).
Proof.
  unfold rubbed. destruct (_ && erase); [|done]. rewrite <-fmap_app, reverse_app. cbn [reverse_cons app].
  by rewrite bind_app.
Qed.

Lemma moved_to_self t : moved_to t (t_pty t) [] = t.
Proof. destruct t. unfold moved_to; cbn. by rewrite app_nil_r. Qed.

Lemma line_ok_app p l l' : pty_ok p → line p = l ++ l' → (length l ≤ canon_bufsize p)%nat ∧ Forall is_byte l.
Proof.
  intros Hp El. pose proof (line_length p Hp) as Hn. destruct Hp as (? & _ & _ & Hb). rewrite El in *.
  rewrite length_app in Hn. apply Forall_app in Hb as [? _]. split; [lia|done].
Qed.

(** [VKILL]: the whole line goes. *)
Lemma erase_all_run erase : ∀ l fuel t, pty_ok (t_pty t) → line (t_pty t) = l → (length l < fuel)%nat →
  ∃ p', erase_all fuel erase t = Ret (inr tt, moved_to t p' (rubbed (tios (t_pty t)) erase l)) ∧
    lines_to (t_pty t) [] p'.
Proof.
  induction l as [|b l IH] using rev_ind; intros fuel t Hp El Hf; (destruct fuel as [|fuel]; [cbn in Hf; lia|]);
    cbn [erase_all]; rewrite the_pty_bind.
  - assert (E0 : canon_buflen (t_pty t) = 0%nat) by (by rewrite <-line_length, El). rewrite E0. cbn [Nat.ltb Nat.leb].
    exists (t_pty t). split; [|rewrite <-El; by apply lines_to_refl].
    unfold rubbed. destruct (_ && erase); cbn; by rewrite moved_to_self.
  - rewrite (line_snoc _ _ _ Hp El). cbn [Nat.ltb Nat.leb].
    destruct (erase_one_run erase t l b Hp El) as (p1 & Hr & Hl). rewrite (R_bind_inr _ _ _ _ _ Hr).
    rewrite length_app in Hf. cbn in Hf. destruct (line_ok_app _ _ _ Hp El) as [Hlen Hbs].
    destruct (lines_to_tios _ _ _ Hl) as (Et & _).
    destruct (IH fuel (moved_to t p1 (rubbed (tios (t_pty t)) erase [b]))) as (p2 & -> & Hl2);
      [by eapply lines_to_ok|apply Hl|lia|].
    exists p2. split; [|by eapply lines_to_trans]. cbn [t_pty moved_to]. rewrite Et, moved_moved. by rewrite rubbed_snoc.
Qed.

Lemma cut_end_snoc f l b : cut_end f (l ++ [b]) = if f b then cut_end f l else l ++ [b].
Proof.
  unfold cut_end. rewrite reverse_snoc. cbn [drop_while]. destruct (f b); [done|]. by rewrite reverse_cons, reverse_involutive.
Qed.

Lemma cut_end_prefix f l : ∃ l', l = cut_end f l ++ l'.
Proof.
  induction l as [|b l [l' IH]] using rev_ind; [by exists []|]. rewrite cut_end_snoc.
  destruct (f b); [exists (l' ++ [b]); by rewrite (assoc_L (++)), <-IH|exists []; by rewrite app_nil_r].
Qed.

Lemma cut_end_length f l : (length (cut_end f l) ≤ length l)%nat.
Proof. destruct (cut_end_prefix f l) as [l' E]. rewrite E at 2. rewrite length_app. lia. Qed.

Lemma erase_while_run f erase : ∀ l fuel t, pty_ok (t_pty t) → line (t_pty t) = l → (length l < fuel)%nat →
  ∃ p', erase_while fuel f erase t =
      Ret (inr tt, moved_to t p' (rubbed (tios (t_pty t)) erase (drop (length (cut_end f l)) l))) ∧
    lines_to (t_pty t) (cut_end f l) p'.
Proof.
  induction l as [|b l IH] using rev_ind; intros fuel t Hp El Hf; (destruct fuel as [|fuel]; [cbn in Hf; lia|]);
    cbn [erase_while]; rewrite the_pty_bind.
  - assert (E0 : canon_buflen (t_pty t) = 0%nat) by (by rewrite <-line_length, El). rewrite E0. cbn [Nat.ltb Nat.leb].
    exists (t_pty t). split; [|cbn; rewrite <-El; by apply lines_to_refl].
    unfold rubbed. destruct (_ && erase); cbn; by rewrite moved_to_self.
  - pose proof (line_snoc _ _ _ Hp El) as En. rewrite En. cbn [Nat.ltb Nat.leb]. rewrite Nat.sub_succ, Nat.sub_0_r.
    assert (Hload : load_canon (length l) t = Ret (b, t)).
    { apply load_canon_run; [lia|]. rewrite El. by apply list_lookup_middle. }
    rewrite (R_bind_inr _ _ _ _ _ (lift_run _ _ _ _ Hload)). rewrite cut_end_snoc. destruct (f b).
    + destruct (erase_one_run erase t l b Hp El) as (p1 & Hr & Hl). rewrite (R_bind_inr _ _ _ _ _ Hr).
      rewrite length_app in Hf. cbn in Hf. destruct (line_ok_app _ _ _ Hp El) as [Hlen Hbs].
      destruct (lines_to_tios _ _ _ Hl) as (Et & _).
      destruct (IH fuel (moved_to t p1 (rubbed (tios (t_pty t)) erase [b]))) as (p2 & -> & Hl2);
        [by eapply lines_to_ok|apply Hl|lia|].
      exists p2. split; [|by eapply lines_to_trans]. cbn [t_pty moved_to]. rewrite Et, moved_moved, rubbed_snoc.
      rewrite drop_app_le; [done|apply cut_end_length].
    + exists (t_pty t). split; [|rewrite <-El; by apply lines_to_refl]. rewrite drop_all.
      unfold rubbed. destruct (_ && erase); cbn; by rewrite moved_to_self.
Qed.

(** The loop that hands the line over. *)
Lemma dump_loop_run : ∀ l fuel k written t, pty_ok (t_pty t) →
  take (canon_buflen (t_pty t)) (drop k (canon_buffer (t_pty t))) = l → length l = canon_buflen (t_pty t) →
  (length l < fuel)%nat → Forall is_byte l →
  dump_loop fuel k written t =
    Ret (inl (written + Z.of_nat (length l)), moved_to t (set_canon (canon_buffer (t_pty t)) 0 (t_pty t)) (In <$> l)).
Proof.
  induction l as [|b l IH]; intros fuel k written t Hp El Hn Hf Hb; (destruct fuel as [|fuel]; [cbn in Hf; lia|]);
    cbn [dump_loop]; rewrite the_pty_bind; cbn [length] in *.
  - rewrite <-Hn. cbn. unfold return_. rewrite Z.add_0_r. do 2 f_equal. unfold moved_to. rewrite app_nil_r.
    destruct t as [[] io]; cbn in *. by subst.
  - rewrite (proj2 (Nat.ltb_lt _ _)) by lia. apply Forall_cons in Hb as [Hb Hbs].
    assert (Hk : canon_buffer (t_pty t) !! k = Some b).
    { rewrite <-(Nat.add_0_r k), <-lookup_drop, <-(lookup_take_lt _ (canon_buflen (t_pty t))) by lia. by rewrite El. }
    rewrite (R_bind_inr (lift (load_canon k)) _ t b t) by (unfold lift, load_canon; by rewrite Hk).
    rewrite (R_bind_inr _ _ _ _ _ (IN_run b t Hb)).
    rewrite (R_bind_inr _ _ _ _ _ (lift_run _ _ _ _ (set_buflen_run _ _))).
    set (p1 := set_canon _ _ _). rewrite moved_sent. rewrite (IH fuel (S k) (written + 1)).
    + rewrite moved_moved. by replace (written + 1 + Z.of_nat (length l)) with (written + Z.of_nat (S (length l))) by lia.
    + destruct Hp as (H1 & H2 & H3 & H4). unfold pty_ok, line in *. cbn in *. split_and!; [lia..|].
      replace (canon_buflen (t_pty t)) with (length l + 1)%nat in H4 by lia.
      rewrite <-Hn. cbn. rewrite Nat.sub_0_r.
      apply (Forall_take _ (length l)) in H4. rewrite take_take, Nat.min_l in H4 by lia. done.
    + cbn. rewrite <-Hn, Nat.sub_succ, Nat.sub_0_r.
      rewrite (drop_S _ b k Hk), <-Hn in El. cbn in El. congruence.
    + cbn. lia.
    + lia.
    + done.
Qed.

Lemma dump_input_buffer_run t : pty_ok (t_pty t) →
  dump_input_buffer t = Ret (Z.of_nat (canon_buflen (t_pty t)),
    moved_to t (set_canon (canon_buffer (t_pty t)) 0 (t_pty t)) (In <$> line (t_pty t))).
Proof.
  intros Hp. unfold dump_input_buffer, body.
  rewrite (dump_loop_run (line (t_pty t)) _ 0 0 t Hp); [by rewrite line_length| |by apply line_length| |by apply Hp].
  - by rewrite drop_0.
  - rewrite line_length by done. lia.
Qed.

Lemma lines_to_empty p : lines_to p [] (set_canon (canon_buffer p) 0 p).
Proof. by split_and!. Qed.

Lemma clear_input_buffer_run t : pty_ok (t_pty t) →
  ∃ p', clear_input_buffer t = Ret (tt, moved_to t p' []) ∧ lines_to (t_pty t) [] p'.
Proof.
  intros (? & ? & ? & _). unfold clear_input_buffer. rewrite (run_bind_Ret _ _ _ _ _ (set_buflen_run 0 t)).
  rewrite store_canon_run by (cbn; lia). rewrite moved_moved. eexists. split; [done|].
  split_and!; [done|cbn; apply length_insert|done|done].
Qed.

Lemma append_canon_run c t : pty_ok (t_pty t) →
  ∃ p', append_canon c t = Ret (inr tt, moved_to t p' []) ∧
    lines_to (t_pty t) (add_byte (canon_bufsize (t_pty t)) (line (t_pty t)) c) p'.
Proof.
  intros Hp. pose proof (line_length _ Hp) as Hn. unfold append_canon, add_byte. rewrite the_pty_bind, Hn.
  destruct (Nat.ltb_spec (canon_buflen (t_pty t)) (canon_bufsize (t_pty t))) as [Hlt|Hge]; cbn [when].
  - destruct Hp as (? & ? & ? & _).
    rewrite (R_bind_inr _ _ _ _ _ (lift_run _ _ _ _ (store_canon_run (canon_buflen (t_pty t)) c t ltac:(lia)))).
    rewrite (lift_run _ _ _ _ (set_buflen_run _ _)). rewrite moved_moved. eexists. split; [done|].
    split_and!; [|cbn; apply length_insert|rewrite length_app; cbn; lia|done].
    unfold line; cbn. rewrite (take_S_r _ _ c) by (rewrite list_lookup_insert_eq by lia; done).
    by rewrite take_insert_ge by lia.
  - exists (t_pty t). rewrite moved_to_self. split; [done|by apply lines_to_refl].
Qed.

(** ** The line discipline implements the editor *)

(** [p'] is [p] with the state [e] of the editor (and a new modification time). *)
Definition edits_to (p : pty) (e : editor) (p' : pty) : Prop :=
  line p' = ed_line e ∧ length (canon_buffer p') = length (canon_buffer p) ∧ canon_buflen p' = length (ed_line e) ∧
  p' = set_canon (canon_buffer p') (canon_buflen p')
         (set_verbatim (ed_verbatim e) (set_slave_mtime (n_mtime (pty_slave p')) p)).

Lemma lines_edits p l p' v : lines_to p l p' → next_is_verbatim p = v → edits_to p (Editor l v) p'.
Proof.
  intros (? & ? & ? & E) Hv. split_and!; [done..|]. cbn. rewrite E at 1. destruct p as [? ? [] ]; cbn in *. subst v.
  by rewrite E.
Qed.

Lemma lines_byte_tios p l p' c : lines_to p l p' → shown (tios p') c = shown (tios p) c.
Proof. intros Hl. by destruct (lines_to_tios _ _ _ Hl) as (-> & _). Qed.

(** An editing character: the line changed to [l] with [es], then the echo. *)
Lemma edit_then_echo (m : R unit) t l es visual c : is_byte c →
  (∃ p', m t = Ret (inr tt, moved_to t p' es) ∧ lines_to (t_pty t) l p') →
  ∃ p', (_ ← m; _ ← when (flag (c_lflag (tios (t_pty t))) ECHO && negb visual) (echo (is_control c) c); return_ 1) t =
      Ret (inl 1 : Z + Z, moved_to t p' (es ++ echoed_unless (tios (t_pty t)) visual c)) ∧
    lines_to (t_pty t) l p'.
Proof.
  intros Hc (p' & Hm & Hl). exists p'. split; [|done]. rewrite (R_bind_inr _ _ _ _ _ Hm).
  rewrite (R_bind_inr _ _ _ _ _ (when_echo_run _ _ _ _ Hc)). rewrite sent_moved. cbn [t_pty moved_to].
  by rewrite (lines_byte_tios _ _ _ _ Hl).
Qed.

Lemma removelast_snoc {A} (l : list A) b : removelast (l ++ [b]) = l.
Proof. apply removelast_last. Qed.

(** [VERASE]. *)
Lemma erase_last_run erase t : pty_ok (t_pty t) →
  let l := line (t_pty t) in
  ∃ p', erase_one erase t = Ret (inr tt, moved_to t p' (rubbed (tios (t_pty t)) erase (drop (length (removelast l)) l))) ∧
    lines_to (t_pty t) (removelast l) p'.
Proof.
  intros Hp. cbn zeta. destruct (decide (line (t_pty t) = [])) as [El|Hne].
  - exists (t_pty t). pose proof (lines_to_refl _ Hp) as Hrefl. rewrite El in Hrefl |- *. split; [|done].
    assert (E0 : canon_buflen (t_pty t) = 0%nat) by (by rewrite <-line_length, El).
    unfold erase_one. erewrite checked_run; [|unfold tty_erase_one, body; rewrite the_pty_bind, E0; reflexivity|lia].
    unfold rubbed. destruct (_ && erase); cbn; by rewrite moved_to_self.
  - destruct (exists_last Hne) as (l' & b & El). rewrite El, removelast_snoc, drop_app_length.
    by apply erase_one_run.
Qed.

(** [VWERASE]: two loops. *)
Lemma erase_word_run erase t : pty_ok (t_pty t) →
  let l := line (t_pty t) in
  ∃ p', (_ ← erase_while (S (canon_buflen (t_pty t))) (λ b, b =? 32) erase;
         erase_while (S (canon_buflen (t_pty t))) (λ b, negb (b =? 32)) erase) t =
      Ret (inr tt, moved_to t p' (rubbed (tios (t_pty t)) erase (drop (length (cut_word l)) l))) ∧
    lines_to (t_pty t) (cut_word l) p'.
Proof.
  intros Hp l. set (f := λ b, b =? 32). set (g := λ b, negb (b =? 32)). unfold cut_word. fold f g.
  destruct (cut_end_prefix f l) as [s1 E1]. destruct (cut_end_prefix g (cut_end f l)) as [s2 E2].
  destruct (erase_while_run f erase l (S (canon_buflen (t_pty t))) t Hp eq_refl) as (p1 & Hr & Hl).
  { unfold l. rewrite line_length by done. lia. }
  destruct (line_ok_app _ _ _ Hp E1) as [Hlen Hbs]. pose proof (lines_to_ok _ _ _ Hp Hl Hlen Hbs) as Hp1.
  destruct (lines_to_tios _ _ _ Hl) as (Et & _).
  rewrite (R_bind_inr _ _ _ _ _ Hr).
  destruct (erase_while_run g erase (cut_end f l) (S (canon_buflen (t_pty t)))
    (moved_to t p1 (rubbed (tios (t_pty t)) erase (drop (length (cut_end f l)) l))) Hp1) as (p2 & -> & Hl2);
    [apply Hl| |].
  { pose proof (cut_end_length f l). unfold l in *. rewrite line_length in * by done. lia. }
  exists p2. split; [|by eapply lines_to_trans]. cbn [t_pty moved_to]. rewrite Et, moved_moved. do 2 f_equal.
  assert (Es1 : drop (length (cut_end f l)) l = s1) by (rewrite E1 at 2; apply drop_app_length).
  assert (Es2 : drop (length (cut_end g (cut_end f l))) (cut_end f l) = s2) by (rewrite E2 at 2; apply drop_app_length).
  assert (Es3 : drop (length (cut_end g (cut_end f l))) l = s2 ++ s1).
  { rewrite E1 at 2. rewrite E2 at 2. rewrite <-(assoc_L (++)). apply drop_app_length. }
  rewrite Es1, Es2, Es3. unfold rubbed. destruct (_ && erase); [|done]. rewrite <-fmap_app, reverse_app. by rewrite bind_app.
Qed.

Lemma R_bind_assoc {A B C} (m : R A) (f : A → R B) (g : B → R C) t :
  (m ≫= λ a, f a ≫= g) t = ((m ≫= f) ≫= g) t.
Proof. unfold mbind, R_bind. by destruct (m t) as [[[r|a] t']| |]. Qed.

Lemma add_byte_length limit l c : (length l ≤ limit)%nat → (length (add_byte limit l c) ≤ limit)%nat.
Proof. intros. unfold add_byte. destruct (Nat.ltb_spec (length l) limit); [rewrite length_app; cbn; lia|done]. Qed.

Lemma add_byte_bytes limit l c : Forall is_byte l → is_byte c → Forall is_byte (add_byte limit l c).
Proof. intros. unfold add_byte. destruct (_ <? _)%nat; [apply Forall_app; split; [done|by apply Forall_singleton]|done]. Qed.

Lemma add_byte_snoc limit l c : (0 < limit)%nat → ∃ l' b, add_byte limit l c = l' ++ [b].
Proof.
  intros Hl. unfold add_byte. destruct (Nat.ltb_spec (length l) limit) as [|Hge]; [by eauto|].
  destruct l as [|x l] using rev_ind; [cbn in Hge; lia|]. eauto.
Qed.

(** Overwriting the last byte of the line, then handing it over. *)
Lemma deliver_run c t l b : pty_ok (t_pty t) → line (t_pty t) = l ++ [b] → is_byte c →
  ∃ p', (_ ← lift (match canon_buflen (t_pty t) with O => fault | S n => store_canon n c end);
         _ ← lift dump_input_buffer; return_ 1) t = Ret (inl 1 : Z + Z, moved_to t p' (In <$> l ++ [c])) ∧
    lines_to (t_pty t) [] p'.
Proof.
  intros Hp El Hc. pose proof (line_snoc _ _ _ Hp El) as En. rewrite En. destruct Hp as (H1 & H2 & H3 & H4).
  rewrite (R_bind_inr _ _ _ _ _ (lift_run _ _ _ _ (store_canon_run (length l) c t ltac:(lia)))).
  set (p1 := set_canon _ _ _).
  assert (El1 : line p1 = l ++ [c]).
  { unfold line, p1; cbn. rewrite En. rewrite (take_S_r _ _ c) by (rewrite list_lookup_insert_eq by lia; done).
    rewrite take_insert_ge by lia. f_equal. unfold line in El. rewrite En in El.
    apply (f_equal (take (length l))) in El. rewrite take_take, take_app_length, Nat.min_l in El by lia. done. }
  assert (Hp1 : pty_ok p1).
  { unfold pty_ok. rewrite El1. cbn. rewrite length_insert. split_and!; [lia..|].
    rewrite El in H4. apply Forall_app in H4 as [? _]. apply Forall_app. split; [done|by apply Forall_singleton]. }
  rewrite (R_bind_inr _ _ _ _ _ (lift_run _ _ _ _ (dump_input_buffer_run (moved_to t p1 []) Hp1))).
  cbn [t_pty moved_to]. rewrite moved_moved, El1. eexists. split; [done|].
  split_and!; [done|cbn; apply length_insert|done|done].
Qed.

Lemma canonical_insert_run c t : pty_ok (t_pty t) → is_byte c →
  let p := t_pty t in
  let line' := add_byte (canon_bufsize p) (line p) c in
  let seen := echoed (tios p) (shown (tios p) (is_control c && negb (c =? 10)) c) in
  let l := c_lflag (tios p) in
  ∃ p', canonical_insert c t = Ret (inl 1, moved_to t p'
      (if ends_line (tios p) c
       then seen ++ (if negb (flag l ECHO) && flag l ECHONL then Out <$> opost (tios p) c else []) ++
            (In <$> removelast line' ++ [c])
       else seen)) ∧
    lines_to p (if ends_line (tios p) c then [] else line') p'.
Proof.
  intros Hp Hc. cbn zeta. unfold canonical_insert. rewrite the_pty_bind.
  destruct (append_canon_run c t Hp) as (p1 & Ha & Hl). rewrite (R_bind_inr _ _ _ _ _ Ha).
  destruct (lines_to_tios _ _ _ Hl) as (Et & Eb & _).
  assert (Hp1 : pty_ok p1).
  { eapply lines_to_ok; [exact Hp|exact Hl| |].
    - apply add_byte_length. rewrite line_length by done. apply Hp.
    - apply add_byte_bytes; [apply Hp|done]. }
  rewrite (R_bind_inr _ _ _ _ _ (when_echo_run _ _ _ _ Hc)). rewrite sent_moved. cbn [t_pty moved_to app]. rewrite Et.
  fold (echoed (tios (t_pty t)) (shown (tios (t_pty t)) (is_control c && negb (c =? 10)) c)). set (seen := echoed _ _).
  fold (ends_line (tios (t_pty t)) c). destruct (ends_line _ c); [|by exists p1].
  assert (Hnl : when (negb (flag (c_lflag (tios (t_pty t))) ECHO) && flag (c_lflag (tios (t_pty t))) ECHONL)
      (output_process c) (moved_to t p1 seen) = Ret (inr tt, moved_to t p1 (seen ++
      if negb (flag (c_lflag (tios (t_pty t))) ECHO) && flag (c_lflag (tios (t_pty t))) ECHONL
      then Out <$> opost (tios (t_pty t)) c else []))).
  { unfold when. destruct (negb (flag _ ECHO) && flag _ ECHONL); [rewrite output_process_run, sent_moved by done; cbn [t_pty moved_to]; by rewrite Et|].
    by rewrite app_nil_r. }
  rewrite (R_bind_inr _ _ _ _ _ Hnl), the_pty_bind. set (es := seen ++ _). cbn [t_pty moved_to].
  destruct (add_byte_snoc (canon_bufsize (t_pty t)) (line (t_pty t)) c) as (l' & b & El'); [apply Hp|].
  destruct (deliver_run c (moved_to t p1 es) l' b Hp1) as (p2 & Hd & Hl2); [by rewrite <-El'; apply Hl|done|].
  cbn [t_pty moved_to] in Hd. rewrite Hd. exists p2. rewrite moved_moved, El', removelast_snoc. unfold es.
  rewrite <-(assoc_L (++)). split; [done|]. by eapply lines_to_trans.
Qed.

Lemma canonical_input_run c t : pty_ok (t_pty t) → is_byte c → next_is_verbatim (t_pty t) = false →
  let p := t_pty t in
  ∃ p', canonical_input c t = Ret (inl 1, moved_to t p' (edit_line (tios p) (canon_bufsize p) (line p) c).2) ∧
    edits_to p (edit_line (tios p) (canon_bufsize p) (line p) c).1 p'.
Proof.
  intros Hp Hc Hv. cbn zeta. unfold canonical_input, edit_line. rewrite the_pty_bind.
  assert (Hfin : ∀ (r : outcome ((Z + Z) * tty)) l es,
    (∃ p', r = Ret (inl 1, moved_to t p' es) ∧ lines_to (t_pty t) l p') →
    ∃ p', r = Ret (inl 1, moved_to t p' es) ∧ edits_to (t_pty t) (Editor l false) p').
  { intros r l es (p' & ? & ?). exists p'. split; [done|]. by apply lines_edits. }
  destruct ((c =? _) && _).
  { rewrite (R_bind_inr (lift (set_pty (set_verbatim true))) _ t tt (moved_to t (set_verbatim true (t_pty t)) []))
      by (unfold lift, set_pty, modify, moved_to; by rewrite app_nil_r).
    rewrite (R_bind_inr _ _ _ _ _ (output_process_run 94 _ ltac:(split; lia))).
    rewrite (R_bind_inr _ _ _ _ _ (output_process_run 8 _ ltac:(split; lia))).
    rewrite !sent_moved, (opost_plain _ 8) by tauto. rewrite fmap_app. eexists. split; [done|].
    split_and!; [done|done|by rewrite <-line_length|]. cbn. by destruct (t_pty t) as [? ? [] ]. }
  destruct (c =? cc _ VKILL).
  { apply Hfin, (edit_then_echo (erase_all _ _)); [done|]. apply erase_all_run; [done|done|].
    rewrite line_length by done. lia. }
  destruct (c =? cc _ VERASE).
  { apply Hfin, edit_then_echo; [done|]. by apply erase_last_run. }
  destruct ((c =? cc _ VWERASE) && _).
  { rewrite R_bind_assoc. apply Hfin, edit_then_echo; [done|]. by apply erase_word_run. }
  destruct (c =? cc _ VEOF).
  { apply Hfin. pose proof (line_length _ Hp) as Hn. destruct (line (t_pty t)) as [|b l] eqn:El.
    - rewrite <-Hn. cbn. exists (t_pty t). split; [done|]. rewrite <-El. by apply lines_to_refl.
    - rewrite <-Hn. cbn [length Nat.ltb Nat.leb].
      rewrite (R_bind_inr _ _ _ _ _ (lift_run _ _ _ _ (dump_input_buffer_run t Hp))), El.
      eexists. split; [done|]. apply lines_to_empty. }
  destruct (canonical_insert_run c t Hp Hc) as (p' & -> & Hl). exists p'.
  destruct (ends_line _ c); (split; [done|by apply lines_edits]).
Qed.

Lemma edits_mtime p m e p' : edits_to (set_slave_mtime m p) e p' → edits_to p e p'.
Proof. intros (? & ? & ? & E). split_and!; [done..|]. by rewrite E at 1. Qed.

Lemma edits_ok p e p' : pty_ok p → edits_to p e p' → (length (ed_line e) ≤ canon_bufsize p)%nat →
  Forall is_byte (ed_line e) → pty_ok p'.
Proof.
  intros (? & ? & ? & ?) (El & L & N & P) Hl Hb. assert (canon_bufsize p' = canon_bufsize p) by (rewrite P; done).
  unfold pty_ok. rewrite El, L, N. split_and!; [lia..|done].
Qed.

Lemma strip_byte t c : is_byte c → is_byte (strip t c).
Proof.
  intros Hc. unfold strip. destruct (flag _ ISTRIP); [|done]. unfold is_byte in *.
  change 127 with (Z.ones 7). rewrite Z.land_ones by lia. pose proof (Z.mod_pos_bound c (2 ^ 7)). lia.
Qed.

Lemma translate_byte t c : is_byte c → is_byte (translate t c).
Proof.
  intros Hc. unfold translate, is_byte in *.
  destruct (flag (c_iflag t) INLCR && (c =? 10)), (flag (c_iflag t) ICRNL && (c =? 13)).
  all: destruct (flag (c_iflag t) IUCLC && _) eqn:E; [rewrite !andb_true_iff, !Z.leb_le in E|]; lia.
Qed.

Lemma tty_input_process_run c t : pty_ok (t_pty t) → is_byte c →
  let p := t_pty t in
  let e := edit (tios p) (canon_bufsize p) (fg_proc p) (Editor (line p) (next_is_verbatim p)) c in
  ∃ p', tty_input_process c t = Ret (1, moved_to t p' e.2) ∧ edits_to p e.1 p'.
Proof.
  intros Hp Hc. cbn zeta. set (m := now (t_io t)). set (p := set_slave_mtime m (t_pty t)). set (t1 := moved_to t p []).
  assert (Hp1 : pty_ok p) by exact Hp.
  assert (Hgoal : ∃ p', (tty_input_process c t = Ret (1, moved_to t1 p'
      (edit (tios p) (canon_bufsize p) (fg_proc p) (Editor (line p) (next_is_verbatim p)) c).2)) ∧
    edits_to p (edit (tios p) (canon_bufsize p) (fg_proc p) (Editor (line p) (next_is_verbatim p)) c).1 p').
  2: { destruct Hgoal as (p' & -> & He). exists p'. unfold t1. rewrite moved_moved. split; [done|by eapply edits_mtime]. }
  unfold tty_input_process, edit, body. cbn [ed_verbatim ed_line].
  rewrite (R_bind_inr _ _ t tt t1) by (unfold lift, set_pty, modify, t1, moved_to; by rewrite app_nil_r).
  rewrite the_pty_bind. change (t_pty t1) with p. destruct (next_is_verbatim p) eqn:Hv.
  { rewrite (R_bind_inr (lift (set_pty (set_verbatim false))) _ t1 tt (moved_to t1 (set_verbatim false p) []))
      by (unfold lift, set_pty, modify, moved_to; by rewrite app_nil_r).
    set (t2 := moved_to t1 (set_verbatim false p) []).
    destruct (append_canon_run c t2) as (p' & Ha & Hl); [exact Hp1|]. rewrite (R_bind_inr _ _ _ _ _ Ha).
    rewrite (R_bind_inr _ _ _ _ _ (when_echo_run _ _ _ _ Hc)). rewrite sent_moved. cbn [t_pty moved_to].
    destruct (lines_to_tios _ _ _ Hl) as (-> & _). unfold t2. rewrite moved_moved. exists p'. split; [done|].
    exact (lines_edits _ _ _ false Hl eq_refl). }
  destruct (if flag _ ISIG then _ else _) as [sig|].
  { rewrite (R_bind_inr _ _ _ _ _ (when_echo_run _ _ _ _ Hc)). fold (echoed (tios p) (shown (tios p) (is_control c) c)).
    change (t_pty t1) with p. fold (echoed (tios p) (shown (tios p) (is_control c) c)). set (es := echoed _ _).
    destruct (clear_input_buffer_run (sent t1 es) Hp1) as (p' & Hcl & Hl).
    rewrite (R_bind_inr _ _ _ _ _ (lift_run _ _ _ _ Hcl)), moved_sent, app_nil_r. exists p'.
    split; [|by apply lines_edits]. destruct (fg_proc p =? 0); cbn [negb]; [by rewrite app_nil_r|].
    cbn. unfold moved_to; cbn. by rewrite (assoc_L (++)). }
  pose proof (strip_byte (tios p) c Hc) as Hs. set (c1 := strip _ c) in *.
  destruct (_ && (c1 =? 13)).
  { exists p. unfold return_. rewrite moved_to_self. split; [done|]. apply lines_edits; [by apply lines_to_refl|done]. }
  pose proof (translate_byte (tios p) c1 Hs) as Ht. set (c2 := translate _ c1) in *.
  destruct (flag _ ICANON).
  - destruct (canonical_input_run c2 t1 Hp1 Ht Hv) as (p' & -> & He). by exists p'.
  - rewrite (R_bind_inr _ _ _ _ _ (when_echo_run _ _ _ _ Ht)), (R_bind_inr _ _ _ _ _ (IN_run _ _ Ht)), sent_sent.
    change (t_pty t1) with p. fold (echoed (tios p) (shown (tios p) (is_control c2 && negb (c2 =? 10)) c2)).
    exists p. split; [done|]. apply lines_edits; [by apply lines_to_refl|done].
Qed.

Definition editor_ok (limit : nat) (e : editor) : Prop :=
  (length (ed_line e) ≤ limit)%nat ∧ Forall is_byte (ed_line e).

Lemma prefix_ok limit l l' : (length (l ++ l') ≤ limit)%nat → Forall is_byte (l ++ l') → editor_ok limit (Editor l false).
Proof. rewrite length_app, Forall_app. intros ? [? _]. split; cbn; [lia|done]. Qed.

Lemma edit_line_ok t limit l v c : editor_ok limit (Editor l v) → is_byte c → editor_ok limit (edit_line t limit l c).1.
Proof.
  intros [Hl Hb] Hc. cbn in Hl, Hb. unfold edit_line.
  assert (Hnil : editor_ok limit (Editor [] false)) by (split; cbn; [lia|done]).
  destruct (_ && _); [done|]. destruct (_ =? cc t VKILL); [done|]. destruct (_ =? cc t VERASE).
  { destruct l as [|b l _] using rev_ind; [done|]. cbn [fst]. rewrite removelast_snoc. by eapply prefix_ok. }
  destruct (_ && _).
  { cbn [fst]. unfold cut_word. destruct (cut_end_prefix (λ b, b =? 32) l) as [s1 E1].
    destruct (cut_end_prefix (λ b, negb (b =? 32)) (cut_end (λ b, b =? 32) l)) as [s2 E2].
    rewrite E1 in Hl, Hb. destruct (prefix_ok _ _ _ Hl Hb) as [Hl1 Hb1]. cbn in Hl1, Hb1.
    rewrite E2 in Hl1, Hb1. by eapply prefix_ok. }
  destruct (_ =? cc t VEOF); [done|]. destruct (ends_line t c); [done|].
  split; cbn; [by apply add_byte_length|by apply add_byte_bytes].
Qed.

Lemma edit_ok t limit fg e c : editor_ok limit e → is_byte c → editor_ok limit (edit t limit fg e c).1.
Proof.
  intros [Hl Hb] Hc. unfold edit. destruct (ed_verbatim e).
  { split; cbn; [by apply add_byte_length|by apply add_byte_bytes]. }
  destruct (if flag _ ISIG then _ else _); [split; cbn; [lia|done]|].
  destruct (_ && _); [by destruct e|]. destruct (flag _ ICANON); [|by destruct e].
  eapply (edit_line_ok _ _ _ false); [done|]. by apply translate_byte, strip_byte.
Qed.

Lemma edits_trans p e p' e' p'' : edits_to p e p' → edits_to p' e' p'' → edits_to p e' p''.
Proof.
  intros (? & L1 & ? & E1) (? & L2 & ? & E2). split_and!; [done|congruence|done|]. rewrite E1 in E2. exact E2.
Qed.

Lemma edits_fields p e p' : edits_to p e p' → tios p' = tios p ∧ canon_bufsize p' = canon_bufsize p ∧
  fg_proc p' = fg_proc p ∧ next_is_verbatim p' = ed_verbatim e ∧ line p' = ed_line e.
Proof. intros (L & _ & _ & E). rewrite L. rewrite E. done. Qed.

Lemma write_pty_master_run : ∀ bs l t, pty_ok (t_pty t) → Forall is_byte bs → 0 ≤ l →
  let p := t_pty t in
  let e := edit_all (tios p) (canon_bufsize p) (fg_proc p) (Editor (line p) (next_is_verbatim p)) bs in
  ∃ p', write_pty_master_loop l bs t = Ret (l + Z.of_nat (length bs), moved_to t p' e.2) ∧
    edits_to p e.1 p' ∧ pty_ok p'.
Proof.
  induction bs as [|c bs IH]; intros l t Hp Hbs Hl; cbn zeta; cbn [write_pty_master_loop edit_all].
  - exists (t_pty t). cbn. rewrite moved_to_self, Z.add_0_r. split_and!; [done| |done].
    apply lines_edits; [by apply lines_to_refl|done].
  - apply Forall_cons in Hbs as [Hc Hbs]. destruct (tty_input_process_run c t Hp Hc) as (p1 & Hr & He).
    rewrite (run_bind_Ret _ _ _ _ _ Hr). cbn [Z.ltb Z.compare andb].
    destruct (edit_ok (tios (t_pty t)) (canon_bufsize (t_pty t)) (fg_proc (t_pty t))
      (Editor (line (t_pty t)) (next_is_verbatim (t_pty t))) c) as [Hl1 Hb1]; [|done|].
    { split; cbn; [rewrite line_length by done|]; apply Hp. }
    pose proof (edits_ok _ _ _ Hp He Hl1 Hb1) as Hp1.
    destruct (edits_fields _ _ _ He) as (Et & Es & Ef & Ev & El).
    destruct (edit _ _ _ _ c) as [e1 out1]. cbn [fst snd] in *.
    destruct (IH (l + 1) (moved_to t p1 out1) Hp1 Hbs ltac:(lia)) as (p2 & -> & He2 & Hp2).
    cbn [t_pty moved_to] in *. rewrite Et, Es, Ef, Ev, El in *. destruct e1 as [l1 v1]. cbn [ed_line ed_verbatim] in *.
    destruct (edit_all _ _ _ _ bs) as [e2 out2]. cbn [fst snd length] in *. exists p2.
    rewrite moved_moved. split_and!; [do 2 f_equal; lia|by eapply edits_trans|done].
Qed.

End accepting.

(** ** Properties *)


(** ** Typing a line on a new terminal *)

Inductive key := Char (c : Z) | Backspace | KillLine | WordErase.

Definition key_byte (k : key) : Z :=
  match k with Char c => c | Backspace => 127 | KillLine => 21 | WordErase => 23 end.

(** What the user means. *)
Definition apply_key (l : list Z) (k : key) : list Z :=
  match k with
  | Char c => l ++ [c]
  | Backspace => removelast l
  | KillLine => []
  | WordErase => cut_word l
  end.

(** Characters without a special meaning. *)
Definition ordinary (k : key) : Prop :=
  match k with Char c => 32 ≤ c < 256 ∧ c ≠ 127 | _ => True end.

(** The bytes the reading program gets. *)
Definition delivered (es : list io) : list Z := omap (λ e, match e with In c => Some c | _ => None end) es.

Lemma delivered_app es es' : delivered (es ++ es') = delivered es ++ delivered es'.
Proof. apply omap_app. Qed.

Lemma delivered_out bs : delivered (Out <$> bs) = [].
Proof. by induction bs. Qed.

Lemma delivered_in bs : delivered (In <$> bs) = bs.
Proof. induction bs; cbn; [done|]. by f_equal. Qed.

Lemma delivered_echoed t bs : delivered (echoed t bs) = [].
Proof. unfold echoed. destruct (flag _ _); [apply delivered_out|done]. Qed.
Lemma delivered_rubbed t erase bs : delivered (rubbed t erase bs) = [].
Proof. unfold rubbed. destruct (_ && _); [apply delivered_out|done]. Qed.
Lemma delivered_unless t v c : delivered (echoed_unless t v c) = [].
Proof. unfold echoed_unless. destruct (_ && _); [apply delivered_out|done]. Qed.

Lemma default_cc junk : length junk = NCCS →
  let t := default_termios junk in
  cc t VEOF = 4 ∧ cc t VEOL = 0 ∧ cc t VERASE = 127 ∧ cc t VINTR = 3 ∧ cc t VKILL = 21 ∧
  cc t VQUIT = 28 ∧ cc t VSUSP = 26 ∧ cc t VLNEXT = 22 ∧ cc t VWERASE = 23 ∧ cc t VMIN = 1.
Proof. intros Hl. do 14 (destruct junk as [|? junk]; [done|]). by split_and!. Qed.

(** Evaluate the settings of a new terminal. *)
Ltac default_flags :=
  repeat match goal with
  | |- context [flag (?f (default_termios ?junk)) ?b] =>
      let v := eval vm_compute in (flag (f (default_termios junk)) b) in
      change (flag (f (default_termios junk)) b) with v
  end.

Lemma edit_key junk limit fg l k : length junk = NCCS → ordinary k → (length l < limit)%nat →
  let r := edit (default_termios junk) limit fg (Editor l false) (key_byte k) in
  r.1 = Editor (apply_key l k) false ∧ delivered r.2 = [].
Proof.
  intros Hj Hk Hl. destruct (default_cc junk Hj) as (Heof & Heol & Herase & Hintr & Hkill & Hquit & Hsusp & Hlnext & Hwerase & _).
  cbn zeta. unfold edit, strip, translate, signal_of, edit_line, ends_line. cbn [ed_verbatim ed_line]. default_flags.
  rewrite Heof, Heol, Herase, Hintr, Hkill, Hquit, Hsusp, Hlnext, Hwerase.
  destruct k as [c| | |]; cbn [key_byte apply_key]; cbn [andb orb negb Z.eqb Pos.eqb fst snd].
  - destruct Hk as [Hc Hne].
    repeat match goal with |- context [c =? ?n] => rewrite (proj2 (Z.eqb_neq c n)) by lia end.
    cbn [andb orb negb fst snd]. unfold add_byte. rewrite (proj2 (Nat.ltb_lt _ _)) by done.
    split; [done|apply delivered_echoed].
  - by rewrite delivered_app, delivered_rubbed, delivered_unless.
  - by rewrite delivered_app, delivered_rubbed, delivered_unless.
  - by rewrite delivered_app, delivered_rubbed, delivered_unless.
Qed.

Lemma edit_enter junk limit fg l : length junk = NCCS → (length l < limit)%nat →
  let r := edit (default_termios junk) limit fg (Editor l false) 13 in
  r.1 = Editor [] false ∧ delivered r.2 = l ++ [10].
Proof.
  intros Hj Hl. destruct (default_cc junk Hj) as (Heof & Heol & Herase & Hintr & Hkill & Hquit & Hsusp & Hlnext & Hwerase & _).
  cbn zeta. unfold edit. cbn [ed_verbatim ed_line]. default_flags.
  unfold signal_of. rewrite Hintr, Hquit, Hsusp. cbn [Z.eqb Pos.eqb].
  change (strip (default_termios junk) 13) with 13. change (translate (default_termios junk) 13) with 10.
  cbn [andb]. unfold edit_line, ends_line. default_flags. rewrite Heof, Heol, Herase, Hkill, Hlnext, Hwerase.
  cbn [andb orb negb Z.eqb Pos.eqb fst snd]. split; [done|].
  unfold add_byte. rewrite (proj2 (Nat.ltb_lt _ _)) by done. rewrite removelast_snoc.
  rewrite !delivered_app, delivered_echoed, delivered_in.
  reflexivity.
Qed.

Lemma apply_key_length l k : (length (apply_key l k) ≤ S (length l))%nat.
Proof.
  destruct k; cbn.
  - rewrite length_app. cbn. lia.
  - destruct l as [|b l _] using rev_ind; [cbn; lia|]. rewrite removelast_snoc, length_app. cbn. lia.
  - lia.
  - unfold cut_word. pose proof (cut_end_length (λ b, negb (b =? 32)) (cut_end (λ b, b =? 32) l)).
    pose proof (cut_end_length (λ b, b =? 32) l). lia.
Qed.

Lemma edit_keys junk limit fg : length junk = NCCS → ∀ keys l, Forall ordinary keys →
  (length l + length keys < limit)%nat →
  let r := edit_all (default_termios junk) limit fg (Editor l false) ((key_byte <$> keys) ++ [13]) in
  r.1 = Editor [] false ∧ delivered r.2 = foldl apply_key l keys ++ [10].
Proof.
  intros Hj. induction keys as [|k keys IH]; intros l Hk Hl; cbn zeta; cbn [fmap list_fmap app edit_all foldl].
  - cbn in Hl. destruct (edit_enter junk limit fg l Hj ltac:(lia)) as [E1 E2].
    destruct (edit _ _ _ _ 13) as [e1 o1]. cbn in *. by rewrite app_nil_r.
  - apply Forall_cons in Hk as [Hk Hks]. cbn [length] in Hl.
    destruct (edit_key junk limit fg l k Hj Hk ltac:(lia)) as [E1 E2].
    destruct (edit _ _ _ _ (key_byte k)) as [e1 o1]. cbn [fst snd] in *. subst e1.
    pose proof (apply_key_length l k). destruct (IH (apply_key l k) Hks ltac:(lia)) as [E3 E4].
    destruct (edit_all _ _ _ _ _) as [e2 o2]. cbn [fst snd] in *. by rewrite delivered_app, E2, E4.
Qed.

Lemma edit_keys_silent junk limit fg : length junk = NCCS → ∀ keys l, Forall ordinary keys →
  (length l + length keys < limit)%nat →
  delivered (edit_all (default_termios junk) limit fg (Editor l false) (key_byte <$> keys)).2 = [].
Proof.
  intros Hj. induction keys as [|k keys IH]; intros l Hk Hl; [done|]. cbn [fmap list_fmap edit_all].
  apply Forall_cons in Hk as [Hk Hks]. cbn [length] in Hl.
  destruct (edit_key junk limit fg l k Hj Hk ltac:(lia)) as [E1 E2].
  destruct (edit _ _ _ _ (key_byte k)) as [e1 o1]. cbn [fst snd] in *. subst e1.
  pose proof (apply_key_length l k). specialize (IH (apply_key l k) Hks ltac:(lia)).
  destruct (edit_all _ _ _ _ _) as [e2 o2]. cbn [fst snd] in *. by rewrite delivered_app, E2, IH.
Qed.

Lemma key_bytes keys : Forall ordinary keys → Forall is_byte ((key_byte <$> keys) ++ [13]).
Proof.
  intros Hk. apply Forall_app. split; [|by apply Forall_singleton].
  apply Forall_fmap. eapply Forall_impl; [exact Hk|]. intros [c| | |] Hc; unfold is_byte; cbn in *; lia.
Qed.

(** C18: a line typed on a new terminal reaches the program as the user means
    it: after any keys, among them backspace, kill and word-erase, the return
    key delivers the edited line and a newline, and nothing has been delivered
    before it; the line is empty again. *)
Theorem tty_typed_line `{Accepting} size index user group time junk keys :
  length (c_cc (tios junk)) = NCCS → length (canon_buffer junk) = TTY_BUFFER_SIZE →
  Forall ordinary keys → (length keys < TTY_BUFFER_SIZE - 2)%nat →
  let t := Tty (pty_new size index user group time junk) [] in
  (∃ p es, write_pty_master (key_byte <$> keys) t = Ret (Z.of_nat (length keys), Tty p es) ∧ delivered es = []) ∧
  ∃ p es, write_pty_master ((key_byte <$> keys) ++ [13]) t = Ret (Z.of_nat (S (length keys)), Tty p es) ∧
    delivered es = foldl apply_key [] keys ++ [10] ∧ line p = [].
Proof.
  intros Hj Hb Hk Hn t. set (p := pty_new size index user group time junk).
  assert (Hp : pty_ok p).
  { unfold pty_ok, line, p; cbn [canon_buflen canon_bufsize canon_buffer pty_new]. rewrite Hb. unfold TTY_BUFFER_SIZE.
    split_and!; [lia..|by constructor]. }
  pose proof (key_bytes keys Hk) as Hbytes. split.
  - apply Forall_app in Hbytes as [Hbytes _].
    destruct (write_pty_master_run _ 0 t Hp Hbytes (Z.le_refl 0)) as (p' & Hr & _). rewrite length_fmap in Hr.
    do 2 eexists. split; [exact Hr|]. cbn [t_io t app]. change (t_pty t) with p.
    by apply (edit_keys_silent (c_cc (tios junk)) (canon_bufsize p) (fg_proc p) Hj keys []).
  - destruct (write_pty_master_run _ 0 t Hp Hbytes (Z.le_refl 0)) as (p' & Hr & He & _).
    rewrite length_app, length_fmap, Nat.add_1_r in Hr. do 2 eexists. split; [exact Hr|]. cbn [t_io t app].
    destruct (edit_keys (c_cc (tios junk)) (canon_bufsize p) (fg_proc p) Hj keys [] Hk) as [E1 E2]; [exact Hn|].
    split; [exact E2|]. destruct (edits_fields _ _ _ He) as (_ & _ & _ & _ & ->). exact (f_equal ed_line E1).
Qed.

(** ** Safety under any environment *)

(** The length of the line is within its limit, and the limit within the
    allocation. *)
Definition fits (p : pty) : Prop :=
  (canon_buflen p ≤ canon_bufsize p)%nat ∧ (0 < canon_bufsize p)%nat ∧ (canon_bufsize p < length (canon_buffer p))%nat.

Section safety.
Context `{TtyEnv}.

(** [m] completes, keeps the line buffer in bounds and its result satisfies [Q]. *)
Definition keeps {A} (Q : A → Prop) (m : M tty A) : Prop :=
  ∀ t, fits (t_pty t) → ∃ a t', m t = Ret (a, t') ∧ fits (t_pty t') ∧ Q a.

(** An early return of the handlers: success or an error of the environment. *)
Definition early {A} (x : Z + A) : Prop := match x with inl r => r = 1 ∨ r < 0 | inr _ => True end.

(** [m] completes and only makes calls. *)
Definition quiet {A} (Q : A → Prop) (m : M tty A) : Prop :=
  ∀ t, ∃ a es, m t = Ret (a, sent t es) ∧ Q a.

Lemma quiet_keeps {A} Q (m : M tty A) : quiet Q m → keeps Q m.
Proof. intros Hm t Ht. destruct (Hm t) as (a & es & ? & ?). by eexists _, _. Qed.

Lemma keeps_ret {A} Q (a : A) : Q a → keeps Q (mret a).
Proof. intros Ha t Ht. by eexists _, _. Qed.

Lemma keeps_mono {A} (Q Q' : A → Prop) m : keeps Q m → (∀ a, Q a → Q' a) → keeps Q' m.
Proof. intros Hm HQ t Ht. destruct (Hm t Ht) as (a & t' & ? & ? & ?). eexists _, _. eauto. Qed.

Lemma keeps_R_bind {A B} (m : R A) (k : A → R B) : keeps early m → (∀ a, keeps early (k a)) → keeps early (m ≫= k).
Proof.
  intros Hm Hk t Ht. destruct (Hm t Ht) as ([r|a] & t' & Hr & Ht' & Hq).
  - rewrite (R_bind_inl _ _ _ _ _ Hr). by eexists _, _.
  - rewrite (R_bind_inr _ _ _ _ _ Hr). by apply Hk.
Qed.

Lemma quiet_R_bind {A B} (m : R A) (k : A → R B) : quiet early m → (∀ a, quiet early (k a)) → quiet early (m ≫= k).
Proof.
  intros Hm Hk t. destruct (Hm t) as ([r|a] & es & Hr & Hq).
  - rewrite (R_bind_inl _ _ _ _ _ Hr). by eexists _, _.
  - rewrite (R_bind_inr _ _ _ _ _ Hr). destruct (Hk a (sent t es)) as (b & es' & -> & ?). rewrite sent_sent. by eexists _, _.
Qed.

Lemma keeps_lift {A} Q (m : M tty A) : keeps Q m → keeps early (lift m).
Proof.
  intros Hm t Ht. destruct (Hm t Ht) as (a & t' & Hr & ? & _). exists (inr a), t'. split; [by apply lift_run|done].
Qed.

Lemma keeps_the_pty {B} (k : pty → R B) : (∀ p, fits p → keeps early (k p)) → keeps early (the_pty ≫= k).
Proof. intros Hk t Ht. rewrite the_pty_bind. by apply Hk. Qed.

Lemma keeps_set f : (∀ p, fits p → fits (f p)) → keeps (λ _, True) (set_pty f).
Proof. intros Hf t Ht. eexists _, _. split; [done|]. split; [by apply Hf|done]. Qed.

Lemma keeps_call e : keeps (λ _, True) (call e).
Proof. intros t Ht. by eexists _, _. Qed.

Lemma quiet_ret1 {A} : quiet (@early A) (return_ 1).
Proof. intros t. exists (inl 1), []. rewrite sent_nil. split; [done|by left]. Qed.

Lemma keeps_ret1 {A} : keeps (@early A) (return_ 1).
Proof. apply quiet_keeps, quiet_ret1. Qed.

Lemma quiet_checked m : quiet (λ _, True) m → quiet early (checked m).
Proof.
  intros Hm t. destruct (Hm t) as (r & es & Hr & _). unfold checked.
  rewrite (R_bind_inr _ _ _ _ _ (lift_run _ _ _ _ Hr)). destruct (Z.ltb_spec r 0).
  - exists (inl r), es. split; [done|by right].
  - exists (inr tt), es. by split.
Qed.

Lemma keeps_checked m : keeps (λ _, True) m → keeps early (checked m).
Proof.
  intros Hm t Ht. destruct (Hm t Ht) as (r & t' & Hr & Ht' & _). unfold checked.
  rewrite (R_bind_inr _ _ _ _ _ (lift_run _ _ _ _ Hr)). destruct (Z.ltb_spec r 0).
  - exists (inl r), t'. split_and!; [done..|by right].
  - exists (inr tt), t'. by split_and!.
Qed.

Lemma quiet_OUT c : quiet early (OUT c).
Proof. apply quiet_checked. intros t. by eexists _, [_]. Qed.
Lemma quiet_IN c : quiet early (IN c).
Proof. apply quiet_checked. intros t. by eexists _, [_]. Qed.

Lemma quiet_body (m : R Z) : quiet early m → quiet (λ _, True) (body m).
Proof. intros Hm t. unfold body. destruct (Hm t) as ([r|r] & es & -> & _); by eexists _, _. Qed.

Lemma quiet_the_pty {B} (k : pty → R B) : (∀ p, quiet early (k p)) → quiet early (the_pty ≫= k).
Proof. intros Hk t. rewrite the_pty_bind. by apply Hk. Qed.

Lemma quiet_tty_output_process c : quiet (λ _, True) (tty_output_process c).
Proof.
  apply quiet_body, quiet_the_pty. intros p. cbn zeta. repeat case_match.
  all: repeat first [apply quiet_ret1 | apply quiet_R_bind; [apply quiet_OUT|intros _]].
Qed.

Lemma quiet_output_process c : quiet early (output_process c).
Proof. apply quiet_checked, quiet_tty_output_process. Qed.

Lemma quiet_when b m : quiet early m → quiet early (when b m).
Proof. intros Hm. destruct b; [done|]. intros t. exists (inr tt), []. by rewrite sent_nil. Qed.

Lemma quiet_echo ctl c : quiet early (echo ctl c).
Proof.
  apply quiet_the_pty. intros p. case_match; [|apply quiet_output_process].
  apply quiet_R_bind; [|intros _]; apply quiet_output_process.
Qed.

Lemma quiet_rub_out n : quiet early (rub_out n).
Proof.
  induction n as [|n IH]; cbn [rub_out]; [intros t; exists (inr tt), []; by rewrite sent_nil|].
  do 3 (apply quiet_R_bind; [apply quiet_output_process|intros _]). exact IH.
Qed.

(** [erase_one] shortens the line by one whatever happens to its echo. *)
Lemma erase_one_any erase t : fits (t_pty t) →
  ∃ r t', erase_one erase t = Ret (r, t') ∧ early r ∧ fits (t_pty t') ∧
    canon_buflen (t_pty t') = (canon_buflen (t_pty t) - 1)%nat.
Proof.
  intros Hf. pose proof Hf as (H1 & H2 & H3). unfold erase_one, checked, tty_erase_one.
  destruct (Nat.ltb_spec 0 (canon_buflen (t_pty t))) as [Hlt|Hge].
  - assert (Hb : is_Some (canon_buffer (t_pty t) !! (canon_buflen (t_pty t) - 1)%nat)) by (apply lookup_lt_is_Some; lia).
    destruct Hb as [b Hb]. set (n := (canon_buflen (t_pty t) - 1)%nat) in *.
    set (p2 := set_canon (<[n := 0]> (canon_buffer (t_pty t))) n (t_pty t)). set (t2 := Tty p2 (t_io t)).
    assert (Hf2 : fits p2) by (unfold fits, p2; cbn; rewrite length_insert; lia).
    destruct (quiet_when (flag (c_lflag (tios (t_pty t))) ECHO && erase) _
      (quiet_rub_out (if is_control (s8 b) then 2 else 1)) t2) as (x & es & Hr & Hx).
    assert (Hbody : body (p ← the_pty;
        if (0 <? canon_buflen p)%nat then
          let n := (canon_buflen p - 1)%nat in
          _ ← lift (set_buflen n); b ← lift (load_canon n);
          let vwidth := if is_control (s8 b) then 2%nat else 1%nat in
          _ ← lift (store_canon n 0); _ ← when (flag (c_lflag (tios p)) ECHO && erase) (rub_out vwidth); return_ 0
        else return_ 0) t = Ret (match x with inl r => r | inr _ => 0 end, sent t2 es)).
    { unfold body. rewrite the_pty_bind, (proj2 (Nat.ltb_lt _ _)) by done. fold n. cbn zeta.
      rewrite (R_bind_inr _ _ _ _ _ (lift_run _ _ _ _ (set_buflen_run n t))). unfold moved_to. rewrite app_nil_r.
      set (t1 := Tty _ _). rewrite (R_bind_inr (lift (load_canon n)) _ t1 b t1) by (unfold lift, load_canon; cbn; by rewrite Hb).
      rewrite (R_bind_inr (lift (store_canon n 0)) _ t1 tt t2) by (unfold lift, store_canon; cbn; by rewrite Hb).
      destruct x as [r|u]; [by rewrite (R_bind_inl _ _ _ _ _ Hr)|by rewrite (R_bind_inr _ _ _ _ _ Hr)]. }
    rewrite (R_bind_inr _ _ _ _ _ (lift_run _ _ _ _ Hbody)).
    destruct (Z.ltb_spec (match x with inl r => r | inr _ => 0 end) 0).
    + eexists (inl _), _. split_and!; [done|by right|exact Hf2|done].
    + eexists (inr _), _. split_and!; [done|done|exact Hf2|done].
  - assert (E0 : canon_buflen (t_pty t) = 0%nat) by lia.
    rewrite (R_bind_inr (lift _) _ t 0 t) by (apply lift_run; unfold body; by rewrite the_pty_bind, E0).
    eexists (inr _), _. split_and!; [done|done|done|lia].
Qed.

Lemma erase_all_any erase : ∀ fuel t, fits (t_pty t) → (canon_buflen (t_pty t) < fuel)%nat →
  ∃ r t', erase_all fuel erase t = Ret (r, t') ∧ fits (t_pty t') ∧ early r.
Proof.
  induction fuel as [|fuel IH]; intros t Hf Hn; [lia|]. cbn [erase_all]. rewrite the_pty_bind.
  destruct (Nat.ltb_spec 0 (canon_buflen (t_pty t))); [|by eexists _, _].
  destruct (erase_one_any erase t Hf) as ([r|u] & t' & Hr & Hx & Hf' & Hn').
  - rewrite (R_bind_inl _ _ _ _ _ Hr). by eexists _, _.
  - rewrite (R_bind_inr _ _ _ _ _ Hr). apply IH; [done|lia].
Qed.

Lemma erase_while_any f erase : ∀ fuel t, fits (t_pty t) → (canon_buflen (t_pty t) < fuel)%nat →
  ∃ r t', erase_while fuel f erase t = Ret (r, t') ∧ fits (t_pty t') ∧ early r ∧
    (canon_buflen (t_pty t') ≤ canon_buflen (t_pty t))%nat.
Proof.
  induction fuel as [|fuel IH]; intros t Hf Hn; [lia|]. cbn [erase_while]. rewrite the_pty_bind.
  destruct (Nat.ltb_spec 0 (canon_buflen (t_pty t))); [|by eexists _, _].
  assert (is_Some (canon_buffer (t_pty t) !! (canon_buflen (t_pty t) - 1)%nat)) as [b Hb].
  { apply lookup_lt_is_Some. destruct Hf as (? & ? & ?). lia. }
  rewrite (R_bind_inr (lift _) _ t b t) by (unfold lift, load_canon; by rewrite Hb).
  destruct (f b); [|by eexists _, _].
  destruct (erase_one_any erase t Hf) as ([r|u] & t' & Hr & Hx & Hf' & Hn').
  - rewrite (R_bind_inl _ _ _ _ _ Hr). eexists _, _. split_and!; [done..|lia].
  - rewrite (R_bind_inr _ _ _ _ _ Hr). destruct (IH t' Hf' ltac:(lia)) as (r & t2 & ? & ? & ? & ?).
    eexists _, _. split_and!; [done..|lia].
Qed.

(** The dump may stop at any byte the environment refuses. *)
Lemma dump_loop_any : ∀ fuel k written t, fits (t_pty t) → (canon_buflen (t_pty t) < fuel)%nat →
  (k + canon_buflen (t_pty t) ≤ canon_bufsize (t_pty t))%nat →
  ∃ r t', dump_loop fuel k written t = Ret (r, t') ∧ fits (t_pty t').
Proof.
  induction fuel as [|fuel IH]; intros k written t Hf Hn Hk; [lia|]. cbn [dump_loop]. rewrite the_pty_bind.
  destruct (Nat.ltb_spec 0 (canon_buflen (t_pty t))); [|by eexists _, _]. pose proof Hf as (H1 & H2 & H3).
  assert (is_Some (canon_buffer (t_pty t) !! k)) as [b Hb] by (apply lookup_lt_is_Some; lia).
  rewrite (R_bind_inr (lift _) _ t b t) by (unfold lift, load_canon; by rewrite Hb).
  destruct (quiet_IN b t) as ([r|u] & es & Hr & _).
  - rewrite (R_bind_inl _ _ _ _ _ Hr). by eexists _, _.
  - rewrite (R_bind_inr _ _ _ _ _ Hr), (R_bind_inr _ _ _ _ _ (lift_run _ _ _ _ (set_buflen_run _ _))).
    apply IH; [unfold fits; cbn; lia|cbn; lia|cbn; lia].
Qed.

Lemma keeps_dump : keeps (λ _, True) dump_input_buffer.
Proof.
  intros t Hf. unfold dump_input_buffer, body. pose proof Hf as (? & ? & ?).
  destruct (dump_loop_any (S (canon_buflen (t_pty t))) 0 0 t Hf) as ([r|r] & t' & -> & ?); [lia|lia|..]; by eexists _, _.
Qed.

Lemma keeps_append c : keeps early (append_canon c).
Proof.
  intros t (H1 & H2 & H3). unfold append_canon, when. rewrite the_pty_bind.
  destruct (Nat.ltb_spec (canon_buflen (t_pty t)) (canon_bufsize (t_pty t))); [|by eexists (inr tt), t].
  rewrite (R_bind_inr _ _ _ _ _ (lift_run _ _ _ _ (store_canon_run (canon_buflen (t_pty t)) c t ltac:(lia)))).
  rewrite (lift_run _ _ _ _ (set_buflen_run _ _)). eexists _, _. split; [done|]. split; [|done].
  unfold fits; cbn. rewrite length_insert. lia.
Qed.

Lemma keeps_clear : keeps (λ _, True) clear_input_buffer.
Proof.
  intros t (H1 & H2 & H3). unfold clear_input_buffer. rewrite (run_bind_Ret _ _ _ _ _ (set_buflen_run 0 t)).
  rewrite store_canon_run by (cbn; lia). eexists _, _. split; [done|]. split; [|done].
  unfold fits; cbn. rewrite length_insert. lia.
Qed.

Lemma keeps_when b m : keeps early m → keeps early (when b m).
Proof. intros Hm. destruct b; [done|]. intros t Ht. by eexists (inr tt), t. Qed.

Lemma keeps_echo b ctl c : keeps early (when b (echo ctl c)).
Proof. apply quiet_keeps, quiet_when, quiet_echo. Qed.

Lemma keeps_erase_one erase : keeps early (erase_one erase).
Proof. intros t Ht. destruct (erase_one_any erase t Ht) as (r & t' & ? & ? & ? & _). by eexists _, _. Qed.

(** A line end: the byte before the end of the line is there to be overwritten. *)
Lemma deliver_any c t : fits (t_pty t) → (0 < canon_buflen (t_pty t))%nat →
  ∃ r t', (_ ← lift (match canon_buflen (t_pty t) with O => fault | S n => store_canon n c end);
           _ ← lift dump_input_buffer; return_ 1) t = Ret (r : Z + Z, t') ∧ fits (t_pty t') ∧ early r.
Proof.
  intros Hf Hn. pose proof Hf as (H1 & H2 & H3). destruct (canon_buflen (t_pty t)) as [|n] eqn:En; [lia|].
  rewrite (R_bind_inr _ _ _ _ _ (lift_run _ _ _ _ (store_canon_run n c t ltac:(lia)))).
  assert (Hk : keeps early (_ ← lift dump_input_buffer; (return_ 1 : R Z))).
  { apply keeps_R_bind; [exact (keeps_lift _ _ keeps_dump)|intros _; apply keeps_ret1]. }
  apply Hk. unfold fits; cbn. rewrite length_insert. lia.
Qed.

Lemma append_canon_nonempty c t r t' : fits (t_pty t) → append_canon c t = Ret (r, t') → (0 < canon_buflen (t_pty t'))%nat.
Proof.
  intros (H1 & H2 & H3). unfold append_canon, when. rewrite the_pty_bind.
  destruct (Nat.ltb_spec (canon_buflen (t_pty t)) (canon_bufsize (t_pty t))) as [Hlt|Hge]; [|intros [= _ <-]; lia].
  rewrite (R_bind_inr _ _ _ _ _ (lift_run _ _ _ _ (store_canon_run (canon_buflen (t_pty t)) c t ltac:(lia)))).
  rewrite (lift_run _ _ _ _ (set_buflen_run _ _)). intros [= _ <-]. cbn. lia.
Qed.

Lemma keeps_canonical_insert c : keeps early (canonical_insert c).
Proof.
  intros t Ht. unfold canonical_insert. rewrite the_pty_bind.
  destruct (keeps_append c t Ht) as ([r|u] & t1 & Ha & Ht1 & Hr); [rewrite (R_bind_inl _ _ _ _ _ Ha); by eexists _, _|].
  rewrite (R_bind_inr _ _ _ _ _ Ha). pose proof (append_canon_nonempty _ _ _ _ Ht Ha) as Hn.
  destruct (quiet_when (flag (c_lflag (tios (t_pty t))) ECHO) _ (quiet_echo (is_control c && negb (c =? 10)) c) t1)
    as ([r|v] & es & He & Hq); [rewrite (R_bind_inl _ _ _ _ _ He); by eexists _, _|].
  rewrite (R_bind_inr _ _ _ _ _ He). destruct (_ || _); [|by apply keeps_ret1].
  destruct (quiet_when (negb (flag (c_lflag (tios (t_pty t))) ECHO) && flag (c_lflag (tios (t_pty t))) ECHONL) _
    (quiet_output_process c) (sent t1 es)) as ([r|w] & es' & Ho & Hq'); [rewrite (R_bind_inl _ _ _ _ _ Ho); by eexists _, _|].
  rewrite (R_bind_inr _ _ _ _ _ Ho), the_pty_bind. by apply deliver_any.
Qed.

(** The two loops of [VWERASE]. *)
Lemma keeps_erase_word erase (k : R Z) : keeps early k →
  keeps early (p ← the_pty; _ ← erase_while (S (canon_buflen p)) (λ b, b =? 32) erase;
               _ ← erase_while (S (canon_buflen p)) (λ b, negb (b =? 32)) erase; k).
Proof.
  intros Hk t Ht. rewrite the_pty_bind.
  destruct (erase_while_any (λ b, b =? 32) erase (S (canon_buflen (t_pty t))) t Ht) as ([r|u] & t1 & H1 & Hf1 & He1 & Hn1);
    [lia|rewrite (R_bind_inl _ _ _ _ _ H1); by eexists _, _|].
  rewrite (R_bind_inr _ _ _ _ _ H1).
  destruct (erase_while_any (λ b, negb (b =? 32)) erase (S (canon_buflen (t_pty t))) t1 Hf1) as ([r|v] & t2 & H2 & Hf2 & He2 & _);
    [lia|rewrite (R_bind_inl _ _ _ _ _ H2); by eexists _, _|].
  rewrite (R_bind_inr _ _ _ _ _ H2). by apply Hk.
Qed.

Lemma keeps_canonical c : keeps early (canonical_input c).
Proof.
  intros t Ht. unfold canonical_input. rewrite the_pty_bind. cbn zeta. set (p := t_pty t) in *.
  destruct (_ && flag _ IEXTEN); [|destruct (c =? cc _ VKILL); [|destruct (c =? cc _ VERASE);
    [|destruct (_ && _); [|destruct (c =? cc _ VEOF)]]]].
  - apply keeps_R_bind; [apply (keeps_lift (λ _, True)), keeps_set; done|intros _|exact Ht].
    do 2 (apply keeps_R_bind; [apply quiet_keeps, quiet_output_process|intros _]). apply keeps_ret1.
  - destruct (erase_all_any (flag (c_lflag (tios p)) ECHOK) (S (canon_buflen p)) t Ht) as ([r|u] & t1 & H1 & Hf1 & He1);
      [unfold p; lia|rewrite (R_bind_inl _ _ _ _ _ H1); by eexists _, _|]. rewrite (R_bind_inr _ _ _ _ _ H1).
    apply keeps_R_bind; [apply keeps_echo|intros _; apply keeps_ret1|exact Hf1].
  - apply keeps_R_bind; [apply keeps_erase_one|intros _|exact Ht].
    apply keeps_R_bind; [apply keeps_echo|intros _; apply keeps_ret1].
  - refine (keeps_erase_word _ _ _ t Ht). apply keeps_R_bind; [apply keeps_echo|intros _; apply keeps_ret1].
  - apply keeps_R_bind; [|intros _; apply keeps_ret1|exact Ht]. apply (keeps_lift (λ _, True)).
    destruct (0 <? _)%nat; [apply keeps_dump|]. intros t' Ht'. by eexists _, _.
  - by apply keeps_canonical_insert.
Qed.

Lemma keeps_body (m : R Z) : keeps early m → keeps (λ _, True) (body m).
Proof. intros Hm t Ht. unfold body. destruct (Hm t Ht) as ([r|r] & t' & -> & ? & _); by eexists _, _. Qed.

Lemma keeps_input c : keeps (λ _, True) (tty_input_process c).
Proof.
  apply keeps_body. apply keeps_R_bind; [|intros _].
  { intros t Ht. by eexists (inr tt), _. }
  apply keeps_the_pty. intros p _. cbn zeta. destruct (next_is_verbatim p).
  { apply keeps_R_bind; [apply (keeps_lift (λ _, True)), keeps_set; done|intros _].
    apply keeps_R_bind; [apply keeps_append|intros _].
    apply keeps_R_bind; [apply keeps_echo|intros _; apply keeps_ret1]. }
  destruct (if flag _ ISIG then _ else _) as [sig|].
  { apply keeps_R_bind; [apply keeps_echo|intros _].
    apply keeps_R_bind; [apply (keeps_lift _ _ keeps_clear)|intros _].
    apply keeps_R_bind; [|intros _; apply keeps_ret1]. apply (keeps_lift (λ _, True)).
    destruct (negb _); [apply keeps_call|by apply keeps_ret]. }
  destruct (_ && _); [apply keeps_ret1|]. destruct (flag _ ICANON); [apply keeps_canonical|].
  apply keeps_R_bind; [apply keeps_echo|intros _].
  apply keeps_R_bind; [apply quiet_keeps, quiet_IN|intros _; apply keeps_ret1].
Qed.

Lemma keeps_master bs : ∀ l, keeps (λ _, True) (write_pty_master_loop l bs).
Proof.
  induction bs as [|c bs IH]; intros l t Ht; cbn [write_pty_master_loop]; [by eexists _, _|].
  destruct (keeps_input c t Ht) as (o & t' & Hr & Ht' & _). rewrite (run_bind_Ret _ _ _ _ _ Hr).
  destruct (_ && _); [by eexists _, _|by apply IH].
Qed.

Lemma quiet_slave bs : ∀ l, quiet (λ _, True) (write_pty_slave_loop l bs).
Proof.
  induction bs as [|c bs IH]; intros l t; cbn [write_pty_slave_loop].
  - exists l, []. by rewrite sent_nil.
  - destruct (quiet_tty_output_process c t) as (o & es & Hr & _). rewrite (run_bind_Ret _ _ _ _ _ Hr).
    destruct (_ <? 0); [by eexists _, _|]. destruct (IH (l + 1) (sent t es)) as (r & es' & -> & _).
    rewrite sent_sent. by eexists _, _.
Qed.

(** ** Sequences of calls *)

Inductive tty_op :=
| WriteMaster (bs : list Z)
| WriteSlave (cur : process) (bs : list Z)
| ReadMaster (size : Z)
| ReadSlave (cur : process) (size : Z)
| Ioctl (is_master : bool) (cur : process) (req : request) (argp : option uptr)
| CloseMaster
| CloseSlave.

Definition run_op (o : tty_op) : M tty unit :=
  match o with
  | WriteMaster bs => _ ← write_pty_master bs; mret tt
  | WriteSlave cur bs => _ ← write_pty_slave cur bs; mret tt
  | ReadMaster size => _ ← read_pty_master size; mret tt
  | ReadSlave cur size => _ ← read_pty_slave cur size; mret tt
  | Ioctl m cur req argp => _ ← pty_ioctl m cur req argp; mret tt
  | CloseMaster => close_pty_master
  | CloseSlave => close_pty_slave
  end.

Fixpoint run_ops (os : list tty_op) : M tty unit :=
  match os with
  | [] => mret tt
  | o :: os => _ ← run_op o; run_ops os
  end.

(** The pointer of a [TCSETSF] request can be read: the driver does not check. *)
Definition flush_checked (o : tty_op) : Prop :=
  match o with
  | Ioctl _ _ TCSETSF (Some a) => u_reads a SIZEOF_TERMIOS = true
  | Ioctl _ _ TCSETSF None => False
  | _ => True
  end.

Lemma keeps_bind {A B} Q (m : M tty A) (k : A → M tty B) Q' :
  keeps Q m → (∀ a, keeps Q' (k a)) → keeps Q' (m ≫= k).
Proof.
  intros Hm Hk t Ht. destruct (Hm t Ht) as (a & t' & Hr & Ht' & _). rewrite (run_bind_Ret _ _ _ _ _ Hr). by apply Hk.
Qed.

Lemma keeps_gets {B} (k : pty → M tty B) Q : (∀ p, keeps Q (k p)) → keeps Q (gets t_pty ≫= k).
Proof. intros Hk t Ht. rewrite (run_bind_Ret (gets t_pty) _ _ _ _ eq_refl). by apply Hk. Qed.

Lemma keeps_read e : keeps (λ _, True) (read_call e).
Proof. intros t Ht. by eexists _, _. Qed.

Lemma keeps_read_min vmin size : ∀ fuel c out, 0 ≤ c → vmin < c + Z.of_nat fuel → (0 < fuel)%nat →
  keeps (λ _, True) (read_min_loop fuel vmin size c out).
Proof.
  induction fuel as [|fuel IH]; intros c out Hc Hf Hpos; [lia|]. cbn [read_min_loop].
  destruct (Z.ltb_spec c vmin); [|by apply keeps_ret].
  apply (keeps_bind _ _ _ _ (keeps_read _)). intros [n bs].
  destruct (Z.leb_spec n 0); [by apply keeps_ret|]. apply IH; lia.
Qed.

Lemma keeps_validated argp ok k : (∀ a, argp = Some a → ok a = true → keeps (λ _, True) (k a)) →
  keeps (λ _, True) (validated argp ok k).
Proof.
  intros Hk. destruct argp as [a|]; cbn; [|by apply keeps_ret]. destruct (ok a) eqn:E; [by apply Hk|by apply keeps_ret].
Qed.

Lemma keeps_set_ret {A} f (a : A) : (∀ p, fits p → fits (f p)) → keeps (λ _, True) (_ ← set_pty f; mret a).
Proof. intros Hf. apply (keeps_bind _ _ _ _ (keeps_set f Hf)). intros _. by apply keeps_ret. Qed.

Lemma keeps_set_termios a : u_reads a SIZEOF_TERMIOS = true → keeps (λ _, True) (set_termios_common (Some a)).
Proof. intros Hr. cbn. rewrite Hr. by apply keeps_set_ret. Qed.

Lemma keeps_call_if (b : bool) e : keeps (λ _, True) (if b then call e else mret tt).
Proof. destruct b; [apply keeps_call|by apply keeps_ret]. Qed.

Lemma keeps_ioctl m cur req argp : flush_checked (Ioctl m cur req argp) → keeps (λ _, True) (pty_ioctl m cur req argp).
Proof.
  intros Hc. apply keeps_gets. intros p. destruct req; try (by apply keeps_ret); cbn zeta.
  - apply keeps_validated. intros a _ _. destruct (negb _); [by apply keeps_ret|].
    destruct (fill_name _ _). by apply keeps_ret.
  - destruct (negb _); [by apply keeps_ret|]. apply keeps_validated. intros a _ _. by apply keeps_set_ret.
  - apply keeps_validated. intros a _ _. eapply keeps_bind; [by apply keeps_set|intros _].
    eapply keeps_bind; [apply keeps_call_if|intros _]. by apply keeps_ret.
  - apply keeps_validated. intros a _ _. by apply keeps_ret.
  - apply keeps_validated. intros a _ _. by apply keeps_ret.
  - apply keeps_validated. intros a _ _. by apply keeps_set_ret.
  - apply keeps_validated. intros a _ _. destruct (_ && _); by apply keeps_ret.
  - apply keeps_validated. intros a _ _. destruct (_ && _); by apply keeps_ret.
  - destruct (_ && _); [by apply keeps_ret|]. destruct (negb _); [by apply keeps_ret|].
    destruct (_ && _); [by apply keeps_ret|]. eapply keeps_bind; [by apply keeps_set|intros _].
    eapply keeps_bind; [apply keeps_call|intros _]. by apply keeps_ret.
  - apply keeps_validated. intros a -> Hr. apply (keeps_bind (λ _, True)); [|intros _; by apply keeps_set_termios].
    destruct (_ && _); [apply keeps_dump|by apply keeps_ret].
  - apply keeps_validated. intros a -> Hr. apply (keeps_bind (λ _, True)); [|intros _; by apply keeps_set_termios].
    destruct (_ && _); [apply keeps_dump|by apply keeps_ret].
  - destruct argp as [a|]; [|done]. eapply keeps_bind; [apply keeps_clear|intros _].
    eapply keeps_bind; [apply keeps_call|intros _]. by apply keeps_set_termios.
Qed.

Lemma keeps_read_slave cur size : keeps (λ _, True) (read_pty_slave cur size).
Proof.
  apply keeps_gets. intros p. destruct (background p cur).
  { destruct (ignoring cur SIGTTIN); [by apply keeps_ret|]. eapply keeps_bind; [apply keeps_call|intros _]. by apply keeps_ret. }
  destruct (flag _ ICANON); [apply keeps_read|]. destruct (_ =? 0); [apply keeps_read|]. apply keeps_read_min; lia.
Qed.

Lemma keeps_write_slave cur bs : keeps (λ _, True) (write_pty_slave cur bs).
Proof.
  apply keeps_gets. intros p. destruct (_ && _); [|apply quiet_keeps, quiet_slave].
  eapply keeps_bind; [apply keeps_call|intros _]. by apply keeps_ret.
Qed.

Lemma keeps_teardown : keeps (λ _, True) pty_teardown.
Proof.
  apply keeps_gets. intros p. eapply keeps_bind; [apply keeps_call_if|intros _].
  do 4 (eapply keeps_bind; [apply keeps_call|intros _]). apply keeps_call.
Qed.

Lemma keeps_op o : flush_checked o → keeps (λ _, True) (run_op o).
Proof.
  intros Ho. destruct o as [bs|cur bs|size|cur size|m cur req argp| |]; cbn [run_op].
  - eapply keeps_bind; [apply keeps_master|intros _; by apply keeps_ret].
  - eapply keeps_bind; [apply keeps_write_slave|intros _; by apply keeps_ret].
  - eapply keeps_bind; [apply keeps_read|intros _; by apply keeps_ret].
  - eapply keeps_bind; [apply keeps_read_slave|intros _; by apply keeps_ret].
  - eapply keeps_bind; [by apply keeps_ioctl|intros _; by apply keeps_ret].
  - do 4 (eapply keeps_bind; [apply keeps_call|intros _]). apply keeps_gets. intros p.
    eapply keeps_bind; [apply keeps_call_if|intros _]. eapply keeps_bind; [by apply keeps_set|intros _].
    destruct (slave_closed p); [apply keeps_teardown|by apply keeps_ret].
  - eapply keeps_bind; [by apply keeps_set|intros _]. apply keeps_gets. intros p.
    destruct (master_closed p); [apply keeps_teardown|by apply keeps_ret].
Qed.

End safety.


(** ** The echo of erasing *)

(** How far the cursor moves: backspace goes left, a printed character right. *)
Definition cursor_step (e : io) : Z :=
  match e with Out c => if c =? 8 then -1 else if 32 <=? c then 1 else 0 | _ => 0 end.
Definition cursor (es : list io) : Z := foldr (λ e n, cursor_step e + n) 0 es.

Lemma s8_byte c : is_byte c → s8 c = if c <? 128 then c else c - 256.
Proof. intros Hc. unfold swrap. rewrite wrap_small by exact Hc. done. Qed.

Lemma type_then_erase junk limit fg l c : length junk = NCCS → 32 ≤ c < 256 → c ≠ 127 → (length l < limit)%nat →
  let r := edit_all (default_termios junk) limit fg (Editor l false) [c; 127] in
  r.1 = Editor l false ∧ r.2 = Out <$> c :: rub c.
Proof.
  intros Hj Hc Hne Hl. destruct (default_cc junk Hj) as (Heof & Heol & Herase & Hintr & Hkill & Hquit & Hsusp & Hlnext & Hwerase & _).
  assert (H1 : edit (default_termios junk) limit fg (Editor l false) c = (Editor (l ++ [c]) false, [Out c])).
  { unfold edit, strip, translate, signal_of, edit_line, ends_line, echoed, shown, is_control, opost.
    cbn [ed_verbatim ed_line]. default_flags.
    rewrite Heof, Heol, Herase, Hintr, Hkill, Hquit, Hsusp, Hlnext, Hwerase.
    do 2 (repeat match goal with |- context [c =? ?n] => rewrite (proj2 (Z.eqb_neq c n)) by lia end; cbn [andb orb negb]).
    rewrite (proj2 (Z.ltb_ge c 32)) by lia. cbn [andb orb negb]. rewrite !andb_false_r.
    unfold add_byte. by rewrite (proj2 (Nat.ltb_lt _ _)) by done. }
  assert (H2 : edit (default_termios junk) limit fg (Editor (l ++ [c]) false) 127 = (Editor l false, Out <$> rub c)).
  { unfold edit, strip, translate, signal_of, edit_line, rubbed, echoed_unless. cbn [ed_verbatim ed_line]. default_flags.
    cbn [andb orb negb Z.eqb Z.leb Z.compare]. rewrite Herase, Hintr, Hkill, Hquit, Hsusp, Hlnext.
    cbn [andb Z.eqb Pos.eqb]. rewrite removelast_snoc, drop_app_length, app_nil_r. rewrite reverse_singleton. cbn [mbind list_bind].
    by rewrite app_nil_r. }
  cbn zeta. cbn [edit_all]. rewrite H1, H2. cbn [fst snd]. by rewrite app_nil_r.
Qed.


(** ** Who may do what *)

Lemma gets_pty_run {B} (k : pty → M tty B) t : (gets t_pty ≫= k) t = k (t_pty t) t.
Proof. reflexivity. Qed.

(** What a control call may change, by caller. *)
Definition ioctl_allowed (cur : process) (req : request) (argp : option uptr) (p p' : pty) : Prop :=
  (n_uid (pty_slave p') ≠ n_uid (pty_slave p) ∨ n_uid (pty_master p') ≠ n_uid (pty_master p) →
     proc_user cur = 0 ∧ req = IOCTLTTYLOGIN) ∧
  (ct_proc p' ≠ ct_proc p →
     req = TIOCSCTTY ∧ proc_session cur = proc_id cur ∧ ct_proc p' = proc_session cur ∧
     (ct_proc p = 0 ∨ proc_user cur = 0 ∧ ∃ a, argp = Some a ∧ u_int a = 1)) ∧
  (tios p' ≠ tios p → req = TCSETS ∨ req = TCSETSW ∨ req = TCSETSF) ∧
  n_gid (pty_slave p') = n_gid (pty_slave p) ∧ n_mask (pty_slave p') = n_mask (pty_slave p).

Lemma allowed_same cur req argp p : ioctl_allowed cur req argp p p.
Proof. unfold ioctl_allowed. split_and!; [intros [?|?]; congruence|congruence|congruence|done|done]. Qed.

(** Changes of the line, the sizes or the foreground group are open to all. *)
Definition same_access (p p' : pty) : Prop :=
  pty_slave p' = pty_slave p ∧ pty_master p' = pty_master p ∧ ct_proc p' = ct_proc p ∧ tios p' = tios p.

Lemma allowed_access cur req argp p p' : same_access p p' → ioctl_allowed cur req argp p p'.
Proof.
  intros (E1 & E2 & E3 & E4). unfold ioctl_allowed. rewrite E1, E2, E3, E4.
  split_and!; [intros [?|?]; congruence|congruence|congruence|done|done].
Qed.

Lemma dump_loop_access `{TtyEnv} : ∀ fuel k written t r t', dump_loop fuel k written t = Ret (r, t') →
  same_access (t_pty t) (t_pty t').
Proof.
  induction fuel as [|fuel IH]; intros k written t r t'; cbn [dump_loop]; [done|]. rewrite the_pty_bind.
  destruct (_ <? _)%nat; [|by intros [= _ <-]].
  unfold lift, load_canon, mbind, R_bind. destruct (canon_buffer (t_pty t) !! k) as [b|]; [|done].
  destruct (quiet_IN b t) as ([x|u] & es & -> & _); [by intros [= _ <-]|].
  cbn beta iota. rewrite set_buflen_run. intros Hr. apply IH in Hr. exact Hr.
Qed.

Lemma dump_access `{TtyEnv} t r t' : dump_input_buffer t = Ret (r, t') → same_access (t_pty t) (t_pty t').
Proof.
  unfold dump_input_buffer, body. destruct (dump_loop _ _ _ t) as [[[x|x] t1]| |] eqn:E; [| |done|done].
  all: intros [= _ <-]; by eapply dump_loop_access.
Qed.

Lemma set_termios_allowed cur req argp p t r t' : req = TCSETS ∨ req = TCSETSW ∨ req = TCSETSF →
  same_access p (t_pty t) → set_termios_common argp t = Ret (r, t') → ioctl_allowed cur req argp p (t_pty t').
Proof.
  intros Hreq (E1 & E2 & E3 & E4). unfold set_termios_common. destruct argp as [a|]; [|done].
  destruct (u_reads a _); [|done]. intros [= _ <-]. unfold ioctl_allowed; cbn. rewrite E1, E2, E3.
  split_and!; [intros [?|?]; congruence|congruence|done|done|done].
Qed.

Lemma clear_access t t' : clear_input_buffer t = Ret (tt, t') → same_access (t_pty t) (t_pty t').
Proof.
  unfold clear_input_buffer, set_buflen, set_pty, modify, mbind, M_bind, store_canon. cbn.
  destruct (canon_buffer (t_pty t) !! 0%nat); [|done]. by intros [= <-].
Qed.

Lemma validated_inv argp ok k t r t' : validated argp ok k t = Ret (r, t') →
  t' = t ∨ ∃ a, argp = Some a ∧ ok a = true ∧ k a t = Ret (r, t').
Proof.
  unfold validated. destruct argp as [a|]; [|intros [= _ <-]; by left].
  destruct (ok a) eqn:E; [eauto|intros [= _ <-]; by left].
Qed.

Lemma set_tios_allowed `{TtyEnv} cur req argp (b : bool) t r t' : req = TCSETS ∨ req = TCSETSW ∨ req = TCSETSF →
  (_ ← (if b then dump_input_buffer else mret 0); set_termios_common argp) t = Ret (r, t') →
  ioctl_allowed cur req argp (t_pty t) (t_pty t').
Proof.
  intros Hreq Hr. destruct b; rewrite run_bind in Hr.
  - destruct (dump_input_buffer t) as [[x t1]| |] eqn:E; [|done|done]. apply dump_access in E.
    by eapply set_termios_allowed.
  - eapply set_termios_allowed; [done| |exact Hr]. by split_and!.
Qed.

Lemma scctty_allowed cur argp p (t : tty) r t' :
  p = t_pty t →
  (if (proc_session cur =? proc_id cur) && (ct_proc p =? proc_session cur) then mret (0, NoReply)
   else if negb (proc_session cur =? proc_id cur) then mret (- EPERM, NoReply)
   else
     let stolen := match argp with Some a => (proc_user cur =? 0) && (u_int a =? 1) | None => false end in
     if negb (ct_proc p =? 0) && negb stolen then mret (- EPERM, NoReply)
     else
       _ ← set_pty (set_procs (proc_session cur) (fg_proc p)); _ ← call (Attach (proc_id cur)); mret (0, NoReply)) t
  = Ret (r, t') → ioctl_allowed cur TIOCSCTTY argp p (t_pty t').
Proof.
  intros -> Hr. destruct (_ && _); [injection Hr as _ <-; apply allowed_same|].
  destruct (Z.eqb_spec (proc_session cur) (proc_id cur)) as [Hs|]; cbn [negb] in Hr; [|injection Hr as _ <-; apply allowed_same].
  cbn zeta in Hr. destruct (_ && negb _) eqn:E; [injection Hr as _ <-; apply allowed_same|]. injection Hr as _ <-.
  unfold ioctl_allowed; cbn. split_and!; [intros [?|?]; congruence| |done|done|done]. intros _. split_and!; [done..|].
  apply andb_false_iff in E as [E|E].
  - left. apply negb_false_iff, Z.eqb_eq in E. exact E.
  - right. apply negb_false_iff in E. destruct argp as [a|]; [|done]. apply andb_true_iff in E as [E1 E2].
    rewrite Z.eqb_eq in E1, E2. eauto.
Qed.

Lemma pty_ioctl_allowed `{TtyEnv} m cur req argp t r t' : pty_ioctl m cur req argp t = Ret (r, t') →
  ioctl_allowed cur req argp (t_pty t) (t_pty t').
Proof.
  unfold pty_ioctl. rewrite gets_pty_run.
  assert (Hval : ∀ ok k, validated argp ok k t = Ret (r, t') →
    (∀ a, k a t = Ret (r, t') → ioctl_allowed cur req argp (t_pty t) (t_pty t')) →
    ioctl_allowed cur req argp (t_pty t) (t_pty t')).
  { intros ok k Hv Hk. apply validated_inv in Hv as [->|(a & ? & ? & ?)]; [apply allowed_same|by eapply Hk]. }
  destruct req; intros Hr; try (eapply Hval; [exact Hr|]; clear Hr; intros a Hr; cbv beta in Hr).
  - destruct (negb _); [injection Hr as _ <-; apply allowed_same|].
    destruct (fill_name _ _). injection Hr as _ <-. apply allowed_same.
  - destruct (Z.eqb_spec (proc_user cur) 0) as [Hu|]; cbn [negb] in Hr; [|injection Hr as _ <-; apply allowed_same].
    eapply Hval; [exact Hr|]. intros a [= _ <-]. by unfold ioctl_allowed; cbn.
  - apply allowed_access. unfold set_pty, modify, mbind, M_bind in Hr. destruct (negb _); by injection Hr as _ <-.
  - injection Hr as _ <-. apply allowed_same.
  - injection Hr as _ <-. apply allowed_same.
  - injection Hr as _ <-. by apply allowed_access.
  - destruct (_ && _); injection Hr as _ <-; apply allowed_same.
  - destruct (_ && _); injection Hr as _ <-; apply allowed_same.
  - by eapply scctty_allowed.
  - eapply set_tios_allowed; [by left|exact Hr].
  - eapply set_tios_allowed; [by right; left|exact Hr].
  - rewrite run_bind in Hr. destruct (clear_input_buffer t) as [[[] t1]| |] eqn:E; [|done|done].
    apply clear_access in E. rewrite (run_bind_Ret (call InDiscard) _ _ _ _ eq_refl) in Hr.
    by eapply (set_termios_allowed _ _ _ _ (Tty (t_pty t1) (t_io t1 ++ [InDiscard]))); [by right; right|exact E|exact Hr].
  - injection Hr as _ <-. apply allowed_same.
Qed.

(** How often the terminal has been released. *)
Definition times_freed (es : list io) : nat :=
  foldr (λ e n, match e with FreePty => S n | _ => n end) 0%nat es.

Lemma times_freed_app es es' : times_freed (es ++ es') = (times_freed es + times_freed es')%nat.
Proof. unfold times_freed. induction es as [|e es IH]; [done|]. cbn [app foldr]. rewrite IH. by destruct e. Qed.

Lemma teardown_run t : ∃ es, pty_teardown t = Ret (tt, sent t es) ∧ times_freed es = 1%nat.
Proof.
  unfold pty_teardown. rewrite gets_pty_run. destruct (negb _).
  - exists [IndexRemove (pty_name (t_pty t)); EraseProcesses; FreeCanon; DestroyIn; DestroyOut; FreePty].
    unfold call, modify, mbind, M_bind, sent. cbn. by rewrite <-!(assoc_L (++)).
  - exists [EraseProcesses; FreeCanon; DestroyIn; DestroyOut; FreePty].
    unfold call, modify, mbind, M_bind, mret, M_ret, sent. cbn. by rewrite <-!(assoc_L (++)).
Qed.

Lemma teardown_if_run (b : bool) t :
  ∃ t', (if b then pty_teardown else mret tt) t = Ret (tt, t') ∧ t_pty t' = t_pty t ∧
    times_freed (t_io t') = ((if b then 1 else 0) + times_freed (t_io t))%nat.
Proof.
  destruct b; [|by exists t]. destruct (teardown_run t) as (es & -> & Hes). eexists. split; [done|]. split; [done|].
  cbn. rewrite times_freed_app. lia.
Qed.

Lemma close_slave_run t :
  ∃ t', close_pty_slave t = Ret (tt, t') ∧ t_pty t' = set_closed (master_closed (t_pty t)) true (t_pty t) ∧
    times_freed (t_io t') = ((if master_closed (t_pty t) then 1 else 0) + times_freed (t_io t))%nat.
Proof.
  unfold close_pty_slave, set_pty. rewrite (run_bind_Ret (modify _) _ _ _ _ eq_refl), gets_pty_run.
  exact (teardown_if_run (master_closed (t_pty t)) (Tty (set_closed (master_closed (t_pty t)) true (t_pty t)) (t_io t))).
Qed.

Lemma close_master_run t :
  ∃ t', close_pty_master t = Ret (tt, t') ∧ t_pty t' = set_closed true (slave_closed (t_pty t)) (t_pty t) ∧
    times_freed (t_io t') = ((if slave_closed (t_pty t) then 1 else 0) + times_freed (t_io t))%nat.
Proof.
  unfold close_pty_master. do 4 rewrite (run_bind_Ret (call _) _ _ _ _ eq_refl). rewrite gets_pty_run. cbn [t_pty].
  cbn [t_pty t_io]. set (es := (((t_io t ++ _) ++ _) ++ _) ++ _).
  assert (Hes : times_freed es = times_freed (t_io t)) by (unfold es; rewrite !times_freed_app; cbn; lia).
  destruct (negb _); cbn [t_pty t_io].
  - rewrite (run_bind_Ret (call _) _ _ _ _ eq_refl), (run_bind_Ret (set_pty _) _ _ _ _ eq_refl).
    destruct (teardown_if_run (slave_closed (t_pty t)) (Tty (set_closed true (slave_closed (t_pty t)) (t_pty t))
      (es ++ [SessionSignal (ct_proc (t_pty t)) SIGHUP]))) as (t' & Hr & Hp & Hc). exists t'.
    split; [exact Hr|]. split; [exact Hp|]. rewrite Hc. cbn [t_io]. rewrite times_freed_app, Hes. cbn. lia.
  - rewrite run_mret_bind, (run_bind_Ret (set_pty _) _ _ _ _ eq_refl).
    destruct (teardown_if_run (slave_closed (t_pty t)) (Tty (set_closed true (slave_closed (t_pty t)) (t_pty t)) es))
      as (t' & Hr & Hp & Hc). exists t'. split; [exact Hr|]. split; [exact Hp|]. rewrite Hc. cbn [t_io]. by rewrite Hes.
Qed.


(** ** Witnesses *)

(** An environment that takes every byte. *)
Definition demo_tty_env : TtyEnv := {|
  write_reply := λ _ _, 1;
  read_reply := λ _ _, (0, []);
  fill_name := λ _ _, (10, []);
  now := λ _, 0
|}.

Lemma demo_accepting : @Accepting demo_tty_env.
Proof. intros h e. cbn. lia. Qed.

Definition demo_junk : pty :=
  Pty 0 (Fnode 0 0 0 0) (Fnode 0 0 0 0) (Winsize 0 0 0 0) (Termios 0 0 0 0 (replicate 32 0)) (replicate 4096 0) 0 0 0 0
    false false false.
Definition demo_tty : tty := Tty (pty_new None 1 0 0 0 demo_junk) [].

Lemma demo_tty_ok : pty_ok (t_pty demo_tty).
Proof.
  unfold pty_ok, line. cbn [t_pty demo_tty canon_buflen canon_bufsize canon_buffer pty_new demo_junk].
  rewrite length_replicate. unfold TTY_BUFFER_SIZE. split_and!; [lia..|by constructor].
Qed.


Lemma tty_typed_line_witness :
  ∃ p es, @write_pty_master demo_tty_env ((key_byte <$> [Char 104; Char 106; Backspace; Char 105]) ++ [13]) demo_tty =
      Ret (5, Tty p es) ∧ delivered es = [104; 105; 10] ∧ line p = [].
Proof.
  apply (@tty_typed_line demo_tty_env demo_accepting None 1 0 0 0 demo_junk [Char 104; Char 106; Backspace; Char 105]);
    [reflexivity|apply length_replicate|repeat constructor; lia|unfold TTY_BUFFER_SIZE; cbn [length]; lia].
Defined.



