(* ===== verification/Pipe.v ===== *)
(** * Device pipes (kernel/vfs/pipe.c)

    The buffer between a device driver and the program that reads the device
    (keyboard, mouse, packet connections).  The storage is the ring of
    [RingBuffer], whose arithmetic pipe.c repeats; what differs is when a call
    moves bytes: a read waits until all it asks for is there, a write until
    more room than it needs is there, so messages are never split.

    As in [RingBuffer], a call that sleeps is cut where it gives up the
    processor, and [pipe_step] interleaves any number of callers.  A pipe
    that has been destroyed is [None]: touching it is a fault. *)

From S2P Require Import Prelude RingBuffer.

(** ** Data *)

Record pipe_device := Pipe_device {
  pd_ring : ring;
  pd_refcount : Z;
  pd_readers : list pid;
  pd_writers : list pid;
  pd_dead : bool;
  pd_alert_waiters : list pid
}.

(** The device, and what was sent to other processes: alerts for [fswait] and
    the processes sent [SIGPIPE]. *)
Record pworld := PWorld {
  pw_pipe : option pipe_device;
  pw_alerted : list pid;
  pw_sigpipe : list pid;
  pw_node_waits : list pid
}.

Definition get_pipe : M pworld pipe_device := λ w,
  match pw_pipe w with Some d => Ret (d, w) | None => Fault end.
Definition put_pipe (d : pipe_device) : M pworld unit := λ w,
  match pw_pipe w with
  | Some _ => Ret (tt, PWorld (Some d) (pw_alerted w) (pw_sigpipe w) (pw_node_waits w))
  | None => Fault
  end.

Definition with_ring (r : ring) (d : pipe_device) : pipe_device :=
  Pipe_device r (pd_refcount d) (pd_readers d) (pd_writers d) (pd_dead d) (pd_alert_waiters d).
Definition with_queues (rs ws : list pid) (d : pipe_device) : pipe_device :=
  Pipe_device (pd_ring d) (pd_refcount d) rs ws (pd_dead d) (pd_alert_waiters d).
Definition with_alerts (ps : list pid) (d : pipe_device) : pipe_device :=
  Pipe_device (pd_ring d) (pd_refcount d) (pd_readers d) (pd_writers d) (pd_dead d) ps.
Definition with_refcount (n : Z) (d : pipe_device) : pipe_device :=
  Pipe_device (pd_ring d) n (pd_readers d) (pd_writers d) (pd_dead d) (pd_alert_waiters d).

(** ** Operations *)

Definition pipe_unread (d : pipe_device) : Z := unread (pd_ring d).
Definition pipe_available (d : pipe_device) : Z := available (pd_ring d).
Definition pipe_size (d : pipe_device) : Z := s32 (pipe_unread d).
Definition pipe_unsize (d : pipe_device) : Z := pipe_available d.

(** Every process in the list is dequeued and alerted. *)
Definition pipe_alert_waiters : M pworld unit := λ w,
  match pw_pipe w with
  | Some d => Ret (tt, PWorld (Some (with_alerts [] d)) (pw_alerted w ++ pd_alert_waiters d) (pw_sigpipe w) (pw_node_waits w))
  | None => Fault
  end.

Definition wake_readers : M pworld unit := d ← get_pipe; put_pipe (with_queues [] (pd_writers d) d).
Definition wake_writers : M pworld unit := d ← get_pipe; put_pipe (with_queues (pd_readers d) [] d).

Definition send_sigpipe (self : pid) : M pworld unit :=
  modify (λ w, PWorld (pw_pipe w) (pw_alerted w) (pw_sigpipe w ++ [self]) (pw_node_waits w)).

(** Where a process sleeps inside a call. *)
Inductive pframe :=
| PInRead (size : Z)
| PInWrite (data : list Z) (written : nat).

Inductive pcontrol :=
| PReturned (r : Z) (out : list Z)
| PAsleep (f : pframe).

Definition pipe_copy_out (size : Z) : M pworld (list Z) :=
  d ← get_pipe;
  if size <=? pipe_unread d then
    match read_loop (ring_fuel (pd_ring d)) size [] (pd_ring d) with
    | Ret (out, r) => _ ← put_pipe (with_ring r d); mret out
    | Fault => fault
    | Spin => spin
    end
  else mret [].

Definition pipe_copy_in (data : list Z) (written : nat) : M pworld nat :=
  d ← get_pipe;
  if Z.of_nat (length data) <? pipe_available d then
    match write_loop (ring_fuel (pd_ring d)) data written (pd_ring d) with
    | Ret (written, r) => _ ← put_pipe (with_ring r d); mret written
    | Fault => fault
    | Spin => spin
    end
  else mret written.

(** A turn of [while (collected == 0)] in [read_pipe]. *)
Definition read_turn (self : pid) (size : Z) : M pworld pcontrol :=
  out ← pipe_copy_out size;
  _ ← wake_writers;
  match out with
  | [] =>
      d ← get_pipe;
      _ ← put_pipe (with_queues (pd_readers d ++ [self]) (pd_writers d) d);
      mret (PAsleep (PInRead size))
  | _ => mret (PReturned (Z.of_nat (length out)) out)
  end.

Definition read_pipe (self : pid) (size : Z) : M pworld pcontrol :=
  d ← get_pipe;
  if pd_dead d then _ ← send_sigpipe self; mret (PReturned 0 [])
  else read_turn self size.

(** A turn of [while (written < size)] in [write_pipe]. *)
Definition pipe_write_turn (self : pid) (data : list Z) (written : nat) : M pworld pcontrol :=
  if (written <? length data)%nat then
    written ← pipe_copy_in data written;
    _ ← wake_readers;
    _ ← pipe_alert_waiters;
    if (written <? length data)%nat then
      d ← get_pipe;
      _ ← put_pipe (with_queues (pd_readers d) (pd_writers d ++ [self]) d);
      mret (PAsleep (PInWrite data written))
    else mret (PReturned (Z.of_nat written) [])
  else mret (PReturned (Z.of_nat written) []).

Definition write_pipe (self : pid) (data : list Z) : M pworld pcontrol :=
  d ← get_pipe;
  if pd_dead d then _ ← send_sigpipe self; mret (PReturned 0 [])
  else pipe_write_turn self data 0.

(** The rest of a call after [sleep_on_unlocking] returned [interrupted]. *)
Definition pipe_resume (self : pid) (f : pframe) (interrupted : bool) : M pworld pcontrol :=
  match f with
  | PInRead size =>
      if interrupted then mret (PReturned (- ERESTARTSYS) []) else read_turn self size
  | PInWrite data written =>
      if interrupted then
        if (written =? 0)%nat then mret (PReturned (- ERESTARTSYS) []) else mret (PReturned (Z.of_nat written) [])
      else pipe_write_turn self data written
  end.

Definition open_pipe : M pworld unit := d ← get_pipe; put_pipe (with_refcount (u64 (pd_refcount d + 1)) d).
Definition close_pipe : M pworld unit := d ← get_pipe; put_pipe (with_refcount (u64 (pd_refcount d - 1)) d).

Definition pipe_check (d : pipe_device) : Z := if 0 <? pipe_unread d then 0 else 1.

Definition pipe_wait (process : pid) : M pworld Z :=
  d ← get_pipe;
  _ ← (if bool_decide (process ∈ pd_alert_waiters d) then mret tt
       else put_pipe (with_alerts (pd_alert_waiters d ++ [process]) d));
  _ ← modify (λ w, PWorld (pw_pipe w) (pw_alerted w) (pw_sigpipe w) (pw_node_waits w ++ [process]));
  mret 0.

(** Everybody is woken and alerted, then the device is freed. *)
Definition pipe_destroy : M pworld unit :=
  d ← get_pipe;
  _ ← put_pipe (Pipe_device (pd_ring d) (pd_refcount d) (pd_readers d) (pd_writers d) true (pd_alert_waiters d));
  _ ← pipe_alert_waiters;
  _ ← wake_writers;
  _ ← wake_readers;
  modify (λ w, PWorld None (pw_alerted w) (pw_sigpipe w) (pw_node_waits w)).

(** [malloc] does not clear the buffer: its contents are a parameter. *)
Definition make_pipe (size : Z) (garbage : list Z) : pipe_device :=
  Pipe_device (Ring garbage 0 0 size) 0 [] [] false [].

(** ** The system *)

Inductive pentry :=
| PCallRead (size : Z)
| PCallWrite (data : list Z)
| PWoken (f : pframe) (interrupted : bool).

Definition penter (self : pid) (e : pentry) : M pworld pcontrol :=
  match e with
  | PCallRead size => read_pipe self size
  | PCallWrite data => write_pipe self data
  | PWoken f interrupted => pipe_resume self f interrupted
  end.

Inductive pevent :=
| PRun (p : pid) (e : pentry) (c : pcontrol)
| PSignal (p : pid)
| POpen
| PClose
| PWait (p : pid).

Record psystem := PSystem {
  ps_world : pworld;
  ps_frames : gmap pid pframe;
  ps_interrupted : gset pid
}.

Definition psleeping (s : psystem) : list pid :=
  match pw_pipe (ps_world s) with Some d => pd_readers d ++ pd_writers d | None => [] end.

Definition psettle (p : pid) (c : pcontrol) (w : pworld) (s : psystem) : psystem :=
  PSystem w (match c with PReturned _ _ => delete p (ps_frames s) | PAsleep f => <[p := f]> (ps_frames s) end)
    (ps_interrupted s ∖ {[p]}).

Definition pmay_enter (s : psystem) (p : pid) (e : pentry) : Prop :=
  match e with
  | PCallRead _ | PCallWrite _ => ps_frames s !! p = None
  | PWoken f i => ps_frames s !! p = Some f ∧ (p ∉ psleeping s) ∧ i = bool_decide (p ∈ ps_interrupted s)
  end.

(** A signal takes a sleeper out of its queue ([make_process_ready]). *)
Definition pinterrupt (p : pid) (s : psystem) : psystem :=
  let w := ps_world s in
  PSystem (PWorld ((λ d, with_queues (filter (λ q, q ≠ p) (pd_readers d)) (filter (λ q, q ≠ p) (pd_writers d)) d) <$>
             pw_pipe w) (pw_alerted w) (pw_sigpipe w) (pw_node_waits w))
    (ps_frames s) ({[p]} ∪ ps_interrupted s).

Inductive pipe_step (s : psystem) : pevent → psystem → Prop :=
| pstep_run p e c w : pmay_enter s p e → penter p e (ps_world s) = Ret (c, w) →
    pipe_step s (PRun p e c) (psettle p c w s)
| pstep_signal p : p ∈ psleeping s → pipe_step s (PSignal p) (pinterrupt p s)
| pstep_open w : open_pipe (ps_world s) = Ret (tt, w) →
    pipe_step s POpen (PSystem w (ps_frames s) (ps_interrupted s))
| pstep_close w : close_pipe (ps_world s) = Ret (tt, w) →
    pipe_step s PClose (PSystem w (ps_frames s) (ps_interrupted s))
| pstep_wait p w v : pipe_wait p (ps_world s) = Ret (v, w) →
    pipe_step s (PWait p) (PSystem w (ps_frames s) (ps_interrupted s)).

Inductive pipe_run (s0 : psystem) : list pevent → psystem → Prop :=
| prun_nil : pipe_run s0 [] s0
| prun_snoc tr s e s' : pipe_run s0 tr s → pipe_step s e s' → pipe_run s0 (tr ++ [e]) s'.

Definition pipe_booted (size : Z) (garbage : list Z) : psystem :=
  PSystem (PWorld (Some (make_pipe size garbage)) [] [] []) ∅ ∅.

(** The write an entry belongs to. *)
Definition data_of (e : pentry) : option (list Z) :=
  match e with PCallWrite data | PWoken (PInWrite data _) _ => Some data | _ => None end.
Definition size_of (e : pentry) : Z :=
  match e with PCallRead n | PWoken (PInRead n) _ => n | _ => 0 end.
Definition was_interrupted (e : pentry) : bool := match e with PWoken _ i => i | _ => false end.

(** The messages written and read, one per completed call. *)
Definition sent_message (ev : pevent) : list (list Z) :=
  match ev with
  | PRun _ e (PReturned v _) =>
      match data_of e with Some data => if v <? 0 then [] else [take (Z.to_nat v) data] | None => [] end
  | _ => []
  end.
Definition got_message (ev : pevent) : list (list Z) :=
  match ev with
  | PRun _ e (PReturned v out) => match data_of e with None => if v <? 0 then [] else [out] | Some _ => [] end
  | _ => []
  end.
Definition sent_messages (tr : list pevent) : list (list Z) := tr ≫= sent_message.
Definition got_messages (tr : list pevent) : list (list Z) := tr ≫= got_message.

(** ** What a turn does *)

Definition set_device (d : pipe_device) (w : pworld) : pworld :=
  PWorld (Some d) (pw_alerted w) (pw_sigpipe w) (pw_node_waits w).

Lemma get_pipe_run w d : pw_pipe w = Some d → get_pipe w = Ret (d, w).
Proof. intros H. unfold get_pipe. by rewrite H. Qed.

Lemma put_pipe_run w d d' : pw_pipe w = Some d → put_pipe d' w = Ret (tt, set_device d' w).
Proof. intros H. unfold put_pipe. by rewrite H. Qed.

Lemma copy_out_run n w d : pw_pipe w = Some d → ring_ok (pd_ring d) →
  let taken := if n <=? pipe_unread d then Z.to_nat n else 0%nat in
  ∃ r, ring_ok r ∧ r_size r = r_size (pd_ring d) ∧ contents r = drop taken (contents (pd_ring d)) ∧
    pipe_copy_out n w = Ret (take taken (contents (pd_ring d)), set_device (with_ring r d) w).
Proof.
  intros Hw Hok. cbn zeta. unfold pipe_copy_out. rewrite (run_bind_Ret _ _ _ _ _ (get_pipe_run _ _ Hw)).
  destruct (n <=? pipe_unread d).
  - destruct (read_loop_run n (ring_fuel (pd_ring d)) [] (pd_ring d) Hok) as (r & Hr & Hok' & Hsz & Hc);
      [by apply ring_fuel_enough|cbn; lia|]. cbn [length app] in Hr, Hc. rewrite Nat.sub_0_r in Hr, Hc. rewrite Hr.
    exists r. split_and!; [done..|]. by rewrite (run_bind_Ret _ _ _ _ _ (put_pipe_run _ _ _ Hw)).
  - exists (pd_ring d). rewrite take_0, drop_0. split_and!; [done..|]. destruct w, d; cbn in *. by simplify_eq.
Qed.

Lemma read_turn_run p n w d : pw_pipe w = Some d → ring_ok (pd_ring d) →
  let taken := if n <=? pipe_unread d then Z.to_nat n else 0%nat in
  ∃ r, ring_ok r ∧ r_size r = r_size (pd_ring d) ∧ contents r = drop taken (contents (pd_ring d)) ∧
    read_turn p n w = Ret
      match take taken (contents (pd_ring d)) with
      | [] => (PAsleep (PInRead n), set_device (with_queues (pd_readers d ++ [p]) [] (with_ring r d)) w)
      | out => (PReturned (Z.of_nat (length out)) out, set_device (with_queues (pd_readers d) [] (with_ring r d)) w)
      end.
Proof.
  intros Hw Hok. cbn zeta. destruct (copy_out_run n w d Hw Hok) as (r & Hr & Hsz & Hc & Hrun).
  exists r. split_and!; [done..|]. unfold read_turn. rewrite (run_bind_Ret _ _ _ _ _ Hrun).
  set (out := take _ _). by destruct out.
Qed.

(** The device after a write: readers are awake, alerts have been sent. *)
Definition written_world (d : pipe_device) (ws : list pid) (w : pworld) : pworld :=
  PWorld (Some (with_alerts [] (with_queues [] ws d))) (pw_alerted w ++ pd_alert_waiters d) (pw_sigpipe w) (pw_node_waits w).

Lemma wake_alert_run {A} (k : M pworld A) w d : pw_pipe w = Some d →
  (wake_readers ≫= λ _, pipe_alert_waiters ≫= λ _, k) w = k (written_world d (pd_writers d) w).
Proof.
  intros Hw. destruct w as [dev al sg nw]. cbn in Hw. subst dev. reflexivity.
Qed.

Lemma pipe_write_turn_run p data w d : pw_pipe w = Some d → ring_ok (pd_ring d) → data ≠ [] →
  if Z.of_nat (length data) <? pipe_available d then
    ∃ r, ring_ok r ∧ r_size r = r_size (pd_ring d) ∧ contents r = contents (pd_ring d) ++ data ∧
      pipe_write_turn p data 0 w =
        Ret (PReturned (Z.of_nat (length data)) [], written_world (with_ring r d) (pd_writers d) w)
  else
    pipe_write_turn p data 0 w = Ret (PAsleep (PInWrite data 0), written_world d (pd_writers d ++ [p]) w).
Proof.
  intros Hw Hok Hne. assert (Hlen : (0 < length data)%nat) by (destruct data; [done|cbn; lia]).
  unfold pipe_write_turn, pipe_copy_in. rewrite (proj2 (Nat.ltb_lt _ _)) by done.
  destruct (Z.ltb_spec (Z.of_nat (length data)) (pipe_available d)) as [Hlt|Hge].
  - unfold pipe_available in Hlt. rewrite available_fill in Hlt by done.
    destruct (write_loop_run data (ring_fuel (pd_ring d)) 0 (pd_ring d) Hok) as (r & Hr & Hok' & Hsz & Hc);
      [by apply ring_fuel_enough|lia|]. unfold room in Hr, Hc. rewrite Nat.sub_0_r, Nat.min_r in Hr, Hc by lia.
    rewrite Nat.add_0_l in Hr. rewrite drop_0, take_ge in Hc by lia. exists r. split_and!; [done..|].
    rewrite bind_assoc. rewrite (run_bind_Ret _ _ _ _ _ (get_pipe_run _ _ Hw)).
    rewrite (proj2 (Z.ltb_lt _ _)) by (unfold pipe_available; rewrite available_fill by done; lia).
    rewrite Hr, bind_assoc, (run_bind_Ret _ _ _ _ _ (put_pipe_run _ _ _ Hw)), run_mret_bind.
    rewrite (wake_alert_run _ (set_device (with_ring r d) w) (with_ring r d) eq_refl), Nat.ltb_irrefl. done.
  - rewrite bind_assoc, (run_bind_Ret _ _ _ _ _ (get_pipe_run _ _ Hw)). rewrite (proj2 (Z.ltb_ge _ _)) by done.
    rewrite run_mret_bind, (wake_alert_run _ w d Hw), (proj2 (Nat.ltb_lt _ _)) by done. done.
Qed.

(** ** The invariant *)

Record pipe_ok (tr : list pevent) (size : Z) (d : pipe_device) (s : psystem) : Prop := {
  po_device : pw_pipe (ps_world s) = Some d;
  po_ring : ring_ok (pd_ring d);
  po_size : r_size (pd_ring d) = size;
  po_alive : pd_dead d = false;
  po_fifo : mjoin (got_messages tr) ++ contents (pd_ring d) = mjoin (sent_messages tr);
  po_nodup : NoDup (pd_readers d ++ pd_writers d);
  po_readers : ∀ p, p ∈ pd_readers d →
    ∃ n, ps_frames s !! p = Some (PInRead n) ∧ (0 < n → pipe_unread d < n);
  po_writers : ∀ p, p ∈ pd_writers d →
    ∃ data, ps_frames s !! p = Some (PInWrite data 0) ∧ pipe_available d ≤ Z.of_nat (length data);
  po_frames : ∀ p data n, ps_frames s !! p = Some (PInWrite data n) → n = 0%nat ∧ data ≠ []
}.

Lemma messages_snoc f (tr : list pevent) ev : (tr ++ [ev]) ≫= f = (tr ≫= f) ++ (f ev : list (list Z)).
Proof. rewrite bind_app. cbn. by rewrite app_nil_r. Qed.

Lemma pipe_fifo_snoc tr ev (old new : list Z) :
  mjoin (got_messages tr) ++ old = mjoin (sent_messages tr) →
  mjoin (got_message ev) ++ new = old ++ mjoin (sent_message ev) →
  mjoin (got_messages (tr ++ [ev])) ++ new = mjoin (sent_messages (tr ++ [ev])).
Proof.
  intros H1 H2. unfold got_messages, sent_messages in *. rewrite !messages_snoc, !join_app, <-H1, <-!(assoc_L (++)). by f_equal.
Qed.

Lemma pipe_awake tr size d s p e : pipe_ok tr size d s → pmay_enter s p e → (p ∉ pd_readers d) ∧ (p ∉ pd_writers d).
Proof.
  intros Hok He. assert (Hsl : psleeping s = pd_readers d ++ pd_writers d) by (unfold psleeping; by rewrite (po_device _ _ _ _ Hok)).
  split; intros Hin.
  all: destruct e as [n|data|f i]; cbn in He; [| |destruct He as (_ & Hn & _); rewrite Hsl in Hn; set_solver].
  all: first [destruct (po_readers _ _ _ _ Hok p Hin) as (? & ? & _)|destruct (po_writers _ _ _ _ Hok p Hin) as (? & ? & _)]; congruence.
Qed.

(** The obligations of one run of a process. *)
Lemma psettle_ok tr size d s p e c d' al sg nw :
  pipe_ok tr size d s → pmay_enter s p e → ring_ok (pd_ring d') → r_size (pd_ring d') = size → pd_dead d' = false →
  mjoin (got_message (PRun p e c)) ++ contents (pd_ring d') = contents (pd_ring d) ++ mjoin (sent_message (PRun p e c)) →
  NoDup (pd_readers d' ++ pd_writers d') →
  (∀ q, q ∈ pd_readers d' → q ∈ pd_readers d ∧ pipe_unread d' ≤ pipe_unread d ∨
     q = p ∧ ∃ n, c = PAsleep (PInRead n) ∧ (0 < n → pipe_unread d' < n)) →
  (∀ q, q ∈ pd_writers d' → q ∈ pd_writers d ∧ pipe_available d' ≤ pipe_available d ∨
     q = p ∧ ∃ data, c = PAsleep (PInWrite data 0) ∧ pipe_available d' ≤ Z.of_nat (length data)) →
  (∀ data n, c = PAsleep (PInWrite data n) → n = 0%nat ∧ data ≠ []) →
  pipe_ok (tr ++ [PRun p e c]) size d' (psettle p c (PWorld (Some d') al sg nw) s).
Proof.
  intros Hok He Hr Hsz Hdead Hc Hnd Hrd Hwr Hfr. destruct (pipe_awake _ _ _ _ _ _ Hok He) as [Hpr Hpw].
  assert (Hother : ∀ q, p ≠ q → ps_frames (psettle p c (PWorld (Some d') al sg nw) s) !! q = ps_frames s !! q).
  { intros q Hq. destruct c; cbn; [by apply lookup_delete_ne|by apply lookup_insert_ne]. }
  split; try done.
  - eapply pipe_fifo_snoc; [apply (po_fifo _ _ _ _ Hok)|done].
  - intros q Hq. destruct (Hrd q Hq) as [[Hq' Hle]|(-> & n & -> & Hn)].
    + destruct (po_readers _ _ _ _ Hok q Hq') as (n & Hn & Hlt). exists n. rewrite Hother by (intros ->; done).
      split; [done|]. intros. specialize (Hlt ltac:(done)). lia.
    + exists n. cbn. by rewrite lookup_insert_eq.
  - intros q Hq. destruct (Hwr q Hq) as [[Hq' Hle]|(-> & data & -> & Hn)].
    + destruct (po_writers _ _ _ _ Hok q Hq') as (data & Hn & Hlt). exists data. rewrite Hother by (intros ->; done).
      split; [done|lia].
    + exists data. cbn. by rewrite lookup_insert_eq.
  - intros q data n Hq. destruct (decide (p = q)) as [<-|Hne].
    + destruct c; cbn in Hq; [by rewrite lookup_delete_eq in Hq|rewrite lookup_insert_eq in Hq; simplify_eq; auto].
    + rewrite Hother in Hq by done. by apply (po_frames _ _ _ _ Hok) in Hq.
Qed.

Lemma unread_contents r : ring_ok r → unread r = Z.of_nat (length (contents r)).
Proof. intros. by rewrite unread_fill, contents_length. Qed.

Lemma available_contents r : ring_ok r → available r = r_size r - 1 - Z.of_nat (length (contents r)).
Proof. intros. by rewrite available_fill, contents_length. Qed.

Lemma pipe_ok_read tr size d s p e n c w :
  pipe_ok tr size d s → pmay_enter s p e → data_of e = None → read_turn p n (ps_world s) = Ret (c, w) →
  ∃ d', pipe_ok (tr ++ [PRun p e c]) size d' (psettle p c w s) ∧
    ∀ v out, c = PReturned v out → v = n ∧ v = Z.of_nat (length out).
Proof.
  intros Hok He Hdata Hrun. pose proof (pipe_awake _ _ _ _ _ _ Hok He) as [Hpr Hpw].
  pose proof (po_ring _ _ _ _ Hok) as Hr. pose proof (po_nodup _ _ _ _ Hok) as Hnd. apply NoDup_app in Hnd as (Hnd & _).
  destruct (read_turn_run p n (ps_world s) d (po_device _ _ _ _ Hok) Hr) as (r & Hr' & Hsz & Hc & Hres).
  rewrite Hres in Hrun. clear Hres. unfold pipe_unread in *. rewrite unread_contents in * by done.
  set (cs := contents (pd_ring d)) in *.
  destruct (decide (0 < n ≤ Z.of_nat (length cs))) as [[Hpos Hle]|Hno].
  - rewrite (proj2 (Z.leb_le _ _)) in * by done.
    assert (Hlen : length (take (Z.to_nat n) cs) = Z.to_nat n) by (rewrite length_take; lia).
    pose proof (take_drop (Z.to_nat n) cs) as Htd. rewrite <-Hc in Htd.
    destruct (take (Z.to_nat n) cs) as [|b out] eqn:Htk; [cbn in Hlen; lia|].
    injection Hrun as <- <-. exists (with_queues (pd_readers d) [] (with_ring r d)). split.
    + apply psettle_ok with (d := d); try done; cbn [pd_ring pd_readers pd_writers with_queues with_ring].
      * by rewrite Hsz, (po_size _ _ _ _ Hok).
      * by apply (po_alive _ _ _ _ Hok).
      * cbn [got_message sent_message]. rewrite Hdata, (proj2 (Z.ltb_ge _ _)) by lia. cbn [mjoin list_join].
        rewrite !app_nil_r. exact Htd.
      * by rewrite app_nil_r.
      * intros q Hq. left. split; [done|]. unfold pipe_unread; cbn. rewrite !unread_contents by done.
        rewrite Hc, length_drop. fold cs. lia.
      * intros q Hq. by apply elem_of_nil in Hq.
    + intros v out' [= <- <-]. cbn [length] in *. lia.
  - assert (H0 : (if n <=? Z.of_nat (length cs) then Z.to_nat n else 0%nat) = 0%nat)
      by (destruct (Z.leb_spec n (Z.of_nat (length cs))); lia).
    rewrite H0 in *. rewrite take_0 in Hrun. rewrite drop_0 in Hc. injection Hrun as <- <-.
    exists (with_queues (pd_readers d ++ [p]) [] (with_ring r d)). split; [|done].
    apply psettle_ok with (d := d); try done; cbn [pd_ring pd_readers pd_writers with_queues with_ring].
    + by rewrite Hsz, (po_size _ _ _ _ Hok).
    + by apply (po_alive _ _ _ _ Hok).
    + cbn. by rewrite app_nil_r.
    + rewrite app_nil_r. by apply NoDup_snoc_new.
    + intros q [Hq|Hq]%elem_of_app; [left; split; [done|]|right].
      * unfold pipe_unread; cbn. rewrite !unread_contents by done. by rewrite Hc.
      * apply list_elem_of_singleton in Hq as ->. split; [done|]. exists n. split; [done|]. intros Hn.
        unfold pipe_unread; cbn. rewrite unread_contents, Hc by done. fold cs. lia.
    + intros q Hq. by apply elem_of_nil in Hq.
Qed.

Lemma pipe_ok_write tr size d s p e data c w :
  pipe_ok tr size d s → pmay_enter s p e → data_of e = Some data → data ≠ [] →
  pipe_write_turn p data 0 (ps_world s) = Ret (c, w) →
  ∃ d', pipe_ok (tr ++ [PRun p e c]) size d' (psettle p c w s) ∧
    ∀ v out, c = PReturned v out → v = Z.of_nat (length data).
Proof.
  intros Hok He Hdata Hne Hrun. pose proof (pipe_awake _ _ _ _ _ _ Hok He) as [Hpr Hpw].
  pose proof (po_ring _ _ _ _ Hok) as Hr. pose proof (po_nodup _ _ _ _ Hok) as Hnd. apply NoDup_app in Hnd as (_ & _ & Hnd).
  pose proof (pipe_write_turn_run p data (ps_world s) d (po_device _ _ _ _ Hok) Hr Hne) as Hres.
  destruct (Z.ltb_spec (Z.of_nat (length data)) (pipe_available d)).
  - destruct Hres as (r & Hr' & Hsz & Hc & Hres). rewrite Hres in Hrun. injection Hrun as <- <-.
    exists (with_alerts [] (with_queues [] (pd_writers d) (with_ring r d))). split; [|by intros v out [= <- _]].
    apply psettle_ok with (d := d); try done; cbn [pd_ring pd_readers pd_writers with_queues with_ring with_alerts].
    + by rewrite Hsz, (po_size _ _ _ _ Hok).
    + by apply (po_alive _ _ _ _ Hok).
    + cbn [got_message sent_message]. rewrite Hdata, (proj2 (Z.ltb_ge _ _)), Nat2Z.id, take_ge by lia.
      cbn [mjoin list_join app]. by rewrite app_nil_r.
    + intros q Hq. by apply elem_of_nil in Hq.
    + intros q Hq. left. split; [done|]. unfold pipe_available; cbn. rewrite !available_contents by done.
      rewrite Hsz, Hc, length_app. lia.
  - rewrite Hres in Hrun. injection Hrun as <- <-. exists (with_alerts [] (with_queues [] (pd_writers d ++ [p]) d)).
    split; [|done]. apply psettle_ok with (d := d); try done; cbn [pd_ring pd_readers pd_writers with_queues with_alerts].
    + by apply (po_size _ _ _ _ Hok).
    + by apply (po_alive _ _ _ _ Hok).
    + cbn. by rewrite app_nil_r.
    + by apply NoDup_snoc_new.
    + intros q Hq. by apply elem_of_nil in Hq.
    + intros q [Hq|Hq]%elem_of_app; [by left|right]. apply list_elem_of_singleton in Hq as ->. split; [done|]. by exists data.
    + by intros data' n [= <- <-].
Qed.

(** A call that returns without touching the device. *)
Lemma pipe_ok_stay tr size d s p e v :
  pipe_ok tr size d s → pmay_enter s p e → mjoin (got_message (PRun p e (PReturned v []))) = [] →
  mjoin (sent_message (PRun p e (PReturned v []))) = [] →
  pipe_ok (tr ++ [PRun p e (PReturned v [])]) size d (psettle p (PReturned v []) (ps_world s) s).
Proof.
  intros Hok He Hg Hs. destruct (ps_world s) as [dev al sg nw] eqn:Ew.
  pose proof (po_device _ _ _ _ Hok) as Hd. rewrite Ew in Hd. cbn in Hd. subst dev.
  apply psettle_ok with (d := d); try done; try (by apply Hok).
  - by rewrite Hg, Hs, app_nil_r.
  - intros q Hq. left. by split.
  - intros q Hq. left. by split.
Qed.

(** How a call ended: all or nothing. *)
Definition pcall_result (e : pentry) (v : Z) (out : list Z) : Prop :=
  (v = - ERESTARTSYS ∧ out = [] ∧ was_interrupted e = true) ∨
  match data_of e with
  | Some data => v = Z.of_nat (length data)
  | None => v = size_of e ∧ v = Z.of_nat (length out)
  end.

Lemma pipe_ok_enter tr size d s p e c w :
  pipe_ok tr size d s → pmay_enter s p e → penter p e (ps_world s) = Ret (c, w) →
  (∃ d', pipe_ok (tr ++ [PRun p e c]) size d' (psettle p c w s)) ∧
  (∀ v out, c = PReturned v out → pcall_result e v out).
Proof.
  intros Hok He Hrun. pose proof (get_pipe_run _ _ (po_device _ _ _ _ Hok)) as Hget.
  pose proof (po_alive _ _ _ _ Hok) as Hdead. unfold pcall_result.
  destruct e as [n|data|[n|data k] i]; cbn [penter pipe_resume] in Hrun.
  - unfold read_pipe in Hrun. rewrite (run_bind_Ret _ _ _ _ _ Hget), Hdead in Hrun.
    destruct (pipe_ok_read _ _ _ _ _ _ _ _ _ Hok He eq_refl Hrun) as (d' & Hd' & Hv). split; [eauto|].
    intros v out E. right. by apply Hv.
  - unfold write_pipe in Hrun. rewrite (run_bind_Ret _ _ _ _ _ Hget), Hdead in Hrun.
    destruct (decide (data = [])) as [->|Hne].
    + injection Hrun as <- <-. split; [|intros v out [= <- _]; by right]. exists d. by apply pipe_ok_stay.
    + destruct (pipe_ok_write _ _ _ _ _ _ _ _ _ Hok He eq_refl Hne Hrun) as (d' & Hd' & Hv). split; [eauto|].
      intros v out E. right. by eapply Hv.
  - destruct i.
    + injection Hrun as <- <-. split; [exists d; by apply pipe_ok_stay|]. intros v out [= <- <-]. by left.
    + destruct (pipe_ok_read _ _ _ _ _ _ _ _ _ Hok He eq_refl Hrun) as (d' & Hd' & Hv). split; [eauto|].
      intros v out E. right. by apply Hv.
  - pose proof He as (Hf & _). destruct (po_frames _ _ _ _ Hok _ _ _ Hf) as [-> Hne]. destruct i.
    + injection Hrun as <- <-. split; [exists d; by apply pipe_ok_stay|]. intros v out [= <- <-]. by left.
    + destruct (pipe_ok_write _ _ _ _ _ _ _ _ _ Hok He eq_refl Hne Hrun) as (d' & Hd' & Hv). split; [eauto|].
      intros v out E. right. by eapply Hv.
Qed.

(** Steps that move no bytes. *)
Lemma pipe_ok_other tr size d s ev d' al sg nw it :
  pipe_ok tr size d s → got_message ev = [] → sent_message ev = [] → pd_ring d' = pd_ring d → pd_dead d' = pd_dead d →
  NoDup (pd_readers d' ++ pd_writers d') →
  (∀ p, p ∈ pd_readers d' → p ∈ pd_readers d) → (∀ p, p ∈ pd_writers d' → p ∈ pd_writers d) →
  pipe_ok (tr ++ [ev]) size d' (PSystem (PWorld (Some d') al sg nw) (ps_frames s) it).
Proof.
  intros Hok Hg Hs Hr Hd Hnd Hrd Hwr. split; cbn; try done; unfold pipe_unread, pipe_available; rewrite ?Hr, ?Hd; try (by apply Hok).
  - eapply pipe_fifo_snoc; [apply (po_fifo _ _ _ _ Hok)|]. by rewrite Hg, Hs, app_nil_r.
  - intros p Hp. by apply (po_readers _ _ _ _ Hok), Hrd.
  - intros p Hp. by apply (po_writers _ _ _ _ Hok), Hwr.
Qed.

Lemma pipe_ok_step tr size d s ev s' : pipe_ok tr size d s → pipe_step s ev s' → ∃ d', pipe_ok (tr ++ [ev]) size d' s'.
Proof.
  intros Hok Hstep. pose proof (po_device _ _ _ _ Hok) as Hd. pose proof (po_nodup _ _ _ _ Hok) as Hnd.
  destruct (ps_world s) as [dev al sg nw] eqn:Ew. cbn in Hd. subst dev.
  destruct Hstep as [p e c w He Hrun|p Hp|w Hrun|w Hrun|p w v Hrun]; [by eapply pipe_ok_enter|..].
  - eexists. unfold pinterrupt. rewrite Ew. cbn. eapply pipe_ok_other; try done; cbn.
    + rewrite <-filter_app. by apply NoDup_filter.
    + by intros q [_ ?]%list_elem_of_filter.
    + by intros q [_ ?]%list_elem_of_filter.
  - rewrite Ew in Hrun. injection Hrun as <-. eexists. by eapply pipe_ok_other.
  - rewrite Ew in Hrun. injection Hrun as <-. eexists. by eapply pipe_ok_other.
  - rewrite Ew in Hrun. unfold pipe_wait in Hrun. rewrite (run_bind_Ret _ _ _ _ _ (get_pipe_run (PWorld (Some d) al sg nw) d eq_refl)) in Hrun.
    destruct (bool_decide _); injection Hrun as _ <-; eexists; by eapply pipe_ok_other.
Qed.

Lemma pipe_booted_ok size garbage : Z.of_nat (length garbage) = size → 0 < size < 2 ^ 64 →
  pipe_ok [] size (make_pipe size garbage) (pipe_booted size garbage).
Proof.
  intros Hl Hs. split; cbn; try done.
  - unfold ring_ok; cbn. lia.
  - by constructor.
  - by intros p Hp%elem_of_nil.
  - by intros p Hp%elem_of_nil.
Qed.

Lemma pipe_run_ok size garbage tr s : Z.of_nat (length garbage) = size → 0 < size < 2 ^ 64 →
  pipe_run (pipe_booted size garbage) tr s → ∃ d, pipe_ok tr size d s.
Proof.
  intros Hl Hs. induction 1 as [|tr s e s' _ [d IH] Hstep]; [eexists; by apply pipe_booted_ok|by eapply pipe_ok_step].
Qed.

(** Messages of one length: equal concatenations have equal messages. *)
Lemma same_length_prefix (k : nat) : (0 < k)%nat → ∀ (xs ys : list (list Z)) rest,
  Forall (λ m, length m = k) xs → Forall (λ m, length m = k) ys → mjoin xs ++ rest = mjoin ys → xs `prefix_of` ys.
Proof.
  intros Hk. induction xs as [|x xs IH]; intros ys rest Hx Hy E; [by apply prefix_nil|].
  apply Forall_cons in Hx as [Hx Hxs]. destruct ys as [|y ys].
  { exfalso. apply (f_equal length) in E. cbn in E. rewrite !length_app in E. lia. }
  apply Forall_cons in Hy as [Hy Hys]. cbn [mjoin list_join] in E. rewrite <-(assoc_L (++)) in E.
  apply app_inj_1 in E as [-> E]; [|lia]. by apply prefix_cons, (IH ys rest).
Qed.

(** Every call uses messages of [k] bytes. *)
Definition uses_length (k : nat) (ev : pevent) : Prop :=
  match ev with
  | PRun _ e _ => match data_of e with Some data => length data = k | None => size_of e = Z.of_nat k end
  | _ => True
  end.

(** In a run every completed call is all or nothing. *)
Lemma run_results size garbage tr s : Z.of_nat (length garbage) = size → 0 < size < 2 ^ 64 →
  pipe_run (pipe_booted size garbage) tr s →
  ∀ p e v out, PRun p e (PReturned v out) ∈ tr → pcall_result e v out.
Proof.
  intros Hl Hs. induction 1 as [|tr s e s' Hrun IH Hstep]; intros p ent v out Hin; [by apply elem_of_nil in Hin|].
  apply elem_of_app in Hin as [Hin|Hin]; [by eapply IH|]. apply list_elem_of_singleton in Hin as <-.
  destruct (pipe_run_ok _ _ _ _ Hl Hs Hrun) as [d Hok]. inversion Hstep as [? ? ? w Hm He| | | |]; subst.
  destruct (pipe_ok_enter _ _ _ _ _ _ _ _ Hok Hm He) as [_ Hres]. by apply Hres.
Qed.

Lemma messages_length size garbage tr s (k : nat) : Z.of_nat (length garbage) = size → 0 < size < 2 ^ 64 →
  pipe_run (pipe_booted size garbage) tr s → Forall (uses_length k) tr →
  Forall (λ m, length m = k) (got_messages tr) ∧ Forall (λ m, length m = k) (sent_messages tr).
Proof.
  intros Hl Hs Hrun Hk. pose proof (run_results _ _ _ _ Hl Hs Hrun) as Hres. rewrite Forall_forall in Hk.
  split; apply Forall_forall; intros m Hm; apply list_elem_of_bind in Hm as (ev & Hm & Hev); specialize (Hk ev Hev).
  all: destruct ev as [p e [v out|f]| | | |]; cbn in Hm; try (by apply elem_of_nil in Hm); specialize (Hres p e v out Hev);
    unfold pcall_result in Hres; cbn in Hk; destruct (data_of e) as [data|]; try (by apply elem_of_nil in Hm);
    destruct (Z.ltb_spec v 0); try (by apply elem_of_nil in Hm); apply list_elem_of_singleton in Hm as ->;
    (destruct Hres as [(-> & _)|Hres]; [cbn in *; unfold ERESTARTSYS in *; lia|]).
  - destruct Hres. lia.
  - rewrite length_take. lia.
Qed.

(** C9: device pipes carry whole messages.  For any number of callers in any
    order, a write that returns has put all its bytes into the pipe in one
    piece and a read that returns has taken exactly as many bytes as it asked
    for, unless a signal ended the call before it did anything; nothing is
    lost or reordered.  So if all calls use messages of one length, each read
    returns a message as it was written, in order.  A process sleeps in a read
    only while there is less than it asks for, and in a write only while its
    message does not fit. *)
Theorem pipe_messages size garbage tr s :
  Z.of_nat (length garbage) = size → 0 < size < 2 ^ 64 → pipe_run (pipe_booted size garbage) tr s →
  ∃ d, pw_pipe (ps_world s) = Some d ∧
    mjoin (got_messages tr) ++ contents (pd_ring d) = mjoin (sent_messages tr) ∧
    (∀ p e v out, PRun p e (PReturned v out) ∈ tr → pcall_result e v out) ∧
    (∀ k, (0 < k)%nat → Forall (uses_length k) tr → got_messages tr `prefix_of` sent_messages tr) ∧
    (∀ p, p ∈ pd_readers d → ∃ n, ps_frames s !! p = Some (PInRead n) ∧ (0 < n → pipe_unread d < n)) ∧
    (∀ p, p ∈ pd_writers d → ∃ data, ps_frames s !! p = Some (PInWrite data 0) ∧
       pipe_available d ≤ Z.of_nat (length data)).
Proof.
  intros Hl Hs Hrun. destruct (pipe_run_ok _ _ _ _ Hl Hs Hrun) as [d Hok]. exists d. split_and!; try (by apply Hok).
  - by eapply run_results.
  - intros k Hk Hu. destruct (messages_length _ _ _ _ k Hl Hs Hrun Hu) as [Hg Hw].
    eapply (same_length_prefix k Hk); [done|done|apply (po_fifo _ _ _ _ Hok)].
Qed.

(** C36: two ways a caller of a pipe is left behind.  A write of as many bytes
    as the empty pipe has room for, or more, sleeps and no read can ever make
    room for it; and a process asleep in a call when the pipe is destroyed is
    woken to run on in freed memory. *)
Theorem pipe_defects p data d w :
  pw_pipe w = Some d → ring_ok (pd_ring d) → pd_dead d = false →
  (r_size (pd_ring d) - 1 ≤ Z.of_nat (length data) → data ≠ [] →
     ∃ w', write_pipe p data w = Ret (PAsleep (PInWrite data 0), w') ∧
       ∀ w2 d2, pw_pipe w2 = Some d2 → ring_ok (pd_ring d2) → r_size (pd_ring d2) = r_size (pd_ring d) →
         ∃ w3, pipe_resume p (PInWrite data 0) false w2 = Ret (PAsleep (PInWrite data 0), w3)) ∧
  (∃ w', pipe_destroy w = Ret (tt, w') ∧
     ∀ n, pipe_resume p (PInRead n) false w' = Fault ∧ (data ≠ [] → pipe_resume p (PInWrite data 0) false w' = Fault)).
Proof.
  intros Hw Hok Hdead. split.
  - intros Hlen Hne.
    assert (Hstuck : ∀ w2 d2, pw_pipe w2 = Some d2 → ring_ok (pd_ring d2) → r_size (pd_ring d2) = r_size (pd_ring d) →
      ∃ w3, pipe_write_turn p data 0 w2 = Ret (PAsleep (PInWrite data 0), w3)).
    { intros w2 d2 Hw2 Hok2 Hsz. pose proof (pipe_write_turn_run p data w2 d2 Hw2 Hok2 Hne) as Hr.
      unfold pipe_available in Hr. rewrite available_contents, Hsz in Hr by done.
      rewrite (proj2 (Z.ltb_ge _ _)) in Hr by lia. eauto. }
    destruct (Hstuck w d Hw Hok eq_refl) as [w' Hr]. exists w'. split.
    + unfold write_pipe. by rewrite (run_bind_Ret _ _ _ _ _ (get_pipe_run _ _ Hw)), Hdead.
    + exact Hstuck.
  - destruct w as [dev al sg nw]. cbn in Hw. subst dev. eexists. split; [reflexivity|]. intros n. split; [done|].
    intros Hne. cbn [pipe_resume]. unfold pipe_write_turn. by destruct data.
Qed.

(** ** Witnesses: two messages through a pipe of eight bytes *)

Definition demo_pipe_run_state (s : psystem) (p : pid) (e : pentry) : psystem :=
  match penter p e (ps_world s) with
  | Ret (c, w) => psettle p c w s
  | _ => s
  end.
Definition demo_pipe0 : psystem := pipe_booted 8 (replicate 8 0).
Definition demo_pipe1 : psystem := demo_pipe_run_state demo_pipe0 1 (PCallWrite [1; 2; 3]).
Definition demo_pipe2 : psystem := demo_pipe_run_state demo_pipe1 2 (PCallRead 3).
Definition demo_pipe_events : list pevent :=
  [PRun 1 (PCallWrite [1; 2; 3]) (PReturned 3 []); PRun 2 (PCallRead 3) (PReturned 3 [1; 2; 3])].

Lemma demo_pipe_run : pipe_run demo_pipe0 demo_pipe_events demo_pipe2.
Proof.
  apply (prun_snoc _ [PRun 1 (PCallWrite [1; 2; 3]) (PReturned 3 [])] demo_pipe1).
  - apply (prun_snoc _ [] demo_pipe0); [constructor|].
    apply (pstep_run _ 1 (PCallWrite [1; 2; 3]) (PReturned 3 []) (ps_world demo_pipe1)); reflexivity.
  - apply (pstep_run _ 2 (PCallRead 3) (PReturned 3 [1; 2; 3]) (ps_world demo_pipe2)); reflexivity.
Qed.

Lemma pipe_messages_witness : got_messages demo_pipe_events `prefix_of` sent_messages demo_pipe_events.
Proof.
  destruct (pipe_messages 8 (replicate 8 0) demo_pipe_events demo_pipe2 eq_refl) as (d & _ & _ & _ & Hpre & _);
    [lia|exact demo_pipe_run|]. apply (Hpre 3%nat); [lia|by repeat constructor].
Defined.

Lemma pipe_defects_witness :
  ∃ w', write_pipe 1 (replicate 7 0) (ps_world demo_pipe0) = Ret (PAsleep (PInWrite (replicate 7 0) 0), w').
Proof.
  destruct (pipe_defects 1 (replicate 7 0) (make_pipe 8 (replicate 8 0)) (ps_world demo_pipe0)) as [Hstuck _];
    [reflexivity|unfold ring_ok; cbn; lia|reflexivity|].
  destruct Hstuck as (w' & Hr & _); [cbn; lia|done|]. exists w'. exact Hr.
Defined.
