(* ===== verification/UnixPipe.v ===== *)
(** * Pipes between programs (kernel/vfs/unixpipe.c)

    A pipe is a ring buffer with two ends.  The commands below are those of
    [RingBuffer] under the tests of the two [closed] flags; a pipe whose ends
    are both closed has been destroyed, and its buffer is [None]. *)

From S2P Require Import Prelude RingBuffer.

Definition UNIX_PIPE_BUFFER : Z := 65536.
Definition EPIPE : Z := 32.

(** [struct unix_pipe], and the processes that were sent [SIGPIPE]. *)
Record unix_pipe := Unix_pipe {
  up_read_closed : bool;
  up_write_closed : bool;
  up_buffer : option world;
  up_sigpipe : list pid
}.

Definition on_buffer {A} (m : M world A) : M unix_pipe A := λ u,
  match up_buffer u with
  | None => Fault
  | Some w =>
      match m w with
      | Ret (a, w') => Ret (a, Unix_pipe (up_read_closed u) (up_write_closed u) (Some w') (up_sigpipe u))
      | Fault => Fault
      | Spin => Spin
      end
  end.

Definition buffer_unread : M unix_pipe Z := on_buffer (gets (λ w, ring_buffer_unread (w_rb w))).

Definition close_complete : M unix_pipe unit :=
  _ ← on_buffer ring_buffer_destroy;
  modify (λ u, Unix_pipe (up_read_closed u) (up_write_closed u) None (up_sigpipe u)).

Definition read_unixpipe (self : pid) (size : Z) : M unix_pipe control :=
  u ← get;
  n ← buffer_unread;
  if up_write_closed u && (n =? 0) then mret (Returned 0 [])
  else on_buffer (ring_buffer_read self size).

Definition write_unixpipe (self : pid) (data : list Z) : M unix_pipe control :=
  u ← get;
  if up_read_closed u then
    _ ← modify (λ u, Unix_pipe (up_read_closed u) (up_write_closed u) (up_buffer u) (up_sigpipe u ++ [self]));
    mret (Returned (- EPIPE) [])
  else on_buffer (ring_buffer_write self data).

Definition close_read_pipe : M unix_pipe unit :=
  _ ← modify (λ u, Unix_pipe true (up_write_closed u) (up_buffer u) (up_sigpipe u));
  u ← get;
  if negb (up_write_closed u) then on_buffer ring_buffer_interrupt else close_complete.

Definition close_write_pipe : M unix_pipe unit :=
  _ ← modify (λ u, Unix_pipe (up_read_closed u) true (up_buffer u) (up_sigpipe u));
  u ← get;
  if negb (up_read_closed u) then
    _ ← on_buffer ring_buffer_interrupt;
    n ← buffer_unread;
    if n =? 0 then on_buffer ring_buffer_alert_waiters else mret tt
  else close_complete.

Definition check_pipe : M unix_pipe Z :=
  n ← buffer_unread;
  u ← get;
  mret (if 0 <? n then 0 else if up_write_closed u then 0 else 1).

Definition wait_pipe (process : pid) : M unix_pipe Z := _ ← on_buffer (ring_buffer_select_wait process); mret 0.

(** The size may be set on the kernel command line. *)
Definition make_unix_pipe (pipesize : option Z) (garbage : list Z) : unix_pipe :=
  Unix_pipe false false (Some (World (ring_buffer_create (default UNIX_PIPE_BUFFER pipesize) garbage) [] [])) [].

(** ** The end of a stream *)

(** A reader that reads until it gets 0 and collects what it got. *)
Fixpoint drain (fuel : nat) (self : pid) (size : Z) (acc : list Z) : M unix_pipe (option (list Z)) :=
  match fuel with
  | O => λ _, Spin
  | S fuel =>
      c ← read_unixpipe self size;
      match c with
      | Returned v out => if v =? 0 then mret (Some acc) else drain fuel self size (acc ++ out)
      | Asleep _ => mret None
      end
  end.

(** The pipe in a state with a working buffer. *)
Definition pipe_with (u : unix_pipe) (w : world) : Prop := up_buffer u = Some w ∧ ring_ok (w_ring w).

Lemma on_buffer_run {A} (m : M world A) u w a w' : up_buffer u = Some w → m w = Ret (a, w') →
  on_buffer m u = Ret (a, Unix_pipe (up_read_closed u) (up_write_closed u) (Some w') (up_sigpipe u)).
Proof. intros Hu Hm. unfold on_buffer. by rewrite Hu, Hm. Qed.

Lemma buffer_unread_run u w : pipe_with u w → buffer_unread u = Ret (Z.of_nat (length (w_contents w)), u).
Proof.
  intros [Hu Hok]. unfold buffer_unread. rewrite (on_buffer_run _ _ _ _ _ Hu eq_refl). unfold ring_buffer_unread.
  fold (w_ring w). rewrite unread_fill, <-contents_length by done. destruct u; cbn in *. by subst.
Qed.

Lemma stopped_read_run self n u w : pipe_with u w → up_write_closed u = true → rb_internal_stop (w_rb w) = true → 0 < n →
  ∃ u' w', read_unixpipe self n u =
      Ret (Returned (Z.of_nat (length (take (Z.to_nat n) (w_contents w)))) (take (Z.to_nat n) (w_contents w)), u') ∧
    pipe_with u' w' ∧ up_write_closed u' = true ∧ rb_internal_stop (w_rb w') = true ∧
    w_contents w' = drop (Z.to_nat n) (w_contents w).
Proof.
  intros Hu Hc Hst Hn. unfold read_unixpipe. rewrite (run_bind_Ret get _ _ _ _ eq_refl).
  rewrite (run_bind_Ret _ _ _ _ _ (buffer_unread_run _ _ Hu)), Hc. cbn [andb]. destruct Hu as [Hu Hok].
  destruct (w_contents w) as [|b cs] eqn:Ec.
  - cbn. exists u, w. rewrite take_nil, drop_nil. by split_and!.
  - rewrite (proj2 (Z.eqb_neq _ _)) by (cbn; lia). destruct (read_run self n w Hok) as (r & Hr & _ & Hcr & Hrun). rewrite Ec in *.
    destruct (take (Z.to_nat n) (b :: cs)) as [|x out] eqn:Et.
    { apply (f_equal length) in Et. rewrite length_take in Et. cbn in Et. lia. }
    rewrite (on_buffer_run _ _ _ _ _ Hu Hrun). do 2 eexists. split; [done|]. split_and!; [split; [done|exact Hr]|done|done|exact Hcr].
Qed.

Lemma drain_run self n : 0 < n → ∀ fuel u w acc, pipe_with u w → up_write_closed u = true →
  rb_internal_stop (w_rb w) = true → (length (w_contents w) < fuel)%nat →
  ∃ u', drain fuel self n acc u = Ret (Some (acc ++ w_contents w), u').
Proof.
  intros Hn. induction fuel as [|fuel IH]; intros u w acc Hu Hc Hst Hf; [lia|]. cbn [drain].
  destruct (stopped_read_run self n u w Hu Hc Hst Hn) as (u' & w' & Hrun & Hu' & Hc' & Hst' & Hcs).
  rewrite (run_bind_Ret _ _ _ _ _ Hrun). pose proof (take_drop (Z.to_nat n) (w_contents w)) as Htd. rewrite <-Hcs in Htd.
  destruct (Z.eqb_spec (Z.of_nat (length (take (Z.to_nat n) (w_contents w)))) 0) as [E|E].
  - exists u'. assert (Hnil : w_contents w = []).
    { rewrite length_take in E. apply nil_length_inv. lia. } by rewrite Hnil, app_nil_r.
  - destruct (IH u' w' (acc ++ take (Z.to_nat n) (w_contents w)) Hu' Hc' Hst') as (u2 & ->).
    { rewrite Hcs, length_drop. rewrite length_take in E. lia. }
    exists u2. by rewrite <-(assoc_L (++)), Htd.
Qed.


(** ** Witness: three bytes left when the writer closes *)

Definition demo_unixpipe_world : world :=
  World (RingBuffer (Ring [7; 8; 9; 0; 0] 3 0 5) [2%positive] [] false None false false) [] [].

