(* ===== verification/Signal.v ===== *)
(** * Signals (kernel/sys/signal.c, with the signal calls of
      kernel/sys/process.c and kernel/sys/syscall.c)

    Sending, queueing, blocking, awaiting and delivering signals, and the entry
    to and return from a user handler (kernel/arch/x86_64/user.c).  [kernel] is
    the process table with the current process; the fields of [process_t] the
    code looks at are those of [proc], and the bits of its [flags] word are
    separate booleans.  The table of actions is shared by the threads of a
    group, as [clone] makes it, so it is stored under the group's id.  Calls
    that wake processes are events of a log; the tracer and a restarted system
    call, which run arbitrary kernel code, are functions of an arbitrary
    environment [SigEnv] from kernel to kernel.

    A process that stops, or that waits for a signal, gives up the processor
    inside the code: the command ends with a result that says so, and what
    follows is the command that runs when the process is scheduled again. *)

From S2P Require Import Prelude.

(** ** Constants *)

Definition NUMSIGNALS : Z := 38.
Definition SIGKILL : Z := 9.
Definition SIGILL : Z := 4.
Definition SIGTRAP : Z := 5.
Definition SIGCHLD : Z := 18.
Definition SIGSTOP : Z := 23.
Definition SIGCONT : Z := 25.

Definition SA_NOCLDSTOP : Z := 1.
Definition SA_SIGINFO : Z := 2.
Definition SA_NODEFER : Z := 4.
Definition SA_RESETHAND : Z := 8.
Definition SA_RESTART : Z := 16.
Definition CLD_STOPPED : Z := 5.
Definition CLD_CONTINUED : Z := 6.
Definition SI_USER : Z := 0.
Definition SI_QUEUE : Z := -1.

Definition EPERM : Z := 1.
Definition ESRCH : Z := 3.
Definition EINTR : Z := 4.
Definition EFAULT : Z := 14.
Definition EINVAL : Z := 22.
Definition ERESTARTSYS : Z := 512.
Definition ERESTARTSIGSUSPEND : Z := 511.

Inductive disposition := Ign | Term | Core | Stop | Cont.
#[global] Instance disposition_eq_dec : EqDecision disposition.
Proof. solve_decision. Defined.

(** [sig_defaults], by signal number. *)
Definition sig_defaults : list disposition :=
  [Ign; Term; Term; Core; Core; Core; Core; Core; Core; Term; Core; Core; Core; Term; Term; Term; Term; Term;
   Ign; Ign; Ign; Ign; Ign; Stop; Stop; Cont; Stop; Stop; Term; Term; Core; Core; Ign; Term; Ign; Ign; Ign; Stop].

Definition default_of (sig : Z) : disposition := default Ign (sig_defaults !! Z.to_nat sig).

(** ** Data *)

Record siginfo := Siginfo {
  si_signo : Z; si_code : Z; si_value : Z; si_addr : Z;
  si_pid : Z; si_uid : Z; si_errno : Z; si_status : Z
}.

Record signal_config := Signal_config { sc_handler : Z; sc_mask : Z; sc_flags : Z }.

(** The part of a process that the signal code only reads. *)
Record cred := Cred {
  c_id : Z; c_tgid : Z; c_user : Z; c_real_user : Z; c_session : Z; c_job : Z; c_parent : option Z; c_tasklet : bool
}.

Record proc := Proc {
  p_cred : cred;
  p_finished : bool; p_suspended : bool; p_traced : bool; p_restore_mask : bool;
  p_pending : Z; p_blocked : Z; p_awaited : Z; p_restored : Z;
  p_sig_queue : list siginfo;
  p_status : Z;
  p_interrupted_call : Z
}.

Definition p_id (p : proc) : Z := c_id (p_cred p).
Definition p_tgid (p : proc) : Z := c_tgid (p_cred p).
Definition p_user (p : proc) : Z := c_user (p_cred p).
Definition p_real_user (p : proc) : Z := c_real_user (p_cred p).
Definition p_session (p : proc) : Z := c_session (p_cred p).
Definition p_job (p : proc) : Z := c_job (p_cred p).
Definition p_parent (p : proc) : option Z := c_parent (p_cred p).
Definition p_tasklet (p : proc) : bool := c_tasklet (p_cred p).

Definition set_pending (s : Z) (p : proc) : proc :=
  Proc (p_cred p) (p_finished p) (p_suspended p) (p_traced p) (p_restore_mask p) s (p_blocked p) (p_awaited p)
    (p_restored p) (p_sig_queue p) (p_status p) (p_interrupted_call p).
Definition set_masks (blocked restored : Z) (restore : bool) (p : proc) : proc :=
  Proc (p_cred p) (p_finished p) (p_suspended p) (p_traced p) restore (p_pending p) blocked (p_awaited p) restored
    (p_sig_queue p) (p_status p) (p_interrupted_call p).
Definition set_awaited (s : Z) (p : proc) : proc :=
  Proc (p_cred p) (p_finished p) (p_suspended p) (p_traced p) (p_restore_mask p) (p_pending p) (p_blocked p) s
    (p_restored p) (p_sig_queue p) (p_status p) (p_interrupted_call p).
Definition set_queue (q : list siginfo) (p : proc) : proc :=
  Proc (p_cred p) (p_finished p) (p_suspended p) (p_traced p) (p_restore_mask p) (p_pending p) (p_blocked p)
    (p_awaited p) (p_restored p) q (p_status p) (p_interrupted_call p).
Definition set_suspended (b : bool) (status : Z) (p : proc) : proc :=
  Proc (p_cred p) (p_finished p) b (p_traced p) (p_restore_mask p) (p_pending p) (p_blocked p) (p_awaited p)
    (p_restored p) (p_sig_queue p) status (p_interrupted_call p).
Definition set_interrupted_call (n : Z) (p : proc) : proc :=
  Proc (p_cred p) (p_finished p) (p_suspended p) (p_traced p) (p_restore_mask p) (p_pending p) (p_blocked p)
    (p_awaited p) (p_restored p) (p_sig_queue p) (p_status p) n.

(** Calls that wake processes. *)
Inductive kcall :=
| AwakenSignal (pid : Z)          (* [process_awaken_signal] *)
| MakeReady (pid : Z)             (* [make_process_ready] *)
| WakeParent (pid : Z).           (* [wakeup_queue(parent->wait_queue)] *)

(** The process table, the order of [process_list], the actions of each thread
    group, the process running on this core, and the register of its frame that
    holds the system call's number or result. *)
Record kernel := Kernel {
  k_procs : gmap Z proc;
  k_list : list Z;
  k_actions : gmap Z (list signal_config);
  k_current : Z;
  k_reg : Z;
  k_calls : list kcall
}.

Definition set_procs (m : gmap Z proc) (k : kernel) : kernel :=
  Kernel m (k_list k) (k_actions k) (k_current k) (k_reg k) (k_calls k).
Definition set_actions (m : gmap Z (list signal_config)) (k : kernel) : kernel :=
  Kernel (k_procs k) (k_list k) m (k_current k) (k_reg k) (k_calls k).

Class SigEnv := {
  process_is_ready : kernel → Z → bool;
  ptrace_signal : kernel → Z → Z * kernel;
  syscall_handler : kernel → kernel
}.

Definition kcall_log (c : kcall) : M kernel unit :=
  modify (λ k, Kernel (k_procs k) (k_list k) (k_actions k) (k_current k) (k_reg k) (k_calls k ++ [c])).
(** [arch_syscall_return]. *)
Definition set_reg (v : Z) : M kernel unit :=
  modify (λ k, Kernel (k_procs k) (k_list k) (k_actions k) (k_current k) v (k_calls k)).
Definition get_proc (pid : Z) : M kernel proc := λ k,
  match k_procs k !! pid with Some p => Ret (p, k) | None => Fault end.
Definition upd_proc (pid : Z) (f : proc → proc) : M kernel unit := λ k,
  match k_procs k !! pid with
  | Some p => Ret (tt, set_procs (<[pid := f p]> (k_procs k)) k)
  | None => Fault
  end.
Definition current_process : M kernel proc := k ← get; get_proc (k_current k).
Definition upd_current (f : proc → proc) : M kernel unit := k ← get; upd_proc (k_current k) f.

(** [proc->signals[sig]], read and written. *)
Definition config_at (k : kernel) (p : proc) (sig : Z) : option signal_config :=
  if sig <? 0 then None else k_actions k !! p_tgid p ≫= λ l, l !! Z.to_nat sig.
Definition config_of (p : proc) (sig : Z) : M kernel signal_config := λ k,
  match config_at k p sig with Some c => Ret (c, k) | None => Fault end.
Definition upd_config (p : proc) (sig : Z) (f : signal_config → signal_config) : M kernel unit := λ k,
  match config_at k p sig with
  | Some _ => Ret (tt, set_actions (alter (alter f (Z.to_nat sig)) (p_tgid p) (k_actions k)) k)
  | None => Fault
  end.

(** [1ULL << signum]. *)
Definition shift_signal (sig : Z) : Z := Z.shiftl 1 sig.
Definition lnot64 (s : Z) : Z := 2 ^ 64 - 1 - s.

(** [PENDING]: the pending signals that are not blocked, [SIGSTOP] and [SIGKILL]
    never being blocked. *)
Definition PENDING (p : proc) : Z :=
  Z.land (p_pending p) (Z.lor (lnot64 (p_blocked p)) (Z.lor (shift_signal SIGSTOP) (shift_signal SIGKILL))).

(** A pointer argument of a system call: null, rejected by
    [mmu_validate_user_pointer], or to a readable and writable value. *)
Inductive uptr (A : Type) := UNull | UBad | UPtr (a : A).
Arguments UNull {A}. Arguments UBad {A}. Arguments UPtr {A} _.

Section signals.
Context `{SigEnv}.

(** ** Sending *)

Definition process_from_pid (pid : Z) (k : kernel) : option proc :=
  if pid <? 0 then None else k_procs k !! pid.

(** May the caller signal [receiver] without [force_root]? *)
Definition may_signal (cur receiver : proc) (sig : Z) : bool :=
  (p_user receiver =? p_user cur) || (p_user cur =? 0) || (p_real_user receiver =? p_user cur) ||
  ((sig =? SIGCONT) && (p_session receiver =? p_session cur)).

(** A copy of the cause joins the receiver's queue; the sender is written to the
    caller's record, which is returned. *)
Definition heap_cause (sig : Z) (c : siginfo) : siginfo :=
  Siginfo sig (si_code c) (si_value c) (si_addr c) (si_pid c) (si_uid c) (si_errno c) (si_status c).
Definition sender_noted (cur : proc) (c : siginfo) : siginfo :=
  if si_code c <=? 0
  then Siginfo (si_signo c) (si_code c) (si_value c) (si_addr c) (p_id cur) (p_real_user cur) (si_errno c) (si_status c)
  else c.
Definition queue_cause (pid sig : Z) (cur : proc) (cause : option siginfo) : M kernel (option siginfo) :=
  match cause with
  | None => mret None
  | Some c =>
      _ ← upd_proc pid (λ p, set_queue (p_sig_queue p ++ [heap_cause sig c]) p);
      mret (Some (sender_noted cur c))
  end.

Definition notify (pid : Z) : M kernel unit :=
  _ ← kcall_log (AwakenSignal pid);
  k ← get;
  if negb (pid =? k_current k) && negb (process_is_ready k pid) then kcall_log (MakeReady pid) else mret tt.

Definition send_signal_info (pid sig : Z) (force_root : bool) (cause : option siginfo) : M kernel (Z * option siginfo) :=
  k ← get;
  match process_from_pid pid k with
  | None => mret (- ESRCH, cause)
  | Some receiver =>
      cur ← current_process;
      if negb force_root && negb (may_signal cur receiver sig) then mret (- EPERM, cause)
      else if p_tasklet receiver then mret (- EPERM, cause)
      else if (NUMSIGNALS <=? sig) || (sig <? 0) then mret (- EINVAL, cause)
      else if p_finished receiver then mret (- ESRCH, cause)
      else if sig =? 0 then mret (0, cause)
      else
        config ← config_of receiver sig;
        (* the mask is assigned to an [int] *)
        let awaited := negb (s32 (Z.land (p_awaited receiver) (shift_signal sig)) =? 0) in
        let ignored := (sc_handler config =? 0) && bool_decide (default_of sig = Ign) in
        let blocked := negb (Z.land (p_blocked receiver) (shift_signal sig) =? 0) &&
                       negb (sig =? SIGKILL) && negb (sig =? SIGSTOP) in
        _ ← (if bool_decide (default_of sig = Cont) && p_suspended receiver
             then upd_proc pid (set_suspended false 0) else mret tt);
        if negb awaited && negb blocked && ignored then mret (0, cause)
        else
          cause' ← queue_cause pid sig cur cause;
          _ ← upd_proc pid (λ p, set_pending (Z.lor (p_pending p) (shift_signal sig)) p);
          if blocked && negb awaited then mret (0, cause')
          else
            _ ← notify pid;
            mret (0, cause')
  end.

Definition send_signal (pid sig : Z) (force_root : bool) : M kernel Z :=
  r ← send_signal_info pid sig force_root None; mret (fst r).

(** [process_collect_by] over thread group leaders. *)
Definition process_collect_by (field : proc → Z) (target : Z) (k : kernel) : list Z :=
  List.filter (λ pid, match k_procs k !! pid with
                      | Some p => (p_tgid (p : proc) =? p_id p) && (field p =? target)
                      | None => false
                      end) (k_list k).

(** The loop over the collected processes: the caller is left for the end. *)
Fixpoint send_to_all (pids : list Z) (self sig : Z) (force_root kill_self killed : bool) : M kernel (bool * bool) :=
  match pids with
  | [] => mret (kill_self, killed)
  | pid :: pids =>
      if pid =? self then send_to_all pids self sig force_root true killed
      else
        r ← send_signal pid sig force_root;
        send_to_all pids self sig force_root kill_self (killed || (r =? 0))
  end.

Definition send_to_self (self sig : Z) (force_root kill_self killed : bool) : M kernel bool :=
  if kill_self then
    r ← send_signal self sig force_root;
    mret (killed || (r =? 0))
  else mret killed.

Definition collect_send_signal (field : proc → Z) (target sig : Z) (force_root : bool) : M kernel Z :=
  if (NUMSIGNALS <=? sig) || (sig <? 0) then mret (- EINVAL)
  else
    k ← get;
    cur ← current_process;
    r ← send_to_all (process_collect_by field target k) (p_tgid cur) sig force_root false false;
    killed ← send_to_self (p_tgid cur) sig force_root (fst r) (snd r);
    mret (if (killed : bool) then 0 else - ESRCH).

Definition group_send_signal (group sig : Z) (force_root : bool) : M kernel Z :=
  collect_send_signal p_job group sig force_root.
Definition session_send_signal (session sig : Z) (force_root : bool) : M kernel Z :=
  collect_send_signal p_session session sig force_root.

Definition sys_kill (process sig : Z) : M kernel Z :=
  if process <? -1 then group_send_signal (- process) sig false
  else if process =? 0 then cur ← current_process; group_send_signal (p_job cur) sig false
  else send_signal process sig false.

Definition sys_sigqueue (process sig value : Z) : M kernel Z :=
  if process <? 1 then mret (- ESRCH)
  else r ← send_signal_info process sig false (Some (Siginfo 0 SI_QUEUE value 0 0 0 0 0)); mret (fst r).

Definition process_send_sigchld (child : proc) (parent : option Z) (reason status : Z) : M kernel unit :=
  match parent with
  | None => mret tt
  | Some pid =>
      parent ← get_proc pid;
      if p_finished parent then mret tt
      else
        _ ← send_signal_info (p_tgid parent) SIGCHLD true
              (Some (Siginfo 0 reason 0 0 (p_id child) (p_real_user child) 0 status));
        kcall_log (WakeParent pid)
  end.

(** ** Delivery *)

(** What [arch_enter_signal_handler] leaves on the user's stack for the return. *)
Record sigframe := Sigframe { f_blocked : Z; f_signo : Z; f_interrupted : Z; f_reg : Z }.

(** How a pass over the pending signals ends for the process: it goes on to
    user space, into a handler at an address with a signal number and, for
    [SA_SIGINFO], the cause; it calls [task_exit]; or it is stopped, to start
    over when it is scheduled with a signal pending. *)
Inductive delivery :=
| ToUser
| InHandler (handler sig : Z) (info : option siginfo) (frame : sigframe)
| Exited (status : Z)
| Stopped.

Definition restart_call (n : Z) : M kernel unit :=
  _ ← set_reg n;
  _ ← upd_current (set_interrupted_call 0);
  modify syscall_handler.

Definition interrupt_call : M kernel unit :=
  _ ← upd_current (set_interrupted_call 0);
  set_reg (- EINTR).

(** The mask a [sigsuspend] replaced comes back. *)
Definition restore_sigmask : M kernel unit :=
  p ← current_process;
  if p_restore_mask p then upd_current (λ p, set_masks (p_restored p) (p_restored p) false p) else mret tt.

Definition maybe_restart_system_call (sig : Z) (no_handler : bool) : M kernel unit :=
  if (sig <? 0) || (NUMSIGNALS <=? sig) then mret tt
  else
    p ← current_process;
    k ← get;
    let n := p_interrupted_call p in
    if negb (n =? 0) && (k_reg k =? - ERESTARTSYS) then
      config ← config_of p sig;
      if bool_decide (default_of sig = Cont) || negb (Z.land (sc_flags config) SA_RESTART =? 0)
      then restart_call n
      else interrupt_call
    else if negb (n =? 0) && (k_reg k =? - ERESTARTSIGSUSPEND) then
      _ ← (if no_handler then restart_call n else interrupt_call);
      restore_sigmask
    else mret tt.

(** [_ignore_signal]: [None] means another signal needs to be handled. *)
Definition ignore_signal (sig : Z) : M kernel (option delivery) :=
  _ ← maybe_restart_system_call sig true;
  p ← current_process;
  mret (if PENDING p =? 0 then Some ToUser else None).

Definition arch_enter_signal_handler (config : signal_config) (cause : siginfo) : M kernel delivery :=
  p ← current_process;
  k ← get;
  let info := if Z.land (sc_flags config) SA_SIGINFO =? 0 then None else Some cause in
  let frame := Sigframe (p_blocked p) (si_signo cause) (p_interrupted_call p) (k_reg k) in
  let self := if Z.land (sc_flags config) SA_NODEFER =? 0 then shift_signal (si_signo cause) else 0 in
  _ ← upd_current (set_interrupted_call 0);
  _ ← upd_current (λ p, set_masks (Z.lor (p_blocked p) (Z.lor (sc_mask config) self)) (p_restored p) (p_restore_mask p) p);
  mret (InHandler (sc_handler config) (si_signo cause) info frame).

(** The choice of the tracer, when there is one. *)
Definition ask_tracer (sig : Z) : M kernel Z := λ k, Ret (ptrace_signal k sig).
Definition traced_signal (sig : Z) : M kernel Z :=
  p ← current_process;
  if p_traced p then ask_tracer sig else mret sig.

Definition stop_process (config : signal_config) (sig : Z) : M kernel (option delivery) :=
  _ ← upd_current (set_suspended true (Z.lor 127 (Z.lor (Z.shiftl sig 8) 16711680)));
  p ← current_process;
  _ ← (if Z.land (sc_flags config) SA_NOCLDSTOP =? 0 then process_send_sigchld p (p_parent p) CLD_STOPPED sig
       else match p_parent p with Some pid => kcall_log (WakeParent pid) | None => mret tt end);
  mret (Some Stopped).

(** No handler: the default action. *)
Definition default_action (config : signal_config) (sig : Z) : M kernel (option delivery) :=
  if sig <? 0 then fault
  else
    match default_of sig with
    | Term | Core => mret (Some (Exited (Z.lor (Z.shiftl (128 + sig) 8) sig)))
    | Stop => stop_process config sig
    | Cont =>
        p ← current_process;
        _ ← (if Z.land (sc_flags config) SA_NOCLDSTOP =? 0 then process_send_sigchld p (p_parent p) CLD_CONTINUED sig
             else mret tt);
        ignore_signal sig
    | Ign => ignore_signal sig
    end.

(** [SA_RESETHAND]. *)
Definition reset_handler (config : signal_config) (sig : Z) : M kernel unit :=
  if negb (sig =? SIGILL) && negb (sig =? SIGTRAP) && negb (Z.land (sc_flags config) SA_RESETHAND =? 0) then
    p ← current_process;
    upd_config p sig (λ c, Signal_config 0 (sc_mask c) (Z.ldiff (sc_flags c) SA_SIGINFO))
  else mret tt.

Definition handle_signal (sig : Z) (cause : siginfo) : M kernel (option delivery) :=
  p ← current_process;
  config ← config_of p sig;
  sig ← traced_signal sig;
  p ← current_process;
  if p_finished p then mret (Some ToUser)
  else if (sig =? 0) || (NUMSIGNALS <=? sig) then ignore_signal sig
  else if sc_handler config =? 0 then default_action config sig
  else if sc_handler config =? 1 then ignore_signal sig
  else
    _ ← reset_handler config sig;
    d ← arch_enter_signal_handler config cause;
    mret (Some d).

(** The lowest bit of [active] from [signal] on. *)
Fixpoint first_signal (fuel : nat) (active sig : Z) : option Z :=
  match fuel with
  | O => None
  | S fuel =>
      if negb (active =? 0) && (sig <? NUMSIGNALS) then
        if Z.testbit active 0 then Some sig else first_signal fuel (Z.shiftr active 1) (sig + 1)
      else None
  end.

(** The first queued information on [sig], the rest of the queue, and whether
    there is more on it. *)
Fixpoint take_info (sig : Z) (q : list siginfo) : option (siginfo * list siginfo) :=
  match q with
  | [] => None
  | i :: q =>
      if si_signo i =? sig then Some (i, q)
      else match take_info sig q with Some (j, q') => Some (j, i :: q') | None => None end
  end.
Definition has_info (sig : Z) (q : list siginfo) : bool := existsb (λ i, si_signo i =? sig) q.

Definition no_cause (sig : Z) : siginfo := Siginfo sig SI_USER 0 0 0 0 0 0.

Definition dequeue_signal (sig : Z) : M kernel siginfo :=
  p ← current_process;
  match take_info sig (p_sig_queue p) with
  | None => _ ← upd_current (λ p, set_pending (Z.ldiff (p_pending p) (shift_signal sig)) p); mret (no_cause sig)
  | Some (i, q) =>
      _ ← (if has_info sig q then mret tt
           else upd_current (λ p, set_pending (Z.ldiff (p_pending p) (shift_signal sig)) p));
      _ ← upd_current (set_queue q);
      mret i
  end.

Fixpoint process_check_signals (fuel : nat) : M kernel delivery :=
  match fuel with
  | O => λ _, Spin
  | S fuel =>
      p ← current_process;
      if p_finished p then mret ToUser
      else
        match first_signal (Z.to_nat NUMSIGNALS) (PENDING p) 0 with
        | None => mret ToUser
        | Some sig =>
            cause ← dequeue_signal sig;
            r ← handle_signal sig cause;
            match r with Some d => mret d | None => process_check_signals fuel end
        end
  end.

(** The frame is what the user's stack holds when the handler returns. *)
Definition arch_return_from_signal_handler (frame : sigframe) : M kernel Z :=
  _ ← upd_current (λ p, set_masks (f_blocked frame) (p_restored p) (p_restore_mask p) p);
  _ ← upd_current (set_interrupted_call (f_interrupted frame));
  _ ← set_reg (f_reg frame);
  mret (f_signo frame).

(** [ToUser] is the normal return; any other result is how the check of the
    signals that became deliverable ended (a process stopped there restarts the
    check, and then its call, when it runs again). *)
Definition return_from_signal_handler (fuel : nat) (frame : sigframe) : M kernel delivery :=
  sig ← arch_return_from_signal_handler frame;
  p ← current_process;
  d ← (if PENDING p =? 0 then mret ToUser else process_check_signals fuel);
  match d with
  | ToUser => _ ← maybe_restart_system_call sig false; mret ToUser
  | _ => mret d
  end.

(** ** Waiting

    A call that waits ends with [None] each time it gives up the processor;
    [Some] is its result. *)

Definition signal_await_turn (awaited : Z) : M kernel (option Z) :=
  p ← current_process;
  match first_signal (Z.to_nat NUMSIGNALS) (Z.land awaited (p_pending p)) 0 with
  | Some sig =>
      _ ← upd_current (λ p, set_pending (Z.ldiff (p_pending p) (shift_signal sig)) p);
      mret (Some sig)
  | None => _ ← upd_current (set_awaited awaited); mret None
  end.
(** After the sleep: [Some] is the result, [None] another turn. *)
Definition signal_await_woken : M kernel (option Z) :=
  _ ← upd_current (set_awaited 0);
  p ← current_process;
  mret (if PENDING p =? 0 then None else Some (- EINTR)).

(** [sys_sigwait] up to its first sleep: [inl] is a result, [inr] the awaited set
    and what the first turn found. *)
Definition sys_sigwait (set : uptr Z) (sig_ok : bool) : M kernel (Z + Z * option Z) :=
  match set with
  | UPtr s =>
      if negb sig_ok then mret (inl (- EFAULT))
      else
        let awaited := Z.ldiff s (Z.lor (shift_signal SIGKILL) (shift_signal SIGSTOP)) in
        p ← current_process;
        if negb (Z.ldiff awaited (p_blocked p) =? 0) then mret (inl (- EINVAL))
        else r ← signal_await_turn awaited; mret (inr (awaited, r))
  | _ => mret (inl (- EFAULT))
  end.

(** [signal_wait]: does the process go on? *)
Definition signal_wait_turn : M kernel bool := p ← current_process; mret (negb (PENDING p =? 0)).

Definition sys_sigsuspend_start (set : uptr Z) : M kernel (option Z) :=
  match set with
  | UPtr s => _ ← upd_current (λ p, set_masks s (p_blocked p) (p_restore_mask p) p); mret None
  | _ => mret (Some (- EFAULT))
  end.
Definition sys_sigsuspend_end : M kernel Z :=
  _ ← upd_current (λ p, set_masks (p_blocked p) (p_restored p) true p);
  mret (- ERESTARTSIGSUSPEND).

(** ** Masks and actions *)

Definition SIG_SETMASK : Z := 0.
Definition SIG_BLOCK : Z := 1.
Definition SIG_UNBLOCK : Z := 2.

Definition set_blocked (s : Z) (p : proc) : proc := set_masks s (p_restored p) (p_restore_mask p) p.

Definition sys_sigpending (set : uptr unit) : M kernel (Z * option Z) :=
  match set with
  | UPtr _ => p ← current_process; mret (0, Some (p_pending p))
  | _ => mret (- EFAULT, None)
  end.

(** The result and what is stored through [oset]. *)
Definition sys_sigprocmask (how : Z) (set : uptr Z) (oset : uptr unit) : M kernel (Z * option Z) :=
  match oset with
  | UBad => mret (- EFAULT, None)
  | _ =>
      p ← current_process;
      let old := match oset with UPtr _ => Some (p_blocked p) | _ => None end in
      match set with
      | UNull => mret (0, old)
      | UBad => mret (- EFAULT, old)
      | UPtr s =>
          if how =? SIG_SETMASK then _ ← upd_current (set_blocked s); mret (0, old)
          else if how =? SIG_BLOCK then _ ← upd_current (λ p, set_blocked (Z.lor (p_blocked p) s) p); mret (0, old)
          else if how =? SIG_UNBLOCK then _ ← upd_current (λ p, set_blocked (Z.ldiff (p_blocked p) s) p); mret (0, old)
          else mret (- EINVAL, old)
      end
  end.

Definition sys_signal (sig handler : Z) : M kernel Z :=
  if (NUMSIGNALS <=? sig) || (sig <? 0) then mret (- EINVAL)
  else if (sig =? SIGKILL) || (sig =? SIGSTOP) then mret (- EINVAL)
  else
    p ← current_process;
    c ← config_of p sig;
    _ ← upd_config p sig (λ c, Signal_config handler (sc_mask c) SA_RESTART);
    mret (sc_handler c).

(** [act] and [oldact] are different objects. *)
Definition sys_sigaction (sig : Z) (act : uptr signal_config) (oldact : uptr unit) : M kernel (Z * option signal_config) :=
  match act, oldact with
  | UBad, _ | _, UBad => mret (- EFAULT, None)
  | _, _ =>
      if (NUMSIGNALS <=? sig) || (sig <? 0) then mret (- EINVAL, None)
      else if (sig =? SIGKILL) || (sig =? SIGSTOP) then mret (- EINVAL, None)
      else
        p ← current_process;
        old ← config_of p sig;
        _ ← (match act with UPtr c => upd_config p sig (λ _, c) | _ => mret tt end);
        mret (0, match oldact with UPtr _ => Some old | _ => None end)
  end.

(** ** The invariant

    Every process of the table has bounded masks and the action table of its
    thread group, in which [SIGKILL] and [SIGSTOP] have no handler; a parent is a
    process of another thread group. *)

Definition mask64 (s : Z) : Prop := 0 ≤ s < 2 ^ 64.
Definition masks_ok (p : proc) : Prop := 0 ≤ p_pending p < 2 ^ 38 ∧ mask64 (p_blocked p) ∧ mask64 (p_restored p).

Definition config_ok (sig : nat) (c : signal_config) : Prop :=
  mask64 (sc_mask c) ∧ (sig = Z.to_nat SIGKILL ∨ sig = Z.to_nat SIGSTOP → sc_handler c = 0).
Definition actions_ok (l : list signal_config) : Prop :=
  length l = 39%nat ∧ ∀ sig c, l !! sig = Some c → config_ok sig c.

Record signals_ok (k : kernel) : Prop := {
  ok_current : is_Some (k_procs k !! k_current k);
  ok_masks pid p : k_procs k !! pid = Some p → p_id p = pid ∧ 0 ≤ pid ∧ masks_ok p;
  ok_table pid p : k_procs k !! pid = Some p → is_Some (k_actions k !! p_tgid p);
  ok_actions g l : k_actions k !! g = Some l → actions_ok l;
  ok_parent pid p q : k_procs k !! pid = Some p → p_parent p = Some q →
    ∃ pq, k_procs k !! q = Some pq ∧ p_tgid pq ≠ pid
}.

(** An update of a process that the invariant allows. *)
Definition tame (f : proc → proc) : Prop := ∀ p, p_cred (f p) = p_cred p ∧ (masks_ok p → masks_ok (f p)).

(** Whatever the operation does, it keeps the invariant. *)
Definition keeps {A} (m : M kernel A) : Prop := ∀ k a k', signals_ok k → m k = Ret (a, k') → signals_ok k'.

Lemma ok_upd k pid p p' :
  signals_ok k → k_procs k !! pid = Some p → p_cred p' = p_cred p → masks_ok p' →
  signals_ok (set_procs (<[pid := p']> (k_procs k)) k).
Proof.
  intros [Hc Hm Ht Ha Hp] Hk Hcred Hok. pose proof (Hm _ _ Hk) as (Hid & Hpos & _). split; cbn.
  - destruct (decide (k_current k = pid)) as [->|]; [rewrite lookup_insert_eq; eauto|by rewrite lookup_insert_ne].
  - intros q pq. destruct (decide (pid = q)) as [->|]; [|rewrite lookup_insert_ne by done; eauto].
    rewrite lookup_insert_eq. intros [= <-]. unfold p_id in *. rewrite Hcred. done.
  - intros q pq. destruct (decide (pid = q)) as [->|]; [|rewrite lookup_insert_ne by done; eauto].
    rewrite lookup_insert_eq. intros [= <-]. unfold p_tgid. rewrite Hcred. exact (Ht _ _ Hk).
  - done.
  - intros q pq r Hq Hr.
    assert (∃ pq0, k_procs k !! q = Some pq0 ∧ p_parent pq0 = Some r) as (pq0 & Hq0 & Hr0).
    { destruct (decide (pid = q)) as [->|]; [|rewrite lookup_insert_ne in Hq by done; eauto].
      rewrite lookup_insert_eq in Hq. injection Hq as <-. exists p. unfold p_parent in *. by rewrite <- Hcred. }
    destruct (Hp _ _ _ Hq0 Hr0) as (pr & Hlr & Hne).
    destruct (decide (pid = r)) as [->|]; [|exists pr; by rewrite lookup_insert_ne].
    exists p'. rewrite lookup_insert_eq. split; [done|]. unfold p_tgid in *. rewrite Hcred.
    assert (pr = p) as -> by congruence. done.
Qed.

Lemma keeps_seq {A B} (m : M kernel A) (f : A → M kernel B) : keeps m → (∀ a, keeps (f a)) → keeps (m ≫= f).
Proof.
  intros Hm Hf k b k' Hk. rewrite run_bind. destruct (m k) as [[a k1]| |] eqn:E; [|done..].
  intros Hr. exact (Hf a k1 b k' (Hm _ _ _ Hk E) Hr).
Qed.
Lemma keeps_value {A} (a : A) : keeps (mret a).
Proof. intros k b k' Hk [= _ <-]. done. Qed.
Lemma keeps_fault {A} : keeps (fault (A:=A)).
Proof. done. Qed.
Lemma keeps_get : keeps get.
Proof. intros k b k' Hk [= _ <-]. done. Qed.
Lemma keeps_log c : keeps (kcall_log c).
Proof. intros k b k' [Hc Hm Ht Ha Hp] [= _ <-]. by split. Qed.
Lemma keeps_reg v : keeps (set_reg v).
Proof. intros k b k' [Hc Hm Ht Ha Hp] [= _ <-]. by split. Qed.
Lemma keeps_get_proc pid : keeps (get_proc pid).
Proof. intros k b k' Hk. unfold get_proc. destruct (k_procs k !! pid); [|done]. intros [= _ <-]. done. Qed.
Lemma keeps_current : keeps current_process.
Proof. apply keeps_seq; [apply keeps_get|]. intros. apply keeps_get_proc. Qed.
Lemma keeps_config p sig : keeps (config_of p sig).
Proof. intros k b k' Hk. unfold config_of. destruct (config_at k p sig); [|done]. intros [= _ <-]. done. Qed.
Lemma keeps_upd pid f : tame f → keeps (upd_proc pid f).
Proof.
  intros Hf k b k' Hk. unfold upd_proc. destruct (k_procs k !! pid) as [p|] eqn:E; [|done].
  intros [= _ <-]. destruct (Hf p) as [Hc Hm]. eapply ok_upd; [done..|]. apply Hm. by eapply ok_masks.
Qed.
Lemma keeps_upd_current f : tame f → keeps (upd_current f).
Proof. intros Hf. apply keeps_seq; [apply keeps_get|]. intros. by apply keeps_upd. Qed.

Lemma keeps_upd_config p sig f :
  (∀ c, config_ok (Z.to_nat sig) c → config_ok (Z.to_nat sig) (f c)) → keeps (upd_config p sig f).
Proof.
  intros Hf k b k' Hk. unfold upd_config. destruct (config_at k p sig); [|done].
  intros [= _ <-]. destruct Hk as [Hc Hm Ht Ha Hp]. split; cbn; [done..| | |done].
  - intros q pq Hq. rewrite lookup_alter_is_Some. exact (Ht _ _ Hq).
  - intros g l. destruct (decide (p_tgid p = g)) as [<-|]; [|rewrite lookup_alter_ne by done; apply Ha].
    rewrite lookup_alter_eq. destruct (k_actions k !! p_tgid p) as [l0|] eqn:E; [|done]. intros [= <-].
    destruct (Ha _ _ E) as [Hlen Hl]. split; [by rewrite length_alter|].
    intros i c. destruct (decide (i = Z.to_nat sig)) as [->|]; [|rewrite list_lookup_alter_ne by done; apply Hl].
    rewrite list_lookup_alter_eq. destruct (l0 !! Z.to_nat sig) as [c0|] eqn:E0; [|done].
    intros [= <-]. apply Hf. exact (Hl _ _ E0).
Qed.

Lemma keeps_if {A} (b : bool) (m1 m2 : M kernel A) : keeps m1 → keeps m2 → keeps (if b then m1 else m2).
Proof. by destruct b. Qed.

(** Masks stay within their width. *)

Lemma bits_bound n s : 0 ≤ n → 0 ≤ s → (∀ i, n ≤ i → Z.testbit s i = false) → s < 2 ^ n.
Proof.
  intros Hn Hs Hb. destruct (Z_lt_ge_dec s (2 ^ n)) as [|Hge]; [done|].
  assert (n ≤ Z.log2 s) by (apply Z.log2_le_pow2; lia).
  pose proof (Hb _ H0) as Hf. rewrite Z.bit_log2 in Hf; [done|]. lia.
Qed.

Lemma high_bits n s i : 0 ≤ s < 2 ^ n → n ≤ i → Z.testbit s i = false.
Proof.
  intros Hs Hi. destruct (decide (s = 0)) as [->|]; [apply Z.bits_0|].
  apply Z.bits_above_log2; [lia|]. assert (Z.log2 s < n); [|lia]. apply Z.log2_lt_pow2; lia.
Qed.

Lemma lor_bound n s t : 0 ≤ n → 0 ≤ s < 2 ^ n → 0 ≤ t < 2 ^ n → 0 ≤ Z.lor s t < 2 ^ n.
Proof.
  intros Hn Hs Ht. assert (0 ≤ Z.lor s t) by (apply Z.lor_nonneg; lia). split; [done|].
  apply bits_bound; [done..|]. intros i Hi. by rewrite Z.lor_spec, !(high_bits n).
Qed.

Lemma ldiff_bound n s t : 0 ≤ n → 0 ≤ s < 2 ^ n → 0 ≤ Z.ldiff s t < 2 ^ n.
Proof.
  intros Hn Hs. assert (0 ≤ Z.ldiff s t) by (apply Z.ldiff_nonneg; lia). split; [done|].
  apply bits_bound; [done..|]. intros i Hi. by rewrite Z.ldiff_spec, (high_bits n).
Qed.

Lemma shift_signal_pow sig : 0 ≤ sig → shift_signal sig = 2 ^ sig.
Proof. intros. unfold shift_signal. by rewrite Z.shiftl_mul_pow2, Z.mul_1_l. Qed.

Lemma shift_signal_bound n sig : 0 ≤ sig < n → 0 ≤ shift_signal sig < 2 ^ n.
Proof.
  intros. rewrite shift_signal_pow by lia. split; [apply Z.pow_nonneg; lia|]. apply Z.pow_lt_mono_r; lia.
Qed.

Lemma testbit_shift_signal sig i : 0 ≤ sig → Z.testbit (shift_signal sig) i = (i =? sig).
Proof. intros. rewrite shift_signal_pow, Z.pow2_bits_eqb by done. apply Z.eqb_sym. Qed.

Lemma tame_pending f : (∀ p, 0 ≤ p_pending p < 2 ^ 38 → 0 ≤ f p < 2 ^ 38) → tame (λ p, set_pending (f p) p).
Proof. intros Hf p. split; [done|]. intros (?&?&?). split_and!; cbn; auto; by apply Hf. Qed.
Lemma tame_clear sig : tame (λ p, set_pending (Z.ldiff (p_pending p) (shift_signal sig)) p).
Proof. apply tame_pending. intros p Hp. by apply ldiff_bound. Qed.
Lemma tame_mark sig : 0 ≤ sig < NUMSIGNALS → tame (λ p, set_pending (Z.lor (p_pending p) (shift_signal sig)) p).
Proof. intros Hs. apply tame_pending. intros p Hp. apply lor_bound; [done..|]. by apply shift_signal_bound. Qed.
Lemma tame_masks fb fr fm :
  (∀ p, masks_ok p → mask64 (fb p) ∧ mask64 (fr p)) → tame (λ p, set_masks (fb p) (fr p) (fm p) p).
Proof. intros Hf p. split; [done|]. intros Hp. destruct (Hf p Hp). by destruct Hp as (?&?&?). Qed.
Lemma tame_blocked f : (∀ p, masks_ok p → mask64 (f p)) → tame (λ p, set_blocked (f p) p).
Proof. intros Hf. apply tame_masks. intros p Hp. split; [auto|]. by destruct Hp as (?&?&?). Qed.
Lemma tame_awaited s : tame (set_awaited s).
Proof. by intros p. Qed.
Lemma tame_queue q : tame (set_queue q).
Proof. by intros p. Qed.
Lemma tame_enqueue i : tame (λ p, set_queue (p_sig_queue p ++ [i]) p).
Proof. by intros p. Qed.
Lemma tame_suspended b st : tame (set_suspended b st).
Proof. by intros p. Qed.
Lemma tame_interrupted n : tame (set_interrupted_call n).
Proof. by intros p. Qed.


(** What the signal code asks of the rest of the kernel: the tracer and the
    system calls keep the invariant too. *)
Class SigEnvOk : Prop := {
  tracer_ok k sig : signals_ok k → signals_ok (snd (ptrace_signal k sig));
  syscall_ok k : signals_ok k → signals_ok (syscall_handler k)
}.

Create HintDb keeps discriminated.
#[local] Hint Resolve keeps_value keeps_fault keeps_get keeps_log keeps_reg keeps_get_proc keeps_current keeps_config
  keeps_upd keeps_upd_current tame_clear tame_awaited tame_queue tame_enqueue tame_suspended tame_interrupted : keeps.

(** One bind or one case at a time, with the known operations. *)
Ltac keep :=
  repeat match goal with
  | |- keeps (_ ≫= _) => apply keeps_seq; [|intros]
  | |- keeps (if ?b then _ else _) => let E := fresh "E" in destruct b eqn:E
  | |- keeps (match ?x with _ => _ end) => let E := fresh "E" in destruct x eqn:E
  | |- keeps (let '(_, _) := ?x in _) => destruct x
  | |- _ => progress eauto with keeps
  end.

Lemma keeps_send_signal_info pid sig force cause : keeps (send_signal_info pid sig force cause).
Proof.
  unfold send_signal_info, queue_cause, notify. keep.
  all: apply keeps_upd, tame_mark; match goal with E : _ || (_ <? 0) = false |- _ =>
    apply orb_false_iff in E as [?%Z.leb_gt ?%Z.ltb_ge] end; lia.
Qed.
#[local] Hint Resolve keeps_send_signal_info : keeps.

Lemma keeps_send_signal pid sig force : keeps (send_signal pid sig force).
Proof. unfold send_signal. keep. Qed.
#[local] Hint Resolve keeps_send_signal : keeps.

Lemma keeps_send_to_all pids self sig force : ∀ ks killed, keeps (send_to_all pids self sig force ks killed).
Proof. induction pids as [|pid pids IH]; intros; cbn; keep. Qed.
#[local] Hint Resolve keeps_send_to_all : keeps.

Lemma keeps_collect field target sig force : keeps (collect_send_signal field target sig force).
Proof. unfold collect_send_signal, send_to_self. keep. Qed.
#[local] Hint Resolve keeps_collect : keeps.

Lemma keeps_kill pid sig : keeps (sys_kill pid sig).
Proof. unfold sys_kill, group_send_signal. keep. Qed.
Lemma keeps_sigqueue pid sig v : keeps (sys_sigqueue pid sig v).
Proof. unfold sys_sigqueue. keep. Qed.
Lemma keeps_sigchld child parent reason status : keeps (process_send_sigchld child parent reason status).
Proof. unfold process_send_sigchld. keep. Qed.
#[local] Hint Resolve keeps_kill keeps_sigqueue keeps_sigchld : keeps.

Lemma keeps_restore_sigmask : keeps restore_sigmask.
Proof.
  unfold restore_sigmask. keep. apply keeps_upd_current, (tame_masks p_restored p_restored (λ _, false)).
  by intros p (?&?&?).
Qed.
#[local] Hint Resolve keeps_restore_sigmask : keeps.

Lemma keeps_restart `{!SigEnvOk} sig no_handler : keeps (maybe_restart_system_call sig no_handler).
Proof.
  assert (keeps (modify syscall_handler)). { intros k [] k' Hk [= <-]. by apply syscall_ok. }
  unfold maybe_restart_system_call, restart_call, interrupt_call. keep.
Qed.
#[local] Hint Resolve keeps_restart : keeps.

Lemma keeps_ignore `{!SigEnvOk} sig : keeps (ignore_signal sig).
Proof. unfold ignore_signal. keep. Qed.
#[local] Hint Resolve keeps_ignore : keeps.

Lemma keeps_default `{!SigEnvOk} config sig : keeps (default_action config sig).
Proof. unfold default_action, stop_process. keep. Qed.
#[local] Hint Resolve keeps_default : keeps.

Lemma keeps_reset config sig : keeps (reset_handler config sig).
Proof. unfold reset_handler. keep. apply keeps_upd_config. intros c [Hm _]. by split. Qed.
#[local] Hint Resolve keeps_reset : keeps.

Lemma keeps_traced `{!SigEnvOk} sig : keeps (traced_signal sig).
Proof.
  unfold traced_signal. keep. intros k r k' Hk [= Hr]. pose proof (tracer_ok k sig Hk) as Hok.
  rewrite Hr in Hok. exact Hok.
Qed.
#[local] Hint Resolve keeps_traced : keeps.

Lemma take_info_signo sig q i q' : take_info sig q = Some (i, q') → si_signo i = sig.
Proof.
  revert q'. induction q as [|j q IH]; intros q' Ht; [done|]. cbn in Ht.
  destruct (Z.eqb_spec (si_signo j) sig) as [Hs|]; [by simplify_eq|].
  destruct (take_info sig q) as [[j' q'']|]; [|done]. simplify_eq. by eapply IH.
Qed.

(** *** Running on a known process *)

(** The kernel with its current process replaced. *)
Definition with_current (p : proc) (k : kernel) : kernel := set_procs (<[k_current k := p]> (k_procs k)) k.

Lemma lookup_with_current p k : k_procs (with_current p k) !! k_current (with_current p k) = Some p.
Proof. cbn. apply lookup_insert_eq. Qed.
Lemma with_current_twice p q k : with_current p (with_current q k) = with_current p k.
Proof. unfold with_current, set_procs. cbn. by rewrite insert_insert_eq. Qed.

Lemma run_current k p : k_procs k !! k_current k = Some p → current_process k = Ret (p, k).
Proof. intros Hp. unfold current_process, get_proc, mbind, M_bind, get. by rewrite Hp. Qed.
Lemma run_upd_current k p f : k_procs k !! k_current k = Some p → upd_current f k = Ret (tt, with_current (f p) k).
Proof. intros Hp. unfold upd_current, upd_proc, mbind, M_bind, get. by rewrite Hp. Qed.

Definition clear_pending (sig : Z) (p : proc) : proc := set_pending (Z.ldiff (p_pending p) (shift_signal sig)) p.

(** What [dequeue_signal] takes from the process, and what it leaves. *)
Definition dequeued (sig : Z) (p : proc) : siginfo * proc :=
  match take_info sig (p_sig_queue p) with
  | None => (no_cause sig, clear_pending sig p)
  | Some (i, q) => (i, set_queue q (if has_info sig q then p else clear_pending sig p))
  end.

Lemma dequeue_run k p sig :
  k_procs k !! k_current k = Some p →
  dequeue_signal sig k = Ret (fst (dequeued sig p), with_current (snd (dequeued sig p)) k).
Proof.
  intros Hp. unfold dequeue_signal, dequeued. rewrite (run_bind_Ret _ _ _ _ _ (run_current _ _ Hp)).
  destruct (take_info sig (p_sig_queue p)) as [[i q]|].
  - destruct (has_info sig q).
    + rewrite run_mret_bind. by rewrite (run_bind_Ret _ _ _ _ _ (run_upd_current _ _ _ Hp)).
    + rewrite (run_bind_Ret _ _ _ _ _ (run_upd_current _ _ _ Hp)).
      rewrite (run_bind_Ret _ _ _ _ _ (run_upd_current _ _ _ (lookup_with_current _ _))).
      by rewrite with_current_twice.
  - by rewrite (run_bind_Ret _ _ _ _ _ (run_upd_current _ _ _ Hp)).
Qed.

(** The cause of a delivered signal bears its number. *)
Lemma dequeued_signo sig p : si_signo (fst (dequeued sig p)) = sig.
Proof.
  unfold dequeued. destruct (take_info sig (p_sig_queue p)) as [[i q]|] eqn:E; [|done].
  by eapply take_info_signo.
Qed.

Lemma keeps_dequeue sig : keeps (dequeue_signal sig).
Proof. unfold dequeue_signal. keep. Qed.

Lemma first_signal_spec n active s sig :
  0 ≤ s → first_signal n active s = Some sig →
  s ≤ sig < NUMSIGNALS ∧ Z.testbit active (sig - s) = true ∧ ∀ i, 0 ≤ i < sig - s → Z.testbit active i = false.
Proof.
  revert active s. induction n as [|n IH]; intros active s Hs Hf; [done|]. cbn [first_signal] in Hf.
  destruct (negb (active =? 0) && (s <? NUMSIGNALS)) eqn:E; [|done].
  apply andb_true_iff in E as [_ Hlt%Z.ltb_lt].
  destruct (Z.testbit active 0) eqn:E0.
  - injection Hf as <-. rewrite Z.sub_diag. split_and!; [lia..|done|lia].
  - destruct (IH _ (s + 1) ltac:(lia) Hf) as ((Hle & Hl) & Hb & Hlow).
    rewrite Z.shiftr_spec in Hb by lia. replace (sig - (s + 1) + 1) with (sig - s) in Hb by lia.
    split_and!; [lia..|done|]. intros i Hi. destruct (decide (i = 0)) as [->|]; [done|].
    specialize (Hlow (i - 1) ltac:(lia)). rewrite Z.shiftr_spec in Hlow by lia. by replace (i - 1 + 1) with i in Hlow by lia.
Qed.

Lemma first_signal_none n active s :
  0 ≤ active < 2 ^ Z.of_nat n → s + Z.of_nat n ≤ NUMSIGNALS → first_signal n active s = None → active = 0.
Proof.
  revert active s. induction n as [|n IH]; intros active s Ha Hs Hf; [change (2 ^ Z.of_nat 0) with 1 in Ha; lia|].
  cbn [first_signal] in Hf. rewrite Nat2Z.inj_succ, Z.pow_succ_r in Ha by lia.
  rewrite (proj2 (Z.ltb_lt s NUMSIGNALS)), andb_true_r in Hf by lia.
  destruct (Z.eqb_spec active 0) as [|Hne]; [done|]. cbn in Hf.
  destruct (Z.odd active) eqn:E0; [done|].
  rewrite Z.shiftr_div_pow2 in Hf by lia. change (2 ^ 1) with 2 in Hf.
  apply IH in Hf; [|split; [apply Z.div_pos; lia|apply Z.div_lt_upper_bound; lia]|lia].
  rewrite <- Z.negb_even in E0. apply negb_false_iff, Z.even_spec in E0 as [m ->].
  rewrite Z.mul_comm, Z.div_mul in Hf by lia. lia.
Qed.

Lemma keeps_bind_value {A B} (Q : A → Prop) (m : M kernel A) (f : A → M kernel B) :
  keeps m → (∀ k a k', signals_ok k → m k = Ret (a, k') → Q a) → (∀ a, Q a → keeps (f a)) → keeps (m ≫= f).
Proof.
  intros Hm HQ Hf k b k' Hk. rewrite run_bind. destruct (m k) as [[a k1]| |] eqn:E; [|done..].
  intros Hr. exact (Hf a (HQ _ _ _ Hk E) k1 b k' (Hm _ _ _ Hk E) Hr).
Qed.

Lemma config_at_ok k p sig c : signals_ok k → config_at k p sig = Some c → config_ok (Z.to_nat sig) c.
Proof.
  intros Hk. unfold config_at. destruct (sig <? 0); [done|].
  destruct (k_actions k !! p_tgid p) as [l|] eqn:E; [|done]. apply (ok_actions _ Hk _ _ E).
Qed.
Lemma config_of_ok k p sig c k' : signals_ok k → config_of p sig k = Ret (c, k') → config_ok (Z.to_nat sig) c.
Proof.
  intros Hk. unfold config_of. destruct (config_at k p sig) eqn:E; [|done]. intros [= <- _]. by eapply config_at_ok.
Qed.

Lemma keeps_enter config cause :
  mask64 (sc_mask config) → 0 ≤ si_signo cause < NUMSIGNALS → keeps (arch_enter_signal_handler config cause).
Proof.
  intros Hm Hs. unfold arch_enter_signal_handler. keep. apply keeps_upd_current.
  set (self := if _ =? 0 then _ else _).
  apply (tame_masks (λ p, Z.lor (p_blocked p) (Z.lor (sc_mask config) self)) p_restored p_restore_mask).
  intros p (?&?&?). split; [|done]. apply lor_bound; [done..|]. apply lor_bound; [done..|].
  unfold self. case_match; [|done]. apply (shift_signal_bound 64). unfold NUMSIGNALS in Hs. lia.
Qed.

Lemma keeps_handle `{!SigEnvOk} sig cause : 0 ≤ si_signo cause < NUMSIGNALS → keeps (handle_signal sig cause).
Proof.
  intros Hs. unfold handle_signal. apply keeps_seq; [apply keeps_current|]. intros p.
  apply (keeps_bind_value (config_ok (Z.to_nat sig))); [apply keeps_config|intros; by eapply config_of_ok|].
  intros c [Hm _]. keep. by apply keeps_enter.
Qed.

Lemma keeps_check `{!SigEnvOk} fuel : keeps (process_check_signals fuel).
Proof.
  induction fuel as [|fuel IH]; [done|]. cbn [process_check_signals].
  apply keeps_seq; [apply keeps_current|]. intros p. apply keeps_if; [apply keeps_value|].
  destruct (first_signal _ _ _) as [sig|] eqn:E; [|apply keeps_value].
  apply first_signal_spec in E as (Hs & _); [|done].
  apply (keeps_bind_value (λ c, si_signo c = sig)); [apply keeps_dequeue| |].
  - intros k c k' Hk Hr. destruct (ok_current _ Hk) as [q Hq]. rewrite (dequeue_run _ _ _ Hq) in Hr.
    injection Hr as <- _. apply dequeued_signo.
  - intros c Hc. apply keeps_seq; [apply keeps_handle; by rewrite Hc|]. intros [d|]; [apply keeps_value|done].
Qed.
#[local] Hint Resolve keeps_check : keeps.

Lemma keeps_return `{!SigEnvOk} fuel frame : mask64 (f_blocked frame) → keeps (return_from_signal_handler fuel frame).
Proof.
  intros Hf. unfold return_from_signal_handler, arch_return_from_signal_handler. keep.
  apply keeps_upd_current, (tame_masks (λ _, f_blocked frame) p_restored p_restore_mask). by intros p (?&?&?).
Qed.

Lemma keeps_await_turn s : keeps (signal_await_turn s).
Proof. unfold signal_await_turn. keep. Qed.
Lemma keeps_await_woken : keeps signal_await_woken.
Proof. unfold signal_await_woken. keep. Qed.
#[local] Hint Resolve keeps_await_turn : keeps.
Lemma keeps_sigwait set ok : keeps (sys_sigwait set ok).
Proof. unfold sys_sigwait. keep. Qed.

(** A mask read from user memory is a 64-bit value. *)
Definition umask_ok (set : uptr Z) : Prop := match set with UPtr s => mask64 s | _ => True end.

Lemma keeps_sigsuspend_start set : umask_ok set → keeps (sys_sigsuspend_start set).
Proof.
  intros Hs. unfold sys_sigsuspend_start. keep.
  apply keeps_upd_current, (tame_masks (λ _, a) p_blocked p_restore_mask). by intros p (?&?&?).
Qed.
Lemma keeps_sigsuspend_end : keeps sys_sigsuspend_end.
Proof.
  unfold sys_sigsuspend_end. keep. apply keeps_upd_current, (tame_masks p_blocked p_restored (λ _, true)).
  by intros p (?&?&?).
Qed.
Lemma keeps_sigprocmask how set oset : umask_ok set → keeps (sys_sigprocmask how set oset).
Proof.
  intros Hs. unfold sys_sigprocmask. keep; apply keeps_upd_current.
  all: try apply (tame_blocked (λ _, _)); try apply (tame_blocked (λ p, Z.lor (p_blocked p) _)).
  all: try apply (tame_blocked (λ p, Z.ldiff (p_blocked p) _)).
  all: intros p (?&?&?); first [done|by apply lor_bound|by apply ldiff_bound].
Qed.

Lemma keeps_set_action p sig f :
  (∀ c, mask64 (sc_mask c) → mask64 (sc_mask (f c))) → 0 ≤ sig → (sig =? SIGKILL) || (sig =? SIGSTOP) = false →
  keeps (upd_config p sig f).
Proof.
  intros Hf Hpos [Hk%Z.eqb_neq Hst%Z.eqb_neq]%orb_false_iff. apply keeps_upd_config. intros c [Hm _].
  split; [auto|]. unfold SIGKILL, SIGSTOP in *. lia.
Qed.

Lemma keeps_signal sig handler : keeps (sys_signal sig handler).
Proof.
  unfold sys_signal. keep. apply keeps_set_action; [done| |done].
  match goal with E : _ || (_ <? 0) = false |- _ => apply orb_false_iff in E as [?%Z.leb_gt ?%Z.ltb_ge] end. lia.
Qed.

Lemma keeps_sigaction sig act oldact :
  match act with UPtr c => mask64 (sc_mask c) | _ => True end → keeps (sys_sigaction sig act oldact).
Proof.
  intros Ha. unfold sys_sigaction. keep; (apply keeps_set_action; [done| |done]);
  match goal with E : _ || (_ <? 0) = false |- _ => apply orb_false_iff in E as [?%Z.leb_gt ?%Z.ltb_ge] end; lia.
Qed.

(** *** Sending, as a function *)

Definition is_awaited (p : proc) (sig : Z) : bool := Z.testbit (p_awaited p) sig && (sig <? 32).
Definition is_blocked (p : proc) (sig : Z) : bool :=
  Z.testbit (p_blocked p) sig && negb (sig =? SIGKILL) && negb (sig =? SIGSTOP).
Definition is_ignored (c : signal_config) (sig : Z) : bool := (sc_handler c =? 0) && bool_decide (default_of sig = Ign).

Lemma land_shift s sig : 0 ≤ sig → Z.land s (shift_signal sig) = if Z.testbit s sig then shift_signal sig else 0.
Proof.
  intros Hs. apply Z.bits_inj'. intros i Hi. rewrite Z.land_spec, testbit_shift_signal by done.
  destruct (Z.eqb_spec i sig) as [->|Hne].
  - destruct (Z.testbit s sig); [by rewrite testbit_shift_signal, Z.eqb_refl|by rewrite Z.bits_0].
  - rewrite andb_false_r. destruct (Z.testbit s sig); [|by rewrite Z.bits_0].
    rewrite testbit_shift_signal by done. symmetry. by apply Z.eqb_neq.
Qed.

(** The [int] that holds the awaited bit loses those from the 33rd on. *)
Lemma awaited_int p sig :
  0 ≤ sig < NUMSIGNALS → negb (s32 (Z.land (p_awaited p) (shift_signal sig)) =? 0) = is_awaited p sig.
Proof.
  intros Hs. rewrite land_shift by lia. unfold is_awaited. destruct (Z.testbit (p_awaited p) sig); [|done].
  assert (forallb (λ s, eqb (negb (s32 (shift_signal s) =? 0)) (s <? 32)) (seqZ 0 38) = true) as Hall
    by (vm_compute; reflexivity).
  rewrite List.forallb_forall in Hall. apply eqb_prop, (Hall sig), list_elem_of_In, elem_of_seqZ.
  unfold NUMSIGNALS in Hs. lia.
Qed.

Lemma blocked_bit p sig :
  0 ≤ sig → negb (Z.land (p_blocked p) (shift_signal sig) =? 0) && negb (sig =? SIGKILL) && negb (sig =? SIGSTOP) = is_blocked p sig.
Proof.
  intros Hs. rewrite land_shift by lia. unfold is_blocked. destruct (Z.testbit (p_blocked p) sig); [|done].
  rewrite shift_signal_pow by done. by rewrite (proj2 (Z.eqb_neq (2 ^ sig) 0)) by (apply Z.pow_nonzero; lia).
Qed.

Definition resumed (sig : Z) (p : proc) : proc :=
  if bool_decide (default_of sig = Cont) && p_suspended p then set_suspended false 0 p else p.
Definition enqueued (sig : Z) (cause : option siginfo) (p : proc) : proc :=
  match cause with
  | None => p
  | Some c => set_queue (p_sig_queue p ++ [heap_cause sig c]) p
  end.
Definition marked (sig : Z) (p : proc) : proc := set_pending (Z.lor (p_pending p) (shift_signal sig)) p.

(** The receiver after an accepted signal. *)
Definition receive (c : signal_config) (sig : Z) (cause : option siginfo) (p : proc) : proc :=
  if negb (is_awaited p sig) && negb (is_blocked p sig) && is_ignored c sig then resumed sig p
  else marked sig (enqueued sig cause (resumed sig p)).

(** Is the receiver told? *)
Definition is_notified (c : signal_config) (sig : Z) (p : proc) : bool :=
  is_awaited p sig || (negb (is_blocked p sig) && negb (is_ignored c sig)).

Definition with_proc (pid : Z) (p : proc) (k : kernel) : kernel := set_procs (<[pid := p]> (k_procs k)) k.

Definition add_calls (l : list kcall) (k : kernel) : kernel :=
  Kernel (k_procs k) (k_list k) (k_actions k) (k_current k) (k_reg k) (k_calls k ++ l).

Lemma with_proc_twice pid p q k : with_proc pid p (with_proc pid q k) = with_proc pid p k.
Proof. unfold with_proc, set_procs. cbn. by rewrite insert_insert_eq. Qed.
Lemma with_proc_same pid p k : k_procs k !! pid = Some p → with_proc pid p k = k.
Proof. intros Hp. destruct k. unfold with_proc, set_procs. cbn in *. by rewrite insert_id. Qed.
Lemma lookup_with_proc pid p k : k_procs (with_proc pid p k) !! pid = Some p.
Proof. cbn. apply lookup_insert_eq. Qed.
Lemma run_upd_proc k pid p f : k_procs k !! pid = Some p → upd_proc pid f k = Ret (tt, with_proc pid (f p) k).
Proof. intros Hp. unfold upd_proc. by rewrite Hp. Qed.

(** The conditions under which a signal is accepted. *)
Definition accepts (force : bool) (cur p : proc) (sig : Z) : bool :=
  (force || may_signal cur p sig) && negb (p_tasklet p) && (0 <=? sig) && (sig <? NUMSIGNALS) && negb (p_finished p).

Lemma resume_run k pid p sig :
  k_procs k !! pid = Some p →
  (if bool_decide (default_of sig = Cont) && p_suspended p then upd_proc pid (set_suspended false 0) else mret tt) k
  = Ret (tt, with_proc pid (resumed sig p) k).
Proof.
  intros Hp. unfold resumed. destruct (_ && _); [by apply run_upd_proc|]. by rewrite with_proc_same.
Qed.


Lemma queue_cause_run k cur pid p sig cause :
  k_procs k !! pid = Some p →
  queue_cause pid sig cur cause k = Ret (sender_noted cur <$> cause, with_proc pid (enqueued sig cause p) k).
Proof.
  intros Hp. destruct cause as [c|]; cbn [enqueued queue_cause]; [|by rewrite with_proc_same].
  by rewrite (run_bind_Ret _ _ _ _ _ (run_upd_proc _ _ _ _ Hp)).
Qed.

Lemma notify_run k pid : ∃ l, notify pid k = Ret (tt, add_calls (AwakenSignal pid :: l) k).
Proof.
  unfold notify, kcall_log, add_calls, mbind, M_bind, modify, get. cbn.
  destruct (_ && _); cbn; [exists [MakeReady pid]|exists []; done]. by rewrite <- (assoc_L (++)).
Qed.

Lemma enqueued_flags sig cause p :
  is_awaited (enqueued sig cause p) = is_awaited p ∧ is_blocked (enqueued sig cause p) = is_blocked p.
Proof. by destruct cause. Qed.

Lemma resumed_flags sig p : p_cred (resumed sig p) = p_cred p ∧ p_awaited (resumed sig p) = p_awaited p ∧
  p_blocked (resumed sig p) = p_blocked p ∧ p_pending (resumed sig p) = p_pending p ∧
  p_sig_queue (resumed sig p) = p_sig_queue p ∧ p_finished (resumed sig p) = p_finished p.
Proof. unfold resumed. by destruct (_ && _). Qed.

Lemma send_run k cur pid p sig force cause c :
  k_procs k !! k_current k = Some cur → process_from_pid pid k = Some p →
  accepts force cur p sig = true → config_at k p sig = Some c → sig ≠ 0 →
  ∃ cause' l,
    send_signal_info pid sig force cause k = Ret ((0, cause'), add_calls l (with_proc pid (receive c sig cause p) k)) ∧
    (AwakenSignal pid ∈ l ↔ is_notified c sig p = true) ∧ (is_notified c sig p = false → l = []).
Proof.
  intros Hcur Hp Hacc Hc Hne. unfold accepts in Hacc.
  apply andb_true_iff in Hacc as [[[[Hperm Htask%negb_true_iff]%andb_true_iff Hlo%Z.leb_le]%andb_true_iff Hhi%Z.ltb_lt]
    %andb_true_iff Hfin%negb_true_iff].
  assert (Hl : k_procs k !! pid = Some p). { unfold process_from_pid in Hp. by destruct (pid <? 0). }
  unfold send_signal_info. rewrite run_bind. cbn [get]. rewrite Hp, (run_bind_Ret _ _ _ _ _ (run_current _ _ Hcur)).
  rewrite <- negb_orb, Hperm, Htask, (proj2 (Z.leb_gt _ _) Hhi), (proj2 (Z.ltb_ge _ _) Hlo), Hfin.
  rewrite (proj2 (Z.eqb_neq _ _) Hne). cbn [negb orb].
  rewrite (run_bind_Ret _ _ _ c k) by (unfold config_of; by rewrite Hc). cbv zeta.
  rewrite (run_bind_Ret _ _ _ _ _ (resume_run _ _ _ _ Hl)).
  rewrite awaited_int, blocked_bit by (done || lia). fold (is_ignored c sig). unfold receive, is_notified.
  destruct (negb (is_awaited p sig) && negb (is_blocked p sig) && is_ignored c sig) eqn:Ed.
  - exists cause, []. split; [unfold add_calls; cbn; by rewrite app_nil_r|].
    apply andb_true_iff in Ed as [[->%negb_true_iff ->%negb_true_iff]%andb_true_iff ->].
    split; [|done]. split; [by intros ?%not_elem_of_nil|done].
  - rewrite (run_bind_Ret _ _ _ _ _ (queue_cause_run _ cur _ _ _ _ (lookup_with_proc _ _ _))), with_proc_twice.
    rewrite (run_bind_Ret _ _ _ _ _ (run_upd_proc _ _ _ _ (lookup_with_proc _ _ _))), with_proc_twice.
    exists (sender_noted cur <$> cause).
    destruct (is_blocked p sig && negb (is_awaited p sig)) eqn:Eb.
    + exists []. split; [unfold add_calls; cbn; by rewrite app_nil_r|].
      apply andb_true_iff in Eb as [-> ->%negb_true_iff]. split; [|done]. split; [by intros ?%not_elem_of_nil|done].
    + destruct (notify_run (with_proc pid (marked sig (enqueued sig cause (resumed sig p))) k) pid) as [l Hn].
      exists (AwakenSignal pid :: l). rewrite (run_bind_Ret _ _ _ _ _ Hn). split; [done|].
      destruct (is_awaited p sig), (is_blocked p sig), (is_ignored c sig); try done;
        (split; [split; [done|by left]|done]).
Qed.

(** The result of sending to an existing process. *)
Definition send_status (force : bool) (cur p : proc) (sig : Z) : Z :=
  if negb (force || may_signal cur p sig) || p_tasklet p then - EPERM
  else if (NUMSIGNALS <=? sig) || (sig <? 0) then - EINVAL
  else if p_finished p then - ESRCH
  else 0.

Lemma send_refused k cur pid p sig force cause :
  k_procs k !! k_current k = Some cur → process_from_pid pid k = Some p →
  accepts force cur p sig = false ∨ sig = 0 →
  send_signal_info pid sig force cause k = Ret ((send_status force cur p sig, cause), k).
Proof.
  intros Hcur Hp Hor. unfold send_signal_info, send_status, accepts in *. rewrite run_bind. cbn [get].
  rewrite Hp, (run_bind_Ret _ _ _ _ _ (run_current _ _ Hcur)), <- negb_orb.
  destruct (force || may_signal cur p sig); cbn [negb orb andb] in *; [|done].
  destruct (p_tasklet p); cbn [negb orb andb] in *; [done|].
  rewrite (Z.leb_antisym sig NUMSIGNALS), (Z.ltb_antisym 0 sig).
  destruct (sig <? NUMSIGNALS); cbn [negb orb andb] in *; [|done].
  destruct (0 <=? sig); cbn [negb orb andb] in *; [|done].
  destruct (p_finished p); cbn [negb orb andb] in *; [done|].
  destruct Hor as [Hor | ->]; done.
Qed.

Lemma accepts_status force cur p sig : accepts force cur p sig = true ↔ send_status force cur p sig = 0.
Proof.
  unfold accepts, send_status. rewrite (Z.leb_antisym sig NUMSIGNALS), (Z.ltb_antisym 0 sig).
  destruct (force || may_signal cur p sig), (p_tasklet p), (sig <? NUMSIGNALS), (0 <=? sig), (p_finished p); done.
Qed.

Lemma testbit_lnot64 s i : mask64 s → 0 ≤ i < 64 → Z.testbit (lnot64 s) i = negb (Z.testbit s i).
Proof.
  intros Hs Hi. unfold lnot64. replace (2 ^ 64 - 1) with (Z.ones 64) by (rewrite Z.ones_equiv; lia).
  rewrite Z.sub_nocarry_ldiff.
  - rewrite Z.ldiff_spec, Z.ones_spec_low by lia. done.
  - apply Z.ldiff_ones_r_low; [apply Hs|]. destruct (decide (s = 0)) as [->|]; [done|].
    apply Z.log2_lt_pow2; unfold mask64 in Hs; lia.
Qed.

Lemma testbit_PENDING p i : masks_ok p → 0 ≤ i < 64 → Z.testbit (PENDING p) i = Z.testbit (p_pending p) i && negb (is_blocked p i).
Proof.
  intros (_ & Hb & _) Hi. unfold PENDING, is_blocked.
  rewrite Z.land_spec, !Z.lor_spec, testbit_lnot64, !testbit_shift_signal by done.
  by destruct (Z.testbit (p_blocked p) i), (i =? SIGKILL), (i =? SIGSTOP).
Qed.

Lemma PENDING_bound p : masks_ok p → 0 ≤ PENDING p < 2 ^ 38.
Proof.
  intros (Hp & _). unfold PENDING. assert (0 ≤ Z.land (p_pending p) (Z.lor (lnot64 (p_blocked p))
    (Z.lor (shift_signal SIGSTOP) (shift_signal SIGKILL)))) by (apply Z.land_nonneg; lia).
  split; [done|]. apply bits_bound; [done..|]. intros i Hi. by rewrite Z.land_spec, (high_bits 38).
Qed.

Lemma receive_cred c sig cause p : p_cred (receive c sig cause p) = p_cred p ∧ p_blocked (receive c sig cause p) = p_blocked p.
Proof.
  unfold receive, resumed. destruct (_ && is_ignored c sig), (_ && p_suspended p), cause; done.
Qed.

Lemma receive_pending c sig cause p i :
  0 ≤ sig →
  Z.testbit (p_pending (receive c sig cause p)) i =
  Z.testbit (p_pending p) i || ((i =? sig) && (is_awaited p sig || is_blocked p sig || negb (is_ignored c sig))).
Proof.
  intros Hs. destruct (resumed_flags sig p) as (_ & _ & _ & Hpend & _). unfold receive.
  destruct (is_awaited p sig), (is_blocked p sig), (is_ignored c sig); cbn [negb andb orb];
    rewrite ?andb_true_r, ?andb_false_r, ?orb_false_r; try by rewrite Hpend.
  all: unfold marked; cbn [p_pending set_pending]; rewrite Z.lor_spec, testbit_shift_signal by done.
  all: by destruct cause; cbn [enqueued set_queue p_pending]; rewrite Hpend.
Qed.

Lemma default_cont sig : 0 ≤ sig < NUMSIGNALS → bool_decide (default_of sig = Cont) = (sig =? SIGCONT).
Proof.
  intros Hs.
  assert (forallb (λ s, eqb (bool_decide (default_of s = Cont)) (s =? SIGCONT)) (seqZ 0 38) = true) as Hall
    by (vm_compute; reflexivity).
  rewrite List.forallb_forall in Hall. apply eqb_prop, (Hall sig), list_elem_of_In, elem_of_seqZ.
  unfold NUMSIGNALS in Hs. lia.
Qed.

Lemma receive_suspended c sig cause p :
  0 ≤ sig < NUMSIGNALS → p_suspended (receive c sig cause p) = p_suspended p && negb (sig =? SIGCONT).
Proof.
  intros Hs. unfold receive, resumed, marked. rewrite (default_cont _ Hs).
  destruct (_ && is_ignored c sig), cause, (sig =? SIGCONT), (p_suspended p) eqn:E; cbn; by rewrite ?E.
Qed.

Lemma config_at_total k pid p sig :
  signals_ok k → k_procs k !! pid = Some p → 0 ≤ sig < NUMSIGNALS → ∃ c, config_at k p sig = Some c.
Proof.
  intros Hk Hp Hs. destruct (ok_table _ Hk _ _ Hp) as [l Hl]. destruct (ok_actions _ Hk _ _ Hl) as [Hlen _].
  unfold config_at. rewrite (proj2 (Z.ltb_ge sig 0)), Hl by lia. cbn.
  apply lookup_lt_is_Some_2. unfold NUMSIGNALS in Hs. lia.
Qed.

(** Sending always completes, and touches no process but the receiver. *)
Lemma send_total k pid sig force cause :
  signals_ok k →
  ∃ r cause' k', send_signal_info pid sig force cause k = Ret ((r, cause'), k') ∧
    (∀ q, q ≠ pid → k_procs k' !! q = k_procs k !! q) ∧ k_actions k' = k_actions k ∧ k_current k' = k_current k ∧
    k_reg k' = k_reg k.
Proof.
  intros Hk. destruct (ok_current _ Hk) as [cur Hcur].
  destruct (process_from_pid pid k) as [p|] eqn:Hp.
  - destruct (decide (accepts force cur p sig = true ∧ sig ≠ 0)) as [[Ha Hne]|Hno].
    + assert (Hl : k_procs k !! pid = Some p) by (unfold process_from_pid in Hp; by destruct (pid <? 0)).
      assert (0 ≤ sig < NUMSIGNALS) as Hs.
      { unfold accepts in Ha. apply andb_true_iff in Ha as [[[_ ?%Z.leb_le]%andb_true_iff ?%Z.ltb_lt]%andb_true_iff _]. lia. }
      destruct (config_at_total _ _ _ _ Hk Hl Hs) as [c Hc].
      destruct (send_run _ _ _ _ _ _ cause _ Hcur Hp Ha Hc Hne) as (cause' & l & Hr & _).
      eexists _, _, _. split; [exact Hr|]. split_and!; [|done..]. intros q Hq. cbn. by rewrite lookup_insert_ne.
    + eexists _, _, _. split; [apply (send_refused _ cur _ p); [done..|]|by split_and!].
      destruct (accepts force cur p sig), (decide (sig = 0)); tauto.
  - exists (- ESRCH), cause, k. unfold send_signal_info. rewrite run_bind. cbn [get]. rewrite Hp. by split_and!.
Qed.

(** ** Delivery *)

(** A process in whose name no restarted call and no tracer run. *)
Definition quiet (p : proc) : Prop := p_finished p = false ∧ p_traced p = false ∧ p_interrupted_call p = 0.

Lemma restart_quiet k p sig b :
  k_procs k !! k_current k = Some p → p_interrupted_call p = 0 → maybe_restart_system_call sig b k = Ret (tt, k).
Proof.
  intros Hp Hn. unfold maybe_restart_system_call. destruct (_ || _); [done|].
  rewrite (run_bind_Ret _ _ _ _ _ (run_current _ _ Hp)), run_bind. cbn [get]. by rewrite Hn.
Qed.

Lemma ignore_quiet k p sig :
  k_procs k !! k_current k = Some p → p_interrupted_call p = 0 →
  ignore_signal sig k = Ret (if PENDING p =? 0 then Some ToUser else None, k).
Proof.
  intros Hp Hn. unfold ignore_signal. rewrite (run_bind_Ret _ _ _ _ _ (restart_quiet _ _ _ _ Hp Hn)).
  by rewrite (run_bind_Ret _ _ _ _ _ (run_current _ _ Hp)).
Qed.

(** Telling the parent leaves the child as it was. *)
Lemma sigchld_run k p reason status :
  signals_ok k → k_procs k !! k_current k = Some p →
  ∃ k', process_send_sigchld p (p_parent p) reason status k = Ret (tt, k') ∧
    k_procs k' !! k_current k' = Some p ∧ k_current k' = k_current k ∧ k_actions k' = k_actions k.
Proof.
  intros Hk Hp. unfold process_send_sigchld. destruct (p_parent p) as [q|] eqn:Hq; [|by exists k].
  destruct (ok_parent _ Hk _ _ _ Hp Hq) as (pq & Hlq & Hne).
  rewrite (run_bind_Ret _ _ _ pq k) by (unfold get_proc; by rewrite Hlq).
  destruct (p_finished pq); [by exists k|].
  destruct (send_total k (p_tgid pq) SIGCHLD true
    (Some (Siginfo 0 reason 0 0 (p_id p) (p_real_user p) 0 status)) Hk) as (r & c & k' & Hr & Hoth & Ha & Hc & _).
  rewrite (run_bind_Ret _ _ _ _ _ Hr). eexists. split; [reflexivity|]. cbn. split_and!; [|done..].
  rewrite Hc, Hoth; congruence.
Qed.

(** A signal that has no effect on the process's execution. *)
Definition skips (sig : Z) (c : signal_config) : Prop :=
  sig = 0 ∨ sc_handler c = 1 ∨ (sc_handler c = 0 ∧ (default_of sig = Ign ∨ default_of sig = Cont)).

(** How a delivered signal may end. *)
Definition ends_well (p : proc) (sig : Z) (c : signal_config) (d : option delivery) (p' : proc) : Prop :=
  match d with
  | None => skips sig c ∧ PENDING p' ≠ 0 ∧ p' = p
  | Some ToUser => skips sig c ∧ PENDING p' = 0 ∧ p' = p
  | Some (InHandler h s _ f) =>
      h = sc_handler c ∧ h ≠ 0 ∧ h ≠ 1 ∧ s = sig ∧ p_pending p' = p_pending p ∧ p_sig_queue p' = p_sig_queue p ∧
      f_blocked f = p_blocked p ∧ f_signo f = sig ∧ f_interrupted f = 0
  | Some (Exited st) =>
      (default_of sig = Term ∨ default_of sig = Core) ∧ sc_handler c = 0 ∧ st = Z.lor (Z.shiftl (128 + sig) 8) sig ∧ p' = p
  | Some Stopped =>
      default_of sig = Stop ∧ sc_handler c = 0 ∧ p_suspended p' = true ∧ p_pending p' = p_pending p ∧
      p_sig_queue p' = p_sig_queue p
  end.

(** The current process of [k'] is [p'], and it is the same one as in [k]. *)
Definition now (k' : kernel) (k : kernel) (p' : proc) : Prop :=
  k_current k' = k_current k ∧ k_procs k' !! k_current k' = Some p'.

Lemma ignore_ends k p sig c :
  skips sig c → k_procs k !! k_current k = Some p → p_interrupted_call p = 0 →
  ∃ d, ignore_signal sig k = Ret (d, k) ∧ ends_well p sig c d p.
Proof.
  intros Hsk Hp Hn. rewrite (ignore_quiet _ _ _ Hp Hn). destruct (Z.eqb_spec (PENDING p) 0) as [He|He].
  - by exists (Some ToUser).
  - by exists None.
Qed.

Lemma stop_ends k p sig c :
  signals_ok k → k_procs k !! k_current k = Some p → default_of sig = Stop → sc_handler c = 0 →
  ∃ k' p', stop_process c sig k = Ret (Some Stopped, k') ∧ now k' k p' ∧ ends_well p sig c (Some Stopped) p'.
Proof.
  intros Hk Hp Hd Hc. unfold stop_process. rewrite (run_bind_Ret _ _ _ _ _ (run_upd_current _ _ _ Hp)).
  set (p1 := set_suspended _ _ p).
  rewrite (run_bind_Ret _ _ _ _ _ (run_current _ _ (lookup_with_current _ _))).
  assert (signals_ok (with_current p1 k)) as Hk1.
  { eapply ok_upd; [done..|]. exact (proj2 (proj2 (ok_masks _ Hk _ _ Hp))). }
  destruct (Z.land (sc_flags c) SA_NOCLDSTOP =? 0).
  - destruct (sigchld_run (with_current p1 k) p1 CLD_STOPPED sig Hk1 (lookup_with_current _ _)) as (k' & Hr & Hp' & Hc' & _).
    rewrite (run_bind_Ret _ _ _ _ _ Hr). exists k', p1. by split_and!.
  - destruct (p_parent p1) as [q|]; cbn [mbind].
    + eexists _, p1. split; [reflexivity|]. split; [split; [done|apply lookup_with_current]|]. done.
    + eexists _, p1. split; [reflexivity|]. split; [split; [done|apply lookup_with_current]|]. done.
Qed.

(** [m] ends the delivery of [sig] well, and leaves what another turn needs. *)
Definition delivers (k : kernel) (p : proc) (sig : Z) (c : signal_config) (m : M kernel (option delivery)) : Prop :=
  ∃ d k' p', m k = Ret (d, k') ∧ now k' k p' ∧ ends_well p sig c d p' ∧
    (d = None → signals_ok k' ∧ k_actions k' = k_actions k).

Lemma ignore_delivers k p sig c :
  skips sig c → signals_ok k → k_procs k !! k_current k = Some p → p_interrupted_call p = 0 → delivers k p sig c (ignore_signal sig).
Proof. intros Hsk Hk Hp Hn. destruct (ignore_ends k p sig c Hsk Hp Hn) as (d & Hr & He). by exists d, k, p. Qed.

Lemma default_delivers k p sig c :
  signals_ok k → k_procs k !! k_current k = Some p → p_interrupted_call p = 0 → 0 ≤ sig → sc_handler c = 0 →
  delivers k p sig c (default_action c sig).
Proof.
  intros Hk Hp Hn Hs Hh. pose proof (λ Hsk, ignore_delivers k p sig c Hsk Hk Hp Hn) as Hig.
  unfold delivers, default_action. rewrite (proj2 (Z.ltb_ge sig 0)) by lia.
  destruct (default_of sig) eqn:Hd; [by apply Hig; right; right; auto| | | |].
  - eexists _, k, p. split; [reflexivity|]. split; [done|]. by split; [split_and!; auto|].
  - eexists _, k, p. split; [reflexivity|]. split; [done|]. by split; [split_and!; auto|].
  - destruct (stop_ends k p sig c Hk Hp Hd Hh) as (k' & p' & Hr & Hn' & He). by exists (Some Stopped), k', p'.
  - rewrite (run_bind_Ret _ _ _ _ _ (run_current _ _ Hp)). destruct (Z.land (sc_flags c) SA_NOCLDSTOP =? 0); [|by apply Hig; right; right; auto].
    destruct (sigchld_run k p CLD_CONTINUED sig Hk Hp) as (k1 & Hr & Hp1 & Hc1 & Ha1). rewrite (run_bind_Ret _ _ _ _ _ Hr).
    destruct (ignore_ends k1 p sig c ltac:(right; right; auto) Hp1 Hn) as (d & Hr1 & He). exists d, k1, p. split_and!; [done..|].
    intros _. split; [|done]. by eapply keeps_sigchld.
Qed.

Lemma reset_run k p sig c c0 :
  k_procs k !! k_current k = Some p → config_at k p sig = Some c →
  ∃ k', reset_handler c0 sig k = Ret (tt, k') ∧ now k' k p.
Proof.
  intros Hp Hc. unfold reset_handler. destruct (_ && _); [|by exists k].
  rewrite (run_bind_Ret _ _ _ _ _ (run_current _ _ Hp)). unfold upd_config. rewrite Hc. by eexists.
Qed.

Definition in_handler (c : signal_config) (sig : Z) (p : proc) : proc :=
  set_masks (Z.lor (p_blocked p) (Z.lor (sc_mask c) (if Z.land (sc_flags c) SA_NODEFER =? 0 then shift_signal sig else 0)))
    (p_restored p) (p_restore_mask p) (set_interrupted_call 0 p).

Lemma enter_exact k p c cause :
  k_procs k !! k_current k = Some p →
  arch_enter_signal_handler c cause k =
    Ret (InHandler (sc_handler c) (si_signo cause) (if Z.land (sc_flags c) SA_SIGINFO =? 0 then None else Some cause)
           (Sigframe (p_blocked p) (si_signo cause) (p_interrupted_call p) (k_reg k)),
         with_current (in_handler c (si_signo cause) p) k).
Proof.
  intros Hp. unfold arch_enter_signal_handler. rewrite (run_bind_Ret _ _ _ _ _ (run_current _ _ Hp)), run_bind. cbn [get].
  rewrite (run_bind_Ret _ _ _ _ _ (run_upd_current _ _ _ Hp)).
  rewrite (run_bind_Ret _ _ _ _ _ (run_upd_current _ _ _ (lookup_with_current _ _))). by rewrite with_current_twice.
Qed.

Lemma handle_delivers k p sig cause c :
  signals_ok k → k_procs k !! k_current k = Some p → quiet p → 0 ≤ sig < NUMSIGNALS → si_signo cause = sig →
  config_at k p sig = Some c → delivers k p sig c (handle_signal sig cause).
Proof.
  intros Hk Hp (Hfin & Htr & Hint) Hs Hsig Hc. unfold delivers, handle_signal.
  rewrite (run_bind_Ret _ _ _ _ _ (run_current _ _ Hp)).
  rewrite (run_bind_Ret _ _ _ c k) by (unfold config_of; by rewrite Hc).
  rewrite (run_bind_Ret _ _ _ sig k) by (unfold traced_signal; rewrite (run_bind_Ret _ _ _ _ _ (run_current _ _ Hp)); by rewrite Htr).
  rewrite (run_bind_Ret _ _ _ _ _ (run_current _ _ Hp)), Hfin.
  rewrite (proj2 (Z.leb_gt NUMSIGNALS sig)), orb_false_r by lia.
  destruct (Z.eqb_spec sig 0) as [H0|_]; [by apply ignore_delivers; [left|..]|].
  destruct (Z.eqb_spec (sc_handler c) 0) as [Hh|Hh]; [apply default_delivers; try done; lia|].
  destruct (Z.eqb_spec (sc_handler c) 1) as [Hh1|Hh1]; [by apply ignore_delivers; [right; left|..]|].
  destruct (reset_run k p sig c c Hp Hc) as (k1 & Hr1 & Hc1 & Hp1). rewrite (run_bind_Ret _ _ _ _ _ Hr1).
  rewrite (run_bind_Ret _ _ _ _ _ (enter_exact k1 p c cause Hp1)).
  eexists _, _, (in_handler c _ p). split; [reflexivity|].
  split; [split; [done|apply lookup_with_current]|]. split; [|done]. cbn. by rewrite Hsig.
Qed.

(** The work left: pending bits and queued causes. *)
Definition backlog (p : proc) : nat :=
  (length (filter (λ i, Z.testbit (p_pending p) i = true) (seqZ 0 38)) + length (p_sig_queue p))%nat.

Lemma filter_length_le (s t : Z) l :
  (∀ i, Z.testbit s i = true → Z.testbit t i = true) →
  (length (filter (λ i, Z.testbit s i = true) l) ≤ length (filter (λ i, Z.testbit t i = true) l))%nat.
Proof.
  intros Hst. induction l as [|x l IH]; [done|]. rewrite !filter_cons.
  destruct (decide (Z.testbit s x = true)) as [Hx|]; [rewrite decide_True by auto; cbn; lia|].
  destruct (decide (Z.testbit t x = true)); cbn; lia.
Qed.

Lemma filter_length_lt (s t : Z) l i :
  (∀ i, Z.testbit s i = true → Z.testbit t i = true) → i ∈ l → Z.testbit s i = false → Z.testbit t i = true →
  (length (filter (λ i, Z.testbit s i = true) l) < length (filter (λ i, Z.testbit t i = true) l))%nat.
Proof.
  intros Hst Hi Hs Ht. induction Hi as [x l|x y l Hi IH]; rewrite !filter_cons.
  - rewrite decide_False, decide_True by congruence. cbn. pose proof (filter_length_le s t l Hst). lia.
  - specialize (IH Hs Ht). destruct (decide (Z.testbit s y = true)) as [Hx|]; [rewrite decide_True by auto; cbn; lia|].
    destruct (decide (Z.testbit t y = true)); cbn; lia.
Qed.

Lemma take_info_length sig q i q' : take_info sig q = Some (i, q') → length q = S (length q').
Proof.
  revert q'. induction q as [|j q IH]; intros q' Ht; [done|]. cbn in Ht.
  destruct (si_signo j =? sig); [by simplify_eq|].
  destruct (take_info sig q) as [[j' q'']|]; [|done]. simplify_eq. cbn. by rewrite (IH q'').
Qed.

Lemma testbit_clear s sig i : 0 ≤ sig → Z.testbit (Z.ldiff s (shift_signal sig)) i = Z.testbit s i && negb (i =? sig).
Proof. intros. by rewrite Z.ldiff_spec, testbit_shift_signal. Qed.

(** What [dequeue_signal] changes. *)
Lemma dequeued_frame sig p :
  0 ≤ sig →
  let p' := snd (dequeued sig p) in
  p_cred p' = p_cred p ∧ p_blocked p' = p_blocked p ∧ (quiet p → quiet p') ∧
  (∀ i, Z.testbit (p_pending p') i = true → Z.testbit (p_pending p) i = true) ∧
  (∀ i, i ≠ sig → Z.testbit (p_pending p') i = Z.testbit (p_pending p) i).
Proof.
  intros Hs p'. unfold p', dequeued. destruct (take_info sig (p_sig_queue p)) as [[j q]|].
  - destruct (has_info sig q); cbn; split_and!; try done; intros i; rewrite testbit_clear by done.
    + by intros [? _]%andb_true_iff.
    + intros ?%Z.eqb_neq. rewrite H0. apply andb_true_r.
  - cbn; split_and!; try done; intros i; rewrite testbit_clear by done.
    + by intros [? _]%andb_true_iff.
    + intros ?%Z.eqb_neq. rewrite H0. apply andb_true_r.
Qed.

Lemma dequeued_backlog sig p :
  0 ≤ sig < NUMSIGNALS → Z.testbit (p_pending p) sig = true → (backlog (snd (dequeued sig p)) < backlog p)%nat.
Proof.
  intros Hs Hb. pose proof (dequeued_frame sig p ltac:(lia)) as (_ & _ & _ & Hsub & _). unfold backlog.
  pose proof (filter_length_le _ _ (seqZ 0 38) Hsub) as Hle. revert Hsub Hle. unfold dequeued.
  destruct (take_info sig (p_sig_queue p)) as [[j q]|] eqn:Et; intros Hsub Hle; cbn [snd] in *.
  - apply take_info_length in Et. cbn [set_queue p_sig_queue]. lia.
  - cbn [clear_pending set_pending p_sig_queue]. apply Nat.add_lt_mono_r, (filter_length_lt _ _ _ sig); [done| | |done].
    + apply elem_of_seqZ. unfold NUMSIGNALS in Hs. lia.
    + cbn. rewrite testbit_clear, Z.eqb_refl by lia. apply andb_false_r.
Qed.

(** How a whole pass over the pending signals of [p] may end. *)
Definition pass_ends (k : kernel) (p : proc) (d : delivery) (p' : proc) : Prop :=
  match d with
  | ToUser => PENDING p' = 0
  | InHandler h s _ f =>
      Z.testbit (PENDING p) s = true ∧ s ≠ SIGKILL ∧ s ≠ SIGSTOP ∧ (∃ c, config_at k p s = Some c ∧ sc_handler c = h) ∧
      h ≠ 0 ∧ h ≠ 1 ∧ f = Sigframe (p_blocked p) s 0 (f_reg f)
  | Exited st =>
      ∃ s, Z.testbit (PENDING p) s = true ∧ (default_of s = Term ∨ default_of s = Core) ∧
        (∃ c, config_at k p s = Some c ∧ sc_handler c = 0) ∧ st = Z.lor (Z.shiftl (128 + s) 8) s
  | Stopped =>
      ∃ s, Z.testbit (PENDING p) s = true ∧ default_of s = Stop ∧
        (∃ c, config_at k p s = Some c ∧ sc_handler c = 0) ∧ p_suspended p' = true
  end.

(** With [SIGKILL] pending, user code runs at most as the handler of a signal of
    lower number, and [SIGKILL] is still pending then. *)
Definition kill_holds (p : proc) (d : delivery) (p' : proc) : Prop :=
  Z.testbit (p_pending p) SIGKILL = true →
  match d with
  | ToUser | Stopped => False
  | Exited _ => True
  | InHandler _ s _ _ => s < SIGKILL ∧ Z.testbit (p_pending p') SIGKILL = true
  end.

Lemma config_at_eq k k' p p' s : k_actions k' = k_actions k → p_cred p' = p_cred p → config_at k' p' s = config_at k p s.
Proof. intros Ha Hc. unfold config_at, p_tgid. by rewrite Ha, Hc. Qed.

Lemma pass_ends_mono k k1 p p1 d p' :
  k_actions k1 = k_actions k → p_cred p1 = p_cred p → p_blocked p1 = p_blocked p →
  (∀ i, Z.testbit (p_pending p1) i = true → Z.testbit (p_pending p) i = true) →
  pass_ends k1 p1 d p' → pass_ends k p d p'.
Proof.
  intros Ha Hc Hb Hsub.
  assert (Hpend : ∀ i, Z.testbit (PENDING p1) i = true → Z.testbit (PENDING p) i = true).
  { intros i. unfold PENDING. rewrite Hb, !Z.land_spec, !andb_true_iff. intros [? ?]. auto. }
  assert (Hcfg : ∀ i, config_at k1 p1 i = config_at k p i) by (intros; by apply config_at_eq).
  destruct d; cbn; [done|..].
  - rewrite Hcfg, Hb. intros (Hx & ?). auto.
  - intros (s & ? & ? & Hx & ?). rewrite Hcfg in Hx. exists s. auto.
  - intros (s & ? & ? & Hx & ?). rewrite Hcfg in Hx. exists s. auto.
Qed.

Lemma below_kill sig : 0 ≤ sig < SIGKILL → default_of sig ≠ Stop.
Proof.
  intros Hs. assert (forallb (λ s, negb (bool_decide (default_of s = Stop))) (seqZ 0 9) = true) as Hall
    by (vm_compute; reflexivity).
  rewrite List.forallb_forall in Hall. specialize (Hall sig). rewrite negb_true_iff, bool_decide_eq_false in Hall.
  apply Hall, list_elem_of_In, elem_of_seqZ. unfold SIGKILL in Hs. lia.
Qed.

(** One signal: if the pass ends here, it ends well. *)
Lemma ends_pass k k1 p p1 sig c d p' :
  k_actions k1 = k_actions k → p_cred p1 = p_cred p → p_blocked p1 = p_blocked p → quiet p1 →
  Z.testbit (PENDING p) sig = true → config_at k p sig = Some c → config_ok (Z.to_nat sig) c →
  ends_well p1 sig c (Some d) p' → pass_ends k p d p'.
Proof.
  intros Ha Hc Hb (_ & _ & Hq) Hpend Hcfg [_ Hno] He. destruct d as [|h s info f|st|]; cbn in *.
  - apply He.
  - destruct He as (-> & Hh0 & Hh1 & -> & _ & _ & Hfb & Hfs & Hfi). split_and!; try done.
    + intros ->. apply Hh0, Hno. auto.
    + intros ->. apply Hh0, Hno. auto.
    + exists c. done.
    + destruct f. cbn in *. congruence.
  - destruct He as (Hd & Hh & -> & _). exists sig. split_and!; [done|done|by exists c|done].
  - destruct He as (Hd & Hh & Hsusp & _). exists sig. split_and!; [done|done|by exists c|done].
Qed.

(** [SIGKILL] cannot be held back by the mask. *)
Lemma PENDING_kill p : masks_ok p → Z.testbit (PENDING p) SIGKILL = Z.testbit (p_pending p) SIGKILL.
Proof.
  intros Hm. rewrite testbit_PENDING by (done || (unfold SIGKILL; lia)). unfold is_blocked.
  by rewrite Z.eqb_refl, andb_false_r, andb_true_r.
Qed.

Lemma lowest_kill p sig :
  masks_ok p → (∀ i, 0 ≤ i < sig → Z.testbit (PENDING p) i = false) →
  Z.testbit (p_pending p) SIGKILL = true → sig < SIGKILL ∨ sig = SIGKILL.
Proof.
  intros Hm Hlow Hk. rewrite <- (PENDING_kill p Hm) in Hk. destruct (decide (sig ≤ SIGKILL)) as [|Hgt]; [lia|].
  by rewrite (Hlow SIGKILL) in Hk by (unfold SIGKILL in *; lia).
Qed.

Lemma ends_kill p p1 sig c d p' :
  masks_ok p1 → (∀ i, i ≠ sig → Z.testbit (p_pending p1) i = Z.testbit (p_pending p) i) →
  0 ≤ sig < SIGKILL → ends_well p1 sig c (Some d) p' → kill_holds p d p'.
Proof.
  intros Hm Hother Hs He Hk. rewrite <- Hother in Hk by lia. destruct d as [|h s info f|st|]; cbn [ends_well] in *.
  - destruct He as (_ & He & ->). by rewrite <- (PENDING_kill p1 Hm), He, Z.bits_0 in Hk.
  - destruct He as (_ & _ & _ & -> & -> & _). split; [lia|done].
  - done.
  - destruct He as [He _]. by apply (below_kill sig).
Qed.

Lemma kill_kills p1 c d p' :
  config_ok (Z.to_nat SIGKILL) c → ends_well p1 SIGKILL c d p' → ∃ st, d = Some (Exited st).
Proof.
  intros [_ Hno] He. specialize (Hno ltac:(auto)).
  assert (¬ skips SIGKILL c) as Hsk. { intros [?|[?|[_ [?|?]]]]; [done|congruence|done..]. }
  destruct d as [[|h s info f|st|]|]; cbn in He; [by destruct He| |by eauto|by destruct He|by destruct He].
  destruct He as (-> & Hh & _). done.
Qed.

Lemma check_run fuel k p :
  signals_ok k → k_procs k !! k_current k = Some p → quiet p → (backlog p < fuel)%nat →
  ∃ d k' p', process_check_signals fuel k = Ret (d, k') ∧ now k' k p' ∧ pass_ends k p d p' ∧ kill_holds p d p'.
Proof.
  revert k p. induction fuel as [|fuel IH]; intros k p Hk Hp Hq Hf; [lia|]. cbn [process_check_signals].
  pose proof (proj2 (proj2 (ok_masks _ Hk _ _ Hp))) as Hm.
  rewrite (run_bind_Ret _ _ _ _ _ (run_current _ _ Hp)), (proj1 Hq).
  destruct (first_signal _ (PENDING p) 0) as [sig|] eqn:Ef.
  2: { apply first_signal_none in Ef; [|exact (PENDING_bound _ Hm)|done]. exists ToUser, k, p. split_and!; [done..|].
       intros Hkill. by rewrite <- (PENDING_kill p Hm), Ef, Z.bits_0 in Hkill. }
  apply first_signal_spec in Ef as (Hs & Hb & Hlow); [|done]. rewrite Z.sub_0_r in *.
  assert (Hbp : Z.testbit (p_pending p) sig = true).
  { unfold PENDING in Hb. rewrite Z.land_spec in Hb. by apply andb_true_iff in Hb as [? _]. }
  rewrite (run_bind_Ret _ _ _ _ _ (dequeue_run _ _ sig Hp)).
  destruct (dequeued_frame sig p ltac:(lia)) as (Hc1 & Hb1 & Hq1 & Hsub & Hoth). specialize (Hq1 Hq).
  pose proof (dequeued_backlog sig p Hs Hbp) as Hlt. pose proof (dequeued_signo sig p) as Hsig.
  pose proof (keeps_dequeue sig k _ _ Hk (dequeue_run _ _ sig Hp)) as Hk1.
  destruct (dequeued sig p) as [cause p1]. cbn [fst snd] in *.
  destruct (config_at_total _ _ _ sig Hk1 (lookup_with_current p1 k) Hs) as [c Hc].
  pose proof (config_at_ok _ _ _ _ Hk1 Hc) as Hcok.
  assert (Hc0 : config_at k p sig = Some c) by (rewrite <- Hc; symmetry; by apply config_at_eq).
  destruct (handle_delivers _ _ _ _ _ Hk1 (lookup_with_current p1 k) Hq1 Hs Hsig Hc)
    as (d & k2 & p2 & Hr & [Hcur Hp2] & He & Hnext).
  rewrite (run_bind_Ret _ _ _ _ _ Hr).
  assert (Hm1 : masks_ok p1) by exact (proj2 (proj2 (ok_masks _ Hk1 _ _ (lookup_with_current p1 k)))).
  pose proof (lowest_kill p sig Hm Hlow) as Hkk.
  destruct d as [d|].
  - exists d, k2, p2. split_and!; [done..| |].
    + by eapply (ends_pass k (with_current p1 k) p p1).
    + intros Hkill. destruct (Hkk Hkill) as [Hlt9 | ->]; [refine (ends_kill p p1 sig c d p2 Hm1 Hoth _ He Hkill); lia|].
      apply kill_kills in He as [st [= ->]]; done.
  - destruct He as (Hsk & _ & ->). destruct (Hnext eq_refl) as [Hk2 Ha2].
    destruct (IH k2 p1 Hk2 Hp2 Hq1 ltac:(lia)) as (d & k' & p' & Hr' & [Hcur' Hp'] & He' & Hk').
    exists d, k', p'. split; [done|]. split; [split; [by rewrite Hcur'|done]|]. split.
    + eapply (pass_ends_mono k k2 p p1); [by rewrite Ha2|done..].
    + intros Hkill. apply Hk'. destruct (Hkk Hkill) as [Hlt9 | ->]; [rewrite Hoth by lia; done|].
      exfalso. destruct Hcok as [_ Hno]. specialize (Hno ltac:(auto)). destruct Hsk as [?|[?|[_ [?|?]]]]; try done; congruence.
Qed.

(** ** Reachability

    Every way the signal state changes: a system call of the current process, a
    signal the kernel itself sends, the check before a return to user space, the
    return from a handler with whatever frame is on the user's stack, and the
    choice of another current process. *)

Inductive sig_step : kernel → kernel → Prop :=
| Step_kill pid sig r k k' : sys_kill pid sig k = Ret (r, k') → sig_step k k'
| Step_sigqueue pid sig v r k k' : sys_sigqueue pid sig v k = Ret (r, k') → sig_step k k'
| Step_send pid sig force cause r k k' : send_signal_info pid sig force cause k = Ret (r, k') → sig_step k k'
| Step_group group sig force r k k' : group_send_signal group sig force k = Ret (r, k') → sig_step k k'
| Step_session session sig force r k k' : session_send_signal session sig force k = Ret (r, k') → sig_step k k'
| Step_sigchld child parent reason status r k k' :
    process_send_sigchld child parent reason status k = Ret (r, k') → sig_step k k'
| Step_signal sig h r k k' : sys_signal sig h k = Ret (r, k') → sig_step k k'
| Step_sigaction sig act old r k k' :
    match act with UPtr c => mask64 (sc_mask c) | _ => True end → sys_sigaction sig act old k = Ret (r, k') → sig_step k k'
| Step_sigprocmask how set oset r k k' :
    umask_ok set → sys_sigprocmask how set oset k = Ret (r, k') → sig_step k k'
| Step_suspend set r k k' : umask_ok set → sys_sigsuspend_start set k = Ret (r, k') → sig_step k k'
| Step_suspended r k k' : sys_sigsuspend_end k = Ret (r, k') → sig_step k k'
| Step_sigwait set ok r k k' : sys_sigwait set ok k = Ret (r, k') → sig_step k k'
| Step_await awaited r k k' : signal_await_turn awaited k = Ret (r, k') → sig_step k k'
| Step_woken r k k' : signal_await_woken k = Ret (r, k') → sig_step k k'
| Step_check fuel d k k' : process_check_signals fuel k = Ret (d, k') → sig_step k k'
| Step_return fuel frame d k k' :
    mask64 (f_blocked frame) → return_from_signal_handler fuel frame k = Ret (d, k') → sig_step k k'
| Step_switch pid reg k : is_Some (k_procs k !! pid) →
    sig_step k (Kernel (k_procs k) (k_list k) (k_actions k) pid reg (k_calls k)).

Lemma keeps_session session sig force : keeps (session_send_signal session sig force).
Proof. unfold session_send_signal. keep. Qed.

Lemma step_ok `{!SigEnvOk} k k' : sig_step k k' → signals_ok k → signals_ok k'.
Proof.
  intros Hstep Hk. destruct Hstep;
    [match goal with E : ?m _ = Ret _ |- _ => enough (keeps m) as Hm by exact (Hm _ _ _ Hk E) end..|destruct Hk; by split].
  all: first [apply keeps_kill|apply keeps_sigqueue|apply keeps_send_signal_info
    |apply keeps_collect|apply keeps_session|apply keeps_sigchld|apply keeps_signal|by apply keeps_sigaction
    |by apply keeps_sigprocmask|by apply keeps_sigsuspend_start|apply keeps_sigsuspend_end|apply keeps_sigwait
    |apply keeps_await_turn|apply keeps_await_woken|apply keeps_check|by apply keeps_return].
Qed.

(** *** Handlers *)

(** Returning through the frame of the entry undoes it. *)
Lemma return_exact k p c sig :
  k_procs k !! k_current k = Some p →
  arch_return_from_signal_handler (Sigframe (p_blocked p) sig (p_interrupted_call p) (k_reg k))
    (with_current (in_handler c sig p) k) = Ret (sig, k).
Proof.
  intros Hp. unfold arch_return_from_signal_handler.
  rewrite (run_bind_Ret _ _ _ _ _ (run_upd_current _ _ _ (lookup_with_current _ _))), with_current_twice.
  rewrite (run_bind_Ret _ _ _ _ _ (run_upd_current _ _ _ (lookup_with_current _ _))), with_current_twice.
  destruct k as [procs ls acts cur reg calls], p. unfold with_current, set_procs, set_reg, mret, M_ret, mbind, M_bind, modify.
  cbn in *. by rewrite insert_id.
Qed.

(** The call that was interrupted, on the way back. *)
Lemma restart_sys k p sig c b :
  k_procs k !! k_current k = Some p → 0 ≤ sig < NUMSIGNALS → config_at k p sig = Some c →
  p_interrupted_call p ≠ 0 → k_reg k = - ERESTARTSYS →
  maybe_restart_system_call sig b k =
    (if (sig =? SIGCONT) || negb (Z.land (sc_flags c) SA_RESTART =? 0)
     then restart_call (p_interrupted_call p) else interrupt_call) k.
Proof.
  intros Hp Hs Hc Hn Hreg. unfold maybe_restart_system_call.
  rewrite (proj2 (Z.ltb_ge sig 0)), (proj2 (Z.leb_gt NUMSIGNALS sig)) by lia. cbn [orb].
  rewrite (run_bind_Ret _ _ _ _ _ (run_current _ _ Hp)), run_bind. cbn [get]. cbv zeta.
  rewrite (proj2 (Z.eqb_neq _ _) Hn), Hreg, Z.eqb_refl. cbn [negb andb].
  rewrite (run_bind_Ret _ _ _ c k) by (unfold config_of; by rewrite Hc). rewrite (default_cont _ Hs).
  by destruct (_ || _).
Qed.

Lemma restart_call_run k p n :
  k_procs k !! k_current k = Some p →
  restart_call n k = Ret (tt, syscall_handler (Kernel (k_procs (with_current (set_interrupted_call 0 p) k)) (k_list k)
                                                 (k_actions k) (k_current k) n (k_calls k))).
Proof.
  intros Hp. unfold restart_call, set_reg, upd_current, upd_proc, modify, get, mbind, M_bind. cbn. by rewrite Hp.
Qed.

Lemma interrupt_call_run k p :
  k_procs k !! k_current k = Some p →
  interrupt_call k = Ret (tt, Kernel (k_procs (with_current (set_interrupted_call 0 p) k)) (k_list k)
                                (k_actions k) (k_current k) (- EINTR) (k_calls k)).
Proof.
  intros Hp. unfold interrupt_call, set_reg, upd_current, upd_proc, modify, get, mbind, M_bind. cbn. by rewrite Hp.
Qed.

(** Nothing deliverable: the return goes straight to the interrupted call. *)
Lemma return_idle k p c sig fuel :
  k_procs k !! k_current k = Some p → PENDING p = 0 →
  return_from_signal_handler fuel (Sigframe (p_blocked p) sig (p_interrupted_call p) (k_reg k))
    (with_current (in_handler c sig p) k) = (_ ← maybe_restart_system_call sig false; mret ToUser) k.
Proof.
  intros Hp H0. unfold return_from_signal_handler. rewrite (run_bind_Ret _ _ _ _ _ (return_exact _ _ _ _ Hp)).
  rewrite (run_bind_Ret _ _ _ _ _ (run_current _ _ Hp)), H0. cbn [Z.eqb]. by rewrite run_mret_bind.
Qed.

(** ** Properties *)





(** C34: three things the signal code does not do.  A process that waits in
    [sigwait] for a signal numbered 32 or more, which it has blocked, is not told
    when the signal arrives.  The cause that [sigqueue] leaves in the receiver's
    queue never names the sender.  And [signal_await] takes the pending bit but
    not the queued cause, which the next delivery of that signal then reports. *)
Theorem signal_defects (k : kernel) (cur : proc) (pid sig : Z) (p : proc) (c : signal_config) (value : Z) :
  k_procs k !! k_current k = Some cur → process_from_pid pid k = Some p → config_at k p sig = Some c →
  accepts false cur p sig = true → 0 < sig → 0 < pid → is_blocked p sig = true →
  (32 ≤ sig → ∀ cause, ∃ cause' p', send_signal_info pid sig false cause k = Ret ((0, cause'), with_proc pid p' k)) ∧
  (∃ k' p' i, sys_sigqueue pid sig value k = Ret (0, k') ∧ k_procs k' !! pid = Some p' ∧
     p_sig_queue p' = p_sig_queue p ++ [i] ∧ si_signo i = sig ∧ si_value i = value ∧ si_pid i = 0 ∧ si_uid i = 0) ∧
  (∀ awaited s i q, first_signal 38 (Z.land awaited (p_pending cur)) 0 = Some s → take_info s (p_sig_queue cur) = Some (i, q) →
     ∃ p', signal_await_turn awaited k = Ret (Some s, with_current p' k) ∧ Z.testbit (p_pending p') s = false ∧
       fst (dequeued s (marked s p')) = i).
Proof.
  intros Hcur Hp Hc Ha Hs Hpid Hb. assert (Hne : sig ≠ 0) by lia. split_and!.
  - intros H32 cause. destruct (send_run _ _ _ _ _ _ cause _ Hcur Hp Ha Hc Hne) as (cause' & l & Hr & _ & Hl).
    exists cause', (receive c sig cause p). rewrite Hr, Hl; [unfold add_calls; cbn; by rewrite app_nil_r|].
    unfold is_notified, is_awaited. by rewrite Hb, (proj2 (Z.ltb_ge _ _) H32), andb_false_r.
  - set (cause := Some (Siginfo 0 SI_QUEUE value 0 0 0 0 0)).
    destruct (send_run _ _ _ _ _ _ cause _ Hcur Hp Ha Hc Hne) as (cause' & l & Hr & _).
    unfold sys_sigqueue. rewrite (proj2 (Z.ltb_ge pid 1)) by lia. rewrite (run_bind_Ret _ _ _ _ _ Hr).
    eexists _, _, _. split; [reflexivity|]. split; [apply lookup_insert_eq|].
    unfold receive. rewrite Hb. rewrite andb_false_r, andb_false_l. cbn [marked enqueued cause set_pending set_queue p_sig_queue].
    destruct (resumed_flags sig p) as (_ & _ & _ & _ & -> & _). by split_and!.
  - intros awaited s i q Hf Ht. apply first_signal_spec in Hf as Hs'; [|done]. unfold signal_await_turn.
    rewrite (run_bind_Ret _ _ _ _ _ (run_current _ _ Hcur)). change (Z.to_nat NUMSIGNALS) with 38%nat. rewrite Hf.
    rewrite (run_bind_Ret _ _ _ _ _ (run_upd_current _ _ _ Hcur)). eexists. split; [reflexivity|]. cbn [p_pending set_pending].
    rewrite testbit_clear, Z.eqb_refl by lia. split; [apply andb_false_r|].
    unfold dequeued. cbn [marked set_pending p_sig_queue]. by rewrite Ht.
Qed.

End signals.

(** ** Witnesses *)

(** A kernel with no process ready, a tracer that passes every signal on and
    system calls that do nothing. *)
Definition idle_env : SigEnv := {|
  process_is_ready _ _ := false; ptrace_signal k sig := (sig, k); syscall_handler k := k
|}.
Lemma idle_env_ok : @SigEnvOk idle_env.
Proof. split; cbn; done. Qed.

(** Init (1) of root; a shell (2) of user 1000 that catches [SIGINT] at 4096, has
    [SIGDIAF] blocked and [SIGINT] and [SIGKILL] pending; and its child (3). *)
Definition demo_actions : list signal_config := <[2%nat := Signal_config 4096 0 SA_RESTART]> (replicate 39 (Signal_config 0 0 0)).
Definition demo_proc (id user pending blocked call : Z) (parent : option Z) : proc :=
  Proc (Cred id id user user 1 id parent false) false false false false pending blocked 0 0 [] 0 call.
Definition demo_shell : proc := demo_proc 2 1000 (shift_signal 2 + shift_signal 9) (shift_signal 33) 0 (Some 1).
Definition demo : kernel :=
  Kernel (<[1 := demo_proc 1 0 0 0 0 None]> (<[2 := demo_shell]> {[3 := demo_proc 3 1000 0 (shift_signal 33) 7 (Some 2)]}))
    [1; 2; 3] (<[1 := demo_actions]> (<[2 := demo_actions]> {[3 := demo_actions]})) 2 0 [].

Lemma demo_actions_ok : actions_ok demo_actions.
Proof.
  split; [done|]. intros sig c Hc. apply list_elem_of_lookup_2 in Hc as Hin.
  destruct (decide (sig = 2%nat)) as [->|Hne].
  - vm_compute in Hc. injection Hc as <-. split; [done|]. by intros [?|?].
  - unfold demo_actions in Hc. rewrite list_lookup_insert_ne in Hc by done.
    apply lookup_replicate in Hc as [-> _]. done.
Qed.

Lemma demo_ok : signals_ok demo.
Proof.
  split; cbn.
  - eexists. reflexivity.
  - intros pid p. rewrite !lookup_insert_Some, lookup_singleton_Some.
    intros [[<- <-]|[_ [[<- <-]|[_ [<- <-]]]]]; done.
  - intros pid p. rewrite !lookup_insert_Some, lookup_singleton_Some.
    intros [[<- <-]|[_ [[<- <-]|[_ [<- <-]]]]]; eexists; reflexivity.
  - intros g l. rewrite !lookup_insert_Some, lookup_singleton_Some.
    intros [[<- <-]|[_ [[<- <-]|[_ [<- <-]]]]]; apply demo_actions_ok.
  - intros pid p q. rewrite !lookup_insert_Some, lookup_singleton_Some.
    intros [[<- <-]|[_ [[<- <-]|[_ [<- <-]]]]]; [done|intros [= <-]; eexists; split; [reflexivity|done]..].
Qed.





(** The shell sends [SIGDIAF] (33) to its child, which waits for it. *)
Lemma signal_defects_witness :
  ∃ cause' p', @send_signal_info idle_env 3 33 false None demo = Ret ((0, cause'), with_proc 3 p' demo).
Proof.
  destruct (@signal_defects idle_env demo demo_shell 3 33 (demo_proc 3 1000 0 (shift_signal 33) 7 (Some 2))
    (Signal_config 0 0 0) 5) as [Hd _]; [reflexivity..|done|done|reflexivity|].
  exact (Hd ltac:(done) None).
Defined.
